(** * TKDojang content-correction scripts: a shallow embedding

    The Python maintenance scripts under [Scripts/] normalise the casing of
    English and romanised terms, migrate legacy property names, split
    compound technique names, apply CSV corrections and fix Korean
    romanisations in the JSON content files.  This development embeds the
    functions of those scripts as Rocq functions and proves properties of
    them.

    Modelling conventions.
    - A Python [str] is a list of characters ([pystr]).  Case mapping, the
      regular-expression class [\w], [isdigit] and whitespace follow ASCII;
      a character outside ASCII (a byte of a UTF-8 sequence, such as the two
      bytes of the degree sign) has no case, is no word character and is no
      whitespace.  On ASCII text ([isascii]) these are Python's own; Python
      gives case, word characters and whitespace to characters outside ASCII
      as well, so a property that depends on them is stated for ASCII text.
    - A parsed JSON document is a [json] tree.  A Python [dict] keeps its
      insertion order, so an object is an association list; numbers are
      integers: a document with a float (or [NaN], which Python compares
      unequal to itself) is outside the model.
    - A Python exception is the result [None].
    - Reading and writing a file are made explicit: a file-level function
      receives the parsed document and returns what it writes back, if
      anything. *)

From Stdlib Require Import List String Ascii ZArith Bool Arith Lia DecimalString.
Import ListNotations.
Open Scope string_scope.
Open Scope list_scope.
Open Scope nat_scope.

(* ================================================================== *)
(** * Python strings *)
(* ================================================================== *)

Definition pystr := list ascii.

Definition str (s : string) : pystr := list_ascii_of_string s.
Coercion str : string >-> pystr.
Arguments str : simpl never.

Definition chr_eqb (a b : ascii) : bool := Ascii.eqb a b.

Fixpoint str_eqb (a b : pystr) : bool :=
  match a, b with
  | [], [] => true
  | x :: a', y :: b' => chr_eqb x y && str_eqb a' b'
  | _, _ => false
  end.

Definition in_range (lo hi : nat) (c : ascii) : bool :=
  (lo <=? nat_of_ascii c) && (nat_of_ascii c <=? hi).

Definition is_upper (c : ascii) : bool := in_range 65 90 c.
Definition is_lower (c : ascii) : bool := in_range 97 122 c.
Definition is_digit (c : ascii) : bool := in_range 48 57 c.

(** The class [\w] on ASCII text: letters, digits and the underscore. *)
Definition is_word (c : ascii) : bool :=
  is_upper c || is_lower c || is_digit c || chr_eqb c "_".

(** What [str.split()] and [str.strip()] treat as whitespace in ASCII
    text: tab, line feed, vertical tab, form feed, carriage return, the
    four separators 0x1c..0x1f and the space. *)
Definition is_space (c : ascii) : bool :=
  in_range 9 13 c || in_range 28 32 c.

Definition to_lower (c : ascii) : ascii :=
  if is_upper c then ascii_of_nat (nat_of_ascii c + 32) else c.

Definition to_upper (c : ascii) : ascii :=
  if is_lower c then ascii_of_nat (nat_of_ascii c - 32) else c.

Arguments chr_eqb : simpl never.
Arguments is_upper : simpl never.
Arguments is_lower : simpl never.
Arguments is_digit : simpl never.
Arguments is_word : simpl never.
Arguments is_space : simpl never.
Arguments to_lower : simpl never.
Arguments to_upper : simpl never.

(** [s.isascii()]: every character is below 128. *)
Definition isascii (s : pystr) : bool :=
  forallb (fun c => nat_of_ascii c <? 128) s.

(** [s.lower()], for ASCII text. *)
Definition lower (s : pystr) : pystr := map to_lower s.

(** [s.capitalize()], for ASCII text: the first character upper-cased,
    the rest lower-cased. *)
Definition capitalize (s : pystr) : pystr :=
  match s with
  | [] => []
  | c :: r => to_upper c :: lower r
  end.

(** [c in s] for a single character [c]. *)
Definition has_chr (c : ascii) (s : pystr) : bool := existsb (chr_eqb c) s.

(** [s.index(c)] for a character that occurs in [s]. *)
Fixpoint index (c : ascii) (s : pystr) : nat :=
  match s with
  | [] => 0
  | x :: s' => if chr_eqb c x then 0 else S (index c s')
  end.

(** The slice [s[a:b]] for indices [0 <= a] and [0 <= b]. *)
Definition slice (a b : nat) (s : pystr) : pystr := skipn a (firstn b s).

(** [sep.join(parts)] *)
Fixpoint join (sep : pystr) (parts : list pystr) : pystr :=
  match parts with
  | [] => []
  | [p] => p
  | p :: rest => p ++ sep ++ join sep rest
  end.

(** [s.split()]: the maximal runs of characters that are not whitespace.
    [cur] is the run being read, latest character first. *)
Definition flush (cur : pystr) (acc : list pystr) : list pystr :=
  match cur with
  | [] => acc
  | _ => rev cur :: acc
  end.

Fixpoint split_from (cur : pystr) (s : pystr) : list pystr :=
  match s with
  | [] => flush cur []
  | c :: s' =>
      if is_space c then flush cur (split_from [] s')
      else split_from (c :: cur) s'
  end.

Definition split (s : pystr) : list pystr := split_from [] s.

(** [s.split(c)] for a one-character separator: the pieces between the
    separators, empty pieces included. *)
Fixpoint split_on (c : ascii) (s : pystr) : list pystr :=
  match s with
  | [] => [[]]
  | x :: s' =>
      if chr_eqb x c then [] :: split_on c s'
      else match split_on c s' with
           | p :: ps => (x :: p) :: ps
           | [] => [[x]]
           end
  end.

(** [s.startswith(p)] *)
Fixpoint startswith (p s : pystr) : bool :=
  match p, s with
  | [], _ => true
  | x :: p', y :: s' => chr_eqb x y && startswith p' s'
  | _ :: _, [] => false
  end.

(** [s.endswith(p)] *)
Definition endswith (p s : pystr) : bool := startswith (rev p) (rev s).

(** [sub in s] *)
Fixpoint contains (sub s : pystr) : bool :=
  startswith sub s ||
  match s with
  | [] => false
  | _ :: s' => contains sub s'
  end.

(** [s.replace(old, new)] for a non-empty [old]: the occurrences of [old]
    are found left to right without overlap.  [skip] counts the characters
    of the occurrence just replaced that are still to be passed over. *)
Fixpoint replace_from (old new : pystr) (skip : nat) (s : pystr) : pystr :=
  match s with
  | [] => []
  | c :: s' =>
      match skip with
      | S k => replace_from old new k s'
      | 0 =>
          if startswith old s
          then new ++ replace_from old new (List.length old - 1) s'
          else c :: replace_from old new 0 s'
      end
  end.

(** With an empty [old], Python puts [new] before every character and at
    the end. *)
Definition replace (old new s : pystr) : pystr :=
  match old with
  | [] => new ++ flat_map (fun c => c :: new) s
  | _ => replace_from old new 0 s
  end.

Fixpoint lstrip (s : pystr) : pystr :=
  match s with
  | [] => []
  | c :: s' => if is_space c then lstrip s' else s
  end.

(** [s.strip()] *)
Definition strip (s : pystr) : pystr := rev (lstrip (rev (lstrip s))).

(** [s.isdigit()], for ASCII text: not empty and digits only. *)
Definition isdigit (s : pystr) : bool :=
  match s with
  | [] => false
  | _ => forallb is_digit s
  end.

(** [x in xs] for a list of strings. *)
Definition str_mem (x : pystr) (xs : list pystr) : bool := existsb (str_eqb x) xs.

(* ================================================================== *)
(** * fix-title-case.py: [to_title_case] *)
(* ================================================================== *)

(** The maximal run of word characters at the head of [s], and what
    follows it. *)
Fixpoint span_word (s : pystr) : pystr * pystr :=
  match s with
  | [] => ([], [])
  | c :: s' =>
      if is_word c
      then let (run, rest) := span_word s' in (c :: run, rest)
      else ([], s)
  end.

(** The pattern [\b[\w]+-[\w]+\b] tried at the head of [s], where the
    character before [s] (if any) is no word character, so that the first
    [\b] holds as soon as [s] starts with a word character.  Both [[\w]+]
    have to take a maximal run: a shorter first run is not followed by a
    hyphen, and a shorter second run is not followed by a word boundary.
    The result is the matched text and the text after it. *)
Definition match_hyphenated (s : pystr) : option (pystr * pystr) :=
  let (a, t) := span_word s in
  match a, t with
  | _ :: _, c :: t' =>
      if chr_eqb c "-"
      then let (b, u) := span_word t' in
           match b with
           | _ :: _ => Some (a ++ c :: b, u)
           | [] => None
           end
      else None
  | _, _ => None
  end.

(** The replacement function of the first pass:
    [parts = match.group(0).split('-')],
    ['-'.join(p.capitalize() for p in parts)]. *)
Definition title_case_hyphenated (m : pystr) : pystr :=
  join (str "-") (map capitalize (split_on "-" m)).

(** [re.sub(r'\b[\w]+-[\w]+\b', title_case_hyphenated, text)]: the scan
    goes left to right; where the pattern matches, the replacement is
    written and the scan resumes after the match; elsewhere the character
    is copied.  [after_word] tells whether the character before [text] is
    a word character (no match can start there).  [fuel] bounds the number
    of steps; the length of the text is enough. *)
Fixpoint sub_hyphenated (fuel : nat) (after_word : bool) (text : pystr) : pystr :=
  match fuel, text with
  | _, [] => []
  | 0, _ => text
  | S fuel', c :: text' =>
      match (if after_word then None else match_hyphenated text) with
      | Some (m, rest) => title_case_hyphenated m ++ sub_hyphenated fuel' true rest
      | None => c :: sub_hyphenated fuel' (is_word c) text'
      end
  end.

Definition re_sub_hyphenated (text : pystr) : pystr :=
  sub_hyphenated (List.length text) false text.

Definition small_words : list pystr :=
  map str ["of"; "the"; "a"; "an"; "and"; "or"; "to"; "in"; "with"].

(** [word[0].isupper()] for a word of the split (never empty). *)
Definition first_isupper (word : pystr) : bool :=
  match word with
  | c :: _ => is_upper c
  | [] => false
  end.

(** The body of the loop [for i, word in enumerate(words)]: what is
    appended to [result] for the word at position [i]. *)
Definition title_word (i : nat) (word : pystr) : pystr :=
  if has_chr "(" word && has_chr ")" word then
    let before_paren := slice 0 (index "(" word) word in
    let in_paren := slice (index "(" word + 1) (index ")" word) word in
    let after_paren :=
      if index ")" word <? List.length word - 1
      then skipn (index ")" word + 1) word
      else [] in
    capitalize before_paren ++ str "(" ++ lower in_paren ++ str ")" ++ after_paren
  else if i =? 0 then
    if negb (has_chr "-" word) then capitalize word else word
  else if str_mem (lower word) small_words then lower word
  else if has_chr "-" word || first_isupper word then word
  else capitalize word.

Fixpoint title_words (i : nat) (words : list pystr) : list pystr :=
  match words with
  | [] => []
  | word :: rest => title_word i word :: title_words (S i) rest
  end.

(** [to_title_case(text)] for a string [text]. *)
Definition to_title_case (text : pystr) : pystr :=
  match text with
  | [] => text
  | _ =>
      let text := re_sub_hyphenated text in
      let words := split text in
      match words with
      | [] => text
      | _ => join (str " ") (title_words 0 words)
      end
  end.

(** The tokens of a text in which a closing parenthesis comes before the
    first opening one are the ones [title_word] cuts wrongly. *)
Definition paren_ordered (word : pystr) : bool :=
  negb (has_chr "(" word && has_chr ")" word) || (index "(" word <? index ")" word).

Definition parens_ordered (text : pystr) : bool :=
  forallb paren_ordered (split text).

(* ================================================================== *)
(** * JSON documents and the Python operations on them *)
(* ================================================================== *)

#[warnings="-register-all"]
Inductive json : Type :=
| JNull
| JBool (b : bool)
| JNum (n : Z)
| JStr (s : pystr)
| JArr (items : list json)
| JObj (fields : list (pystr * json)).

(** A Python [dict] with string keys, in insertion order. *)
Definition dict := list (pystr * json).

(** Structural equality.  The scripts compare a value with a string or
    with itself only, where it agrees with Python's [==]. *)
Fixpoint json_eqb (a b : json) : bool :=
  match a, b with
  | JNull, JNull => true
  | JBool x, JBool y => Bool.eqb x y
  | JNum x, JNum y => Z.eqb x y
  | JStr x, JStr y => str_eqb x y
  | JArr xs, JArr ys =>
      (fix items_eqb (xs ys : list json) : bool :=
         match xs, ys with
         | [], [] => true
         | x :: xs', y :: ys' => json_eqb x y && items_eqb xs' ys'
         | _, _ => false
         end) xs ys
  | JObj xs, JObj ys =>
      (fix fields_eqb (xs ys : list (pystr * json)) : bool :=
         match xs, ys with
         | [], [] => true
         | (k, x) :: xs', (k', y) :: ys' =>
             str_eqb k k' && json_eqb x y && fields_eqb xs' ys'
         | _, _ => false
         end) xs ys
  | _, _ => false
  end.

(** The truth value of a JSON value in a condition. *)
Definition truthy (v : json) : bool :=
  match v with
  | JNull => false
  | JBool b => b
  | JNum n => negb (n =? 0)%Z
  | JStr s => match s with [] => false | _ => true end
  | JArr items => match items with [] => false | _ => true end
  | JObj fields => match fields with [] => false | _ => true end
  end.

(** [d.get(k)] *)
Fixpoint dict_get (k : pystr) (d : dict) : option json :=
  match d with
  | [] => None
  | (k', v) :: d' => if str_eqb k k' then Some v else dict_get k d'
  end.

(** [k in d] *)
Definition dict_has (k : pystr) (d : dict) : bool :=
  match dict_get k d with
  | Some _ => true
  | None => false
  end.

(** [d[k] = v]: a key already there keeps its place, a new key goes to
    the end. *)
Fixpoint dict_set (k : pystr) (v : json) (d : dict) : dict :=
  match d with
  | [] => [(k, v)]
  | (k', v') :: d' =>
      if str_eqb k k' then (k', v) :: d' else (k', v') :: dict_set k v d'
  end.

Definition dict_remove (k : pystr) (d : dict) : dict :=
  filter (fun kv => negb (str_eqb k (fst kv))) d.

(** [del d[k]]: a [KeyError] when the key is missing. *)
Definition dict_del (k : pystr) (d : dict) : option dict :=
  if dict_has k d then Some (dict_remove k d) else None.

Definition bind {A B : Type} (x : option A) (f : A -> option B) : option B :=
  match x with
  | Some a => f a
  | None => None
  end.

Notation "x <- e ;; k" := (bind e (fun x => k))
  (at level 61, e at next level, right associativity).
Notation "' p <- e ;; k" := (bind e (fun p => k))
  (at level 61, p pattern, e at next level, right associativity).

(** [key in v]: the keys of a dict, the elements of a list, the substrings
    of a string; a [TypeError] on anything else. *)
Definition py_in (key : pystr) (v : json) : option bool :=
  match v with
  | JObj d => Some (dict_has key d)
  | JArr items => Some (existsb (json_eqb (JStr key)) items)
  | JStr s => Some (contains key s)
  | _ => None
  end.

(** [v[key]] for a string key: a [KeyError] on a dict without the key, a
    [TypeError] on anything that is no dict. *)
Definition py_getitem (v : json) (key : pystr) : option json :=
  match v with
  | JObj d => dict_get key d
  | _ => None
  end.

(** [v.get(key, default)]: an [AttributeError] on anything that is no
    dict. *)
Definition py_get (v : json) (key : pystr) (default : json) : option json :=
  match v with
  | JObj d => Some (match dict_get key d with Some x => x | None => default end)
  | _ => None
  end.

(** [v[key] = x] *)
Definition py_setitem (v : json) (key : pystr) (x : json) : option json :=
  match v with
  | JObj d => Some (JObj (dict_set key x d))
  | _ => None
  end.

(** What [for x in v] runs over: the elements of a list, the keys of a
    dict, the characters of a string. *)
Definition py_iter (v : json) : option (list json) :=
  match v with
  | JArr items => Some items
  | JObj d => Some (map (fun kv => JStr (fst kv)) d)
  | JStr s => Some (map (fun c => JStr [c]) s)
  | _ => None
  end.

(** A loop [for x in items: body] whose body may change [x] in place and
    the loop's variables [s]; an exception in the body ends the loop. *)
Fixpoint for_each {S : Type} (body : json -> S -> option (json * S))
    (items : list json) (s : S) : option (list json * S) :=
  match items with
  | [] => Some ([], s)
  | x :: rest =>
      '(x', s') <- body x s ;;
      '(rest', s'') <- for_each body rest s' ;;
      Some (x' :: rest', s'')
  end.

(** The elements changed in place are seen through the container only
    when it is a list: the keys of a dict and the characters of a string
    are strings, which nothing changes. *)
Definition put_items (container : json) (items : list json) : json :=
  match container with
  | JArr _ => JArr items
  | _ => container
  end.

(** The text [f"{v}"] of a value.  The text of a list or a dict is not
    modelled ([None]). *)
Definition py_str (v : json) : option pystr :=
  match v with
  | JNull => Some (str "None")
  | JBool true => Some (str "True")
  | JBool false => Some (str "False")
  | JNum n => Some (str (NilZero.string_of_int (Z.to_int n)))
  | JStr s => Some s
  | _ => None
  end.

(** [to_title_case] on any value: [if not text or not isinstance(text,
    str): return text]. *)
Definition to_title_case_value (text : json) : json :=
  match text with
  | JStr s => JStr (to_title_case s)
  | _ => text
  end.

(* ================================================================== *)
(** * fix-title-case.py: [fix_terminology_file] *)
(* ================================================================== *)

(** A line printed for a changed property: the original and the fixed
    text. *)
Definition casing_change := (json * json)%type.

(** The block [if key in term: ...] for one property of one entry. *)
Definition fix_property (key : pystr) (term : json)
    (s : bool * list casing_change) : option (json * (bool * list casing_change)) :=
  has <- py_in key term ;;
  if has then
    original <- py_getitem term key ;;
    let fixed := to_title_case_value original in
    if negb (json_eqb original fixed) then
      term' <- py_setitem term key fixed ;;
      Some (term', (true, snd s ++ [(original, fixed)]))
    else Some (term, s)
  else Some (term, s).

Definition fix_term (term : json) (s : bool * list casing_change) :
    option (json * (bool * list casing_change)) :=
  '(term1, s1) <- fix_property "english" term s ;;
  fix_property "romanised" term1 s1.

(** What a file-level function leaves behind: the document it wrote back
    (if it wrote), the value it returned and the changes it recorded. *)
Record outcome (L : Type) : Type := mk_outcome {
  written : option json;
  returned : bool;
  reported : list L
}.
Arguments mk_outcome {L} _ _ _.
Arguments written {L} _.
Arguments returned {L} _.
Arguments reported {L} _.

(** [fix_terminology_file], from the parsed document [data]; [None] when
    an exception leaves the function (nothing is written then). *)
Definition fix_terminology_file (data : json) : option (outcome casing_change) :=
  has <- py_in "terminology" data ;;
  '(data', (changed, lines)) <-
    (if has then
       terms <- py_getitem data "terminology" ;;
       items <- py_iter terms ;;
       '(items', s) <- for_each fix_term items (false, []) ;;
       data' <- py_setitem data "terminology" (put_items terms items') ;;
       Some (data', s)
     else Some (data, (false, []))) ;;
  Some (mk_outcome (if changed then Some data' else None) changed lines).

(* ================================================================== *)
(** * standardize_language_properties.py *)
(* ================================================================== *)

(** The two counters of [self.stats] that [_rename_keys] increments.
    ([self.changes_log], filled under [--verbose] only, repeats them as
    text and is left out.) *)
Record stats : Type := mk_stats {
  properties_renamed : nat;
  empty_fields_removed : nat
}.

Definition count_rename (st : stats) : stats :=
  mk_stats (S (properties_renamed st)) (empty_fields_removed st).

Definition count_removal (st : stats) : stats :=
  mk_stats (properties_renamed st) (S (empty_fields_removed st)).

(** A mapping table: a Python dict from the old key to the new key, in
    insertion order. *)
Definition mapping_table := list (pystr * pystr).

(** The condition [value and value != ""]. *)
Definition non_empty (value : json) : bool :=
  truthy value && negb (json_eqb value (JStr [])).

(** The first loop of [_rename_keys]: it collects [keys_to_rename] and
    deletes the fields whose value is empty. *)
Fixpoint collect_renames (mapping : mapping_table) (obj : dict) (st : stats) :
    list (pystr * pystr * json) * dict * stats :=
  match mapping with
  | [] => ([], obj, st)
  | (old_key, new_key) :: rest =>
      match dict_get old_key obj with
      | Some value =>
          if non_empty value then
            let '(keys_to_rename, obj', st') := collect_renames rest obj st in
            ((old_key, new_key, value) :: keys_to_rename, obj', st')
          else collect_renames rest (dict_remove old_key obj) (count_removal st)
      | None => collect_renames rest obj st
      end
  end.

(** The second loop: [obj[new_key] = value; del obj[old_key]]. *)
Fixpoint apply_renames (keys_to_rename : list (pystr * pystr * json))
    (obj : dict) (st : stats) : option (dict * stats) :=
  match keys_to_rename with
  | [] => Some (obj, st)
  | (old_key, new_key, value) :: rest =>
      if negb (str_eqb old_key new_key) then
        obj' <- dict_del old_key (dict_set new_key value obj) ;;
        apply_renames rest obj' (count_rename st)
      else apply_renames rest obj st
  end.

(** [_rename_keys(obj, mapping)] on a dict. *)
Definition _rename_keys (obj : dict) (mapping : mapping_table) (st : stats) :
    option (dict * stats) :=
  let '(keys_to_rename, obj', st') := collect_renames mapping obj st in
  apply_renames keys_to_rename obj' st'.

(** [_rename_keys] on whatever a list of the document holds.  On a value
    that is no dict, [old_key in obj] is a substring or membership test (or
    a [TypeError]), and [obj[old_key]] raises as soon as one succeeds. *)
Definition rename_node (mapping : mapping_table) (obj : json) (st : stats) :
    option (json * stats) :=
  match obj with
  | JObj d =>
      '(d', st') <- _rename_keys d mapping st ;;
      Some (JObj d', st')
  | _ =>
      if forallb (fun m => match py_in (fst m) obj with
                           | Some false => true
                           | _ => false
                           end) mapping
      then Some (obj, st) else None
  end.

Definition terminology_mapping : mapping_table :=
  [(str "english_term", str "english");
   (str "romanized_pronunciation", str "romanised");
   (str "korean_hangul", str "hangul");
   (str "phonetic_pronunciation", str "phonetic")].

Definition techniques_mapping : mapping_table :=
  [(str "korean_romanized", str "romanised");
   (str "korean", str "hangul");
   (str "korean_hangul", str "hangul")].

Definition pattern_mapping : mapping_table :=
  [(str "name", str "english");
   (str "pronunciation", str "romanised")].

Definition move_mapping : mapping_table :=
  [(str "technique", str "english");
   (str "korean_technique", str "romanised")].

(** The body of [for pattern in data['patterns']]. *)
Definition standardize_pattern (pattern : json) (st : stats) : option (json * stats) :=
  '(pattern1, st1) <- rename_node pattern_mapping pattern st ;;
  has <- py_in "moves" pattern1 ;;
  if has then
    moves <- py_getitem pattern1 "moves" ;;
    items <- py_iter moves ;;
    '(items', st2) <- for_each (rename_node move_mapping) items st1 ;;
    pattern2 <- py_setitem pattern1 "moves" (put_items moves items') ;;
    Some (pattern2, st2)
  else Some (pattern1, st1).

(** [standardize_patterns(data)] *)
Definition standardize_patterns (data : json) (st : stats) : option (json * stats) :=
  has <- py_in "patterns" data ;;
  if has then
    patterns <- py_getitem data "patterns" ;;
    items <- py_iter patterns ;;
    '(items', st') <- for_each standardize_pattern items st ;;
    data' <- py_setitem data "patterns" (put_items patterns items') ;;
    Some (data', st')
  else Some (data, st).

(* ================================================================== *)
(** * chon_ji_dan_gun_corrections.py *)
(* ================================================================== *)

(** An entry of [file_corrections]. *)
Record correction : Type := mk_correction {
  c_move : json;
  c_field : pystr;
  c_old : json;
  c_new : json
}.

(** [_standardize_target(target)]: [target.lower()] is an
    [AttributeError] on a value that is no string. *)
Definition _standardize_target (target : json) : option json :=
  if negb (truthy target) || json_eqb target (JStr (str "null")) then Some target
  else
    match target with
    | JStr s =>
        let target_lower := lower s in
        if str_mem target_lower (map str ["lower section"; "low section"])
        then Some (JStr (str "Low Section"))
        else if str_mem target_lower (map str ["middle section"; "solar plexus"])
        then Some (JStr (str "Middle Section"))
        else if str_mem target_lower (map str ["upper section"; "high section"; "head level"])
        then Some (JStr (str "High Section"))
        else Some target
    | _ => None
    end.

(** [_split_technique_target(technique, current_target, move_num)] *)
Definition _split_technique_target (technique current_target : json) :
    option (json * json) :=
  if json_eqb technique (JStr (str "Low Outer Forearm Block"))
  then Some (JStr (str "Outer Forearm Block"), JStr (str "Low Section"))
  else if json_eqb technique (JStr (str "Middle Obverse Punch"))
  then Some (JStr (str "Obverse Punch"), JStr (str "Middle Section"))
  else if json_eqb technique (JStr (str "High Obverse Punch"))
  then Some (JStr (str "Obverse Punch"), JStr (str "High Section"))
  else if json_eqb technique (JStr (str "Middle Inner Forearm Block"))
  then Some (JStr (str "Inner Forearm Block"), JStr (str "Middle Section"))
  else if json_eqb technique (JStr (str "High Obverse Block"))
  then Some (JStr (str "Outer Forearm Block"), JStr (str "High Section"))
  else if json_eqb technique (JStr (str "Rising Block"))
  then Some (JStr (str "Forearm Rising Block"), JStr (str "High Section"))
  else
    new_target <- _standardize_target current_target ;;
    Some (technique, new_target).

(** The variables a corrector's loop carries: the move being corrected,
    [corrections_made] and [file_corrections]. *)
Definition corrector_state := (bool * list correction)%type.

(** The block "Remove Left/Right prefixes from stances". *)
Definition correct_stance (move move_num : json) (s : corrector_state) :
    option (json * corrector_state) :=
  stance <- py_get move "stance" (JStr []) ;;
  match stance with
  | JStr st =>
      if startswith (str "Left ") st || startswith (str "Right ") st then
        let old_stance := st in
        let new_stance := replace (str "Right ") [] (replace (str "Left ") [] st) in
        let new_stance :=
          if str_eqb new_stance (str "L Stance") then str "L-stance" else new_stance in
        move' <- py_setitem move "stance" (JStr new_stance) ;;
        Some (move', (true, snd s ++
                [mk_correction move_num "stance" (JStr old_stance) (JStr new_stance)]))
      else Some (move, s)
  | _ => None
  end.

(** The block shared by both patterns: the split is written back where it
    changed the technique or the target. *)
Definition correct_split (move move_num technique target : json) (s : corrector_state) :
    option (json * corrector_state) :=
  '(new_technique, new_target) <- _split_technique_target technique target ;;
  '(move1, s1) <-
    (if negb (json_eqb new_technique technique) then
       move' <- py_setitem move "technique" new_technique ;;
       Some (move', (true, snd s ++
               [mk_correction move_num "technique" technique new_technique]))
     else Some (move, s)) ;;
  if negb (json_eqb new_target target) then
    move' <- py_setitem move1 "target" new_target ;;
    Some (move', (true, snd s1 ++
            [mk_correction move_num "target" target new_target]))
  else Some (move1, s1).

(** The body of the loop of [_correct_chon_ji]. *)
Definition correct_chon_ji_move (move : json) (s : corrector_state) :
    option (json * corrector_state) :=
  move_num <- py_get move "move_number" (JNum 0) ;;
  '(move1, s1) <- correct_stance move move_num s ;;
  technique <- py_get move1 "technique" (JStr []) ;;
  target <- py_get move1 "target" (JStr []) ;;
  correct_split move1 move_num technique target s1.

(** One of the two typo fixes of [_correct_dan_gun]; the result carries
    the local variable [technique] as well. *)
Definition fix_typo (typo fixed : pystr) (move move_num technique : json)
    (s : corrector_state) : option (json * json * corrector_state) :=
  if json_eqb technique (JStr typo) then
    move' <- py_setitem move "technique" (JStr fixed) ;;
    Some (move', JStr fixed,
          (true, snd s ++ [mk_correction move_num "technique" technique (JStr fixed)]))
  else Some (move, technique, s).

(** The body of the loop of [_correct_dan_gun]. *)
Definition correct_dan_gun_move (move : json) (s : corrector_state) :
    option (json * corrector_state) :=
  move_num <- py_get move "move_number" (JNum 0) ;;
  '(move1, s1) <- correct_stance move move_num s ;;
  technique <- py_get move1 "technique" (JStr []) ;;
  '(move2, technique2, s2) <-
    fix_typo "High Observe Punch" "High Obverse Punch" move1 move_num technique s1 ;;
  '(move3, technique3, s3) <-
    fix_typo "Twin Outer Forearm Bloack" "Twin Outer Forearm Block"
             move2 move_num technique2 s2 ;;
  target <- py_get move3 "target" (JStr []) ;;
  correct_split move3 move_num technique3 target s3.

(** [_correct_chon_ji] and [_correct_dan_gun]: [for move in
    pattern.get('moves', [])], with [corrections_made] starting at [False];
    the result is the pattern, the flag and [file_corrections]. *)
Definition correct_moves (body : json -> corrector_state -> option (json * corrector_state))
    (pattern : json) (file_corrections : list correction) :
    option (json * corrector_state) :=
  moves <- py_get pattern "moves" (JArr []) ;;
  items <- py_iter moves ;;
  '(items', s) <- for_each body items (false, file_corrections) ;;
  match py_getitem pattern "moves" with
  | Some _ =>
      pattern' <- py_setitem pattern "moves" (put_items moves items') ;;
      Some (pattern', s)
  | None => Some (pattern, s)
  end.

Definition _correct_chon_ji := correct_moves correct_chon_ji_move.
Definition _correct_dan_gun := correct_moves correct_dan_gun_move.

(** The body of [for pattern in data.get('patterns', [])] in
    [apply_corrections]. *)
Definition correct_pattern (pattern : json) (s : corrector_state) :
    option (json * corrector_state) :=
  pattern_name <- py_get pattern "name" (JStr (str "Unknown")) ;;
  if json_eqb pattern_name (JStr (str "Chon-Ji")) then
    '(pattern', (made, file_corrections)) <- _correct_chon_ji pattern (snd s) ;;
    Some (pattern', (fst s || made, file_corrections))
  else if json_eqb pattern_name (JStr (str "Dan-Gun")) then
    '(pattern', (made, file_corrections)) <- _correct_dan_gun pattern (snd s) ;;
    Some (pattern', (fst s || made, file_corrections))
  else Some (pattern, s).

(** The [try] block of [apply_corrections], up to the decision to write. *)
Definition corrected_document (data : json) : option (json * corrector_state) :=
  patterns <- py_get data "patterns" (JArr []) ;;
  items <- py_iter patterns ;;
  '(items', s) <- for_each correct_pattern items (false, []) ;;
  match py_getitem data "patterns" with
  | Some _ =>
      data' <- py_setitem data "patterns" (put_items patterns items') ;;
      Some (data', s)
  | None => Some (data, s)
  end.

(** [apply_corrections]: the document is written when [corrections_made];
    an exception is caught, nothing is written and [False] is returned.
    [reported] is [file_corrections] as the loop left it. *)
Definition apply_corrections (data : json) : outcome correction :=
  match corrected_document data with
  | Some (data', (corrections_made, file_corrections)) =>
      mk_outcome (if corrections_made then Some data' else None)
                 corrections_made file_corrections
  | None => mk_outcome None false []
  end.

(* ================================================================== *)
(** * update_patterns_from_csv.py *)
(* ================================================================== *)

(** A value of [self.corrections]: the five columns of a CSV row. *)
Record csv_correction : Type := mk_csv {
  direction : pystr;
  movement : pystr;
  stance : pystr;
  technique : pystr;
  target : pystr
}.

(** The degree sign, U+00B0, as its two UTF-8 bytes. *)
Definition degree : pystr := str "°".

(** The movement part of [standardize_values]. *)
Definition standardize_movement (movement : pystr) : pystr :=
  if str_eqb movement (str "-") then str "-"
  else if isdigit movement then
    if str_eqb movement (str "90") then str "Left " ++ movement ++ degree
    else if negb (endswith degree movement) then movement ++ degree else movement
  else if negb (endswith degree movement) &&
          existsb (fun deg => contains deg movement)
                  (map str ["90"; "180"; "270"; "360"; "45"; "135"])
  then (if negb (contains degree movement) then movement ++ degree else movement)
  else movement.

(** The stance part of [standardize_values]. *)
Definition standardize_stance (stance : pystr) : pystr :=
  if contains (str "L Stance") stance && negb (has_chr "-" stance)
  then replace (str "L Stance") (str "L-stance") stance
  else if str_eqb stance (str "Walking Stance") then stance
  else stance.

(** [standardize_values(correction)] *)
Definition standardize_values (correction : csv_correction) : csv_correction :=
  mk_csv (direction correction)
         (standardize_movement (movement correction))
         (standardize_stance (stance correction))
         (strip (technique correction))
         (target correction).

(** [normalize_pattern_name(name)]: [name.replace(' ', '-')]. *)
Definition normalize_pattern_name (name : pystr) : pystr :=
  replace (str " ") (str "-") name.

(** [corrections[key]] / [key in corrections] *)
Fixpoint find_correction (key : pystr) (corrections : list (pystr * csv_correction)) :
    option csv_correction :=
  match corrections with
  | [] => None
  | (k, c) :: rest => if str_eqb key k then Some c else find_correction key rest
  end.

(** A line [field: 'old' -> 'new'] printed for a move. *)
Record field_change : Type := mk_field_change {
  fc_move : json;
  fc_field : pystr;
  fc_old : json;
  fc_new : pystr
}.

Definition correction_fields (c : csv_correction) : list (pystr * pystr) :=
  [(str "direction", direction c);
   (str "movement", movement c);
   (str "stance", stance c);
   (str "technique", technique c);
   (str "target", target c)].

(** [old_values]: [move.get(field, '')] for the five fields. *)
Definition old_values (move : dict) (field : pystr) : json :=
  match dict_get field move with
  | Some v => v
  | None => JStr []
  end.

(** The five assignments [move[field] = correction[field]]. *)
Definition assign_fields (move : dict) (c : csv_correction) : dict :=
  fold_left (fun m fv => dict_set (fst fv) (JStr (snd fv)) m) (correction_fields c) move.

(** The lines printed for a move: one for each field whose old value
    differs from the correction. *)
Definition changed_fields (move_number : json) (move : dict) (c : csv_correction) :
    list field_change :=
  flat_map (fun fv =>
              if negb (json_eqb (old_values move (fst fv)) (JStr (snd fv)))
              then [mk_field_change move_number (fst fv) (old_values move (fst fv)) (snd fv)]
              else [])
           (correction_fields c).

(** The body of [for move in pattern.get('moves', [])]; the loop carries
    [updates_count] and the printed lines. *)
Definition update_move (pattern_name : pystr) (corrections : list (pystr * csv_correction))
    (move : json) (s : nat * list field_change) : option (json * (nat * list field_change)) :=
  move_number <- py_getitem move "move_number" ;;
  number_text <- py_str move_number ;;
  let correction_key := pattern_name ++ str "_" ++ number_text in
  match find_correction correction_key corrections, move with
  | Some c, JObj m =>
      let correction := standardize_values c in
      Some (JObj (assign_fields m correction),
            (S (fst s), snd s ++ changed_fields move_number m correction))
  | _, _ => Some (move, s)
  end.

(** [for pattern in data.get('patterns', [])]: the first pattern with the
    name is updated and the loop is left ([break]); the patterns after it
    are not looked at. *)
Fixpoint update_patterns (json_pattern_name pattern_name : pystr)
    (corrections : list (pystr * csv_correction)) (patterns : list json) :
    option (list json * (nat * list field_change)) :=
  match patterns with
  | [] => Some ([], (0, []))
  | pattern :: rest =>
      name <- py_getitem pattern "name" ;;
      if json_eqb name (JStr json_pattern_name) then
        moves <- py_get pattern "moves" (JArr []) ;;
        items <- py_iter moves ;;
        '(items', s) <- for_each (update_move pattern_name corrections) items (0, []) ;;
        match py_getitem pattern "moves" with
        | Some _ =>
            pattern' <- py_setitem pattern "moves" (put_items moves items') ;;
            Some (pattern' :: rest, s)
        | None => Some (pattern :: rest, s)
        end
      else
        '(rest', s) <- update_patterns json_pattern_name pattern_name corrections rest ;;
        Some (pattern :: rest', s)
  end.

(** What [update_pattern_file] leaves behind: the document written, the
    count returned and the lines printed. *)
Record update_outcome : Type := mk_update {
  u_written : option json;
  u_count : nat;
  u_printed : list field_change
}.

(** [update_pattern_file], from the parsed document; [None] when an
    exception leaves the function.  The file is written whatever the
    loop did. *)
Definition update_pattern_file (data : json) (pattern_name : pystr)
    (corrections : list (pystr * csv_correction)) : option update_outcome :=
  let json_pattern_name := normalize_pattern_name pattern_name in
  patterns <- py_get data "patterns" (JArr []) ;;
  items <- py_iter patterns ;;
  '(items', (updates_count, printed)) <-
    update_patterns json_pattern_name pattern_name corrections items ;;
  data' <- (match py_getitem data "patterns" with
            | Some _ => py_setitem data "patterns" (put_items patterns items')
            | None => Some data
            end) ;;
  Some (mk_update (Some data') updates_count printed).

(* ================================================================== *)
(** * korean_romanization_corrections.py *)
(* ================================================================== *)

(** [self.korean_mapping], as [_build_korean_mapping] fills it. *)
Definition korean_mapping : list (pystr * pystr) :=
  map (fun p => (str (fst p), str (snd p)))
  [ ("Obverse Punch", "Baro Jirugi");
    ("Reverse Punch", "Bandae Jirugi");
    ("High Punch", "Nopunde Jirugi");
    ("Middle Punch", "Kaunde Jirugi");
    ("Low Punch", "Najunde Jirugi");
    ("Upset Punch", "Dwijibo Jirugi");
    ("Twin Vertical Punch", "Sang Sewo Jirugi");
    ("Double Punch", "Doo Jirugi");
    ("Flat Fingertip Thrust", "Opun Sonkut Tulgi");
    ("Straight Fingertip Thrust", "Sun Sonkut Tulgi");
    ("Upset Fingertip Thrust", "Dwijibo Sonkut Tulgi");
    ("Inner Forearm Block", "An Palmok Makgi");
    ("Inner Forearm Middle Block", "An Palmok Kaunde Makgi");
    ("Outer Forearm Block", "Bakat Palmok Makgi");
    ("Outer Forearm Low Block", "Bakat Palmok Najunde Makgi");
    ("Outer Forearm Middle Block", "Bakat Palmok Kaunde Makgi");
    ("Outer Forearm High Block", "Bakat Palmok Nopunde Makgi");
    ("Outer Forearm Middle Inward Block", "Bakat Palmok Kaunde Anaero Makgi");
    ("Twin Outer Forearm Block", "Sang Bakat Palmok Makgi");
    ("Double Forearm Block", "Doo Palmok Makgi");
    ("Forearm Guarding Block", "Palmok Daebi Makgi");
    ("Forearm Rising Block", "Palmok Chookyo Makgi");
    ("Inner Forearm Circular Block", "An Palmok Dollimyo Makgi");
    ("Knife Hand Block", "Sonkal Makgi");
    ("Knife Hand Guarding Block", "Sonkal Daebi Makgi");
    ("Knife Hand Strike", "Sonkal Taerigi");
    ("Inward Knife Hand Strike", "Anaero Sonkal Taerigi");
    ("Knife Hand Downward Strike", "Naeryo Sonkal Taerigi");
    ("Reverse Knife Hand Strike", "Bandae Sonkal Taerigi");
    ("Reverse Knife Hand Inward Strike", "Sonkal Dung Anaero Taerigi");
    ("Twin Knife Hand Block", "Sang Sonkal Makgi");
    ("X Knife Hand Checking Block", "Kyocha Sonkal Momchau Makgi");
    ("Back Fist Strike", "Dung Joomuk Taerigi");
    ("Back Fist Rear Strike", "Dung Joomuk Dwutcha Taerigi");
    ("Back Fist Side Strike", "Dung Joomuk Yop Taerigi");
    ("Back Fist Strike/Outer Forearm Low Block",
     "Dung Joomuk Taerigi/Bakat Palmok Najunde Makgi");
    ("Palm Pushing Block", "Sonbadak Mireo Makgi");
    ("Twin Palm Upward Block", "Sang Sonbadak Ollyo Makgi");
    ("Twin Upward Palm Block", "Sang Sonbadak Ollyo Makgi");
    ("Front Kick", "Ap Chagi");
    ("Front Snap Kick", "Ap Cha Busigi");
    ("Side Piercing Kick", "Yop Cha Jirugi");
    ("Side Piercing Kick to Rear", "Dwi Yop Cha Jirugi");
    ("Turning Kick", "Dollyo Chagi");
    ("Reverse Side Kick", "Bandae Yop Chagi");
    ("Flying Side Piercing Kick", "Twimyo Yop Cha Jirugi");
    ("Rising Kick", "Ap Cha Olligi");
    ("Knee Kick", "Moorup Chagi");
    ("X-Fist Pressing Block", "Kyocha Joomuk Noollo Makgi");
    ("U-shape Block", "Digutja Makgi");
    ("W Shaped Block", "San Makgi");
    ("Double Forearm Pushing Block", "Doo Palmok Mireo Makgi");
    ("Grab (Opponent's Head)", "Meori Japgi");
    ("Grab to Shoulders", "Eokae Japgi");
    ("Release Move", "Nohgi");
    ("Posture Move", "Jasei Dongjak");
    ("Flying Side Piercing Kick / Knife Hand Guarding Block",
     "Twimyo Yop Cha Jirugi/Sonkal Daebi Makgi");
    ("Back Fist Strike / Outer Forearm Low Block",
     "Dung Joomuk Taerigi/Bakat Palmok Najunde Makgi");
    ("Front Outer Forearm Block / Back Fist Side Strike",
     "Ap Bakat Palmok Makgi/Dung Joomuk Yop Taerigi");
    ("Inner Forearm Block / Outer Forearm Block",
     "An Palmok Makgi/Bakat Palmok Makgi");
    ("Jump 360 to Knife Hand Guarding Block", "360 Twimyo Sonkal Daebi Makgi");
    ("Side Elbow Thrust", "Yop Palkup Taerigi") ].

(** [mapping[key]] / [key in mapping] for a table of strings. *)
Fixpoint table_get (key : pystr) (table : list (pystr * pystr)) : option pystr :=
  match table with
  | [] => None
  | (k, v) :: rest => if str_eqb key k then Some v else table_get key rest
  end.

(** [english_technique in self.korean_mapping]: a list or a dict cannot be
    hashed (a [TypeError]); a value that is no string is never a key. *)
Definition korean_for (mapping : list (pystr * pystr)) (english_technique : json) :
    option (option pystr) :=
  match english_technique with
  | JStr s => Some (table_get s mapping)
  | JArr _ | JObj _ => None
  | _ => Some None
  end.

(** An entry of [file_corrections] of the romanisation corrector. *)
Record korean_correction : Type := mk_korean_correction {
  k_pattern : json;
  k_move : json;
  k_english_technique : json;
  k_old_korean : json;
  k_new_korean : pystr
}.

Definition korean_state := (bool * list korean_correction)%type.

(** The body of [for move in pattern.get('moves', [])]. *)
Definition correct_korean_move (mapping : list (pystr * pystr)) (pattern_name : json)
    (move : json) (s : korean_state) : option (json * korean_state) :=
  move_number <- py_get move "move_number" (JNum 0) ;;
  english_technique <- py_get move "technique" (JStr []) ;;
  current_korean <- py_get move "korean_technique" (JStr []) ;;
  found <- korean_for mapping english_technique ;;
  match found with
  | Some correct_korean =>
      if negb (json_eqb current_korean (JStr correct_korean)) then
        move' <- py_setitem move "korean_technique" (JStr correct_korean) ;;
        Some (move', (true, snd s ++
                [mk_korean_correction pattern_name move_number english_technique
                                      current_korean correct_korean]))
      else Some (move, s)
  | None => Some (move, s)
  end.

(** The body of [for pattern in data.get('patterns', [])]. *)
Definition correct_korean_pattern (mapping : list (pystr * pystr))
    (pattern : json) (s : korean_state) : option (json * korean_state) :=
  pattern_name <- py_get pattern "name" (JStr (str "Unknown")) ;;
  moves <- py_get pattern "moves" (JArr []) ;;
  items <- py_iter moves ;;
  '(items', s') <- for_each (correct_korean_move mapping pattern_name) items s ;;
  match py_getitem pattern "moves" with
  | Some _ =>
      pattern' <- py_setitem pattern "moves" (put_items moves items') ;;
      Some (pattern', s')
  | None => Some (pattern, s')
  end.

(** The [try] block of [correct_korean_romanizations], up to the decision
    to write. *)
Definition romanized_document (mapping : list (pystr * pystr)) (data : json) :
    option (json * korean_state) :=
  patterns <- py_get data "patterns" (JArr []) ;;
  items <- py_iter patterns ;;
  '(items', s) <- for_each (correct_korean_pattern mapping) items (false, []) ;;
  match py_getitem data "patterns" with
  | Some _ =>
      data' <- py_setitem data "patterns" (put_items patterns items') ;;
      Some (data', s)
  | None => Some (data, s)
  end.

(** [correct_korean_romanizations]: the document is written when
    [corrections_made]; an exception is caught, nothing is written and
    [False] is returned. *)
Definition correct_korean_romanizations_with (mapping : list (pystr * pystr))
    (data : json) : outcome korean_correction :=
  match romanized_document mapping data with
  | Some (data', (corrections_made, file_corrections)) =>
      mk_outcome (if corrections_made then Some data' else None)
                 corrections_made file_corrections
  | None => mk_outcome None false []
  end.

Definition correct_korean_romanizations : json -> outcome korean_correction :=
  correct_korean_romanizations_with korean_mapping.

(** The stored document after a run: what was written, or what was there
    before. *)
Definition stored_after {L : Type} (before : json) (o : outcome L) : json :=
  match written o with
  | Some d => d
  | None => before
  end.

(* ================================================================== *)
(** * Tables read off the code, used to state its properties *)
(* ================================================================== *)

(** The compound technique names that [_split_technique_target] tests
    for, each with the technique and the target it returns. *)
Definition split_table : list (pystr * (pystr * pystr)) :=
  map (fun r => (str (fst r), (str (fst (snd r)), str (snd (snd r)))))
  [ ("Low Outer Forearm Block", ("Outer Forearm Block", "Low Section"));
    ("Middle Obverse Punch", ("Obverse Punch", "Middle Section"));
    ("High Obverse Punch", ("Obverse Punch", "High Section"));
    ("Middle Inner Forearm Block", ("Inner Forearm Block", "Middle Section"));
    ("High Obverse Block", ("Outer Forearm Block", "High Section"));
    ("Rising Block", ("Forearm Rising Block", "High Section")) ].

(** The target names that [_standardize_target] tests the lower-cased
    target against. *)
Definition low_names : list pystr := map str ["lower section"; "low section"].
Definition middle_names : list pystr := map str ["middle section"; "solar plexus"].
Definition high_names : list pystr :=
  map str ["upper section"; "high section"; "head level"].

(** The source keys of the entries of [keys_to_rename]. *)
Definition rename_sources (l : list (pystr * pystr * json)) : list pystr :=
  map (fun e => fst (fst e)) l.

(** No string occurs twice: what the keys of a Python dict satisfy. *)
Fixpoint distinct (keys : list pystr) : bool :=
  match keys with
  | [] => true
  | k :: rest => negb (str_mem k rest) && distinct rest
  end.

(** The entries of a table that name two different keys. *)
Definition renamings (m : mapping_table) : mapping_table :=
  filter (fun e => negb (str_eqb (fst e) (snd e))) m.

(** No key that a renaming writes is itself renamed by the table. *)
Definition chain_free (m : mapping_table) : bool :=
  forallb (fun e => negb (str_mem (snd e) (map fst (renamings m)))) (renamings m).

(** The keys a table names, on either side. *)
Definition table_keys (m : mapping_table) : list pystr := map fst m ++ map snd m.

(** The fields of an object whose key the table does not name. *)
Definition unrelated (m : mapping_table) (obj : dict) : dict :=
  filter (fun kv => negb (str_mem (fst kv) (table_keys m))) obj.

(** A source key that is in the object with an empty value. *)
Definition empty_source (obj : dict) (e : pystr * pystr) : bool :=
  match dict_get (fst e) obj with
  | Some v => negb (non_empty v)
  | None => false
  end.

(** A key that is in the object with a non-empty value. *)
Definition has_value (obj : dict) (k : pystr) : bool :=
  match dict_get k obj with
  | Some v => non_empty v
  | None => false
  end.

(** The first pass of [to_title_case] with the fuel it needs; the state
    [after_word] is kept for the texts that follow a word character. *)
Definition hyphen_pass (after_word : bool) (text : pystr) : pystr :=
  sub_hyphenated (List.length text) after_word text.

(** All characters are word characters. *)
Definition all_word (s : pystr) : bool := forallb is_word s.

(** No character is whitespace. *)
Definition no_space (s : pystr) : bool := forallb (fun c => negb (is_space c)) s.

(** The text is empty or starts with a character that is no word
    character: a word boundary follows a word. *)
Definition at_boundary (s : pystr) : bool :=
  match s with
  | [] => true
  | c :: _ => negb (is_word c)
  end.

(** A character at which the first pass starts afresh: no word character
    and no hyphen. *)
Definition is_separator (c : ascii) : bool := negb (is_word c) && negb (chr_eqb c "-").

(** What [split] returns: a word is not empty and holds no whitespace. *)
Definition is_token (w : pystr) : bool :=
  match w with
  | [] => false
  | _ => no_space w
  end.

(** A run of characters put before the words that follow it, if it is
    not empty. *)
Definition cons_token (w : pystr) (words : list pystr) : list pystr :=
  match w with
  | [] => words
  | _ => w :: words
  end.

(** A loop body that leaves what it has processed once as it is when it
    processes it again, whatever the loop's variables. *)
Definition settles {S : Type} (body : json -> S -> option (json * S)) : Prop :=
  forall x s x' s', body x s = Some (x', s') -> forall t, body x' t = Some (x', t).

(** A loop body that returns a string as it received it (a Python string
    cannot be changed in place). *)
Definition keeps_strings {S : Type} (body : json -> S -> option (json * S)) : Prop :=
  forall k s x' s', body (JStr k) s = Some (x', s') -> x' = JStr k.

(** A step into a document: the field of an object or the element of a
    list. *)
Inductive step : Type :=
| Key (k : pystr)
| Idx (i : nat).

(** The value a path leads to, if it leads anywhere. *)
Fixpoint at_path (path : list step) (v : json) : option json :=
  match path with
  | [] => Some v
  | Key k :: rest =>
      match v with
      | JObj d => match dict_get k d with
                  | Some x => at_path rest x
                  | None => None
                  end
      | _ => None
      end
  | Idx i :: rest =>
      match v with
      | JArr items => match nth_error items i with
                      | Some x => at_path rest x
                      | None => None
                      end
      | _ => None
      end
  end.

(** A value that holds no other value. *)
Definition scalar (v : json) : bool :=
  match v with
  | JArr _ | JObj _ => false
  | _ => true
  end.

(** Two steps that are the same up to a renaming of the table: the same
    index, the same key, or the old and the new key of an entry. *)
Inductive step_renamed (m : mapping_table) : step -> step -> Prop :=
| same_step (s : step) : step_renamed m s s
| renamed_key (old_key new_key : pystr) :
    In (old_key, new_key) m -> step_renamed m (Key old_key) (Key new_key).

(** A path none of whose keys the table names. *)
Definition avoids (m : mapping_table) (path : list step) : Prop :=
  forall k, In (Key k) path -> ~ In k (table_keys m).

(** The shape a migration keeps: a list keeps its length and the place of
    its elements; a field of the result is a field of the original under
    the same key or under the old key of an entry; a field whose key the
    table does not name stays. *)
#[warnings="-register-all"]
Inductive migrated (m : mapping_table) : json -> json -> Prop :=
| migrated_same (v : json) : migrated m v v
| migrated_list (items items' : list json) :
    Forall2 (migrated m) items items' -> migrated m (JArr items) (JArr items')
| migrated_object (d d' : dict) :
    (forall k v', dict_get k d' = Some v' ->
       exists k0 v, dict_get k0 d = Some v /\ (k0 = k \/ In (k0, k) m) /\ migrated m v v') ->
    (forall k v, ~ In k (table_keys m) -> dict_get k d = Some v ->
       exists v', dict_get k d' = Some v' /\ migrated m v v') ->
    migrated m (JObj d) (JObj d').

(** How the pair of a flag and a list of recorded changes moves on: the
    list grows at its end, and the flag is raised when it grows. *)
Definition extends {L : Type} (s s' : bool * list L) : Prop :=
  exists ext,
    snd s' = snd s ++ ext /\
    fst s' = (fst s || match ext with [] => false | _ => true end).

(** The same, with a property of every change that was added. *)
Definition extends_by {L : Type} (P : L -> Prop) (s s' : bool * list L) : Prop :=
  exists ext,
    snd s' = snd s ++ ext /\
    fst s' = (fst s || match ext with [] => false | _ => true end) /\
    Forall P ext.

(** An entry of [file_corrections] whose two values differ. *)
Definition real_change (e : correction) : Prop := c_old e <> c_new e.

(* ================================================================== *)
(** * fix-title-case.py: the other two file fixers *)
(* ================================================================== *)

(** The shape the three file fixers share: [if key in data: for entry in
    data[key]: ...], then the write when [changed]. *)
Definition fix_entries_file (key : pystr)
    (body : json -> bool * list casing_change ->
            option (json * (bool * list casing_change)))
    (data : json) : option (outcome casing_change) :=
  has <- py_in key data ;;
  '(data', (changed, lines)) <-
    (if has then
       entries <- py_getitem data key ;;
       items <- py_iter entries ;;
       '(items', s) <- for_each body items (false, []) ;;
       data' <- py_setitem data key (put_items entries items') ;;
       Some (data', s)
     else Some (data, (false, []))) ;;
  Some (mk_outcome (if changed then Some data' else None) changed lines).

(** The body of [for technique in data['techniques']]: the two
    properties are those of [technique['names']]. *)
Definition fix_technique (technique : json) (s : bool * list casing_change) :
    option (json * (bool * list casing_change)) :=
  has <- py_in "names" technique ;;
  if has then
    names <- py_getitem technique "names" ;;
    '(names', s') <- fix_term names s ;;
    technique' <- py_setitem technique "names" names' ;;
    Some (technique', s')
  else Some (technique, s).

(** [fix_techniques_file], from the parsed document. *)
Definition fix_techniques_file : json -> option (outcome casing_change) :=
  fix_entries_file "techniques" fix_technique.

(** [fix_vocabulary_file], from the parsed document. *)
Definition fix_vocabulary_file : json -> option (outcome casing_change) :=
  fix_entries_file "words" fix_term.

(* ================================================================== *)
(** * standardize_language_properties.py: the other file types *)
(* ================================================================== *)

(** [if key in data: for item in data[key]: body(item)] *)
Definition over_list (key : pystr) (body : json -> stats -> option (json * stats))
    (data : json) (st : stats) : option (json * stats) :=
  has <- py_in key data ;;
  if has then
    entries <- py_getitem data key ;;
    items <- py_iter entries ;;
    '(items', st') <- for_each body items st ;;
    data' <- py_setitem data key (put_items entries items') ;;
    Some (data', st')
  else Some (data, st).

(** [if key in obj: body(obj[key])], the body changing [obj[key]] in
    place. *)
Definition in_field (key : pystr) (body : json -> stats -> option (json * stats))
    (obj : json) (st : stats) : option (json * stats) :=
  has <- py_in key obj ;;
  if has then
    value <- py_getitem obj key ;;
    '(value', st') <- body value st ;;
    obj' <- py_setitem obj key value' ;;
    Some (obj', st')
  else Some (obj, st).

Definition vocabulary_mapping : mapping_table :=
  [(str "romanized", str "romanised")].

Definition action_mapping : mapping_table :=
  [(str "technique", str "english");
   (str "korean_name", str "romanised")].

Definition theory_mapping : mapping_table :=
  [(str "name", str "english");
   (str "korean", str "romanised")].

(** [standardize_terminology(data)] *)
Definition standardize_terminology : json -> stats -> option (json * stats) :=
  over_list "terminology" (rename_node terminology_mapping).

(** [standardize_techniques(data)]: the keys of [technique['names']] are
    renamed. *)
Definition standardize_techniques : json -> stats -> option (json * stats) :=
  over_list "techniques" (in_field "names" (rename_node techniques_mapping)).

(** [standardize_linework(data)] *)
Definition standardize_linework (data : json) (st : stats) : option (json * stats) :=
  Some (data, st).

(** [standardize_vocabulary(data)] *)
Definition standardize_vocabulary : json -> stats -> option (json * stats) :=
  over_list "words" (rename_node vocabulary_mapping).

(** [if action_type in step and step[action_type]:
    self._rename_keys(step[action_type], action_mapping)] *)
Definition rename_action (action_type : pystr) (step : json) (st : stats) :
    option (json * stats) :=
  has <- py_in action_type step ;;
  if has then
    action <- py_getitem step action_type ;;
    if truthy action then
      '(action', st') <- rename_node action_mapping action st ;;
      step' <- py_setitem step action_type action' ;;
      Some (step', st')
    else Some (step, st)
  else Some (step, st).

(** The body of [for step in sequence['steps']]. *)
Definition standardize_step (step : json) (st : stats) : option (json * stats) :=
  '(step1, st1) <- rename_action "attack" step st ;;
  '(step2, st2) <- rename_action "defense" step1 st1 ;;
  rename_action "counter" step2 st2.

(** [standardize_stepsparring(data)] *)
Definition standardize_stepsparring : json -> stats -> option (json * stats) :=
  over_list "sequences" (over_list "steps" standardize_step).

(** [if isinstance(item, dict): self._rename_keys(item, mapping)] *)
Definition rename_if_dict (item : json) (st : stats) : option (json * stats) :=
  match item with
  | JObj _ => rename_node theory_mapping item st
  | _ => Some (item, st)
  end.

(** [if isinstance(value, list): for item in value: ...] *)
Definition rename_in_list (value : json) (st : stats) : option (json * stats) :=
  match value with
  | JArr items =>
      '(items', st') <- for_each rename_if_dict items st ;;
      Some (JArr items', st')
  | _ => Some (value, st)
  end.

(** [for key, value in content.items(): body(value)], the body changing
    the value in place. *)
Fixpoint for_values (body : json -> stats -> option (json * stats))
    (fields : dict) (st : stats) : option (dict * stats) :=
  match fields with
  | [] => Some ([], st)
  | (key, value) :: rest =>
      '(value', st1) <- body value st ;;
      '(rest', st2) <- for_values body rest st1 ;;
      Some ((key, value') :: rest', st2)
  end.

(** What [standardize_theory] does with [content = section['content']];
    [content.items()] is an [AttributeError] when the content is no
    dict. *)
Definition standardize_content (content : json) (st : stats) : option (json * stats) :=
  '(content1, st1) <- over_list "tenets" (rename_node theory_mapping) content st ;;
  '(content2, st2) <-
    over_list "greeting_terms" (rename_node theory_mapping) content1 st1 ;;
  match content2 with
  | JObj fields =>
      '(fields', st3) <- for_values rename_in_list fields st2 ;;
      Some (JObj fields', st3)
  | _ => None
  end.

(** [standardize_theory(data)] *)
Definition standardize_theory : json -> stats -> option (json * stats) :=
  over_list "theory_sections" (in_field "content" standardize_content).

(** [detect_file_type(file_path)], from [str(file_path)]. *)
Definition detect_file_type (path_str : pystr) : pystr :=
  if contains (str "/Terminology/") path_str then str "terminology"
  else if contains (str "/Techniques/") path_str then str "techniques"
  else if contains (str "/LineWork/") path_str then str "linework"
  else if contains (str "/Patterns/") path_str then str "patterns"
  else if contains (str "/StepSparring/") path_str then str "stepsparring"
  else if contains (str "/Theory/") path_str then str "theory"
  else if contains (str "/VocabularyBuilder/") path_str then str "vocabulary"
  else str "unknown".

(** The chain [if file_type == 'terminology': ... else: return False,
    ...] of [process_file]. *)
Definition standardize_as (file_type : pystr) :
    option (json -> stats -> option (json * stats)) :=
  if str_eqb file_type (str "terminology") then Some standardize_terminology
  else if str_eqb file_type (str "techniques") then Some standardize_techniques
  else if str_eqb file_type (str "linework") then Some standardize_linework
  else if str_eqb file_type (str "patterns") then Some standardize_patterns
  else if str_eqb file_type (str "stepsparring") then Some standardize_stepsparring
  else if str_eqb file_type (str "theory") then Some standardize_theory
  else if str_eqb file_type (str "vocabulary") then Some standardize_vocabulary
  else None.

(** [self.stats]: the two counters of [_rename_keys] and the two that
    [process_file] increments. *)
Record run_stats : Type := mk_run_stats {
  counters : stats;
  files_written : nat;
  files_analyzed : nat
}.

(** What [process_file] leaves behind: the document it wrote (if it
    wrote), the pair it returned and [self.stats]. *)
Record file_result : Type := mk_file_result {
  fr_written : option json;
  fr_success : bool;
  fr_message : pystr;
  fr_stats : run_stats
}.

(** [s.upper()] *)
Definition upper (s : pystr) : pystr := map to_upper s.

(** The text of a count in an f-string. *)
Definition nat_text (n : nat) : pystr := str (NilZero.string_of_uint (Nat.to_uint n)).

(** [process_file(file_path)], from the path and the parsed document.
    [None] stands for the [except] branch: the function returns [False]
    and the text of the exception, nothing is written, and the counters
    are as the aborted transformation left them. *)
Definition process_file (path_str : pystr) (data : json) (dry_run : bool)
    (rs : run_stats) : option file_result :=
  let file_type := detect_file_type path_str in
  let initial_renames := properties_renamed (counters rs) in
  match standardize_as file_type with
  | None =>
      Some (mk_file_result None false (str "Unknown file type: " ++ file_type) rs)
  | Some standardize =>
      '(data', st') <- standardize data (counters rs) ;;
      let changes_count := properties_renamed st' - initial_renames in
      let status_msg :=
        str "✓ " ++ upper file_type ++
        (if 0 <? changes_count
         then str " (" ++ nat_text changes_count ++ str " properties renamed)"
         else []) in
      Some (if dry_run
            then mk_file_result None true status_msg
                   (mk_run_stats st' (files_written rs) (S (files_analyzed rs)))
            else mk_file_result (Some data') true status_msg
                   (mk_run_stats st' (S (files_written rs)) (files_analyzed rs)))
  end.

(* ================================================================== *)
(** * update_patterns_from_csv.py: the grouping of [apply_corrections] *)
(* ================================================================== *)

(** [key.split('_')[0]] *)
Definition key_pattern (key : pystr) : pystr := hd [] (split_on "_" key).

(** [group[key] = correction] *)
Fixpoint corr_set (key : pystr) (correction : csv_correction)
    (group : list (pystr * csv_correction)) : list (pystr * csv_correction) :=
  match group with
  | [] => [(key, correction)]
  | (k, c) :: rest =>
      if str_eqb key k then (k, correction) :: rest
      else (k, c) :: corr_set key correction rest
  end.

(** [patterns_to_correct.get(pattern_name)] *)
Fixpoint group_get (pattern_name : pystr)
    (groups : list (pystr * list (pystr * csv_correction))) :
    option (list (pystr * csv_correction)) :=
  match groups with
  | [] => None
  | (p, g) :: rest => if str_eqb pattern_name p then Some g else group_get pattern_name rest
  end.

(** The body of the grouping loop: the group of the pattern is created
    when it is not there, and the correction is put into it. *)
Fixpoint group_add (pattern_name key : pystr) (correction : csv_correction)
    (groups : list (pystr * list (pystr * csv_correction))) :
    list (pystr * list (pystr * csv_correction)) :=
  match groups with
  | [] => [(pattern_name, corr_set key correction [])]
  | (p, g) :: rest =>
      if str_eqb pattern_name p then (p, corr_set key correction g) :: rest
      else (p, g) :: group_add pattern_name key correction rest
  end.

(** [patterns_to_correct], as the first loop of [apply_corrections]
    leaves it; each group is then passed to [update_pattern_file] with
    its pattern name. *)
Definition patterns_to_correct (corrections : list (pystr * csv_correction)) :
    list (pystr * list (pystr * csv_correction)) :=
  fold_left (fun groups kc => group_add (key_pattern (fst kc)) (fst kc) (snd kc) groups)
            corrections [].

(** The correction a key finds through the groups. *)
Definition grouped_find (key : pystr)
    (groups : list (pystr * list (pystr * csv_correction))) : option csv_correction :=
  match group_get (key_pattern key) groups with
  | Some g => find_correction key g
  | None => None
  end.

(* ================================================================== *)
(** * More notions used to state the properties *)
(* ================================================================== *)

(** The recorded corrections applied to a move, in order. *)
Definition replay (ext : list correction) (move : dict) : dict :=
  fold_left (fun d e => dict_set (c_field e) (c_new e) d) ext move.

(** The fields the Chon-Ji and Dan-Gun corrector writes. *)
Definition corrected_fields : list pystr := map str ["stance"; "technique"; "target"].

(** A line of a file fixer: a value and what [to_title_case] returns for
    it, unequal by Python's [!=]. *)
Definition casing_fixed (e : casing_change) : Prop :=
  snd e = to_title_case_value (fst e) /\ json_eqb (fst e) (snd e) = false.

(** An entry of a table that renames a field the object has with a
    non-empty value. *)
Definition renamed_source (obj : dict) (e : pystr * pystr) : bool :=
  has_value obj (fst e) && negb (str_eqb (fst e) (snd e)).

(** A loop body leaves [x] and the loop's variables as they are. *)
Definition fixed_by {S : Type} (body : json -> S -> option (json * S)) (x : json) : Prop :=
  forall t, body x t = Some (x, t).

(** A container over which a loop with this body changes nothing. *)
Definition quiet_value {S : Type} (body : json -> S -> option (json * S))
    (container : json) : Prop :=
  exists items,
    py_iter container = Some items /\
    Forall (fixed_by body) items /\
    put_items container items = container.

(** The field [key] of an object, if it is there with a true value, is
    left as it is by the body. *)
Definition settled_at {S : Type} (body : json -> S -> option (json * S))
    (key : pystr) (fields : dict) : Prop :=
  forall v, dict_get key fields = Some v -> truthy v = true -> fixed_by body v.

(** The renamings [process_file] can make in a file of a type: the
    tables of the type's function. *)
Definition file_type_table (file_type : pystr) : mapping_table :=
  if str_eqb file_type (str "terminology") then terminology_mapping
  else if str_eqb file_type (str "techniques") then techniques_mapping
  else if str_eqb file_type (str "patterns") then pattern_mapping ++ move_mapping
  else if str_eqb file_type (str "stepsparring") then action_mapping
  else if str_eqb file_type (str "theory") then theory_mapping
  else if str_eqb file_type (str "vocabulary") then vocabulary_mapping
  else [].

(** The key [k] is in both objects or in neither, and its values are
    related by the migration. *)
Definition related_at (m : mapping_table) (k : pystr) (fields fields' : dict) : Prop :=
  match dict_get k fields with
  | Some v => exists v', dict_get k fields' = Some v' /\ migrated m v v'
  | None => dict_get k fields' = None
  end.

(** Two objects with the same keys whose values are related by the
    migration, key by key. *)
Definition fieldwise (m : mapping_table) (fields fields' : dict) : Prop :=
  forall k, related_at m k fields fields'.

(** A line of a file fixer whose original is an ASCII text with its
    parentheses in order. *)
Definition ordered_change (e : casing_change) : Prop :=
  exists s, fst e = JStr s /\ isascii s = true /\ parens_ordered s = true.

(** A loop body that leaves what it returned as it is, when the changes
    it recorded have the property [P]. *)
Definition settles_when {L : Type} (P : L -> Prop)
    (body : json -> bool * list L -> option (json * (bool * list L))) : Prop :=
  forall x s x' s',
    body x s = Some (x', s') ->
    exists ext, snd s' = snd s ++ ext /\ (Forall P ext -> fixed_by body x').

(* ================================================================== *)
(** * Characters and strings: basic facts *)
(* ================================================================== *)

(** Case analysis over the 256 characters. *)
Ltac by_chars c :=
  destruct c as [[] [] [] [] [] [] [] []]; try reflexivity; try discriminate.

Lemma chr_eqb_eq (a b : ascii) : chr_eqb a b = true <-> a = b.
Proof. apply Ascii.eqb_eq. Qed.

Lemma chr_eqb_refl (a : ascii) : chr_eqb a a = true.
Proof. apply Ascii.eqb_refl. Qed.

Lemma chr_eqb_neq (a b : ascii) : chr_eqb a b = false <-> a <> b.
Proof. apply Ascii.eqb_neq. Qed.

Lemma str_eqb_eq (a b : pystr) : str_eqb a b = true <-> a = b.
Proof.
  revert b. induction a as [|x a IH]; intros [|y b]; simpl; split; intro H;
    try reflexivity; try discriminate.
  - apply andb_true_iff in H. destruct H as [H1 H2].
    apply chr_eqb_eq in H1. apply IH in H2. now subst.
  - injection H as -> ->. rewrite chr_eqb_refl. simpl. now apply IH.
Qed.

Lemma str_eqb_refl (a : pystr) : str_eqb a a = true.
Proof. now apply str_eqb_eq. Qed.

Lemma str_eqb_neq (a b : pystr) : str_eqb a b = false <-> a <> b.
Proof.
  split.
  - intros H E. apply str_eqb_eq in E. congruence.
  - intro H. destruct (str_eqb a b) eqn:E; [|reflexivity].
    apply str_eqb_eq in E. contradiction.
Qed.

Lemma str_eqb_sym (a b : pystr) : str_eqb a b = str_eqb b a.
Proof.
  destruct (str_eqb a b) eqn:E.
  - apply str_eqb_eq in E. subst. symmetry. apply str_eqb_refl.
  - apply str_eqb_neq in E. symmetry. apply str_eqb_neq. congruence.
Qed.

Lemma to_lower_idem (c : ascii) : to_lower (to_lower c) = to_lower c.
Proof. by_chars c. Qed.

Lemma to_lower_upper (c : ascii) : to_lower (to_upper c) = to_lower c.
Proof. by_chars c. Qed.

Lemma to_upper_lower (c : ascii) : to_upper (to_lower c) = to_upper c.
Proof. by_chars c. Qed.

Lemma to_upper_idem (c : ascii) : to_upper (to_upper c) = to_upper c.
Proof. by_chars c. Qed.

Lemma is_word_lower (c : ascii) : is_word (to_lower c) = is_word c.
Proof. by_chars c. Qed.

Lemma is_word_upper (c : ascii) : is_word (to_upper c) = is_word c.
Proof. by_chars c. Qed.

Lemma is_space_lower (c : ascii) : is_space (to_lower c) = is_space c.
Proof. by_chars c. Qed.

Lemma is_space_upper (c : ascii) : is_space (to_upper c) = is_space c.
Proof. by_chars c. Qed.

Lemma is_upper_to_upper (c : ascii) :
  is_upper (to_upper c) = is_upper c || is_lower c.
Proof. by_chars c. Qed.

Lemma is_upper_fixed (c : ascii) : is_upper c = true -> to_upper c = c.
Proof. by_chars c. Qed.

Lemma not_letter_fixed (c : ascii) :
  is_upper c = false -> is_lower c = false -> to_upper c = c /\ to_lower c = c.
Proof. by_chars c; split; reflexivity. Qed.

Lemma space_not_word (c : ascii) : is_space c = true -> is_word c = false.
Proof. by_chars c. Qed.

Lemma digit_is_word (c : ascii) : is_digit c = true -> is_word c = true.
Proof. by_chars c. Qed.

(** A character that has no case keeps its identity under both case
    maps; [keeps c] says so for a given character [c]. *)
Lemma to_lower_eq_caseless (c x : ascii) :
  is_upper c = false -> is_lower c = false ->
  (chr_eqb c (to_lower x) = chr_eqb c x) /\ (chr_eqb c (to_upper x) = chr_eqb c x).
Proof.
  intros Hu Hl.
  assert (forall y, to_lower y = c -> y = c).
  { intros y E. subst c. revert Hu Hl. by_chars y. }
  assert (forall y, to_upper y = c -> y = c).
  { intros y E. subst c. revert Hu Hl. by_chars y. }
  split.
  - destruct (chr_eqb c x) eqn:E.
    + apply chr_eqb_eq in E. subst x. apply chr_eqb_eq.
      symmetry. now apply not_letter_fixed.
    + apply chr_eqb_neq in E. apply chr_eqb_neq. intro E'. apply E.
      symmetry. apply H. now symmetry.
  - destruct (chr_eqb c x) eqn:E.
    + apply chr_eqb_eq in E. subst x. apply chr_eqb_eq.
      symmetry. now apply not_letter_fixed.
    + apply chr_eqb_neq in E. apply chr_eqb_neq. intro E'. apply E.
      symmetry. apply H0. now symmetry.
Qed.

Lemma lower_idem (s : pystr) : lower (lower s) = lower s.
Proof.
  unfold lower. rewrite map_map. apply map_ext. intro c. apply to_lower_idem.
Qed.

Lemma lower_app (a b : pystr) : lower (a ++ b) = lower a ++ lower b.
Proof. apply map_app. Qed.

Lemma lower_length (s : pystr) : List.length (lower s) = List.length s.
Proof. apply length_map. Qed.

Lemma lower_capitalize (s : pystr) : lower (capitalize s) = lower s.
Proof.
  destruct s as [|c r]; [reflexivity|]. simpl.
  now rewrite to_lower_upper, lower_idem.
Qed.

Lemma capitalize_idem (s : pystr) : capitalize (capitalize s) = capitalize s.
Proof.
  destruct s as [|c r]; [reflexivity|]. simpl.
  now rewrite to_upper_idem, lower_idem.
Qed.

(** [capitalize] and [lower] see the text up to case only. *)
Lemma capitalize_of_lower (s t : pystr) :
  lower s = lower t -> capitalize s = capitalize t.
Proof.
  destruct s as [|c r], t as [|d u]; simpl; intro H; try discriminate; [reflexivity|].
  unfold lower in *. simpl in H. injection H as Hc Hr. rewrite Hr. f_equal.
  rewrite <- (to_upper_lower c), <- (to_upper_lower d). now rewrite Hc.
Qed.

Lemma capitalize_length (s : pystr) : List.length (capitalize s) = List.length s.
Proof. destruct s; simpl; [reflexivity|]. now rewrite lower_length. Qed.

Lemma str_mem_In (x : pystr) (xs : list pystr) : str_mem x xs = true <-> In x xs.
Proof.
  unfold str_mem. rewrite existsb_exists. split.
  - intros [y [Hy E]]. apply str_eqb_eq in E. now subst.
  - intro H. exists x. split; [assumption | apply str_eqb_refl].
Qed.

Lemma str_mem_not_In (x : pystr) (xs : list pystr) : str_mem x xs = false <-> ~ In x xs.
Proof.
  rewrite <- str_mem_In. destruct (str_mem x xs); split; intro H;
    try reflexivity; try discriminate; try congruence.
Qed.

(* ================================================================== *)
(** * The text normaliser on the specified examples *)
(* ================================================================== *)

(** C2.  [to_title_case] gives "Low Outer Forearm Block" and "3-Step
    Sparring" on the first two inputs.  On "grab (opponent's head)" the
    parenthesis spans two words of the split, neither of which holds both
    parentheses, so the last word is capitalised: the result is
    "Grab (opponent's Head)", not "Grab (opponent's head)". *)
Theorem to_title_case_examples :
  to_title_case "low outer forearm block" = "Low Outer Forearm Block" /\
  to_title_case "3-step sparring" = "3-Step Sparring" /\
  to_title_case "grab (opponent's head)" = "Grab (opponent's Head)" /\
  to_title_case "grab (opponent's head)" <> "Grab (opponent's head)" /\
  split "grab (opponent's head)" = [str "grab"; str "(opponent's"; str "head)"] /\
  title_word 2 "head)" = "Head)" /\
  title_word 1 "(HEAD)x-Y" = "(head)x-Y".
Proof.
  repeat match goal with |- _ /\ _ => split end; try reflexivity.
  intro H. discriminate H.
Qed.

(* ================================================================== *)
(** * The technique/target splitter *)
(* ================================================================== *)

Lemma standardize_target_str (target : pystr) :
  _standardize_target (JStr target) =
  Some (JStr (if str_mem (lower target) low_names then str "Low Section"
              else if str_mem (lower target) middle_names then str "Middle Section"
              else if str_mem (lower target) high_names then str "High Section"
              else target)).
Proof.
  unfold _standardize_target.
  destruct target as [|c r]; [reflexivity|].
  cbn [truthy negb orb].
  destruct (json_eqb (JStr (c :: r)) (JStr (str "null"))) eqn:E.
  - cbn [json_eqb] in E. apply str_eqb_eq in E. rewrite E. reflexivity.
  - fold low_names middle_names high_names.
    destruct (str_mem (lower (c :: r)) low_names); [reflexivity|].
    destruct (str_mem (lower (c :: r)) middle_names); [reflexivity|].
    destruct (str_mem (lower (c :: r)) high_names); reflexivity.
Qed.

Lemma split_miss (technique : pystr) (current_target : json) :
  ~ In technique (map fst split_table) ->
  _split_technique_target (JStr technique) current_target =
  (new_target <- _standardize_target current_target ;; Some (JStr technique, new_target)).
Proof.
  intro H. unfold _split_technique_target. cbn [json_eqb].
  repeat match goal with
  | |- context [str_eqb technique ?l] =>
      let E := fresh "E" in
      destruct (str_eqb technique l) eqn:E;
      [ apply str_eqb_eq in E; exfalso; apply H; rewrite E; simpl; tauto | ]
  end.
  reflexivity.
Qed.

(** C4.  [_split_technique_target] on two strings: a technique of the
    table gives the table's pair whatever the target was; any other
    technique is returned as it is, with the target mapped to "Low
    Section", "Middle Section" or "High Section" when its lower-cased form
    is one of the known names, and returned unchanged otherwise (so for the
    empty string and for "null"). *)
Theorem split_technique_target_correct (technique target : pystr) :
  (forall bare area,
      In (technique, (bare, area)) split_table ->
      _split_technique_target (JStr technique) (JStr target)
      = Some (JStr bare, JStr area)) /\
  (~ In technique (map fst split_table) ->
   (In (lower target) low_names ->
    _split_technique_target (JStr technique) (JStr target)
    = Some (JStr technique, JStr (str "Low Section"))) /\
   (In (lower target) middle_names ->
    _split_technique_target (JStr technique) (JStr target)
    = Some (JStr technique, JStr (str "Middle Section"))) /\
   (In (lower target) high_names ->
    _split_technique_target (JStr technique) (JStr target)
    = Some (JStr technique, JStr (str "High Section"))) /\
   (~ In (lower target) (low_names ++ middle_names ++ high_names) ->
    _split_technique_target (JStr technique) (JStr target)
    = Some (JStr technique, JStr target)) /\
   _split_technique_target (JStr technique) (JStr [])
   = Some (JStr technique, JStr []) /\
   _split_technique_target (JStr technique) (JStr (str "null"))
   = Some (JStr technique, JStr (str "null"))) /\
  _split_technique_target (JStr (str "Low Outer Forearm Block")) (JStr [])
  = Some (JStr (str "Outer Forearm Block"), JStr (str "Low Section")) /\
  _split_technique_target (JStr (str "Front Kick")) (JStr (str "middle section"))
  = Some (JStr (str "Front Kick"), JStr (str "Middle Section")).
Proof.
  split; [|split; [|split; reflexivity]].
  - intros bare area H. unfold split_table in H. simpl in H.
    repeat (destruct H as [H|H]; [injection H as <- <- <-; reflexivity|]).
    contradiction.
  - intro Hmiss.
    assert (Hlow : forall x, In x low_names -> ~ In x middle_names /\ ~ In x high_names).
    { intros x Hx. simpl in Hx.
      repeat (destruct Hx as [<-|Hx]; [split; intro F; simpl in F;
        repeat (destruct F as [F|F]; [discriminate F|]); contradiction|]).
      contradiction. }
    assert (Hmid : forall x, In x middle_names -> ~ In x low_names /\ ~ In x high_names).
    { intros x Hx. simpl in Hx.
      repeat (destruct Hx as [<-|Hx]; [split; intro F; simpl in F;
        repeat (destruct F as [F|F]; [discriminate F|]); contradiction|]).
      contradiction. }
    assert (Hhigh : forall x, In x high_names -> ~ In x low_names /\ ~ In x middle_names).
    { intros x Hx. simpl in Hx.
      repeat (destruct Hx as [<-|Hx]; [split; intro F; simpl in F;
        repeat (destruct F as [F|F]; [discriminate F|]); contradiction|]).
      contradiction. }
    rewrite !(split_miss technique _ Hmiss), !standardize_target_str.
    cbn [bind].
    repeat split.
    + intro H. apply str_mem_In in H. now rewrite H.
    + intro H. destruct (Hmid _ H) as [N1 _].
      apply str_mem_not_In in N1. apply str_mem_In in H. now rewrite N1, H.
    + intro H. destruct (Hhigh _ H) as [N1 N2].
      apply str_mem_not_In in N1. apply str_mem_not_In in N2.
      apply str_mem_In in H. now rewrite N1, N2, H.
    + intro H. rewrite !in_app_iff in H.
      assert (N1 : ~ In (lower target) low_names) by tauto.
      assert (N2 : ~ In (lower target) middle_names) by tauto.
      assert (N3 : ~ In (lower target) high_names) by tauto.
      apply str_mem_not_In in N1. apply str_mem_not_In in N2.
      apply str_mem_not_In in N3. now rewrite N1, N2, N3.
Qed.

(** The splitter at "Rising Block" (in the table, the target "groin" is
    dropped), and at "Front Kick" (not in the table) with the targets
    "SOLAR Plexus" and "groin". *)
Lemma split_technique_target_witness :
  _split_technique_target (JStr (str "Rising Block")) (JStr (str "groin"))
  = Some (JStr (str "Forearm Rising Block"), JStr (str "High Section")) /\
  _split_technique_target (JStr (str "Front Kick")) (JStr (str "SOLAR Plexus"))
  = Some (JStr (str "Front Kick"), JStr (str "Middle Section")) /\
  _split_technique_target (JStr (str "Front Kick")) (JStr (str "groin"))
  = Some (JStr (str "Front Kick"), JStr (str "groin")).
Proof.
  assert (Hmiss : ~ In (str "Front Kick") (map fst split_table)).
  { simpl. intro F. repeat (destruct F as [F|F]; [discriminate F|]). exact F. }
  split; [|split].
  - destruct (split_technique_target_correct "Rising Block" "groin") as [H _].
    apply H. simpl. tauto.
  - destruct (split_technique_target_correct "Front Kick" "SOLAR Plexus") as [_ [H _]].
    destruct (H Hmiss) as [_ [Hm _]]. apply Hm. simpl. tauto.
  - destruct (split_technique_target_correct "Front Kick" "groin") as [_ [H _]].
    destruct (H Hmiss) as [_ [_ [_ [Ho _]]]]. apply Ho.
    simpl. intro F. repeat (destruct F as [F|F]; [discriminate F|]). exact F.
Defined.

(* ================================================================== *)
(** * The value standardisation of the CSV applier *)
(* ================================================================== *)

Lemma digits_no_degree (s : pystr) :
  forallb is_digit s = true -> contains degree s = false.
Proof.
  induction s as [|x s IH]; intro H; [reflexivity|].
  simpl in H. apply andb_true_iff in H. destruct H as [Hx Hs].
  cbn [contains]. rewrite (IH Hs), orb_false_r.
  change degree with ["194"%char; "176"%char]. cbn [startswith].
  destruct (chr_eqb "194" x) eqn:E; [|reflexivity].
  apply chr_eqb_eq in E. subst x. discriminate Hx.
Qed.

Lemma digits_rev (s : pystr) :
  forallb is_digit s = true -> forallb is_digit (rev s) = true.
Proof.
  rewrite !forallb_forall. intros H x Hx. apply H. now apply in_rev.
Qed.

Lemma digits_not_endswith_degree (s : pystr) :
  forallb is_digit s = true -> endswith degree s = false.
Proof.
  intro H. apply digits_rev in H. unfold endswith.
  change (rev degree) with ["176"%char; "194"%char].
  destruct (rev s) as [|x r]; [reflexivity|].
  simpl in H. apply andb_true_iff in H. destruct H as [Hx _].
  cbn [startswith].
  destruct (chr_eqb "176" x) eqn:E; [|reflexivity].
  apply chr_eqb_eq in E. subst x. discriminate Hx.
Qed.

Lemma isdigit_forallb (s : pystr) : isdigit s = true -> forallb is_digit s = true.
Proof. destruct s; [discriminate | trivial]. Qed.

(** The claim as the specification words it fails at "Walking Stance": a
    qualifier and the word "Stance" with no hyphen, which
    [standardize_values] keeps as it is. *)
Lemma standardize_values_keeps_walking_stance :
  stance (standardize_values (mk_csv [] [] "Walking Stance" [] [])) = "Walking Stance" /\
  has_chr "-" (stance (standardize_values (mk_csv [] [] "Walking Stance" [] []))) = false /\
  stance (standardize_values (mk_csv [] [] "Sitting Stance" [] [])) = "Sitting Stance".
Proof. repeat split. Qed.

(** C5 (amended).  [standardize_values]: a movement made of digits gets
    the degree sign, except "90", which becomes "Left 90" with the degree
    sign; a movement that holds a degree sign and the movement "-" are kept;
    a stance that holds "L Stance" and no hyphen has every "L Stance"
    replaced by "L-stance", and every other stance is kept. *)
Theorem standardize_values_correct (c : csv_correction) :
  (isdigit (movement c) = true -> movement c <> str "90" ->
   movement (standardize_values c) = movement c ++ degree) /\
  (movement c = str "90" ->
   movement (standardize_values c) = str "Left 90" ++ degree) /\
  (contains degree (movement c) = true ->
   movement (standardize_values c) = movement c) /\
  (movement c = str "-" -> movement (standardize_values c) = str "-") /\
  (contains (str "L Stance") (stance c) = true -> has_chr "-" (stance c) = false ->
   stance (standardize_values c)
   = replace (str "L Stance") (str "L-stance") (stance c)) /\
  (stance c = str "L Stance" -> stance (standardize_values c) = str "L-stance") /\
  (contains (str "L Stance") (stance c) = false \/ has_chr "-" (stance c) = true ->
   stance (standardize_values c) = stance c).
Proof.
  destruct c as [d m s t g]. cbn [movement stance standardize_values].
  repeat match goal with |- _ /\ _ => split end.
  - intros Hd Hn. unfold standardize_movement.
    destruct (str_eqb m (str "-")) eqn:E1.
    { apply str_eqb_eq in E1. subst m. discriminate Hd. }
    rewrite Hd.
    destruct (str_eqb m (str "90")) eqn:E2.
    { apply str_eqb_eq in E2. contradiction. }
    now rewrite (digits_not_endswith_degree m (isdigit_forallb m Hd)).
  - intros ->. reflexivity.
  - intro Hc. unfold standardize_movement.
    destruct (str_eqb m (str "-")) eqn:E1.
    { apply str_eqb_eq in E1. now subst m. }
    destruct (isdigit m) eqn:Hd.
    { apply isdigit_forallb, digits_no_degree in Hd. congruence. }
    rewrite Hc. cbn [negb].
    now destruct (negb (endswith degree m) && _).
  - intros ->. reflexivity.
  - intros H1 H2. unfold standardize_stance. now rewrite H1, H2.
  - intros ->. reflexivity.
  - intro H. unfold standardize_stance.
    destruct H as [H|H]; rewrite H; cbn [negb andb]; try rewrite andb_false_r;
      now destruct (str_eqb s (str "Walking Stance")).
Qed.

(** The movements "180", "90", "Left 90" with its degree sign and "-",
    and the stances "Left L Stance" and "Walking Stance". *)
Lemma standardize_values_witness :
  movement (standardize_values (mk_csv [] "180" "Left L Stance" [] []))
  = str "180" ++ degree /\
  movement (standardize_values (mk_csv [] "90" "L Stance" [] []))
  = str "Left 90" ++ degree /\
  movement (standardize_values (mk_csv [] "Left 90°" "Walking Stance" [] []))
  = str "Left 90°" /\
  movement (standardize_values (mk_csv [] "-" [] [] [])) = str "-" /\
  stance (standardize_values (mk_csv [] "180" "Left L Stance" [] []))
  = str "Left L-stance" /\
  stance (standardize_values (mk_csv [] "90" "L Stance" [] [])) = str "L-stance" /\
  stance (standardize_values (mk_csv [] "Left 90°" "Walking Stance" [] []))
  = str "Walking Stance".
Proof.
  pose proof (standardize_values_correct (mk_csv [] "180" "Left L Stance" [] [])) as A.
  pose proof (standardize_values_correct (mk_csv [] "90" "L Stance" [] [])) as B.
  pose proof (standardize_values_correct (mk_csv [] "Left 90°" "Walking Stance" [] [])) as C.
  pose proof (standardize_values_correct (mk_csv [] "-" [] [] [])) as D.
  destruct A as [A1 [_ [_ [_ [A5 _]]]]].
  destruct B as [_ [B2 [_ [_ [_ [B6 _]]]]]].
  destruct C as [_ [_ [C3 [_ [_ [_ C7]]]]]].
  destruct D as [_ [_ [_ [D4 _]]]].
  repeat match goal with |- _ /\ _ => split end.
  - apply A1; [reflexivity | discriminate].
  - apply B2. reflexivity.
  - apply C3. reflexivity.
  - apply D4. reflexivity.
  - apply A5; reflexivity.
  - apply B6. reflexivity.
  - apply C7. left. reflexivity.
Defined.

(* ================================================================== *)
(** * Dicts *)
(* ================================================================== *)

Lemma get_set (k k' : pystr) (v : json) (d : dict) :
  dict_get k (dict_set k' v d) = if str_eqb k k' then Some v else dict_get k d.
Proof.
  induction d as [|[k0 v0] d IH]; simpl.
  - reflexivity.
  - destruct (str_eqb k' k0) eqn:E1; simpl.
    + apply str_eqb_eq in E1. subst k0.
      now destruct (str_eqb k k').
    + rewrite IH. destruct (str_eqb k k0) eqn:E2; [|reflexivity].
      apply str_eqb_eq in E2. subst k0.
      now rewrite str_eqb_sym, E1.
Qed.

Lemma get_remove (k k' : pystr) (d : dict) :
  dict_get k (dict_remove k' d) = if str_eqb k k' then None else dict_get k d.
Proof.
  unfold dict_remove. induction d as [|[k0 v0] d IH]; simpl.
  - now destruct (str_eqb k k').
  - destruct (str_eqb k' k0) eqn:E1; simpl.
    + rewrite IH. destruct (str_eqb k k') eqn:E2; [reflexivity|].
      apply str_eqb_eq in E1. subst k0. now rewrite E2.
    + rewrite IH. destruct (str_eqb k k0) eqn:E2; [|reflexivity].
      apply str_eqb_eq in E2. subst k0. now rewrite str_eqb_sym, E1.
Qed.

Lemma get_set_same (k : pystr) (v : json) (d : dict) :
  dict_get k (dict_set k v d) = Some v.
Proof. now rewrite get_set, str_eqb_refl. Qed.

Lemma get_set_other (k k' : pystr) (v : json) (d : dict) :
  k <> k' -> dict_get k (dict_set k' v d) = dict_get k d.
Proof. intro H. apply str_eqb_neq in H. now rewrite get_set, H. Qed.

Lemma get_remove_same (k : pystr) (d : dict) : dict_get k (dict_remove k d) = None.
Proof. now rewrite get_remove, str_eqb_refl. Qed.

Lemma get_remove_other (k k' : pystr) (d : dict) :
  k <> k' -> dict_get k (dict_remove k' d) = dict_get k d.
Proof. intro H. apply str_eqb_neq in H. now rewrite get_remove, H. Qed.

(** Writing the value a key already has changes nothing. *)
Lemma set_unchanged (k : pystr) (v : json) (d : dict) :
  dict_get k d = Some v -> dict_set k v d = d.
Proof.
  induction d as [|[k0 v0] d IH]; simpl; [discriminate|].
  destruct (str_eqb k k0) eqn:E.
  - intro H. injection H as ->. reflexivity.
  - intro H. now rewrite IH.
Qed.

(** Removing a key that is not there changes nothing. *)
Lemma remove_absent (k : pystr) (d : dict) :
  dict_get k d = None -> dict_remove k d = d.
Proof.
  unfold dict_remove. induction d as [|[k0 v0] d IH]; simpl; [reflexivity|].
  destruct (str_eqb k k0) eqn:E; [discriminate|].
  intro H. simpl. now rewrite IH.
Qed.

(** A filter on keys does not see a key it rejects being written or
    removed. *)
Lemma filter_set (f : pystr -> bool) (k : pystr) (v : json) (d : dict) :
  f k = false ->
  filter (fun kv => f (fst kv)) (dict_set k v d) = filter (fun kv => f (fst kv)) d.
Proof.
  intro H. induction d as [|[k0 v0] d IH]; simpl.
  - now rewrite H.
  - destruct (str_eqb k k0) eqn:E; simpl.
    + apply str_eqb_eq in E. subst k0. now rewrite H.
    + now rewrite IH.
Qed.

Lemma filter_remove (f : pystr -> bool) (k : pystr) (d : dict) :
  f k = false ->
  filter (fun kv => f (fst kv)) (dict_remove k d) = filter (fun kv => f (fst kv)) d.
Proof.
  intro H. unfold dict_remove. induction d as [|[k0 v0] d IH]; simpl; [reflexivity|].
  destruct (str_eqb k k0) eqn:E; simpl.
  - apply str_eqb_eq in E. subst k0. now rewrite H.
  - now rewrite IH.
Qed.

Lemma del_some (k : pystr) (d : dict) (v : json) :
  dict_get k d = Some v -> dict_del k d = Some (dict_remove k d).
Proof. intro H. unfold dict_del, dict_has. now rewrite H. Qed.

Lemma del_inv (k : pystr) (d d' : dict) :
  dict_del k d = Some d' -> d' = dict_remove k d.
Proof.
  unfold dict_del. destruct (dict_has k d); [|discriminate]. now intros [= <-].
Qed.

(* ================================================================== *)
(** * [_rename_keys]: the two loops *)
(* ================================================================== *)

(** What the first loop leaves in the object: a field is there with the
    value it had, and a source key that is there has a non-empty value. *)
Lemma collect_get (m : mapping_table) : forall obj st l obj1 st1,
  collect_renames m obj st = (l, obj1, st1) ->
  forall k v, dict_get k obj1 = Some v ->
    dict_get k obj = Some v /\ (In k (map fst m) -> non_empty v = true).
Proof.
  induction m as [|[old new] m IH]; intros obj st l obj1 st1 H k v Hk; simpl in H.
  - injection H as <- <- <-. split; [assumption | intros []].
  - destruct (dict_get old obj) as [value|] eqn:Eo.
    + destruct (non_empty value) eqn:En.
      * destruct (collect_renames m obj st) as [[l' o'] s'] eqn:E.
        injection H as <- <- <-.
        destruct (IH _ _ _ _ _ E k v Hk) as [G N]. split; [assumption|].
        simpl. intros [<-|Hin]; [congruence | auto].
      * destruct (IH _ _ _ _ _ H k v Hk) as [G N].
        rewrite get_remove in G. destruct (str_eqb k old) eqn:Ek; [discriminate|].
        split; [assumption|]. simpl. intros [<-|Hin]; [|auto].
        now rewrite str_eqb_refl in Ek.
    + destruct (IH _ _ _ _ _ H k v Hk) as [G N]. split; [assumption|].
      simpl. intros [<-|Hin]; [congruence | auto].
Qed.

(** A field survives the first loop when its value is non-empty or its key
    is no source key. *)
Lemma collect_keeps (m : mapping_table) : forall obj st l obj1 st1,
  collect_renames m obj st = (l, obj1, st1) ->
  forall k v, dict_get k obj = Some v ->
    non_empty v = true \/ ~ In k (map fst m) ->
    dict_get k obj1 = Some v.
Proof.
  induction m as [|[old new] m IH]; intros obj st l obj1 st1 H k v Hk Hok; simpl in H.
  - now injection H as <- <- <-.
  - assert (Hok' : non_empty v = true \/ ~ In k (map fst m)).
    { destruct Hok as [?|N]; [now left | right; intro; apply N; now right]. }
    destruct (dict_get old obj) as [value|] eqn:Eo.
    + destruct (non_empty value) eqn:En.
      * destruct (collect_renames m obj st) as [[l' o'] s'] eqn:E.
        injection H as <- <- <-. eapply IH; eauto.
      * eapply IH; eauto. rewrite get_remove_other; [assumption|].
        intros ->. destruct Hok as [Hv|N]; [congruence|]. apply N. now left.
    + eapply IH; eauto.
Qed.

(** [keys_to_rename] holds exactly the entries of the table whose source
    key is in the object with a non-empty value. *)
Lemma collect_list (m : mapping_table) : forall obj st l obj1 st1,
  collect_renames m obj st = (l, obj1, st1) ->
  forall s t v, In (s, t, v) l <->
    In (s, t) m /\ dict_get s obj = Some v /\ non_empty v = true.
Proof.
  induction m as [|[old new] m IH]; intros obj st l obj1 st1 H s t v; simpl in H.
  - injection H as <- <- <-. simpl. tauto.
  - destruct (dict_get old obj) as [value|] eqn:Eo.
    + destruct (non_empty value) eqn:En.
      * destruct (collect_renames m obj st) as [[l' o'] s'] eqn:E.
        injection H as <- <- <-. simpl. rewrite (IH _ _ _ _ _ E). split.
        -- intros [[= <- <- <-]|[A [B C]]]; [now auto | now auto].
        -- intros [[[= <- <-]|A] [B C]].
           ++ left. congruence.
           ++ now right.
      * rewrite (IH _ _ _ _ _ H). simpl. split.
        -- intros [A [B C]]. rewrite get_remove in B.
           destruct (str_eqb s old); [discriminate | now auto].
        -- intros [[[= <- <-]|A] [B C]]; [congruence|].
           split; [assumption|]. split; [|assumption].
           rewrite get_remove_other; [assumption|]. intros ->. congruence.
    + rewrite (IH _ _ _ _ _ H). simpl. split.
      * intros [A [B C]]. now auto.
      * intros [[[= <- <-]|A] [B C]]; [congruence | now auto].
Qed.

Lemma collect_sources (m : mapping_table) : forall obj st l obj1 st1,
  collect_renames m obj st = (l, obj1, st1) ->
  (forall s, In s (rename_sources l) -> In s (map fst m)) /\
  (NoDup (map fst m) -> NoDup (rename_sources l)).
Proof.
  induction m as [|[old new] m IH]; intros obj st l obj1 st1 H; simpl in H.
  - injection H as <- <- <-. split; [intros s [] | intros _; constructor].
  - destruct (dict_get old obj) as [value|] eqn:Eo.
    + destruct (non_empty value) eqn:En.
      * destruct (collect_renames m obj st) as [[l' o'] s'] eqn:E.
        injection H as <- <- <-. destruct (IH _ _ _ _ _ E) as [A B]. split.
        -- intros s [<-|Hs]; [now left | right; auto].
        -- intro N. inversion N; subst. simpl. constructor; auto.
      * destruct (IH _ _ _ _ _ H) as [A B]. split.
        -- intros s Hs. right. auto.
        -- intro N. inversion N; auto.
    + destruct (IH _ _ _ _ _ H) as [A B]. split.
      * intros s Hs. right. auto.
      * intro N. inversion N; auto.
Qed.

(** The first loop deletes source keys only. *)
Lemma collect_filter (f : pystr -> bool) (m : mapping_table) : forall obj st l obj1 st1,
  collect_renames m obj st = (l, obj1, st1) ->
  (forall s, In s (map fst m) -> f s = false) ->
  filter (fun kv => f (fst kv)) obj1 = filter (fun kv => f (fst kv)) obj.
Proof.
  induction m as [|[old new] m IH]; intros obj st l obj1 st1 H Hf; simpl in H.
  - now injection H as <- <- <-.
  - assert (Hf' : forall s, In s (map fst m) -> f s = false).
    { intros s Hs. apply Hf. now right. }
    destruct (dict_get old obj) as [value|] eqn:Eo.
    + destruct (non_empty value) eqn:En.
      * destruct (collect_renames m obj st) as [[l' o'] s'] eqn:E.
        injection H as <- <- <-. eauto.
      * rewrite (IH _ _ _ _ _ H Hf'). apply filter_remove. apply Hf. now left.
    + eauto.
Qed.

Lemma collect_app (m1 m2 : mapping_table) : forall obj st,
  collect_renames (m1 ++ m2) obj st =
  let '(l1, o1, s1) := collect_renames m1 obj st in
  let '(l2, o2, s2) := collect_renames m2 o1 s1 in
  (l1 ++ l2, o2, s2).
Proof.
  induction m1 as [|[old new] m1 IH]; intros obj st; simpl.
  - now destruct (collect_renames m2 obj st) as [[l2 o2] s2].
  - destruct (dict_get old obj) as [value|]; [|apply IH].
    destruct (non_empty value); [|apply IH].
    rewrite IH.
    destruct (collect_renames m1 obj st) as [[l1 o1] s1].
    now destruct (collect_renames m2 o1 s1) as [[l2 o2] s2].
Qed.

(** The second loop never fails on a table without repeated source keys:
    the key it deletes is still there. *)
Lemma apply_total (l : list (pystr * pystr * json)) : forall d st,
  NoDup (rename_sources l) ->
  (forall s t v, In (s, t, v) l -> dict_get s d <> None) ->
  exists d' st', apply_renames l d st = Some (d', st').
Proof.
  induction l as [|[[s t] v] l IH]; intros d st N P; simpl.
  - now eauto.
  - inversion N as [|? ? Ns Nl]; subst.
    destruct (str_eqb s t) eqn:E; simpl.
    + apply IH; [assumption|]. intros s' t' v' H. apply (P s' t' v'). now right.
    + apply str_eqb_neq in E.
      assert (G : dict_get s (dict_set t v d) <> None).
      { rewrite get_set_other by assumption. apply (P s t v). now left. }
      destruct (dict_get s (dict_set t v d)) as [x|] eqn:Ex; [|congruence].
      rewrite (del_some _ _ _ Ex). simpl. apply IH; [assumption|].
      intros s' t' v' H.
      assert (s' <> s).
      { intros ->. apply Ns.
        apply (in_map (fun e => fst (fst e)) _ _ H). }
      rewrite get_remove_other by assumption. rewrite get_set.
      destruct (str_eqb s' t); [discriminate|]. apply (P s' t' v'). now right.
Qed.

(** Where a value of the result comes from: the same key, or an entry that
    was renamed to the key. *)
Lemma apply_get (l : list (pystr * pystr * json)) : forall d st d' st',
  apply_renames l d st = Some (d', st') ->
  forall k v, dict_get k d' = Some v ->
    dict_get k d = Some v \/ exists s, In (s, k, v) l /\ s <> k.
Proof.
  induction l as [|[[s t] v0] l IH]; intros d st d' st' H k v Hk; simpl in H.
  - injection H as <- <-. now left.
  - destruct (str_eqb s t) eqn:E; simpl in H.
    + destruct (IH _ _ _ _ H k v Hk) as [G|[s' [G1 G2]]]; [now left|].
      right. exists s'. split; [now right | assumption].
    + apply str_eqb_neq in E.
      destruct (dict_del s (dict_set t v0 d)) as [d1|] eqn:Ed; [|discriminate].
      apply del_inv in Ed. subst d1. simpl in H.
      destruct (IH _ _ _ _ H k v Hk) as [G|[s' [G1 G2]]].
      * rewrite get_remove in G. destruct (str_eqb k s); [discriminate|].
        rewrite get_set in G. destruct (str_eqb k t) eqn:Et; [|now left].
        apply str_eqb_eq in Et. subst k. injection G as <-.
        right. exists s. split; [now left | assumption].
      * right. exists s'. split; [now right | assumption].
Qed.

(** A key that no renaming names keeps its value. *)
Lemma apply_frame (l : list (pystr * pystr * json)) : forall d st d' st',
  apply_renames l d st = Some (d', st') ->
  forall k, (forall s t v, In (s, t, v) l -> s <> t -> k <> s /\ k <> t) ->
    dict_get k d' = dict_get k d.
Proof.
  induction l as [|[[s t] v0] l IH]; intros d st d' st' H k F; simpl in H.
  - now injection H as <- <-.
  - assert (F' : forall s t v, In (s, t, v) l -> s <> t -> k <> s /\ k <> t).
    { intros s' t' v' Hin. apply (F s' t' v'). now right. }
    destruct (str_eqb s t) eqn:E; simpl in H.
    + eauto.
    + apply str_eqb_neq in E.
      destruct (dict_del s (dict_set t v0 d)) as [d1|] eqn:Ed; [|discriminate].
      apply del_inv in Ed. subst d1. simpl in H.
      rewrite (IH _ _ _ _ H k F').
      destruct (F s t v0 (or_introl eq_refl) E) as [A B].
      now rewrite get_remove_other, get_set_other.
Qed.

Lemma apply_filter (f : pystr -> bool) (l : list (pystr * pystr * json)) :
  forall d st d' st',
  apply_renames l d st = Some (d', st') ->
  (forall s t v, In (s, t, v) l -> s <> t -> f s = false /\ f t = false) ->
  filter (fun kv => f (fst kv)) d' = filter (fun kv => f (fst kv)) d.
Proof.
  induction l as [|[[s t] v0] l IH]; intros d st d' st' H F; simpl in H.
  - now injection H as <- <-.
  - assert (F' : forall s t v, In (s, t, v) l -> s <> t -> f s = false /\ f t = false).
    { intros s' t' v' Hin. apply (F s' t' v'). now right. }
    destruct (str_eqb s t) eqn:E; simpl in H.
    + eauto.
    + apply str_eqb_neq in E.
      destruct (dict_del s (dict_set t v0 d)) as [d1|] eqn:Ed; [|discriminate].
      apply del_inv in Ed. subst d1. simpl in H.
      rewrite (IH _ _ _ _ H F').
      destruct (F s t v0 (or_introl eq_refl) E) as [A B].
      now rewrite filter_remove, filter_set.
Qed.

(** A renamed source key is gone at the end, unless a renaming of another
    key writes it again. *)
Lemma apply_gone (l : list (pystr * pystr * json)) : forall d st d' st',
  apply_renames l d st = Some (d', st') ->
  forall s t v, In (s, t, v) l -> s <> t ->
    (forall s0 v0, In (s0, s, v0) l -> s0 = s) ->
    dict_get s d' = None.
Proof.
  induction l as [|[[s1 t1] v1] l IH]; intros d st d' st' H s t v Hin Hne F;
    simpl in H; [contradiction|].
  assert (F' : forall s0 v0, In (s0, s, v0) l -> s0 = s).
  { intros s0 v0 H0. apply (F s0 v0). now right. }
  destruct (str_eqb s1 t1) eqn:E; simpl in H.
  - apply str_eqb_eq in E. subst t1.
    destruct Hin as [[= -> -> ->]|Hin]; [contradiction|]. eauto.
  - apply str_eqb_neq in E.
    destruct (dict_del s1 (dict_set t1 v1 d)) as [d1|] eqn:Ed; [|discriminate].
    apply del_inv in Ed. subst d1. simpl in H.
    destruct Hin as [[= -> -> ->]|Hin]; [|eauto].
    destruct (dict_get s d') as [x|] eqn:Ex; [|reflexivity].
    destruct (apply_get _ _ _ _ _ H s x Ex) as [G|[s0 [G1 G2]]].
    + now rewrite get_remove_same in G.
    + elim G2. eauto.
Qed.

Lemma apply_app (l1 l2 : list (pystr * pystr * json)) : forall d st,
  apply_renames (l1 ++ l2) d st =
  ('(d1, st1) <- apply_renames l1 d st ;; apply_renames l2 d1 st1).
Proof.
  induction l1 as [|[[s t] v] l1 IH]; intros d st; simpl; [reflexivity|].
  destruct (str_eqb s t); simpl; [apply IH|].
  destruct (dict_del s (dict_set t v d)); simpl; [apply IH | reflexivity].
Qed.

(** The last renaming to a key decides its value. *)
Lemma apply_last (l1 l2 : list (pystr * pystr * json)) (s t : pystr) (v : json) :
  forall d st d' st',
  apply_renames (l1 ++ (s, t, v) :: l2) d st = Some (d', st') ->
  s <> t ->
  (forall s' t' v', In (s', t', v') l2 -> s' <> t' -> t <> s' /\ t <> t') ->
  dict_get t d' = Some v.
Proof.
  intros d st d' st' H Hne F. rewrite apply_app in H.
  destruct (apply_renames l1 d st) as [[d1 st1]|]; [|discriminate].
  simpl in H. apply str_eqb_neq in Hne. rewrite Hne in H. simpl in H.
  apply str_eqb_neq in Hne.
  destruct (dict_del s (dict_set t v d1)) as [d2|] eqn:Ed; [|discriminate].
  apply del_inv in Ed. subst d2. simpl in H.
  rewrite (apply_frame _ _ _ _ _ H t F).
  rewrite get_remove_other by congruence. apply get_set_same.
Qed.

(** Entries that rename a key to itself change nothing. *)
Lemma apply_identities (l : list (pystr * pystr * json)) : forall d st,
  (forall s t v, In (s, t, v) l -> s = t) ->
  apply_renames l d st = Some (d, st).
Proof.
  induction l as [|[[s t] v] l IH]; intros d st F; simpl; [reflexivity|].
  rewrite (F s t v (or_introl eq_refl)), str_eqb_refl. simpl.
  apply IH. intros s' t' v' H. apply (F s' t' v'). now right.
Qed.

(** The whole of [_rename_keys] returns on a table without repeated
    source keys. *)
Lemma rename_keys_total (obj : dict) (m : mapping_table) (st : stats) :
  NoDup (map fst m) -> exists obj' st', _rename_keys obj m st = Some (obj', st').
Proof.
  intro N. unfold _rename_keys.
  destruct (collect_renames m obj st) as [[l o] s] eqn:E.
  apply apply_total.
  - now apply (collect_sources _ _ _ _ _ _ E).
  - intros s0 t0 v0 H. apply (collect_list _ _ _ _ _ _ E) in H.
    destruct H as [A [B C]].
    rewrite (collect_keeps _ _ _ _ _ _ E s0 v0 B (or_introl C)). discriminate.
Qed.

Lemma distinct_NoDup (keys : list pystr) : distinct keys = true -> NoDup keys.
Proof.
  induction keys as [|k r IH]; simpl; intro H; constructor.
  - apply andb_true_iff in H. destruct H as [H _].
    apply negb_true_iff, str_mem_not_In in H. exact H.
  - apply andb_true_iff in H. now apply IH.
Qed.

Lemma chain_free_spec (m : mapping_table) :
  chain_free m = true ->
  forall s t s' t', In (s, t) m -> s <> t -> In (s', t') m -> s' <> t' -> t <> s'.
Proof.
  unfold chain_free. rewrite forallb_forall. intros H s t s' t' H1 N1 H2 N2 ->.
  assert (A : In (s, s') (renamings m)).
  { apply filter_In. split; [assumption|]. simpl. now apply negb_true_iff, str_eqb_neq. }
  assert (B : In (s', t') (renamings m)).
  { apply filter_In. split; [assumption|]. simpl. now apply negb_true_iff, str_eqb_neq. }
  specialize (H _ A). simpl in H. apply negb_true_iff, str_mem_not_In in H.
  apply H. change s' with (fst (s', t')). now apply in_map.
Qed.

(** An object whose source keys are renamed to themselves and hold
    non-empty values is left as it is, and nothing is counted. *)
Lemma collect_fixed (m : mapping_table) : forall obj st,
  (forall s t v, In (s, t) m -> dict_get s obj = Some v -> s = t /\ non_empty v = true) ->
  exists l, collect_renames m obj st = (l, obj, st) /\
            forall s t v, In (s, t, v) l -> s = t.
Proof.
  induction m as [|[old new] m IH]; intros obj st F; simpl.
  - exists []. split; [reflexivity | intros ? ? ? []].
  - destruct (IH obj st) as [l [E I]].
    { intros s t v H. apply F. now right. }
    destruct (dict_get old obj) as [value|] eqn:Eo.
    + destruct (F old new value (or_introl eq_refl) Eo) as [-> Hn].
      rewrite Hn, E. exists ((new, new, value) :: l). split; [reflexivity|].
      intros s t v [[= <- <- <-]|H]; [reflexivity | eauto].
    + exists l. now split.
Qed.

Lemma rename_keys_fixed (obj : dict) (m : mapping_table) (st : stats) :
  (forall s t v, In (s, t) m -> dict_get s obj = Some v -> s = t /\ non_empty v = true) ->
  _rename_keys obj m st = Some (obj, st).
Proof.
  intro F. unfold _rename_keys.
  destruct (collect_fixed m obj st F) as [l [E I]]. rewrite E.
  now apply apply_identities.
Qed.

(** After [_rename_keys] with a chain-free table, the source keys left in
    the object are renamed to themselves and hold non-empty values. *)
Lemma rename_keys_settled (obj obj' : dict) (m : mapping_table) (st st' : stats) :
  chain_free m = true ->
  _rename_keys obj m st = Some (obj', st') ->
  forall s t v, In (s, t) m -> dict_get s obj' = Some v -> s = t /\ non_empty v = true.
Proof.
  intros C H s t v Hin Hget. unfold _rename_keys in H.
  destruct (collect_renames m obj st) as [[l o] s1] eqn:E.
  pose proof (chain_free_spec m C) as Ch.
  assert (Hst : s = t).
  { destruct (str_eqb s t) eqn:Est; [now apply str_eqb_eq|].
    apply str_eqb_neq in Est. exfalso.
    destruct (apply_get _ _ _ _ _ H s v Hget) as [G|[s0 [G1 G2]]].
    - destruct (collect_get _ _ _ _ _ _ E s v G) as [G' Gn].
      assert (In s (map fst m)) by (change s with (fst (s, t)); now apply in_map).
      assert (Hl : In (s, t, v) l).
      { apply (collect_list _ _ _ _ _ _ E). auto. }
      assert (Hnone : dict_get s obj' = None).
      { apply (apply_gone _ _ _ _ _ H s t v Hl Est).
        intros s0 v0 Hs0. apply (collect_list _ _ _ _ _ _ E) in Hs0.
        destruct Hs0 as [A _].
        destruct (str_eqb s0 s) eqn:E0; [now apply str_eqb_eq|].
        apply str_eqb_neq in E0. exfalso. now apply (Ch s0 s s t A E0 Hin Est). }
      congruence.
    - apply (collect_list _ _ _ _ _ _ E) in G1. destruct G1 as [A _].
      now apply (Ch s0 s s t A G2 Hin Est). }
  split; [assumption|].
  destruct (apply_get _ _ _ _ _ H s v Hget) as [G|[s0 [G1 G2]]].
  - destruct (collect_get _ _ _ _ _ _ E s v G) as [_ Gn]. apply Gn.
    change s with (fst (s, t)). now apply in_map.
  - apply (collect_list _ _ _ _ _ _ E) in G1. tauto.
Qed.

(** [_rename_keys] run twice: on a table with distinct source keys in
    which no renamed-to key is itself renamed, the second run returns the
    object and the counters as it received them. *)
Lemma rename_keys_idempotent (obj : dict) (m : mapping_table) (st : stats) :
  distinct (map fst m) = true -> chain_free m = true ->
  exists obj' st',
    _rename_keys obj m st = Some (obj', st') /\
    forall st2, _rename_keys obj' m st2 = Some (obj', st2).
Proof.
  intros D C.
  destruct (rename_keys_total obj m st (distinct_NoDup _ D)) as [obj' [st' H]].
  exists obj', st'. split; [assumption|].
  intro st2. apply rename_keys_fixed.
  intros s t v. now apply (rename_keys_settled obj obj' m st st' C H).
Qed.

(* ================================================================== *)
(** * [_rename_keys]: what is kept, what is written, what is removed *)
(* ================================================================== *)

Lemma rename_keys_get (obj obj' : dict) (m : mapping_table) (st st' : stats) :
  _rename_keys obj m st = Some (obj', st') ->
  forall k v, dict_get k obj' = Some v ->
    (dict_get k obj = Some v /\ (In k (map fst m) -> non_empty v = true)) \/
    (non_empty v = true /\ exists s, In (s, k) m /\ s <> k /\ dict_get s obj = Some v).
Proof.
  intros H k v Hk. unfold _rename_keys in H.
  destruct (collect_renames m obj st) as [[l o] s1] eqn:E.
  destruct (apply_get _ _ _ _ _ H k v Hk) as [G|[s [G1 G2]]].
  - left. now apply (collect_get _ _ _ _ _ _ E).
  - right. apply (collect_list _ _ _ _ _ _ E) in G1.
    destruct G1 as [A [B C]]. split; [assumption|]. now exists s.
Qed.

Lemma rename_keys_frame (obj obj' : dict) (m : mapping_table) (st st' : stats) :
  _rename_keys obj m st = Some (obj', st') ->
  forall k, ~ In k (table_keys m) -> dict_get k obj' = dict_get k obj.
Proof.
  intros H k N. unfold _rename_keys in H.
  destruct (collect_renames m obj st) as [[l o] s1] eqn:E.
  assert (Ns : ~ In k (map fst m)).
  { intro F. apply N. unfold table_keys. apply in_app_iff. now left. }
  rewrite (apply_frame _ _ _ _ _ H k).
  - destruct (dict_get k obj) as [v|] eqn:G.
    + apply (collect_keeps _ _ _ _ _ _ E); auto.
    + destruct (dict_get k o) as [v|] eqn:G'; [|reflexivity].
      apply (collect_get _ _ _ _ _ _ E) in G'. destruct G'. congruence.
  - intros s t v Hin _. apply (collect_list _ _ _ _ _ _ E) in Hin.
    destruct Hin as [A _]. split; intros ->; apply N; unfold table_keys;
      apply in_app_iff.
    + left. change s with (fst (s, t)). now apply in_map.
    + right. change t with (snd (s, t)). now apply in_map.
Qed.

Lemma rename_keys_order (obj obj' : dict) (m : mapping_table) (st st' : stats) :
  _rename_keys obj m st = Some (obj', st') ->
  unrelated m obj' = unrelated m obj.
Proof.
  intro H. unfold _rename_keys in H.
  destruct (collect_renames m obj st) as [[l o] s1] eqn:E.
  unfold unrelated.
  assert (K : forall k, In k (table_keys m) ->
                        negb (str_mem k (table_keys m)) = false).
  { intros k Hk. apply negb_false_iff. now apply str_mem_In. }
  rewrite (apply_filter (fun k => negb (str_mem k (table_keys m))) _ _ _ _ _ H).
  - apply (collect_filter (fun k => negb (str_mem k (table_keys m))) _ _ _ _ _ _ E).
    intros s Hs. apply K. unfold table_keys. apply in_app_iff. now left.
  - intros s t v Hin _. apply (collect_list _ _ _ _ _ _ E) in Hin.
    destruct Hin as [A _]. split; apply K; unfold table_keys; apply in_app_iff.
    + left. change s with (fst (s, t)). now apply in_map.
    + right. change t with (snd (s, t)). now apply in_map.
Qed.

Lemma empty_source_remove (obj : dict) (old : pystr) (m : mapping_table) :
  ~ In old (map fst m) ->
  filter (empty_source (dict_remove old obj)) m = filter (empty_source obj) m.
Proof.
  intro N. apply filter_ext_in. intros [s t] Hin. unfold empty_source. simpl.
  rewrite get_remove_other; [reflexivity|]. intros ->. apply N.
  change old with (fst (old, t)). now apply in_map.
Qed.

Lemma collect_counts (m : mapping_table) : forall obj st l obj1 st1,
  collect_renames m obj st = (l, obj1, st1) ->
  NoDup (map fst m) ->
  empty_fields_removed st1
  = empty_fields_removed st + List.length (filter (empty_source obj) m) /\
  properties_renamed st1 = properties_renamed st.
Proof.
  induction m as [|[old new] m IH]; intros obj st l obj1 st1 H N; simpl in H.
  - injection H as <- <- <-. simpl. split; [lia | reflexivity].
  - inversion N as [|? ? N1 N2]; subst. simpl. unfold empty_source at 1. simpl.
    destruct (dict_get old obj) as [value|] eqn:Eo.
    + destruct (non_empty value) eqn:En; simpl.
      * destruct (collect_renames m obj st) as [[l' o'] s'] eqn:E.
        injection H as <- <- <-. now apply (IH _ _ _ _ _ E).
      * destruct (IH _ _ _ _ _ H N2) as [A B].
        rewrite A, B, (empty_source_remove obj old m N1). simpl. split; [lia | reflexivity].
    + now apply (IH _ _ _ _ _ H).
Qed.

Lemma apply_counts (l : list (pystr * pystr * json)) : forall d st d' st',
  apply_renames l d st = Some (d', st') ->
  empty_fields_removed st' = empty_fields_removed st.
Proof.
  induction l as [|[[s t] v] l IH]; intros d st d' st' H; simpl in H.
  - now injection H as <- <-.
  - destruct (str_eqb s t); simpl in H; [eauto|].
    destruct (dict_del s (dict_set t v d)) as [d1|]; [|discriminate].
    simpl in H. now rewrite (IH _ _ _ _ H).
Qed.

(** The claim as the specification words it fails on the terminology
    table: an entry whose "english" is empty keeps it, so a renamed-to key
    holds an empty value after the migration.  And on the techniques
    table, the empty "korean" is deleted while its target "hangul" is
    created all the same, from "korean_hangul". *)
Lemma rename_keys_keeps_empty_target :
  _rename_keys [(str "english", JStr [])] terminology_mapping (mk_stats 0 0)
  = Some ([(str "english", JStr [])], mk_stats 0 0) /\
  _rename_keys [(str "korean", JStr []); (str "korean_hangul", JStr (str "X"))]
               techniques_mapping (mk_stats 0 0)
  = Some ([(str "hangul", JStr (str "X"))], mk_stats 1 1).
Proof. split; reflexivity. Qed.

(** C3 (amended).  For a table with distinct source keys, [_rename_keys]
    returns; a source key that was there with an empty value is gone,
    unless another entry of the table renames a field to it; every field of
    the result either was there before with the same value, and then it is
    no source key if the value is empty, or holds the non-empty value of a
    source key renamed to it; and [empty_fields_removed] grows by the
    number of source keys that were there with an empty value. *)
Theorem rename_keys_empty_fields (obj : dict) (m : mapping_table) (st : stats) :
  distinct (map fst m) = true ->
  exists obj' st',
    _rename_keys obj m st = Some (obj', st') /\
    (forall s t v,
        In (s, t) m -> dict_get s obj = Some v -> non_empty v = false ->
        (forall s0, In (s0, s) m -> s0 = s) ->
        dict_get s obj' = None) /\
    (forall k v,
        dict_get k obj' = Some v ->
        (dict_get k obj = Some v /\ (non_empty v = false -> ~ In k (map fst m))) \/
        (non_empty v = true /\
         exists s, In (s, k) m /\ s <> k /\ dict_get s obj = Some v)) /\
    empty_fields_removed st'
    = empty_fields_removed st + List.length (filter (empty_source obj) m).
Proof.
  intro D. pose proof (distinct_NoDup _ D) as N.
  destruct (rename_keys_total obj m st N) as [obj' [st' H]].
  exists obj', st'. split; [assumption|]. split; [|split].
  - intros s t v Hin Hget He Hs.
    destruct (dict_get s obj') as [x|] eqn:Ex; [|reflexivity]. exfalso.
    destruct (rename_keys_get _ _ _ _ _ H s x Ex) as [[G Gn]|[_ [s0 [G1 [G2 _]]]]].
    + assert (x = v) by congruence. subst x.
      rewrite Gn in He; [discriminate|].
      change s with (fst (s, t)). now apply in_map.
    + apply G2. now apply Hs.
  - intros k v Hk.
    destruct (rename_keys_get _ _ _ _ _ H k v Hk) as [[G Gn]|R]; [left | now right].
    split; [assumption|]. intros He Hin. rewrite (Gn Hin) in He. discriminate.
  - unfold _rename_keys in H.
    destruct (collect_renames m obj st) as [[l o] s1] eqn:E.
    rewrite (apply_counts _ _ _ _ _ H).
    now apply (collect_counts _ _ _ _ _ _ E).
Qed.

(** A move whose empty "technique" is deleted and whose "korean_technique"
    is renamed. *)
Lemma rename_keys_empty_fields_witness :
  exists obj' st',
    _rename_keys [(str "technique", JStr []); (str "korean_technique", JStr (str "Ap Chagi"))]
                 move_mapping (mk_stats 0 0) = Some (obj', st') /\
    dict_get (str "technique") obj' = None /\
    empty_fields_removed st' = 1.
Proof.
  destruct (rename_keys_empty_fields
              [(str "technique", JStr []); (str "korean_technique", JStr (str "Ap Chagi"))]
              move_mapping (mk_stats 0 0) eq_refl) as [obj' [st' [H [A [_ C]]]]].
  exists obj', st'. split; [exact H|]. split; [|exact C].
  apply (A (str "technique") (str "english") (JStr [])).
  - simpl. tauto.
  - reflexivity.
  - reflexivity.
  - intros s0 Hs0. simpl in Hs0. destruct Hs0 as [Hs0|[Hs0|[]]]; discriminate Hs0.
Defined.

(* ================================================================== *)
(** * [_rename_keys]: a target key that is already there *)
(* ================================================================== *)

(** The claim as worded fails on the techniques table, where two source
    keys have the target "hangul": the node holds "korean", its target
    "hangul" and "korean_hangul", all non-empty, and "hangul" ends with the
    value of "korean_hangul", not with the value of "korean". *)
Lemma rename_keys_last_source_wins :
  _rename_keys [(str "korean", JStr (str "A"));
                (str "korean_hangul", JStr (str "B"));
                (str "hangul", JStr (str "C"))]
               techniques_mapping (mk_stats 0 0)
  = Some ([(str "hangul", JStr (str "B"))], mk_stats 2 0).
Proof. reflexivity. Qed.

(** C9 (amended).  Take an entry [(s, t)] of a table with distinct source
    keys, with [s <> t], [t] no source key and [s] no target key, and a
    node where [s] holds a non-empty value and no later entry of the table
    renames a non-empty field to [t].  Then [_rename_keys] returns, [t]
    holds the value of [s], whatever [t] held before, and [s] is gone. *)
Theorem rename_keys_overwrites_target
    (obj : dict) (m1 m2 : mapping_table) (s t : pystr) (v_s : json) (st : stats) :
  distinct (map fst (m1 ++ (s, t) :: m2)) = true ->
  s <> t ->
  dict_get s obj = Some v_s -> non_empty v_s = true ->
  ~ In t (map fst (m1 ++ (s, t) :: m2)) ->
  ~ In s (map snd (m1 ++ (s, t) :: m2)) ->
  (forall s', In (s', t) m2 -> has_value obj s' = false) ->
  exists obj' st',
    _rename_keys obj (m1 ++ (s, t) :: m2) st = Some (obj', st') /\
    dict_get t obj' = Some v_s /\
    dict_get s obj' = None.
Proof.
  intros D Hne Hs Hn Nt Ns Hlater.
  destruct (rename_keys_total obj _ st (distinct_NoDup _ D)) as [obj' [st' H]].
  exists obj', st'. split; [assumption|].
  pose proof H as H'. unfold _rename_keys in H'.
  destruct (collect_renames (m1 ++ (s, t) :: m2) obj st) as [[l o] s1] eqn:E.
  pose proof E as E'. rewrite collect_app in E'.
  destruct (collect_renames m1 obj st) as [[l1 o1] s2] eqn:E1.
  simpl in E'.
  rewrite (collect_keeps _ _ _ _ _ _ E1 s v_s Hs (or_introl Hn)), Hn in E'.
  destruct (collect_renames m2 o1 s2) as [[l2 o2] s3] eqn:E2.
  injection E' as <- <- <-.
  split.
  - apply (apply_last _ _ _ _ _ _ _ _ _ H' Hne).
    intros s' t' v' Hin Hne'. apply (collect_list _ _ _ _ _ _ E2) in Hin.
    destruct Hin as [A [B C]]. split.
    + intros ->. apply Nt. rewrite map_app, in_app_iff. right. right.
      change s' with (fst (s', t')). now apply in_map.
    + intros <-. specialize (Hlater s' A). unfold has_value in Hlater.
      destruct (collect_get _ _ _ _ _ _ E1 s' v' B) as [G _].
      rewrite G in Hlater. congruence.
  - apply (apply_gone _ _ _ _ _ H' s t v_s); [|assumption|].
    + apply in_app_iff. right. now left.
    + intros s0 v0 Hin. exfalso. apply Ns.
      apply (collect_list _ _ _ _ _ _ E) in Hin. destruct Hin as [A _].
      change s with (snd (s0, s)). now apply in_map.
Qed.

(** A pattern that holds both "name" and "english". *)
Lemma rename_keys_overwrites_target_witness :
  exists obj' st',
    _rename_keys [(str "name", JStr (str "Chon-Ji")); (str "english", JStr (str "Heaven"))]
                 ([] ++ (str "name", str "english") :: [(str "pronunciation", str "romanised")])
                 (mk_stats 0 0) = Some (obj', st') /\
    dict_get (str "english") obj' = Some (JStr (str "Chon-Ji")) /\
    dict_get (str "name") obj' = None.
Proof.
  apply (rename_keys_overwrites_target
           [(str "name", JStr (str "Chon-Ji")); (str "english", JStr (str "Heaven"))]
           [] [(str "pronunciation", str "romanised")]
           (str "name") (str "english") (JStr (str "Chon-Ji")) (mk_stats 0 0)).
  - reflexivity.
  - discriminate.
  - reflexivity.
  - reflexivity.
  - simpl. intros [F|[F|[]]]; discriminate F.
  - simpl. intros [F|[F|[]]]; discriminate F.
  - intros s' [F|[]]. discriminate F.
Defined.

(* ================================================================== *)
(** * [to_title_case]: the first pass *)
(* ================================================================== *)

Lemma has_chr_cons (c x : ascii) (s : pystr) :
  has_chr c (x :: s) = chr_eqb c x || has_chr c s.
Proof. reflexivity. Qed.

Lemma has_chr_app (c : ascii) (a b : pystr) :
  has_chr c (a ++ b) = has_chr c a || has_chr c b.
Proof. apply existsb_app. Qed.

Lemma has_chr_lower (c : ascii) (s : pystr) :
  is_upper c = false -> is_lower c = false -> has_chr c (lower s) = has_chr c s.
Proof.
  intros Hu Hl. induction s as [|x s IH]; [reflexivity|]. simpl.
  rewrite (proj1 (to_lower_eq_caseless c x Hu Hl)). f_equal. exact IH.
Qed.

Lemma index_lower (c : ascii) (s : pystr) :
  is_upper c = false -> is_lower c = false -> index c (lower s) = index c s.
Proof.
  intros Hu Hl. induction s as [|x s IH]; [reflexivity|]. simpl.
  rewrite (proj1 (to_lower_eq_caseless c x Hu Hl)).
  destruct (chr_eqb c x); [reflexivity|]. f_equal. exact IH.
Qed.

(** What depends on the characters up to case only is the same for two
    texts with the same lower-cased form. *)
Lemma has_chr_of_lower (c : ascii) (s t : pystr) :
  is_upper c = false -> is_lower c = false -> lower s = lower t ->
  has_chr c s = has_chr c t.
Proof.
  intros Hu Hl E. rewrite <- (has_chr_lower c s Hu Hl), <- (has_chr_lower c t Hu Hl).
  now rewrite E.
Qed.

Lemma index_of_lower (c : ascii) (s t : pystr) :
  is_upper c = false -> is_lower c = false -> lower s = lower t ->
  index c s = index c t.
Proof.
  intros Hu Hl E. rewrite <- (index_lower c s Hu Hl), <- (index_lower c t Hu Hl).
  now rewrite E.
Qed.

Lemma length_of_lower (s t : pystr) : lower s = lower t -> List.length s = List.length t.
Proof. intro E. rewrite <- (lower_length s), <- (lower_length t). now rewrite E. Qed.

Lemma all_word_lower (s : pystr) : all_word (lower s) = all_word s.
Proof.
  unfold all_word, lower. induction s as [|x s IH]; [reflexivity|]. simpl.
  now rewrite is_word_lower, IH.
Qed.

Lemma all_word_capitalize (s : pystr) : all_word (capitalize s) = all_word s.
Proof. now rewrite <- all_word_lower, lower_capitalize, all_word_lower. Qed.

Lemma no_space_lower (s : pystr) : no_space (lower s) = no_space s.
Proof.
  unfold no_space, lower. induction s as [|x s IH]; [reflexivity|]. simpl.
  now rewrite is_space_lower, IH.
Qed.

Lemma no_space_of_lower (s t : pystr) : lower s = lower t -> no_space s = no_space t.
Proof. intro E. now rewrite <- (no_space_lower s), <- (no_space_lower t), E. Qed.

Lemma all_word_no_hyphen (s : pystr) : all_word s = true -> has_chr "-" s = false.
Proof.
  induction s as [|x s IH]; [reflexivity|]. simpl. intro H.
  apply andb_true_iff in H. destruct H as [Hx Hs]. rewrite (IH Hs), orb_false_r.
  destruct (chr_eqb "-" x) eqn:E; [|reflexivity].
  apply chr_eqb_eq in E. subst x. discriminate Hx.
Qed.

Lemma capitalize_nil (s : pystr) : capitalize s = [] -> s = [].
Proof. destruct s; [reflexivity | discriminate]. Qed.

(** [span_word] cuts a text after its leading run of word characters. *)
Lemma span_word_spec (s : pystr) : forall a t,
  span_word s = (a, t) -> s = a ++ t /\ all_word a = true /\ at_boundary t = true.
Proof.
  induction s as [|c s IH]; intros a t H; simpl in H.
  - injection H as <- <-. now repeat split.
  - destruct (is_word c) eqn:E.
    + destruct (span_word s) as [run rest] eqn:Es. injection H as <- <-.
      destruct (IH _ _ eq_refl) as [A [B C]]. subst s. simpl. rewrite E.
      now repeat split.
    + injection H as <- <-. simpl. rewrite E. now repeat split.
Qed.

Lemma span_word_intro (a t : pystr) :
  all_word a = true -> at_boundary t = true -> span_word (a ++ t) = (a, t).
Proof.
  intros Ha Ht. induction a as [|c a IH]; simpl.
  - destruct t as [|x t]; [reflexivity|]. simpl in Ht.
    apply negb_true_iff in Ht. simpl. now rewrite Ht.
  - simpl in Ha. apply andb_true_iff in Ha. destruct Ha as [Hc Ha].
    now rewrite Hc, (IH Ha).
Qed.

(** What a match of the pattern looks like. *)
Lemma match_hyphenated_spec (s m r : pystr) :
  match_hyphenated s = Some (m, r) ->
  exists a b, m = a ++ "-"%char :: b /\ s = a ++ "-"%char :: b ++ r /\
              a <> [] /\ b <> [] /\ all_word a = true /\ all_word b = true /\
              at_boundary r = true.
Proof.
  unfold match_hyphenated. destruct (span_word s) as [a t] eqn:Ea.
  destruct (span_word_spec _ _ _ Ea) as [A1 [A2 A3]].
  destruct a as [|x a]; [discriminate|]. destruct t as [|c t']; [discriminate|].
  destruct (chr_eqb c "-") eqn:Ec; [|discriminate].
  apply chr_eqb_eq in Ec. subst c.
  destruct (span_word t') as [b u] eqn:Eb.
  destruct (span_word_spec _ _ _ Eb) as [B1 [B2 B3]].
  destruct b as [|y b]; [discriminate|]. intros [= <- <-].
  exists (x :: a), (y :: b). subst s t'. repeat split; try assumption; discriminate.
Qed.

Lemma match_hyphenated_intro (a b r : pystr) :
  a <> [] -> b <> [] -> all_word a = true -> all_word b = true ->
  at_boundary r = true ->
  match_hyphenated (a ++ "-"%char :: b ++ r) = Some (a ++ "-"%char :: b, r).
Proof.
  intros Na Nb Ha Hb Hr. unfold match_hyphenated.
  rewrite (span_word_intro a ("-"%char :: b ++ r) Ha eq_refl).
  destruct a as [|x a]; [contradiction|]. rewrite chr_eqb_refl.
  rewrite (span_word_intro b r Hb Hr).
  destruct b as [|y b]; [contradiction|]. reflexivity.
Qed.

(** A text that starts with a character that is no word character has no
    match at its head. *)
Lemma match_hyphenated_nonword (c : ascii) (s : pystr) :
  is_word c = false -> match_hyphenated (c :: s) = None.
Proof. intro H. unfold match_hyphenated. simpl. now rewrite H. Qed.

Lemma chr_eqb_sym (a b : ascii) : chr_eqb a b = chr_eqb b a.
Proof. apply Ascii.eqb_sym. Qed.

Lemma split_on_none (c : ascii) (s : pystr) :
  has_chr c s = false -> split_on c s = [s].
Proof.
  induction s as [|x s IH]; [reflexivity|]. simpl. intro H.
  apply orb_false_iff in H. destruct H as [Hx Hs].
  rewrite (chr_eqb_sym x c), Hx. now rewrite (IH Hs).
Qed.

Lemma split_on_one (c : ascii) (a b : pystr) :
  has_chr c a = false -> has_chr c b = false ->
  split_on c (a ++ c :: b) = [a; b].
Proof.
  intros Ha Hb. induction a as [|x a IH]; simpl.
  - rewrite chr_eqb_refl. now rewrite (split_on_none c b Hb).
  - simpl in Ha. apply orb_false_iff in Ha. destruct Ha as [Hx Ha].
    rewrite (chr_eqb_sym x c), Hx. now rewrite (IH Ha).
Qed.

(** The replacement written for a match. *)
Lemma title_case_hyphenated_match (a b : pystr) :
  all_word a = true -> all_word b = true ->
  title_case_hyphenated (a ++ "-"%char :: b) = capitalize a ++ "-"%char :: capitalize b.
Proof.
  intros Ha Hb. unfold title_case_hyphenated.
  rewrite (split_on_one "-" a b (all_word_no_hyphen a Ha) (all_word_no_hyphen b Hb)).
  reflexivity.
Qed.

Lemma match_hyphenated_shorter (s m r : pystr) :
  match_hyphenated s = Some (m, r) -> List.length r < List.length s.
Proof.
  intro H. destruct (match_hyphenated_spec _ _ _ H) as [a [b [_ [E _]]]].
  subst s. rewrite length_app. simpl. rewrite length_app. lia.
Qed.

Lemma sub_hyphenated_step (n : nat) (p : bool) (c : ascii) (s : pystr) :
  sub_hyphenated (S n) p (c :: s) =
  match (if p then None else match_hyphenated (c :: s)) with
  | Some (m, rest) => title_case_hyphenated m ++ sub_hyphenated n true rest
  | None => c :: sub_hyphenated n (is_word c) s
  end.
Proof. reflexivity. Qed.

(** The length of the text is fuel enough: more fuel gives the same
    result. *)
Lemma sub_hyphenated_fuel (n : nat) : forall m p s,
  List.length s <= n -> List.length s <= m ->
  sub_hyphenated n p s = sub_hyphenated m p s.
Proof.
  induction n as [|n IH]; intros m p s Hn Hm.
  - destruct s; [|simpl in Hn; lia]. now destruct m.
  - destruct m as [|m]; [destruct s; [reflexivity | simpl in Hm; lia]|].
    destruct s as [|c s]; [reflexivity|]. simpl in Hn, Hm.
    rewrite !sub_hyphenated_step.
    destruct (if p then None else match_hyphenated (c :: s)) as [[m0 r]|] eqn:E.
    + f_equal. destruct p; [discriminate|].
      apply match_hyphenated_shorter in E. simpl in E. apply IH; lia.
    + f_equal. apply IH; lia.
Qed.

Lemma hyphen_pass_nil (p : bool) : hyphen_pass p [] = [].
Proof. reflexivity. Qed.

Lemma hyphen_pass_cons (p : bool) (c : ascii) (s : pystr) :
  hyphen_pass p (c :: s) =
  match (if p then None else match_hyphenated (c :: s)) with
  | Some (m, rest) => title_case_hyphenated m ++ hyphen_pass true rest
  | None => c :: hyphen_pass (is_word c) s
  end.
Proof.
  unfold hyphen_pass. simpl List.length. rewrite sub_hyphenated_step.
  destruct (if p then None else match_hyphenated (c :: s)) as [[m0 r]|] eqn:E.
  - f_equal. destruct p; [discriminate|].
    apply match_hyphenated_shorter in E. simpl in E.
    apply sub_hyphenated_fuel; lia.
  - reflexivity.
Qed.

Lemma hyphen_pass_match (a b r : pystr) :
  a <> [] -> b <> [] -> all_word a = true -> all_word b = true ->
  at_boundary r = true ->
  hyphen_pass false (a ++ "-"%char :: b ++ r)
  = capitalize a ++ "-"%char :: capitalize b ++ hyphen_pass true r.
Proof.
  intros Na Nb Ha Hb Hr.
  pose proof (match_hyphenated_intro a b r Na Nb Ha Hb Hr) as M.
  destruct a as [|x a]; [contradiction|].
  change ((x :: a) ++ "-"%char :: b ++ r) with (x :: (a ++ "-"%char :: b ++ r)) in *.
  rewrite hyphen_pass_cons, M, (title_case_hyphenated_match (x :: a) b Ha Hb).
  now rewrite <- app_assoc.
Qed.

Lemma hyphen_pass_after_word (c : ascii) (s : pystr) :
  hyphen_pass true (c :: s) = c :: hyphen_pass (is_word c) s.
Proof. now rewrite hyphen_pass_cons. Qed.

Lemma hyphen_pass_nonword (p : bool) (c : ascii) (s : pystr) :
  is_word c = false -> hyphen_pass p (c :: s) = c :: hyphen_pass false s.
Proof.
  intro H. rewrite hyphen_pass_cons, (match_hyphenated_nonword c s H), H.
  now destruct p.
Qed.

(** Induction along the scan of the first pass: a match at the head, or
    one character copied. *)
Lemma hyphen_pass_ind (P : bool -> pystr -> Prop) :
  (forall p, P p []) ->
  (forall a b r,
      a <> [] -> b <> [] -> all_word a = true -> all_word b = true ->
      at_boundary r = true -> P true r -> P false (a ++ "-"%char :: b ++ r)) ->
  (forall (p : bool) (c : ascii) (s : pystr),
      (if p then None else match_hyphenated (c :: s)) = None ->
      P (is_word c) s -> P p (c :: s)) ->
  forall p s, P p s.
Proof.
  intros Hnil Hmatch Hcopy.
  assert (G : forall n p s, List.length s <= n -> P p s).
  { induction n as [|n IH]; intros p s Hn.
    - destruct s; [apply Hnil | simpl in Hn; lia].
    - destruct s as [|c s]; [apply Hnil|]. simpl in Hn.
      destruct (if p then None else match_hyphenated (c :: s)) as [[m r]|] eqn:E.
      + destruct p; [discriminate|].
        pose proof (match_hyphenated_shorter _ _ _ E) as L. simpl in L.
        destruct (match_hyphenated_spec _ _ _ E) as [a [b [_ [Es [Na [Nb [Ha [Hb Hr]]]]]]]].
        rewrite Es. apply Hmatch; try assumption. apply IH. lia.
      + apply Hcopy; [assumption|]. apply IH. lia. }
  intros p s. now apply (G (List.length s)).
Qed.

Lemma lower_cons (c : ascii) (s : pystr) : lower (c :: s) = to_lower c :: lower s.
Proof. reflexivity. Qed.

(** The first pass changes the case of characters only. *)
Lemma hyphen_pass_lower (p : bool) (s : pystr) : lower (hyphen_pass p s) = lower s.
Proof.
  revert p s. apply hyphen_pass_ind.
  - reflexivity.
  - intros a b r Na Nb Ha Hb Hr IH.
    rewrite (hyphen_pass_match a b r Na Nb Ha Hb Hr).
    rewrite !lower_app, !lower_cons, !lower_app, !lower_capitalize, IH. reflexivity.
  - intros p c s E IH. rewrite hyphen_pass_cons, E, !lower_cons. now rewrite IH.
Qed.

Lemma hyphen_pass_length (p : bool) (s : pystr) :
  List.length (hyphen_pass p s) = List.length s.
Proof. apply length_of_lower, hyphen_pass_lower. Qed.

(** A text without a hyphen is left as it is. *)
Lemma hyphen_pass_no_hyphen (p : bool) (s : pystr) :
  has_chr "-" s = false -> hyphen_pass p s = s.
Proof.
  revert p s.
  apply (hyphen_pass_ind (fun p s => has_chr "-" s = false -> hyphen_pass p s = s)).
  - reflexivity.
  - intros a b r _ _ _ _ _ _ H. rewrite has_chr_app, has_chr_cons in H.
    rewrite chr_eqb_refl in H. simpl in H. now rewrite orb_true_r in H.
  - intros p c s E IH H. rewrite has_chr_cons in H. apply orb_false_iff in H.
    rewrite hyphen_pass_cons, E. f_equal. now apply IH.
Qed.

Lemma separator_not_word (c : ascii) : is_separator c = true -> is_word c = false.
Proof.
  unfold is_separator. intro H. apply andb_true_iff in H. destruct H as [H _].
  now apply negb_true_iff.
Qed.

Lemma separator_not_hyphen (c : ascii) : is_separator c = true -> chr_eqb c "-" = false.
Proof.
  unfold is_separator. intro H. apply andb_true_iff in H. destruct H as [_ H].
  now apply negb_true_iff.
Qed.

Lemma space_is_separator (c : ascii) : is_space c = true -> is_separator c = true.
Proof. by_chars c. Qed.

Lemma span_word_app_nonword (x : pystr) (c : ascii) (y : pystr) :
  is_word c = false ->
  span_word (x ++ c :: y) = (fst (span_word x), snd (span_word x) ++ c :: y).
Proof.
  intro H. induction x as [|x0 x IH]; simpl.
  - now rewrite H.
  - destruct (is_word x0); [|reflexivity].
    rewrite IH. now destruct (span_word x).
Qed.

(** A separator after the text does not change whether the pattern
    matches at its head, nor what it matches. *)
Lemma match_hyphenated_app_separator (x : pystr) (c : ascii) (y : pystr) :
  is_separator c = true ->
  match_hyphenated (x ++ c :: y) =
  match match_hyphenated x with
  | Some (m, r) => Some (m, r ++ c :: y)
  | None => None
  end.
Proof.
  intro H. pose proof (separator_not_word c H) as Hw.
  pose proof (separator_not_hyphen c H) as Hh.
  unfold match_hyphenated. rewrite (span_word_app_nonword x c y Hw).
  destruct (span_word x) as [a t]. simpl fst. simpl snd.
  destruct a as [|a0 a]; [now destruct t|].
  destruct t as [|c1 t]; simpl app; cbv iota.
  - now rewrite Hh.
  - destruct (chr_eqb c1 "-"); [|reflexivity].
    rewrite (span_word_app_nonword t c y Hw).
    destruct (span_word t) as [b u]. simpl fst. simpl snd.
    now destruct b.
Qed.

Lemma at_boundary_app (r : pystr) (c : ascii) (y : pystr) :
  is_word c = false -> at_boundary r = true -> at_boundary (r ++ c :: y) = true.
Proof. intros H Hr. destruct r; simpl; [now rewrite H | exact Hr]. Qed.

(** The first pass works on the two sides of a separator independently. *)
Lemma hyphen_pass_separator (p : bool) (x : pystr) :
  forall c y, is_separator c = true ->
  hyphen_pass p (x ++ c :: y) = hyphen_pass p x ++ c :: hyphen_pass false y.
Proof.
  revert p x.
  apply (hyphen_pass_ind (fun p x => forall c y, is_separator c = true ->
    hyphen_pass p (x ++ c :: y) = hyphen_pass p x ++ c :: hyphen_pass false y)).
  - intros p c y H. simpl. apply hyphen_pass_nonword. now apply separator_not_word.
  - intros a b r Na Nb Ha Hb Hr IH c y H.
    replace ((a ++ "-"%char :: b ++ r) ++ c :: y)
      with (a ++ "-"%char :: b ++ (r ++ c :: y))
      by (now rewrite <- !app_assoc, <- app_comm_cons, <- app_assoc).
    rewrite (hyphen_pass_match a b _ Na Nb Ha Hb
               (at_boundary_app r c y (separator_not_word c H) Hr)).
    rewrite (hyphen_pass_match a b r Na Nb Ha Hb Hr), (IH c y H).
    now rewrite <- !app_assoc, <- app_comm_cons, <- app_assoc.
  - intros p c0 s E IH c y H.
    change ((c0 :: s) ++ c :: y) with (c0 :: (s ++ c :: y)).
    rewrite !hyphen_pass_cons, E.
    assert (E' : (if p then None else match_hyphenated (c0 :: s ++ c :: y)) = None).
    { destruct p; [reflexivity|].
      change (c0 :: s ++ c :: y) with ((c0 :: s) ++ c :: y).
      now rewrite (match_hyphenated_app_separator _ c y H), E. }
    rewrite E'. simpl. f_equal. now apply IH.
Qed.

Lemma to_lower_hyphen_inv (c : ascii) : to_lower c = "-"%char -> c = "-"%char.
Proof. by_chars c. Qed.

Lemma all_word_of_lower (s t : pystr) : lower s = lower t -> all_word s = all_word t.
Proof. intro E. now rewrite <- (all_word_lower s), <- (all_word_lower t), E. Qed.

Lemma at_boundary_of_lower (s t : pystr) :
  lower s = lower t -> at_boundary s = at_boundary t.
Proof.
  destruct s as [|x s], t as [|y t]; simpl; intro E; try discriminate; [reflexivity|].
  unfold lower in E. simpl in E. injection E as E _.
  now rewrite <- (is_word_lower x), <- (is_word_lower y), E.
Qed.

Lemma nil_of_lower (s t : pystr) : lower s = lower t -> s <> [] -> t <> [].
Proof. intros E N ->. destruct s; [contradiction | discriminate]. Qed.

(** Whether the pattern matches depends on the text up to case only. *)
Lemma match_hyphenated_none_of_lower (x y : pystr) :
  lower x = lower y -> match_hyphenated x = None -> match_hyphenated y = None.
Proof.
  intros E Hx. destruct (match_hyphenated y) as [[m r]|] eqn:Hy; [|reflexivity].
  exfalso.
  destruct (match_hyphenated_spec _ _ _ Hy) as [a [b [_ [Es [Na [Nb [Ha [Hb Hr]]]]]]]].
  subst y. rewrite lower_app, lower_cons, lower_app in E. unfold lower in E at 1.
  apply map_eq_app in E. destruct E as [a' [x2 [-> [Ea E2]]]].
  apply map_eq_cons in E2. destruct E2 as [c' [x3 [-> [Ec E3]]]].
  apply map_eq_app in E3. destruct E3 as [b' [r' [-> [Eb Er]]]].
  apply to_lower_hyphen_inv in Ec. subst c'.
  fold (lower a') in Ea. fold (lower b') in Eb. fold (lower r') in Er.
  rewrite (match_hyphenated_intro a' b' r') in Hx; [discriminate| | | | |].
  - apply (nil_of_lower a); [now symmetry | assumption].
  - apply (nil_of_lower b); [now symmetry | assumption].
  - now rewrite (all_word_of_lower a' a Ea).
  - now rewrite (all_word_of_lower b' b Eb).
  - now rewrite (at_boundary_of_lower r' r Er).
Qed.

Lemma at_boundary_hyphen_pass (r : pystr) :
  at_boundary r = true -> at_boundary (hyphen_pass true r) = true.
Proof.
  intro H. rewrite <- H. apply at_boundary_of_lower, hyphen_pass_lower.
Qed.

(** The first pass is idempotent. *)
Lemma hyphen_pass_idempotent (p : bool) (s : pystr) :
  hyphen_pass p (hyphen_pass p s) = hyphen_pass p s.
Proof.
  revert p s.
  apply (hyphen_pass_ind (fun p s => hyphen_pass p (hyphen_pass p s) = hyphen_pass p s)).
  - reflexivity.
  - intros a b r Na Nb Ha Hb Hr IH.
    rewrite (hyphen_pass_match a b r Na Nb Ha Hb Hr).
    rewrite hyphen_pass_match.
    + now rewrite !capitalize_idem, IH.
    + intro F. apply Na. now apply capitalize_nil.
    + intro F. apply Nb. now apply capitalize_nil.
    + now rewrite all_word_capitalize.
    + now rewrite all_word_capitalize.
    + now apply at_boundary_hyphen_pass.
  - intros p c s E IH. rewrite hyphen_pass_cons, E.
    rewrite hyphen_pass_cons.
    assert (E' : (if p then None
                  else match_hyphenated (c :: hyphen_pass (is_word c) s)) = None).
    { destruct p; [reflexivity|].
      apply (match_hyphenated_none_of_lower (c :: s)); [|assumption].
      now rewrite !lower_cons, hyphen_pass_lower. }
    rewrite E'. now rewrite IH.
Qed.

(* ================================================================== *)
(** * [to_title_case]: splitting and joining *)
(* ================================================================== *)

Lemma flush_rev (x : pystr) (words : list pystr) :
  flush (rev x) words = cons_token x words.
Proof.
  destruct x as [|c x]; [reflexivity|]. unfold flush.
  destruct (rev (c :: x)) eqn:E.
  - apply (f_equal (@List.length ascii)) in E. rewrite length_rev in E. discriminate E.
  - rewrite <- E, rev_involutive. reflexivity.
Qed.

Lemma split_from_no_space (w : pystr) : forall cur s,
  no_space w = true -> split_from cur (w ++ s) = split_from (rev w ++ cur) s.
Proof.
  induction w as [|c w IH]; intros cur s H; [reflexivity|].
  simpl in H. apply andb_true_iff in H. destruct H as [Hc Hw].
  apply negb_true_iff in Hc. simpl. rewrite Hc, (IH _ _ Hw).
  now rewrite <- app_assoc.
Qed.

Lemma split_cut (x : pystr) (c : ascii) (y : pystr) :
  no_space x = true -> is_space c = true ->
  split (x ++ c :: y) = cons_token x (split y).
Proof.
  intros Hx Hc. unfold split. rewrite (split_from_no_space x [] _ Hx).
  simpl. rewrite Hc, app_nil_r. apply flush_rev.
Qed.

Lemma split_no_space (x : pystr) : no_space x = true -> split x = cons_token x [].
Proof.
  intro Hx. unfold split. rewrite <- (app_nil_r x) at 1.
  rewrite (split_from_no_space x [] [] Hx). simpl. rewrite app_nil_r. apply flush_rev.
Qed.

Lemma space_decompose (s : pystr) :
  no_space s = true \/
  exists x c y, s = x ++ c :: y /\ no_space x = true /\ is_space c = true.
Proof.
  induction s as [|c s IH]; [now left|].
  destruct (is_space c) eqn:E.
  - right. exists [], c, s. now repeat split.
  - destruct IH as [H|[x [c' [y [-> [Hx Hc]]]]]].
    + left. simpl. now rewrite E, H.
    + right. exists (c :: x), c', y. repeat split; [|assumption].
      simpl. now rewrite E, Hx.
Qed.

(** Induction along the whitespace of a text. *)
Lemma space_ind (P : pystr -> Prop) :
  (forall x, no_space x = true -> P x) ->
  (forall x c y, no_space x = true -> is_space c = true -> P y -> P (x ++ c :: y)) ->
  forall s, P s.
Proof.
  intros Hbase Hstep.
  assert (G : forall n s, List.length s <= n -> P s).
  { induction n as [|n IH]; intros s Hn.
    - destruct s; [now apply Hbase | simpl in Hn; lia].
    - destruct (space_decompose s) as [H|[x [c [y [-> [Hx Hc]]]]]]; [now apply Hbase|].
      apply Hstep; try assumption. apply IH.
      rewrite length_app in Hn. simpl in Hn. lia. }
  intro s. now apply (G (List.length s)).
Qed.

Lemma split_tokens (s : pystr) : forallb is_token (split s) = true.
Proof.
  induction s as [x Hx | x c y Hx Hc IH] using space_ind.
  - rewrite (split_no_space x Hx). destruct x; [reflexivity|].
    simpl. simpl in Hx. now rewrite Hx.
  - rewrite (split_cut x c y Hx Hc). destruct x; [exact IH|].
    simpl. simpl in Hx. now rewrite Hx, IH.
Qed.

Lemma hyphen_pass_nil_iff (p : bool) (x : pystr) : hyphen_pass p x = [] <-> x = [].
Proof.
  split; [|now intros ->].
  intro H. apply (f_equal (@List.length ascii)) in H.
  rewrite hyphen_pass_length in H. now destruct x.
Qed.

Lemma cons_token_hyphen_pass (x : pystr) (words : list pystr) :
  cons_token (hyphen_pass false x) (map (hyphen_pass false) words)
  = map (hyphen_pass false) (cons_token x words).
Proof.
  destruct x as [|c x]; [reflexivity|].
  change (cons_token (c :: x) words) with ((c :: x) :: words). simpl map.
  destruct (hyphen_pass false (c :: x)) eqn:E; [|reflexivity].
  apply hyphen_pass_nil_iff in E. discriminate E.
Qed.

Lemma no_space_hyphen_pass (p : bool) (x : pystr) :
  no_space (hyphen_pass p x) = no_space x.
Proof. apply no_space_of_lower, hyphen_pass_lower. Qed.

(** The first pass works word by word. *)
Lemma split_hyphen_pass (s : pystr) :
  split (hyphen_pass false s) = map (hyphen_pass false) (split s).
Proof.
  induction s as [x Hx | x c y Hx Hc IH] using space_ind.
  - rewrite (split_no_space x Hx), split_no_space
      by (now rewrite no_space_hyphen_pass).
    apply (cons_token_hyphen_pass x []).
  - rewrite (hyphen_pass_separator false x c y (space_is_separator c Hc)).
    rewrite split_cut, (split_cut x c y Hx Hc), IH;
      [| now rewrite no_space_hyphen_pass | assumption].
    apply cons_token_hyphen_pass.
Qed.

Lemma is_token_spec (w : pystr) : is_token w = true -> w <> [] /\ no_space w = true.
Proof. destruct w; [discriminate|]. intro H. split; [discriminate | exact H]. Qed.

Lemma space_chr : is_space " " = true.
Proof. reflexivity. Qed.

Lemma join_cons (w w' : pystr) (rest : list pystr) :
  join (str " ") (w :: w' :: rest) = w ++ " "%char :: join (str " ") (w' :: rest).
Proof. reflexivity. Qed.

(** Splitting the joined words gives the words back. *)
Lemma split_join (words : list pystr) :
  forallb is_token words = true -> split (join (str " ") words) = words.
Proof.
  induction words as [|w rest IH]; intro H; [reflexivity|].
  simpl in H. apply andb_true_iff in H. destruct H as [Hw Hr].
  destruct (is_token_spec w Hw) as [Nw Sw].
  destruct rest as [|w' rest].
  - simpl. rewrite (split_no_space w Sw). now destruct w.
  - rewrite join_cons, (split_cut w " " _ Sw space_chr), (IH Hr). now destruct w.
Qed.

Lemma hyphen_pass_join (words : list pystr) :
  hyphen_pass false (join (str " ") words)
  = join (str " ") (map (hyphen_pass false) words).
Proof.
  induction words as [|w rest IH]; [reflexivity|].
  destruct rest as [|w' rest]; [reflexivity|].
  rewrite join_cons, (hyphen_pass_separator false w " " _ (space_is_separator _ space_chr)).
  rewrite IH. reflexivity.
Qed.

Lemma join_nil (words : list pystr) :
  forallb is_token words = true -> join (str " ") words = [] -> words = [].
Proof.
  destruct words as [|w rest]; [reflexivity|]. intros H E. exfalso.
  simpl in H. apply andb_true_iff in H. destruct H as [Hw _].
  destruct w as [|c w]; [discriminate|].
  destruct rest; discriminate E.
Qed.

(* ================================================================== *)
(** * [to_title_case]: one word *)
(* ================================================================== *)

Lemma firstn_length_app (l r : pystr) : firstn (List.length l) (l ++ r) = l.
Proof. induction l as [|c l IH]; simpl; [now destruct r | now rewrite IH]. Qed.

Lemma skipn_length_app (l r : pystr) : skipn (List.length l) (l ++ r) = r.
Proof. induction l as [|c l IH]; simpl; [reflexivity | exact IH]. Qed.

Lemma app_eq_length (a a' b b' : pystr) :
  a ++ b = a' ++ b' -> List.length a = List.length a' -> a = a' /\ b = b'.
Proof.
  revert a'. induction a as [|c a IH]; intros [|c' a'] E L; simpl in *;
    try discriminate; [now split|].
  injection E as -> E. injection L as L. destruct (IH _ E L) as [-> ->]. now split.
Qed.

Lemma index_app_absent (c : ascii) (l r : pystr) :
  has_chr c l = false -> index c (l ++ r) = List.length l + index c r.
Proof.
  induction l as [|x l IH]; intro H; [reflexivity|].
  rewrite has_chr_cons in H. apply orb_false_iff in H. destruct H as [Hx Hl].
  simpl. now rewrite Hx, (IH Hl).
Qed.

Lemma index_app_present (c : ascii) (l r : pystr) :
  has_chr c l = true -> index c (l ++ r) < List.length l.
Proof.
  induction l as [|x l IH]; intro H; [discriminate|].
  rewrite has_chr_cons in H. simpl.
  destruct (chr_eqb c x); [lia|]. simpl in H. specialize (IH H). lia.
Qed.

Lemma index_head (c : ascii) (r : pystr) : index c (c :: r) = 0.
Proof. simpl. now rewrite chr_eqb_refl. Qed.

(** A text that holds a character is cut at its first occurrence. *)
Lemma cut_at_first (c : ascii) (w : pystr) :
  has_chr c w = true ->
  exists l r, w = l ++ c :: r /\ has_chr c l = false.
Proof.
  induction w as [|x w IH]; intro H; [discriminate|].
  rewrite has_chr_cons in H. destruct (chr_eqb c x) eqn:E.
  - apply chr_eqb_eq in E. subst x. now exists [], w.
  - simpl in H. destruct (IH H) as [l [r [-> Hl]]].
    exists (x :: l), r. split; [reflexivity|]. now rewrite has_chr_cons, E, Hl.
Qed.

(** A word with an opening parenthesis before its first closing one. *)
Lemma paren_decompose (w : pystr) :
  has_chr "(" w = true -> has_chr ")" w = true -> index "(" w < index ")" w ->
  exists B I A,
    w = B ++ "("%char :: I ++ ")"%char :: A /\
    has_chr "(" B = false /\ has_chr ")" B = false /\ has_chr ")" I = false.
Proof.
  intros Ho Hc Hlt.
  destruct (cut_at_first "(" w Ho) as [B [R [-> HB]]].
  rewrite (index_app_absent "(" B _ HB), index_head, Nat.add_0_r in Hlt.
  destruct (has_chr ")" B) eqn:HcB.
  { pose proof (index_app_present ")" B ("("%char :: R) HcB). lia. }
  rewrite has_chr_app, HcB, has_chr_cons in Hc. simpl in Hc.
  change (chr_eqb ")" "(") with false in Hc. simpl in Hc.
  destruct (cut_at_first ")" R Hc) as [I [A [-> HI]]].
  exists B, I, A. now repeat split.
Qed.

Lemma after_paren_slice (P : pystr) (c : ascii) (A : pystr) :
  (if List.length P <? List.length (P ++ c :: A) - 1
   then skipn (List.length P + 1) (P ++ c :: A)
   else []) = A.
Proof.
  rewrite length_app. simpl List.length. destruct A as [|a A].
  - simpl List.length.
    replace (List.length P + 1 - 1) with (List.length P) by lia.
    now rewrite Nat.ltb_irrefl.
  - assert (L : (List.length P <? List.length P + S (List.length (a :: A)) - 1) = true)
      by (apply Nat.ltb_lt; simpl; lia).
    rewrite L.
    replace (List.length P + 1) with (List.length (P ++ [c]))
      by (rewrite length_app; reflexivity).
    replace (P ++ c :: a :: A) with ((P ++ [c]) ++ a :: A)
      by (now rewrite <- app_assoc).
    apply skipn_length_app.
Qed.

(** The parenthetical branch of [title_word] on such a word. *)
Lemma title_word_paren (i : nat) (B I A : pystr) :
  has_chr "(" B = false -> has_chr ")" B = false -> has_chr ")" I = false ->
  title_word i (B ++ "("%char :: I ++ ")"%char :: A)
  = capitalize B ++ "("%char :: lower I ++ ")"%char :: A.
Proof.
  intros HoB HcB HcI. unfold title_word.
  assert (E1 : has_chr "(" (B ++ "("%char :: I ++ ")"%char :: A) = true).
  { rewrite has_chr_app, has_chr_cons, chr_eqb_refl. simpl. apply orb_true_r. }
  assert (E2 : has_chr ")" (B ++ "("%char :: I ++ ")"%char :: A) = true).
  { rewrite has_chr_app, has_chr_cons, has_chr_app, has_chr_cons, chr_eqb_refl.
    simpl. now rewrite !orb_true_r. }
  assert (I1 : index "(" (B ++ "("%char :: I ++ ")"%char :: A) = List.length B).
  { rewrite (index_app_absent _ _ _ HoB), index_head. lia. }
  assert (I2 : index ")" (B ++ "("%char :: I ++ ")"%char :: A)
               = List.length (B ++ "("%char :: I)).
  { rewrite (index_app_absent _ _ _ HcB). simpl index.
    change (chr_eqb ")" "(") with false. cbv iota.
    rewrite (index_app_absent _ _ _ HcI), index_head, length_app. simpl. lia. }
  rewrite E1, E2, I1, I2. simpl andb. cbv iota.
  assert (W : B ++ "("%char :: I ++ ")"%char :: A = (B ++ "("%char :: I) ++ ")"%char :: A).
  { now rewrite <- app_assoc. }
  assert (S1 : slice 0 (List.length B) (B ++ "("%char :: I ++ ")"%char :: A) = B).
  { unfold slice. simpl skipn. apply firstn_length_app. }
  assert (S2 : slice (List.length B + 1) (List.length (B ++ "("%char :: I))
                     (B ++ "("%char :: I ++ ")"%char :: A) = I).
  { unfold slice. rewrite W, firstn_length_app.
    replace (List.length B + 1) with (List.length (B ++ ["("%char]))
      by (rewrite length_app; reflexivity).
    replace (B ++ "("%char :: I) with ((B ++ ["("%char]) ++ I)
      by (now rewrite <- app_assoc).
    apply skipn_length_app. }
  pose proof (after_paren_slice (B ++ "("%char :: I) ")" A) as S3.
  rewrite <- W in S3.
  rewrite S1, S2, S3. reflexivity.
Qed.

Lemma small_words_no_hyphen (x : pystr) :
  str_mem x small_words = true -> has_chr "-" x = false.
Proof.
  intro H. apply str_mem_In in H. unfold small_words in H. simpl in H.
  repeat (destruct H as [<-|H]; [reflexivity|]). contradiction.
Qed.

Lemma paren_ordered_of_lower (s t : pystr) :
  lower s = lower t -> paren_ordered s = paren_ordered t.
Proof.
  intro E. unfold paren_ordered.
  now rewrite (has_chr_of_lower "(" s t eq_refl eq_refl E),
              (has_chr_of_lower ")" s t eq_refl eq_refl E),
              (index_of_lower "(" s t eq_refl eq_refl E),
              (index_of_lower ")" s t eq_refl eq_refl E).
Qed.

Lemma is_token_of_lower (s t : pystr) : lower s = lower t -> is_token s = is_token t.
Proof.
  intro E. pose proof (no_space_of_lower s t E) as N.
  destruct s, t; try discriminate E; [reflexivity|]. exact N.
Qed.

(** The branches of [title_word] for a word that is not parenthetical. *)
Lemma title_word_plain (i : nat) (w : pystr) :
  has_chr "(" w && has_chr ")" w = false ->
  title_word i w =
  if i =? 0 then (if negb (has_chr "-" w) then capitalize w else w)
  else if str_mem (lower w) small_words then lower w
  else if has_chr "-" w || first_isupper w then w
  else capitalize w.
Proof. intro H. unfold title_word. now rewrite H. Qed.

(** On a word whose parentheses are in order, [title_word] changes the
    case of characters only. *)
Lemma title_word_lower (i : nat) (w : pystr) :
  paren_ordered w = true -> lower (title_word i w) = lower w.
Proof.
  intro Hp. destruct (has_chr "(" w && has_chr ")" w) eqn:E.
  - unfold paren_ordered in Hp. rewrite E in Hp. simpl in Hp.
    apply Nat.ltb_lt in Hp. apply andb_true_iff in E. destruct E as [Eo Ec].
    destruct (paren_decompose w Eo Ec Hp) as [B [I [A [-> [HoB [HcB HcI]]]]]].
    rewrite (title_word_paren i B I A HoB HcB HcI).
    rewrite !lower_app, !lower_cons, !lower_app, !lower_cons.
    now rewrite lower_capitalize, lower_idem.
  - rewrite (title_word_plain i w E).
    destruct (i =? 0).
    + destruct (negb (has_chr "-" w)); [apply lower_capitalize | reflexivity].
    + destruct (str_mem (lower w) small_words); [apply lower_idem|].
      destruct (has_chr "-" w || first_isupper w);
        [reflexivity | apply lower_capitalize].
Qed.

(** One word, normalised twice: a word that the first pass leaves as it is
    and whose parentheses are in order gets its final form the first
    time. *)
Lemma title_word_idempotent (i : nat) (w : pystr) :
  hyphen_pass false w = w -> paren_ordered w = true ->
  title_word i (hyphen_pass false (title_word i w)) = title_word i w.
Proof.
  intros Hw Hp. destruct (has_chr "(" w && has_chr ")" w) eqn:E.
  - unfold paren_ordered in Hp. rewrite E in Hp. simpl in Hp.
    apply Nat.ltb_lt in Hp. apply andb_true_iff in E. destruct E as [Eo Ec].
    destruct (paren_decompose w Eo Ec Hp) as [B [I [A [-> [HoB [HcB HcI]]]]]].
    assert (HA : hyphen_pass false A = A).
    { rewrite (hyphen_pass_separator false B "(" _ eq_refl) in Hw.
      rewrite (hyphen_pass_separator false I ")" _ eq_refl) in Hw.
      apply app_eq_length in Hw; [|apply hyphen_pass_length].
      destruct Hw as [_ Hw]. injection Hw as Hw.
      apply app_eq_length in Hw; [|apply hyphen_pass_length].
      destruct Hw as [_ Hw]. now injection Hw. }
    rewrite (title_word_paren i B I A HoB HcB HcI).
    rewrite (hyphen_pass_separator false (capitalize B) "(" _ eq_refl).
    rewrite (hyphen_pass_separator false (lower I) ")" _ eq_refl), HA.
    assert (LB : lower (hyphen_pass false (capitalize B)) = lower B)
      by (now rewrite hyphen_pass_lower, lower_capitalize).
    assert (LI : lower (hyphen_pass false (lower I)) = lower I)
      by (now rewrite hyphen_pass_lower, lower_idem).
    rewrite title_word_paren.
    + now rewrite (capitalize_of_lower _ _ LB), LI.
    + now rewrite (has_chr_of_lower "(" _ B eq_refl eq_refl LB).
    + now rewrite (has_chr_of_lower ")" _ B eq_refl eq_refl LB).
    + now rewrite (has_chr_of_lower ")" _ I eq_refl eq_refl LI).
  - rewrite (title_word_plain i w E).
    assert (K : forall u, lower u = lower w -> hyphen_pass false u = u ->
                title_word i (hyphen_pass false u) =
                if i =? 0 then (if negb (has_chr "-" w) then capitalize w else u)
                else if str_mem (lower w) small_words then lower w
                else if has_chr "-" w || first_isupper u then u
                else capitalize w).
    { intros u Lu Hu. rewrite Hu, title_word_plain.
      - rewrite (has_chr_of_lower "-" u w eq_refl eq_refl Lu), Lu.
        now rewrite (capitalize_of_lower u w Lu).
      - now rewrite (has_chr_of_lower "(" u w eq_refl eq_refl Lu),
                    (has_chr_of_lower ")" u w eq_refl eq_refl Lu). }
    assert (Hc : has_chr "-" w = false -> hyphen_pass false (capitalize w) = capitalize w).
    { intro H. apply hyphen_pass_no_hyphen.
      now rewrite (has_chr_of_lower "-" _ w eq_refl eq_refl (lower_capitalize w)). }
    destruct (i =? 0) eqn:Ei.
    + destruct (has_chr "-" w) eqn:Eh; simpl negb; cbv iota.
      * now rewrite (K w eq_refl Hw).
      * now rewrite (K _ (lower_capitalize w) (Hc eq_refl)).
    + destruct (str_mem (lower w) small_words) eqn:Es.
      * rewrite (K (lower w) (lower_idem w)); [reflexivity|].
        apply hyphen_pass_no_hyphen. now apply small_words_no_hyphen.
      * destruct (has_chr "-" w) eqn:Eh; simpl orb; cbv iota.
        -- now rewrite (K w eq_refl Hw).
        -- destruct (first_isupper w) eqn:Ef.
           ++ rewrite (K w eq_refl Hw). simpl orb. now rewrite Ef.
           ++ rewrite (K _ (lower_capitalize w) (Hc eq_refl)).
              simpl orb. now destruct (first_isupper (capitalize w)).
Qed.

Lemma title_words_tokens (words : list pystr) : forall i,
  forallb is_token words = true -> forallb paren_ordered words = true ->
  forallb is_token (title_words i words) = true.
Proof.
  induction words as [|w rest IH]; intros i Ht Hp; [reflexivity|].
  simpl in *. apply andb_true_iff in Ht. apply andb_true_iff in Hp.
  destruct Ht as [Hw Hr]. destruct Hp as [Pw Pr].
  rewrite (is_token_of_lower _ w (title_word_lower i w Pw)), Hw. simpl.
  now apply IH.
Qed.

Lemma title_words_idempotent (words : list pystr) : forall i,
  (forall w, In w words -> hyphen_pass false w = w) ->
  forallb paren_ordered words = true ->
  title_words i (map (hyphen_pass false) (title_words i words)) = title_words i words.
Proof.
  induction words as [|w rest IH]; intros i Hh Hp; [reflexivity|].
  simpl in Hp. apply andb_true_iff in Hp. destruct Hp as [Pw Pr]. simpl.
  rewrite (title_word_idempotent i w (Hh w (or_introl eq_refl)) Pw).
  f_equal. apply IH; [|assumption]. intros w' H. apply Hh. now right.
Qed.

Lemma to_title_case_eq (s : pystr) :
  to_title_case s =
  match s with
  | [] => []
  | _ => match split (hyphen_pass false s) with
         | [] => hyphen_pass false s
         | words => join (str " ") (title_words 0 words)
         end
  end.
Proof.
  destruct s as [|c s]; [reflexivity|].
  unfold to_title_case, re_sub_hyphenated. fold (hyphen_pass false (c :: s)).
  cbv zeta. now destruct (split (hyphen_pass false (c :: s))).
Qed.

(** [to_title_case] is idempotent on every text none of whose words has a
    closing parenthesis before its first opening one. *)
Lemma to_title_case_idempotent (s : pystr) :
  parens_ordered s = true -> to_title_case (to_title_case s) = to_title_case s.
Proof.
  intro Hp. rewrite (to_title_case_eq s). destruct s as [|c s]; [reflexivity|].
  remember (c :: s) as text eqn:Et. clear Et c s.
  pose proof (split_hyphen_pass text) as Hs.
  pose proof (split_tokens (hyphen_pass false text)) as Ht.
  pose proof (hyphen_pass_idempotent false text) as Hi.
  destruct (split (hyphen_pass false text)) as [|w rest] eqn:Ew.
  - remember (hyphen_pass false text) as t eqn:Eqt. clear Eqt.
    rewrite to_title_case_eq. destruct t; [reflexivity|]. now rewrite Hi, Ew.
  - assert (Hfix : forall x, In x (w :: rest) -> hyphen_pass false x = x).
    { intros x Hx. rewrite Hs in Hx. apply in_map_iff in Hx.
      destruct Hx as [x0 [<- _]]. apply hyphen_pass_idempotent. }
    assert (Hord : forallb paren_ordered (w :: rest) = true).
    { rewrite Hs. unfold parens_ordered in Hp. rewrite forallb_forall in *.
      intros x Hx. apply in_map_iff in Hx. destruct Hx as [x0 [<- Hx0]].
      rewrite (paren_ordered_of_lower _ x0 (hyphen_pass_lower false x0)). auto. }
    pose proof (title_words_tokens (w :: rest) 0 Ht Hord) as Hu.
    pose proof (title_words_idempotent (w :: rest) 0 Hfix Hord) as Hfinal.
    remember (title_words 0 (w :: rest)) as us eqn:Eus.
    assert (Hne : us <> []) by (subst us; discriminate).
    clear Eus.
    assert (Hmap : forallb is_token (map (hyphen_pass false) us) = true).
    { rewrite forallb_forall in *. intros x Hx. apply in_map_iff in Hx.
      destruct Hx as [x0 [<- Hx0]].
      rewrite (is_token_of_lower _ x0 (hyphen_pass_lower false x0)). auto. }
    pose proof (hyphen_pass_join us) as Hj.
    pose proof (join_nil us Hu) as Hn.
    remember (join (str " ") us) as r eqn:Er.
    rewrite to_title_case_eq. destruct r as [|a r]; [now elim Hne; apply Hn|].
    rewrite Hj, (split_join _ Hmap).
    destruct (map (hyphen_pass false) us) eqn:Em.
    { destruct us; [now elim Hne | discriminate Em]. }
    rewrite Hfinal. now symmetry.
Qed.

(* ================================================================== *)
(** * JSON values, loops over containers *)
(* ================================================================== *)

(** Induction over a JSON value and the values it holds. *)
Lemma json_nested_ind (P : json -> Prop) :
  P JNull -> (forall b, P (JBool b)) -> (forall n, P (JNum n)) ->
  (forall s, P (JStr s)) ->
  (forall items, Forall P items -> P (JArr items)) ->
  (forall fields, Forall (fun kv => P (snd kv)) fields -> P (JObj fields)) ->
  forall j, P j.
Proof.
  intros Hnull Hbool Hnum Hstr Harr Hobj.
  fix IH 1. intros [|b|n|s|items|fields].
  - exact Hnull.
  - apply Hbool.
  - apply Hnum.
  - apply Hstr.
  - apply Harr. induction items as [|x items IHl]; constructor; [apply IH | exact IHl].
  - apply Hobj. induction fields as [|[k x] fields IHl]; constructor;
      [apply IH | exact IHl].
Qed.

Lemma json_eqb_refl (j : json) : json_eqb j j = true.
Proof.
  induction j as [|b|n|s|items IH|fields IH] using json_nested_ind; simpl.
  - reflexivity.
  - now destruct b.
  - apply Z.eqb_refl.
  - apply str_eqb_refl.
  - induction IH as [|x items Hx _ IH]; [reflexivity|]. now rewrite Hx, IH.
  - induction IH as [|[k x] fields Hx _ IH]; [reflexivity|].
    simpl in Hx. now rewrite str_eqb_refl, Hx, IH.
Qed.

Lemma json_eqb_eq (a : json) : forall b, json_eqb a b = true -> a = b.
Proof.
  induction a as [|x|n|s|items IH|fields IH] using json_nested_ind;
    intros [|y|m|t|items'|fields'] H; simpl in H; try discriminate.
  - reflexivity.
  - f_equal. now apply Bool.eqb_prop.
  - f_equal. now apply Z.eqb_eq.
  - f_equal. now apply str_eqb_eq.
  - f_equal. revert items' H.
    induction IH as [|x items Hx _ IH]; intros [|y items'] H; try discriminate;
      [reflexivity|].
    apply andb_true_iff in H. destruct H as [H1 H2].
    f_equal; [now apply Hx | now apply IH].
  - f_equal. revert fields' H.
    induction IH as [|[k x] fields Hx _ IH]; intros [|[k' y] fields'] H;
      try discriminate; [reflexivity|].
    apply andb_true_iff in H. destruct H as [H12 H3].
    apply andb_true_iff in H12. destruct H12 as [H1 H2].
    apply str_eqb_eq in H1. simpl in Hx. apply Hx in H2. subst.
    f_equal. now apply IH.
Qed.

Lemma json_eqb_neq (a b : json) : json_eqb a b = false <-> a <> b.
Proof.
  split.
  - intros H ->. rewrite json_eqb_refl in H. discriminate.
  - intro H. destruct (json_eqb a b) eqn:E; [|reflexivity].
    apply json_eqb_eq in E. contradiction.
Qed.

(** A loop whose body settles leaves the elements it returned as they
    are when it runs over them again. *)
Lemma for_each_settles {S : Type} (body : json -> S -> option (json * S)) :
  settles body ->
  forall items s items' s',
    for_each body items s = Some (items', s') ->
    forall t, for_each body items' t = Some (items', t).
Proof.
  intros Hb items. induction items as [|x items IH]; intros s items' s' H t; simpl in H.
  - injection H as <- <-. reflexivity.
  - destruct (body x s) as [[x1 s1]|] eqn:E1; [|discriminate]. simpl in H.
    destruct (for_each body items s1) as [[r1 s2]|] eqn:E2; [|discriminate].
    simpl in H. injection H as <- <-. simpl.
    rewrite (Hb _ _ _ _ E1 t). simpl. rewrite (IH _ _ _ E2 t). reflexivity.
Qed.

(** A loop over strings returns the strings. *)
Lemma for_each_strings {S : Type} (body : json -> S -> option (json * S)) :
  keeps_strings body ->
  forall items s items' s',
    Forall (fun x => exists k, x = JStr k) items ->
    for_each body items s = Some (items', s') ->
    items' = items.
Proof.
  intros Hb items. induction items as [|x items IH]; intros s items' s' F H; simpl in H.
  - now injection H as <- <-.
  - inversion F as [|? ? [k ->] F']; subst.
    destruct (body (JStr k) s) as [[x1 s1]|] eqn:E1; [|discriminate]. simpl in H.
    destruct (for_each body items s1) as [[r1 s2]|] eqn:E2; [|discriminate].
    simpl in H. injection H as <- <-.
    rewrite (Hb _ _ _ _ E1), (IH _ _ _ F' E2). reflexivity.
Qed.

Lemma for_each_length {S : Type} (body : json -> S -> option (json * S)) :
  forall items s items' s',
    for_each body items s = Some (items', s') ->
    List.length items' = List.length items.
Proof.
  induction items as [|x items IH]; intros s items' s' H; simpl in H.
  - now injection H as <- <-.
  - destruct (body x s) as [[x1 s1]|] eqn:E1; [|discriminate]. simpl in H.
    destruct (for_each body items s1) as [[r1 s2]|] eqn:E2; [|discriminate].
    simpl in H. injection H as <- <-. simpl. now rewrite (IH _ _ _ E2).
Qed.

(** What [for x in container] runs over when the container is no list:
    strings only. *)
Lemma py_iter_strings (container : json) (items : list json) :
  py_iter container = Some items ->
  (exists l, container = JArr l) \/ Forall (fun x => exists k, x = JStr k) items.
Proof.
  destruct container as [| | |s|l|d]; simpl; intro H; try discriminate;
    injection H as <-.
  - right. induction s as [|c s IH]; constructor; [now exists [c] | exact IH].
  - left. now exists l.
  - right. induction d as [|[k v] d IH]; constructor; [now exists k | exact IH].
Qed.

(** A loop over a container, run again over what the first run left in
    the container. *)
Lemma loop_settles {S : Type} (body : json -> S -> option (json * S))
    (container : json) (items items' : list json) (s s' : S) :
  settles body -> keeps_strings body ->
  py_iter container = Some items ->
  for_each body items s = Some (items', s') ->
  py_iter (put_items container items') = Some items' /\
  (forall t, for_each body items' t = Some (items', t)) /\
  put_items (put_items container items') items' = put_items container items'.
Proof.
  intros Hs Hk Hi Hf. split; [|split].
  - destruct (py_iter_strings _ _ Hi) as [[l ->]|F]; [reflexivity|].
    rewrite (for_each_strings body Hk _ _ _ _ F Hf).
    destruct container; try discriminate Hi; try exact Hi.
    simpl in Hi. injection Hi as <-. reflexivity.
  - now apply (for_each_settles body Hs items s items' s').
  - now destruct container.
Qed.

(* ================================================================== *)
(** * The migration of a document, run twice *)
(* ================================================================== *)

Lemma rename_node_settles (m : mapping_table) :
  chain_free m = true -> settles (rename_node m).
Proof.
  intros C x s x' s' H t. destruct x as [| | | | |d]; simpl in H;
    try (destruct (forallb _ m) eqn:E; [|discriminate]; injection H as <- <-;
         simpl; now rewrite E).
  destruct (_rename_keys d m s) as [[d' st']|] eqn:E; [|discriminate].
  simpl in H. injection H as <- <-. simpl.
  rewrite (rename_keys_fixed d' m t); [reflexivity|].
  intros s0 t0 v. now apply (rename_keys_settled d d' m s st' C E).
Qed.

Lemma rename_node_keeps_strings (m : mapping_table) : keeps_strings (rename_node m).
Proof.
  intros k s x' s' H. simpl in H.
  destruct (forallb _ m); [|discriminate]. now injection H as <- <-.
Qed.

(** The result of [rename_node] on a dict is a dict, and an object comes
    from an object. *)
Lemma rename_node_object (m : mapping_table) (x : json) (st st' : stats) (d' : dict) :
  rename_node m x st = Some (JObj d', st') ->
  exists d, x = JObj d /\ _rename_keys d m st = Some (d', st').
Proof.
  destruct x as [| | | | |d]; simpl; intro H;
    try (destruct (forallb _ m); discriminate H).
  destruct (_rename_keys d m st) as [[d1 st1]|] eqn:E; [|discriminate].
  simpl in H. injection H as <- <-. now exists d.
Qed.

Lemma standardize_pattern_settles : settles standardize_pattern.
Proof.
  intros x s x' s' H t. unfold standardize_pattern in H.
  destruct (rename_node pattern_mapping x s) as [[p1 st1]|] eqn:E1; [|discriminate].
  simpl in H.
  pose proof (rename_node_settles pattern_mapping eq_refl _ _ _ _ E1) as R1.
  destruct (py_in (str "moves") p1) as [has|] eqn:E2; [|discriminate]. simpl in H.
  destruct has.
  - destruct (py_getitem p1 (str "moves")) as [mv|] eqn:E3; [|discriminate].
    simpl in H.
    destruct (py_iter mv) as [items|] eqn:E4; [|discriminate]. simpl in H.
    destruct (for_each (rename_node move_mapping) items st1) as [[items' st2]|] eqn:E5;
      [|discriminate].
    simpl in H.
    destruct p1 as [| | | | |d1]; try discriminate E3. simpl in H, E3.
    injection H as <- <-.
    destruct (rename_node_object _ _ _ _ _ E1) as [d0 [-> E0]].
    destruct (loop_settles (rename_node move_mapping) mv items items' st1 st2
                (rename_node_settles move_mapping eq_refl)
                (rename_node_keeps_strings move_mapping) E4 E5) as [L1 [L2 L3]].
    unfold standardize_pattern. simpl rename_node.
    rewrite (rename_keys_fixed _ pattern_mapping t).
    + simpl. unfold dict_has. rewrite get_set_same. simpl.
      rewrite L1. simpl. rewrite (L2 t). simpl.
      rewrite L3, (set_unchanged _ _ _ (get_set_same _ _ _)). reflexivity.
    + intros s0 t0 v Hin Hget.
      apply (rename_keys_settled d0 d1 pattern_mapping s st1 eq_refl E0 s0 t0 v Hin).
      rewrite get_set_other in Hget; [assumption|].
      simpl in Hin. destruct Hin as [[= <- <-]|[[= <- <-]|[]]]; discriminate.
  - injection H as <- <-. unfold standardize_pattern.
    rewrite (R1 t). simpl. rewrite E2. reflexivity.
Qed.

Lemma standardize_pattern_keeps_strings : keeps_strings standardize_pattern.
Proof.
  intros k s x' s' H. unfold standardize_pattern in H.
  destruct (rename_node pattern_mapping (JStr k) s) as [[p1 st1]|] eqn:E1; [|discriminate].
  apply rename_node_keeps_strings in E1 as E1'. subst p1. simpl in H.
  destruct (contains (str "moves") k); simpl in H; [discriminate|].
  now injection H as <- <-.
Qed.

(** [standardize_patterns] run on its own result returns the document and
    the counters unchanged. *)
Lemma standardize_patterns_idempotent (data data' : json) (st st' : stats) :
  standardize_patterns data st = Some (data', st') ->
  forall t, standardize_patterns data' t = Some (data', t).
Proof.
  intros H t. unfold standardize_patterns in H.
  destruct (py_in (str "patterns") data) as [has|] eqn:E1; [|discriminate].
  simpl in H. destruct has.
  - destruct (py_getitem data (str "patterns")) as [pv|] eqn:E2; [|discriminate].
    simpl in H.
    destruct (py_iter pv) as [items|] eqn:E3; [|discriminate]. simpl in H.
    destruct (for_each standardize_pattern items st) as [[items' st2]|] eqn:E4;
      [|discriminate].
    simpl in H.
    destruct data as [| | | | |d]; try discriminate E2. simpl in H, E2.
    injection H as <- <-.
    destruct (loop_settles standardize_pattern pv items items' st st2
                standardize_pattern_settles standardize_pattern_keeps_strings E3 E4)
      as [L1 [L2 L3]].
    unfold standardize_patterns. simpl. unfold dict_has. rewrite get_set_same. simpl.
    rewrite L1. simpl. rewrite (L2 t). simpl.
    rewrite L3, (set_unchanged _ _ _ (get_set_same _ _ _)). reflexivity.
  - injection H as <- <-. unfold standardize_patterns. rewrite E1. reflexivity.
Qed.

(** The parenthesis branch of [title_word] cuts a word whose closing
    parenthesis comes before its first opening one wrongly: the slice
    inside the parentheses is empty and the slice after the closing one
    starts before the opening one, so the text ")(" grows at every
    application. *)
Lemma to_title_case_unordered_parens :
  to_title_case ")(" = ")()(" /\
  to_title_case (to_title_case ")(") = ")()()(".
Proof. split; reflexivity. Qed.

(** The claim as worded, for every mapping table, fails: a table is
    applied once, with no second look at the keys it has written, so
    [_rename_keys] with a table that renames "a" to "b" and "b" to "c"
    renames again on its second run. *)
Lemma idempotence_fails :
  _rename_keys [(str "a", JNum 1)] [(str "a", str "b"); (str "b", str "c")] (mk_stats 0 0)
  = Some ([(str "b", JNum 1)], mk_stats 1 0) /\
  _rename_keys [(str "b", JNum 1)] [(str "a", str "b"); (str "b", str "c")] (mk_stats 0 0)
  = Some ([(str "c", JNum 1)], mk_stats 1 0).
Proof. split; reflexivity. Qed.

(** C1 (amended).  [to_title_case] is idempotent on every ASCII text none
    of whose words has a closing parenthesis before its first opening one
    (what the parenthesis branch does with such a word is left out).
    [_rename_keys], with a table whose source keys are distinct and in
    which no key written by a renaming is itself renamed, returns, and run
    again on its result returns the same object and the same counters (no
    key renamed, no field removed); so does the loop over a list of nodes,
    and so does [standardize_patterns] over a whole document. *)
Theorem normalizer_and_migrator_idempotent :
  (forall s : pystr,
      isascii s = true ->
      parens_ordered s = true ->
      to_title_case (to_title_case s) = to_title_case s) /\
  (forall (obj : dict) (m : mapping_table) (st : stats),
      distinct (map fst m) = true -> chain_free m = true ->
      exists obj' st',
        _rename_keys obj m st = Some (obj', st') /\
        forall st2, _rename_keys obj' m st2 = Some (obj', st2)) /\
  (forall (m : mapping_table) (nodes nodes' : list json) (st st' : stats),
      chain_free m = true ->
      for_each (rename_node m) nodes st = Some (nodes', st') ->
      forall st2, for_each (rename_node m) nodes' st2 = Some (nodes', st2)) /\
  (forall (data data' : json) (st st' : stats),
      standardize_patterns data st = Some (data', st') ->
      forall st2, standardize_patterns data' st2 = Some (data', st2)).
Proof.
  split; [|split; [|split]].
  - intros s _. exact (to_title_case_idempotent s).
  - exact rename_keys_idempotent.
  - intros m nodes nodes' st st' C H.
    exact (for_each_settles (rename_node m) (rename_node_settles m C) _ _ _ _ H).
  - exact standardize_patterns_idempotent.
Qed.

(** A text with a parenthesis, a move with an empty and a legacy field,
    and a document with one pattern of one move. *)
Lemma normalizer_and_migrator_idempotent_witness :
  to_title_case (to_title_case "3-step sparring (HEAD) of the x-y")
  = to_title_case "3-step sparring (HEAD) of the x-y" /\
  (exists obj' st',
      _rename_keys [(str "technique", JStr []);
                    (str "korean_technique", JStr (str "Ap Chagi"))]
                   move_mapping (mk_stats 0 0) = Some (obj', st') /\
      forall st2, _rename_keys obj' move_mapping st2 = Some (obj', st2)) /\
  (forall st2,
      standardize_patterns
        (JObj [(str "patterns",
                JArr [JObj [(str "moves",
                             JArr [JObj [(str "move_number", JNum 1);
                                         (str "english", JStr (str "Front Kick"))]]);
                            (str "english", JStr (str "Chon-Ji"))]])]) st2
      = Some
        (JObj [(str "patterns",
                JArr [JObj [(str "moves",
                             JArr [JObj [(str "move_number", JNum 1);
                                         (str "english", JStr (str "Front Kick"))]]);
                            (str "english", JStr (str "Chon-Ji"))]])], st2)).
Proof.
  destruct normalizer_and_migrator_idempotent as [T [R [_ P]]].
  split; [|split].
  - apply T; reflexivity.
  - apply R; reflexivity.
  - apply (P (JObj [(str "patterns",
                     JArr [JObj [(str "name", JStr (str "Chon-Ji"));
                                 (str "moves",
                                  JArr [JObj [(str "move_number", JNum 1);
                                              (str "technique", JStr (str "Front Kick"))]])]])])
             _ (mk_stats 0 0) (mk_stats 2 0)).
    reflexivity.
Defined.

(* ================================================================== *)
(** * The shape of a migrated document *)
(* ================================================================== *)

Lemma for_each_related {S : Type} (body : json -> S -> option (json * S))
    (R : json -> json -> Prop) :
  (forall x s x' s', body x s = Some (x', s') -> R x x') ->
  forall items s items' s',
    for_each body items s = Some (items', s') -> Forall2 R items items'.
Proof.
  intros Hb items. induction items as [|x items IH]; intros s items' s' H; simpl in H.
  - injection H as <- <-. constructor.
  - destruct (body x s) as [[x1 s1]|] eqn:E1; [|discriminate]. simpl in H.
    destruct (for_each body items s1) as [[r1 s2]|] eqn:E2; [|discriminate].
    simpl in H. injection H as <- <-. constructor; eauto.
Qed.

Lemma put_items_migrated (m : mapping_table) (container : json) (items items' : list json) :
  py_iter container = Some items ->
  Forall2 (migrated m) items items' ->
  migrated m container (put_items container items').
Proof.
  intros Hi F. destruct container; simpl; try apply migrated_same.
  simpl in Hi. injection Hi as ->. now apply migrated_list.
Qed.

Lemma table_keys_incl (m m_all : mapping_table) (k : pystr) :
  incl m m_all -> ~ In k (table_keys m_all) -> ~ In k (table_keys m).
Proof.
  intros Hi N F. apply N. unfold table_keys in *. rewrite in_app_iff in *.
  destruct F as [F|F]; apply in_map_iff in F; destruct F as [[a b] [E F]];
    simpl in E; subst k; [left | right].
  - change a with (fst (a, b)). apply in_map. now apply Hi.
  - change b with (snd (a, b)). apply in_map. now apply Hi.
Qed.

(** One node, renamed with a table that is part of [m_all]. *)
Lemma rename_node_migrated (m m_all : mapping_table) (x x' : json) (st st' : stats) :
  incl m m_all -> rename_node m x st = Some (x', st') -> migrated m_all x x'.
Proof.
  intros Hi H. destruct x as [| | | | |d]; simpl in H;
    try (destruct (forallb _ m); [|discriminate]; injection H as <- <-;
         apply migrated_same).
  destruct (_rename_keys d m st) as [[d' s1]|] eqn:E; [|discriminate].
  simpl in H. injection H as <- <-. apply migrated_object.
  - intros k v' Hk.
    destruct (rename_keys_get _ _ _ _ _ E k v' Hk) as [[G _]|[_ [s0 [A [B C]]]]].
    + exists k, v'. repeat split; [assumption | now left | apply migrated_same].
    + exists s0, v'. repeat split; [assumption | right; now apply Hi | apply migrated_same].
  - intros k v N Hk. exists v. split; [|apply migrated_same].
    rewrite (rename_keys_frame _ _ _ _ _ E k); [assumption|].
    now apply (table_keys_incl m m_all).
Qed.

Lemma standardize_pattern_migrated (x x' : json) (st st' : stats) :
  standardize_pattern x st = Some (x', st') ->
  migrated (pattern_mapping ++ move_mapping) x x'.
Proof.
  intro H. unfold standardize_pattern in H.
  destruct (rename_node pattern_mapping x st) as [[p1 st1]|] eqn:E1; [|discriminate].
  simpl in H.
  assert (I1 : incl pattern_mapping (pattern_mapping ++ move_mapping))
    by (apply incl_appl, incl_refl).
  assert (I2 : incl move_mapping (pattern_mapping ++ move_mapping))
    by (apply incl_appr, incl_refl).
  destruct (py_in (str "moves") p1) as [has|] eqn:E2; [|discriminate]. simpl in H.
  destruct has.
  - destruct (py_getitem p1 (str "moves")) as [mv|] eqn:E3; [|discriminate].
    simpl in H.
    destruct (py_iter mv) as [items|] eqn:E4; [|discriminate]. simpl in H.
    destruct (for_each (rename_node move_mapping) items st1) as [[items' st2]|] eqn:E5;
      [|discriminate].
    simpl in H.
    destruct p1 as [| | | | |d1]; try discriminate E3. simpl in H, E3.
    injection H as <- <-.
    destruct (rename_node_object _ _ _ _ _ E1) as [d0 [-> E0]].
    assert (M : migrated (pattern_mapping ++ move_mapping) mv (put_items mv items')).
    { apply (put_items_migrated _ _ items); [assumption|].
      apply (for_each_related (rename_node move_mapping) _
               (fun x s x' s' => rename_node_migrated move_mapping _ x x' s s' I2)
               _ _ _ _ E5). }
    assert (G0 : dict_get (str "moves") d0 = Some mv).
    { destruct (rename_keys_get _ _ _ _ _ E0 _ _ E3) as [[G _]|[_ [s0 [A _]]]];
        [assumption|].
      simpl in A. destruct A as [A|[A|[]]]; discriminate A. }
    apply migrated_object.
    + intros k v' Hk. rewrite get_set in Hk.
      destruct (str_eqb k (str "moves")) eqn:Ek.
      * apply str_eqb_eq in Ek. subst k. injection Hk as <-.
        exists (str "moves"), mv. repeat split; [assumption | now left | assumption].
      * destruct (rename_keys_get _ _ _ _ _ E0 k v' Hk) as [[G _]|[_ [s0 [A [B C]]]]].
        -- exists k, v'. repeat split; [assumption | now left | apply migrated_same].
        -- exists s0, v'. repeat split;
             [assumption | right; now apply I1 | apply migrated_same].
    + intros k v N Hk.
      assert (G1 : dict_get k d1 = Some v).
      { rewrite (rename_keys_frame _ _ _ _ _ E0 k); [assumption|].
        now apply (table_keys_incl pattern_mapping (pattern_mapping ++ move_mapping)). }
      rewrite get_set. destruct (str_eqb k (str "moves")) eqn:Ek.
      * apply str_eqb_eq in Ek. subst k.
        assert (v = mv) by congruence. subst v. now exists (put_items mv items').
      * exists v. split; [assumption | apply migrated_same].
  - injection H as <- <-.
    now apply (rename_node_migrated pattern_mapping _ x p1 st st1 I1).
Qed.

Lemma standardize_patterns_migrated (data data' : json) (st st' : stats) :
  standardize_patterns data st = Some (data', st') ->
  migrated (pattern_mapping ++ move_mapping) data data'.
Proof.
  intro H. unfold standardize_patterns in H.
  destruct (py_in (str "patterns") data) as [has|] eqn:E1; [|discriminate].
  simpl in H. destruct has; [|injection H as <- <-; apply migrated_same].
  destruct (py_getitem data (str "patterns")) as [pv|] eqn:E2; [|discriminate].
  simpl in H.
  destruct (py_iter pv) as [items|] eqn:E3; [|discriminate]. simpl in H.
  destruct (for_each standardize_pattern items st) as [[items' st2]|] eqn:E4;
    [|discriminate].
  simpl in H.
  destruct data as [| | | | |d]; try discriminate E2. simpl in H, E2.
  injection H as <- <-.
  assert (M : migrated (pattern_mapping ++ move_mapping) pv (put_items pv items')).
  { apply (put_items_migrated _ _ items); [assumption|].
    apply (for_each_related standardize_pattern _
             (fun x s x' s' => standardize_pattern_migrated x x' s s')
             _ _ _ _ E4). }
  apply migrated_object.
  - intros k v' Hk. rewrite get_set in Hk.
    destruct (str_eqb k (str "patterns")) eqn:Ek.
    + apply str_eqb_eq in Ek. subst k. injection Hk as <-.
      exists (str "patterns"), pv. repeat split; [assumption | now left | assumption].
    + exists k, v'. repeat split; [assumption | now left | apply migrated_same].
  - intros k v N Hk. rewrite get_set.
    destruct (str_eqb k (str "patterns")) eqn:Ek.
    + apply str_eqb_eq in Ek. subst k.
      assert (v = pv) by congruence. subst v. now exists (put_items pv items').
    + exists v. split; [assumption | apply migrated_same].
Qed.

Lemma Forall2_same {A : Type} (R : A -> A -> Prop) (l : list A) :
  (forall x, R x x) -> Forall2 R l l.
Proof. intro H. induction l; constructor; auto. Qed.

Lemma Forall2_nth_right {A : Type} (R : A -> A -> Prop) (l l' : list A) :
  Forall2 R l l' ->
  forall i y', nth_error l' i = Some y' -> exists y, nth_error l i = Some y /\ R y y'.
Proof.
  induction 1 as [|x x' l l' Hx _ IH]; intros [|i] y' H; simpl in H; try discriminate.
  - injection H as <-. now exists x.
  - now apply IH.
Qed.

Lemma Forall2_nth_left {A : Type} (R : A -> A -> Prop) (l l' : list A) :
  Forall2 R l l' ->
  forall i y, nth_error l i = Some y -> exists y', nth_error l' i = Some y' /\ R y y'.
Proof.
  induction 1 as [|x x' l l' Hx _ IH]; intros [|i] y H; simpl in H; try discriminate.
  - injection H as <-. now exists x'.
  - now apply IH.
Qed.

(** A scalar of the migrated document is in the original at a path of the
    same length, with the same indices and with keys that are the same up
    to a renaming. *)
Lemma migrated_scalar_origin (m : mapping_table) (path : list step) :
  forall x x' v,
    migrated m x x' -> at_path path x' = Some v -> scalar v = true ->
    exists path0, Forall2 (step_renamed m) path0 path /\ at_path path0 x = Some v.
Proof.
  induction path as [|[k|i] rest IH]; intros x x' v M H Hs.
  - simpl in H. injection H as ->. exists []. split; [constructor|].
    inversion M; subst; try reflexivity; discriminate Hs.
  - inversion M as [y|l l' F|d d' Hback Hfwd]; subst.
    + exists (Key k :: rest). split; [|assumption].
      apply Forall2_same. apply same_step.
    + discriminate H.
    + simpl in H. destruct (dict_get k d') as [v1'|] eqn:E; [|discriminate].
      destruct (Hback k v1' E) as [k0 [v1 [G [Hk M1]]]].
      destruct (IH _ _ _ M1 H Hs) as [p0 [F0 A0]].
      exists (Key k0 :: p0). split.
      * constructor; [|assumption].
        destruct Hk as [->|Hk]; [apply same_step | now apply renamed_key].
      * simpl. now rewrite G.
  - inversion M as [y|l l' F|d d' Hback Hfwd]; subst.
    + exists (Idx i :: rest). split; [|assumption].
      apply Forall2_same. apply same_step.
    + simpl in H. destruct (nth_error l' i) as [y'|] eqn:E; [|discriminate].
      destruct (Forall2_nth_right _ _ _ F i y' E) as [y [G M1]].
      destruct (IH _ _ _ M1 H Hs) as [p0 [F0 A0]].
      exists (Idx i :: p0). split.
      * constructor; [apply same_step | assumption].
      * simpl. now rewrite G.
    + discriminate H.
Qed.

(** A scalar of the original at a path that names no key of the table is
    at the same path in the migrated document. *)
Lemma migrated_scalar_kept (m : mapping_table) (path : list step) :
  forall x x' v,
    migrated m x x' -> at_path path x = Some v -> scalar v = true ->
    avoids m path -> at_path path x' = Some v.
Proof.
  induction path as [|[k|i] rest IH]; intros x x' v M H Hs Ha.
  - simpl in H. injection H as ->. simpl.
    inversion M; subst; try reflexivity; discriminate Hs.
  - assert (Ha' : avoids m rest) by (intros k' Hk'; apply Ha; now right).
    inversion M as [y|l l' F|d d' Hback Hfwd]; subst; [assumption | discriminate H |].
    simpl in H. destruct (dict_get k d) as [v1|] eqn:E; [|discriminate].
    destruct (Hfwd k v1 (Ha k (or_introl eq_refl)) E) as [v1' [G M1]].
    simpl. rewrite G. now apply (IH _ _ _ M1).
  - assert (Ha' : avoids m rest) by (intros k' Hk'; apply Ha; now right).
    inversion M as [y|l l' F|d d' Hback Hfwd]; subst; [assumption | | discriminate H].
    simpl in H. destruct (nth_error l i) as [y|] eqn:E; [|discriminate].
    destruct (Forall2_nth_left _ _ _ F i y E) as [y' [G M1]].
    simpl. rewrite G. now apply (IH _ _ _ M1).
Qed.

(** What is at a path of the migrated document comes from the original,
    at a path of the same length, with the same indices and with keys that
    are the same up to a renaming. *)
Lemma migrated_origin (m : mapping_table) (path : list step) :
  forall x x' v',
    migrated m x x' -> at_path path x' = Some v' ->
    exists path0 v,
      Forall2 (step_renamed m) path0 path /\ at_path path0 x = Some v /\
      migrated m v v'.
Proof.
  induction path as [|[k|i] rest IH]; intros x x' v' M H.
  - cbn [at_path] in H. injection H as ->. exists [], x. now repeat split.
  - inversion M as [y|l l' F|d d' Hback Hfwd]; subst.
    + exists (Key k :: rest), v'. split; [|split; [assumption | apply migrated_same]].
      apply Forall2_same. apply same_step.
    + discriminate H.
    + cbn [at_path] in H. destruct (dict_get k d') as [v1'|] eqn:E; [|discriminate].
      destruct (Hback k v1' E) as [k0 [v1 [G [Hk M1]]]].
      destruct (IH _ _ _ M1 H) as [p0 [v [F0 [A0 M0]]]].
      exists (Key k0 :: p0), v. split; [|split; [|exact M0]].
      * constructor; [|assumption].
        destruct Hk as [->|Hk]; [apply same_step | now apply renamed_key].
      * cbn [at_path]. now rewrite G.
  - inversion M as [y|l l' F|d d' Hback Hfwd]; subst.
    + exists (Idx i :: rest), v'. split; [|split; [assumption | apply migrated_same]].
      apply Forall2_same. apply same_step.
    + cbn [at_path] in H. destruct (nth_error l' i) as [y'|] eqn:E; [|discriminate].
      destruct (Forall2_nth_right _ _ _ F i y' E) as [y [G M1]].
      destruct (IH _ _ _ M1 H) as [p0 [v [F0 [A0 M0]]]].
      exists (Idx i :: p0), v. split; [|split; [|exact M0]].
      * constructor; [apply same_step | assumption].
      * cbn [at_path]. now rewrite G.
    + discriminate H.
Qed.

(** What is in the original at a path that names no key of the table is
    at the same path in the migrated document, migrated. *)
Lemma migrated_kept (m : mapping_table) (path : list step) :
  forall x x' v,
    migrated m x x' -> at_path path x = Some v -> avoids m path ->
    exists v', at_path path x' = Some v' /\ migrated m v v'.
Proof.
  induction path as [|[k|i] rest IH]; intros x x' v M H Ha.
  - cbn [at_path] in H. injection H as ->. now exists x'.
  - assert (Ha' : avoids m rest) by (intros k' Hk'; apply Ha; now right).
    inversion M as [y|l l' F|d d' Hback Hfwd]; subst.
    + exists v. split; [assumption | apply migrated_same].
    + discriminate H.
    + cbn [at_path] in H. destruct (dict_get k d) as [v1|] eqn:E; [|discriminate].
      destruct (Hfwd k v1 (Ha k (or_introl eq_refl)) E) as [v1' [G M1]].
      cbn [at_path]. rewrite G. now apply (IH _ _ _ M1).
  - assert (Ha' : avoids m rest) by (intros k' Hk'; apply Ha; now right).
    inversion M as [y|l l' F|d d' Hback Hfwd]; subst.
    + exists v. split; [assumption | apply migrated_same].
    + cbn [at_path] in H. destruct (nth_error l i) as [y|] eqn:E; [|discriminate].
      destruct (Forall2_nth_left _ _ _ F i y E) as [y' [G M1]].
      cbn [at_path]. rewrite G. now apply (IH _ _ _ M1).
    + discriminate H.
Qed.

(** A list is migrated to a list of the same length, element by element
    and in the same order. *)
Lemma migrated_list_left (m : mapping_table) (items : list json) (v' : json) :
  migrated m (JArr items) v' ->
  exists items', v' = JArr items' /\ List.length items' = List.length items /\
                 Forall2 (migrated m) items items'.
Proof.
  intro M. inversion M as [y|l l' F|]; subst.
  - exists items. split; [reflexivity|]. split; [reflexivity|].
    apply Forall2_same. apply migrated_same.
  - exists l'. split; [reflexivity|]. split; [|exact F].
    symmetry. exact (Forall2_length F).
Qed.

Lemma migrated_list_right (m : mapping_table) (v : json) (items' : list json) :
  migrated m v (JArr items') ->
  exists items, v = JArr items /\ List.length items' = List.length items /\
                Forall2 (migrated m) items items'.
Proof.
  intro M. inversion M as [y|l l' F|]; subst.
  - exists items'. split; [reflexivity|]. split; [reflexivity|].
    apply Forall2_same. apply migrated_same.
  - exists l. split; [reflexivity|]. split; [|exact F].
    symmetry. exact (Forall2_length F).
Qed.

(** C8.  [_rename_keys] on a node, for a table with distinct source keys:
    a key that the table does not name keeps its value; the fields with
    such keys keep their order; and every value of the result is a value
    of the original, under the same key or under the old key of an entry,
    so that no value is changed inside.  [standardize_patterns] on a
    document: the result is the original [migrated], that is, every list
    keeps its length and the place of its elements, every field of an
    object of the result is a field of the original under the same key or
    under the old key of an entry of the two tables, and every field whose
    key the tables do not name stays.  So a list of the result is a list
    of the original of the same length, at a path of the same length with
    the same indices, whose keys differ by the renamings only; a list of
    the original at a path that names no key of the tables is at the same
    path in the result, with the same length and its elements migrated in
    place; a scalar of the result is a scalar of the original at such a
    path; and a scalar of the original at a path that names no key of the
    tables is at the same path in the result. *)
Theorem migration_preserves_structure :
  (forall (obj : dict) (m : mapping_table) (st : stats),
      distinct (map fst m) = true ->
      exists obj' st',
        _rename_keys obj m st = Some (obj', st') /\
        (forall k, ~ In k (table_keys m) -> dict_get k obj' = dict_get k obj) /\
        unrelated m obj' = unrelated m obj /\
        (forall k v, dict_get k obj' = Some v ->
           exists k0, dict_get k0 obj = Some v /\ (k0 = k \/ In (k0, k) m))) /\
  (forall (data data' : json) (st st' : stats),
      standardize_patterns data st = Some (data', st') ->
      migrated (pattern_mapping ++ move_mapping) data data' /\
      (forall path items',
          at_path path data' = Some (JArr items') ->
          exists path0 items,
            Forall2 (step_renamed (pattern_mapping ++ move_mapping)) path0 path /\
            at_path path0 data = Some (JArr items) /\
            List.length items' = List.length items /\
            Forall2 (migrated (pattern_mapping ++ move_mapping)) items items') /\
      (forall path items,
          at_path path data = Some (JArr items) ->
          avoids (pattern_mapping ++ move_mapping) path ->
          exists items',
            at_path path data' = Some (JArr items') /\
            List.length items' = List.length items /\
            Forall2 (migrated (pattern_mapping ++ move_mapping)) items items') /\
      (forall path v,
          at_path path data' = Some v -> scalar v = true ->
          exists path0,
            Forall2 (step_renamed (pattern_mapping ++ move_mapping)) path0 path /\
            at_path path0 data = Some v) /\
      (forall path v,
          at_path path data = Some v -> scalar v = true ->
          avoids (pattern_mapping ++ move_mapping) path ->
          at_path path data' = Some v)).
Proof.
  split.
  - intros obj m st D.
    destruct (rename_keys_total obj m st (distinct_NoDup _ D)) as [obj' [st' H]].
    exists obj', st'. split; [assumption|]. split; [|split].
    + now apply (rename_keys_frame obj obj' m st st').
    + now apply (rename_keys_order obj obj' m st st').
    + intros k v Hk.
      destruct (rename_keys_get _ _ _ _ _ H k v Hk) as [[G _]|[_ [s0 [A [B C]]]]].
      * exists k. now auto.
      * exists s0. now auto.
  - intros data data' st st' H.
    pose proof (standardize_patterns_migrated _ _ _ _ H) as M.
    split; [exact M|]. split; [|split; [|split]].
    + intros path items' Hp.
      destruct (migrated_origin _ path _ _ _ M Hp) as [path0 [v [F [A Mv]]]].
      destruct (migrated_list_right _ _ _ Mv) as [items [-> [L Fi]]].
      now exists path0, items.
    + intros path items Hp Ha.
      destruct (migrated_kept _ path _ _ _ M Hp Ha) as [v' [A Mv]].
      destruct (migrated_list_left _ _ _ Mv) as [items' [-> [L Fi]]].
      now exists items'.
    + intros path v. now apply migrated_scalar_origin.
    + intros path v. now apply migrated_scalar_kept.
Qed.

(** A pattern document with one move: the node is renamed, the list of
    moves stays at its path with its one element, the stance of the move
    stays at its path, and the technique is found under its new key at the
    same depth and index. *)
Lemma migration_preserves_structure_witness :
  (exists items',
      at_path [Key (str "patterns"); Idx 0; Key (str "moves")]
        (JObj [(str "patterns",
                JArr [JObj [(str "moves",
                             JArr [JObj [(str "stance", JStr (str "Walking Stance"));
                                         (str "english", JStr (str "Front Kick"))]]);
                            (str "english", JStr (str "Chon-Ji"))]])])
      = Some (JArr items') /\
      List.length items' = 1) /\
  (exists obj' st',
      _rename_keys [(str "name", JStr (str "Chon-Ji")); (str "moves", JArr [])]
                   pattern_mapping (mk_stats 0 0) = Some (obj', st') /\
      dict_get (str "moves") obj' = Some (JArr [])) /\
  at_path [Key (str "patterns"); Idx 0; Key (str "moves"); Idx 0; Key (str "stance")]
    (JObj [(str "patterns",
            JArr [JObj [(str "moves",
                         JArr [JObj [(str "stance", JStr (str "Walking Stance"));
                                     (str "english", JStr (str "Front Kick"))]]);
                        (str "english", JStr (str "Chon-Ji"))]])])
  = Some (JStr (str "Walking Stance")) /\
  (exists path0,
      Forall2 (step_renamed (pattern_mapping ++ move_mapping)) path0
        [Key (str "patterns"); Idx 0; Key (str "moves"); Idx 0; Key (str "english")] /\
      at_path path0
        (JObj [(str "patterns",
                JArr [JObj [(str "name", JStr (str "Chon-Ji"));
                            (str "moves",
                             JArr [JObj [(str "stance", JStr (str "Walking Stance"));
                                         (str "technique", JStr (str "Front Kick"))]])]])])
      = Some (JStr (str "Front Kick"))).
Proof.
  destruct migration_preserves_structure as [N T].
  pose (data := JObj [(str "patterns",
                JArr [JObj [(str "name", JStr (str "Chon-Ji"));
                            (str "moves",
                             JArr [JObj [(str "stance", JStr (str "Walking Stance"));
                                         (str "technique", JStr (str "Front Kick"))]])]])]).
  destruct (T data _ (mk_stats 0 0) (mk_stats 2 0) eq_refl)
    as [_ [_ [Lfwd [Tback Tfwd]]]].
  assert (Hp : forall path : list step,
             incl path [Key (str "patterns"); Idx 0; Key (str "moves"); Idx 0;
                        Key (str "stance")] ->
             avoids (pattern_mapping ++ move_mapping) path).
  { intros path Hi k Hk. apply Hi in Hk. simpl in Hk.
    destruct Hk as [E|[E|[E|[E|[E|[]]]]]]; try discriminate E;
      injection E as <-; simpl; intros [F|[F|[F|[F|[F|[F|[F|[F|[]]]]]]]]];
      discriminate F. }
  split; [|split; [|split]].
  - destruct (Lfwd [Key (str "patterns"); Idx 0; Key (str "moves")] _ eq_refl)
      as [items' [A [L _]]].
    + apply Hp. intros x Hx. simpl in Hx. simpl. tauto.
    + now exists items'.
  - destruct (N [(str "name", JStr (str "Chon-Ji")); (str "moves", JArr [])]
                pattern_mapping (mk_stats 0 0) eq_refl) as [obj' [st' [H [F _]]]].
    exists obj', st'. split; [exact H|]. rewrite F; [reflexivity|].
    simpl. intros [E|[E|[E|[E|[]]]]]; discriminate E.
  - apply Tfwd; [reflexivity | reflexivity |].
    apply Hp. apply incl_refl.
  - apply Tback; reflexivity.
Defined.

(* ================================================================== *)
(** * The flag of a run and the changes it records *)
(* ================================================================== *)

Lemma extends_refl {L : Type} (s : bool * list L) : extends s s.
Proof. exists []. now rewrite app_nil_r, orb_false_r. Qed.

Lemma extends_trans {L : Type} (s1 s2 s3 : bool * list L) :
  extends s1 s2 -> extends s2 s3 -> extends s1 s3.
Proof.
  intros [e1 [A1 B1]] [e2 [A2 B2]]. exists (e1 ++ e2). split.
  - now rewrite A2, A1, app_assoc.
  - rewrite B2, B1. destruct e1, e2; simpl; now rewrite ?orb_false_r, ?orb_true_r.
Qed.

Lemma extends_push {L : Type} (s : bool * list L) (e : L) :
  extends s (true, snd s ++ [e]).
Proof. exists [e]. simpl. now rewrite orb_true_r. Qed.

(** From the empty list and the lowered flag: the flag is up exactly when
    something was recorded. *)
Lemma extends_from_start {L : Type} (flag : bool) (log : list L) :
  extends (false, []) (flag, log) -> (flag = false <-> log = []).
Proof.
  intros [ext [A B]]. simpl in A, B. subst log flag.
  destruct ext; split; intro H; try reflexivity; discriminate H.
Qed.

Lemma for_each_extends {L : Type}
    (body : json -> bool * list L -> option (json * (bool * list L))) :
  (forall x s x' s', body x s = Some (x', s') -> extends s s') ->
  forall items s items' s',
    for_each body items s = Some (items', s') -> extends s s'.
Proof.
  intros Hb items. induction items as [|x items IH]; intros s items' s' H; simpl in H.
  - injection H as <- <-. apply extends_refl.
  - destruct (body x s) as [[x1 s1]|] eqn:E1; [|discriminate]. simpl in H.
    destruct (for_each body items s1) as [[r1 s2]|] eqn:E2; [|discriminate].
    simpl in H. injection H as <- <-.
    apply (extends_trans s s1 s2); eauto.
Qed.

(* ================================================================== *)
(** * The Korean romanisation corrector *)
(* ================================================================== *)

(** What [correct_korean_move] does to a move: nothing, or one write of
    the mapped romanisation over a different value, recorded once. *)
Lemma correct_korean_move_spec (mapping : list (pystr * pystr)) (pattern_name move : json)
    (s : korean_state) (move' : json) (s' : korean_state) :
  correct_korean_move mapping pattern_name move s = Some (move', s') ->
  (move' = move /\ s' = s) \/
  (exists d english correct current number,
      move = JObj d /\
      py_get move (str "technique") (JStr []) = Some (JStr english) /\
      table_get english mapping = Some correct /\
      py_get move (str "korean_technique") (JStr []) = Some current /\
      py_get move (str "move_number") (JNum 0) = Some number /\
      current <> JStr correct /\
      move' = JObj (dict_set (str "korean_technique") (JStr correct) d) /\
      s' = (true, snd s ++ [mk_korean_correction pattern_name number (JStr english)
                                                 current correct])).
Proof.
  unfold correct_korean_move. intro H.
  destruct move as [| | | | |d]; try discriminate H. simpl in H.
  destruct (korean_for mapping _) as [found|] eqn:Ef; [|discriminate]. simpl in H.
  destruct found as [correct|]; [|injection H as <- <-; now left].
  destruct (json_eqb _ (JStr correct)) eqn:Ee; simpl in H.
  - injection H as <- <-. now left.
  - injection H as <- <-. right.
    unfold korean_for in Ef.
    destruct (match dict_get (str "technique") d with Some x => x | None => JStr [] end)
      as [| | |english| |] eqn:Et; try discriminate Ef.
    exists d, english, correct,
      (match dict_get (str "korean_technique") d with Some x => x | None => JStr [] end),
      (match dict_get (str "move_number") d with Some x => x | None => JNum 0 end).
    repeat split.
    + simpl. now rewrite Et.
    + now injection Ef.
    + now apply json_eqb_neq.
Qed.

Lemma correct_korean_move_extends (mapping : list (pystr * pystr)) (pattern_name : json) :
  forall x s x' s',
    correct_korean_move mapping pattern_name x s = Some (x', s') -> extends s s'.
Proof.
  intros x s x' s' H.
  destruct (correct_korean_move_spec _ _ _ _ _ _ H)
    as [[_ ->]|[d [e [c [cur [n [_ [_ [_ [_ [_ [_ [_ ->]]]]]]]]]]]]].
  - apply extends_refl.
  - apply extends_push.
Qed.

Lemma correct_korean_move_settles (mapping : list (pystr * pystr)) (pattern_name : json) :
  settles (correct_korean_move mapping pattern_name).
Proof.
  intros x s x' s' H t.
  destruct (correct_korean_move_spec _ _ _ _ _ _ H)
    as [[-> ->]|[d [e [c [cur [n [-> [Ht [Hm [_ [_ [_ [-> _]]]]]]]]]]]]].
  - (* nothing was written: the same tests fail again *)
    unfold correct_korean_move in *.
    destruct x as [| | | | |d]; try discriminate H. simpl in *.
    destruct (korean_for mapping _) as [found|]; [|discriminate]. simpl in *.
    destruct found as [correct|]; [|reflexivity].
    destruct (json_eqb _ (JStr correct)); simpl in *; [reflexivity|].
    injection H as _ H2. exfalso.
    apply (f_equal (fun p => List.length (snd p))) in H2. simpl in H2.
    rewrite length_app in H2. simpl in H2. lia.
  - unfold correct_korean_move. simpl in *.
    rewrite !get_set_other by discriminate. rewrite get_set_same.
    injection Ht as Ht. rewrite Ht. simpl. rewrite Hm. simpl.
    now rewrite str_eqb_refl.
Qed.

Lemma correct_korean_move_keeps_strings (mapping : list (pystr * pystr))
    (pattern_name : json) :
  keeps_strings (correct_korean_move mapping pattern_name).
Proof. intros k s x' s' H. discriminate H. Qed.

(** The converse of [correct_korean_move_spec]: a move whose technique is
    in the table and whose romanisation differs is overwritten. *)
Lemma correct_korean_move_writes (mapping : list (pystr * pystr))
    (pattern_name move current : json) (english correct : pystr) (s : korean_state) :
  py_get move (str "technique") (JStr []) = Some (JStr english) ->
  table_get english mapping = Some correct ->
  py_get move (str "korean_technique") (JStr []) = Some current ->
  current <> JStr correct ->
  exists d number,
    move = JObj d /\
    py_get move (str "move_number") (JNum 0) = Some number /\
    correct_korean_move mapping pattern_name move s
    = Some (JObj (dict_set (str "korean_technique") (JStr correct) d),
            (true, snd s ++ [mk_korean_correction pattern_name number (JStr english)
                                                  current correct])).
Proof.
  intros Ht Hm Hc Hd. destruct move as [| | | | |d]; try discriminate Ht.
  exists d, (match dict_get (str "move_number") d with Some x => x | None => JNum 0 end).
  split; [reflexivity|]. split; [reflexivity|].
  unfold correct_korean_move. simpl in *.
  injection Ht as Ht. injection Hc as Hc. rewrite Ht, Hc. simpl. rewrite Hm.
  apply json_eqb_neq in Hd. rewrite Hd. reflexivity.
Qed.

Lemma correct_korean_pattern_extends (mapping : list (pystr * pystr)) :
  forall x s x' s', correct_korean_pattern mapping x s = Some (x', s') -> extends s s'.
Proof.
  intros x s x' s' H. unfold correct_korean_pattern in H.
  destruct (py_get x (str "name") _) as [pattern_name|]; [|discriminate]. simpl in H.
  destruct (py_get x (str "moves") _) as [moves|]; [|discriminate]. simpl in H.
  destruct (py_iter moves) as [items|]; [|discriminate]. simpl in H.
  destruct (for_each _ items s) as [[items' s1]|] eqn:E; [|discriminate]. simpl in H.
  apply for_each_extends in E; [|apply correct_korean_move_extends].
  destruct (py_getitem x (str "moves")).
  - destruct (py_setitem x _ _); [|discriminate]. simpl in H. now injection H as _ <-.
  - now injection H as _ <-.
Qed.

Lemma correct_korean_pattern_keeps_strings (mapping : list (pystr * pystr)) :
  keeps_strings (correct_korean_pattern mapping).
Proof. intros k s x' s' H. discriminate H. Qed.

Lemma correct_korean_pattern_settles (mapping : list (pystr * pystr)) :
  settles (correct_korean_pattern mapping).
Proof.
  intros x s x' s' H t. unfold correct_korean_pattern in H.
  destruct x as [| | | | |d]; try discriminate H. simpl in H.
  destruct (py_iter _) as [items|] eqn:Ei; [|discriminate]. simpl in H.
  destruct (for_each _ items s) as [[items' s1]|] eqn:Ef; [|discriminate]. simpl in H.
  destruct (loop_settles _ _ items items' s s1
              (correct_korean_move_settles mapping _)
              (correct_korean_move_keeps_strings mapping _) Ei Ef) as [L1 [L2 L3]].
  destruct (dict_get (str "moves") d) as [moves|] eqn:Em.
  - injection H as <- <-. unfold correct_korean_pattern. simpl.
    rewrite (get_set_other (str "name") (str "moves")) by discriminate.
    rewrite get_set_same.
    rewrite L1. simpl. rewrite (L2 t). simpl.
    rewrite L3, (set_unchanged _ _ _ (get_set_same _ _ _)). reflexivity.
  - injection H as <- <-. unfold correct_korean_pattern. simpl. rewrite Em.
    simpl in Ei. injection Ei as <-. simpl in Ef. injection Ef as <- <-.
    reflexivity.
Qed.

(** A second run of the corrector over the document the first run left:
    nothing is changed and nothing recorded. *)
Lemma romanized_document_settles (mapping : list (pystr * pystr)) (data data' : json)
    (s : korean_state) :
  romanized_document mapping data = Some (data', s) ->
  romanized_document mapping data' = Some (data', (false, [])).
Proof.
  intro H. unfold romanized_document in H.
  destruct data as [| | | | |d]; try discriminate H. simpl in H.
  destruct (py_iter _) as [items|] eqn:Ei; [|discriminate]. simpl in H.
  destruct (for_each (correct_korean_pattern mapping) items (false, []))
    as [[items' s1]|] eqn:Ef; [|discriminate].
  simpl in H.
  destruct (loop_settles _ _ items items' _ s1
              (correct_korean_pattern_settles mapping)
              (correct_korean_pattern_keeps_strings mapping) Ei Ef) as [L1 [L2 L3]].
  destruct (dict_get (str "patterns") d) as [patterns|] eqn:Ep.
  - injection H as <- <-. unfold romanized_document. simpl.
    rewrite get_set_same. rewrite L1. simpl. rewrite (L2 (false, [])). simpl.
    rewrite L3, (set_unchanged _ _ _ (get_set_same _ _ _)). reflexivity.
  - injection H as <- <-. unfold romanized_document. simpl. rewrite Ep.
    simpl in Ei. injection Ei as <-. simpl in Ef. injection Ef as <- <-.
    reflexivity.
Qed.

(** The flag [corrections_made] is up exactly when [file_corrections]
    holds an entry. *)
Lemma romanized_document_flag (mapping : list (pystr * pystr)) (data data' : json)
    (flag : bool) (log : list korean_correction) :
  romanized_document mapping data = Some (data', (flag, log)) ->
  (flag = false <-> log = []).
Proof.
  intro H. apply extends_from_start. unfold romanized_document in H.
  destruct (py_get data _ _) as [patterns|]; [|discriminate]. simpl in H.
  destruct (py_iter patterns) as [items|]; [|discriminate]. simpl in H.
  destruct (for_each (correct_korean_pattern mapping) items (false, []))
    as [[items' s1]|] eqn:Ef; [|discriminate].
  simpl in H. apply for_each_extends in Ef; [|apply correct_korean_pattern_extends].
  destruct (py_getitem data _).
  - destruct (py_setitem data _ _); [|discriminate]. simpl in H. now injection H as _ <-.
  - now injection H as _ <-.
Qed.

(** The table of the corrector names every technique once, so the order
    of its [update] calls does not matter. *)
Lemma korean_mapping_distinct : distinct (map fst korean_mapping) = true.
Proof. vm_compute. reflexivity. Qed.

(** A flag that is down at the end was down before, and nothing was
    recorded in between. *)
Lemma extends_flag_down {L : Type} (s s' : bool * list L) :
  extends s s' -> fst s' = false -> s' = s.
Proof.
  intros [ext [A B]] F. destruct s as [f l], s' as [f' l']. cbn [fst snd] in *.
  rewrite F in B. destruct f, ext; cbn in B; try discriminate B.
  rewrite app_nil_r in A. now subst l' f'.
Qed.

(** The element at a place of the list a loop runs over: the body ran on
    it, and what it returned is at the same place of the result. *)
Lemma for_each_nth {L : Type}
    (body : json -> bool * list L -> option (json * (bool * list L))) :
  (forall x s x' s', body x s = Some (x', s') -> extends s s') ->
  forall items s items' s' i x,
    for_each body items s = Some (items', s') ->
    nth_error items i = Some x ->
    exists s0 x' s1,
      extends s s0 /\ body x s0 = Some (x', s1) /\ extends s1 s' /\
      nth_error items' i = Some x'.
Proof.
  intros Hb items. induction items as [|y items IH]; intros s items' s' i x H Hn.
  - destruct i; discriminate Hn.
  - cbn [for_each] in H.
    destruct (body y s) as [[y1 s1]|] eqn:E1; [|discriminate]. cbn [bind] in H.
    destruct (for_each body items s1) as [[r1 s2]|] eqn:E2; [|discriminate].
    cbn [bind] in H. injection H as <- <-.
    destruct i as [|i]; cbn [nth_error] in Hn |- *.
    + injection Hn as ->. exists s, y1, s1. split; [apply extends_refl|].
      split; [exact E1|]. split; [|reflexivity].
      exact (for_each_extends body Hb _ _ _ _ E2).
    + destruct (IH _ _ _ _ _ E2 Hn) as [s0 [x' [t1 [A [B [C D]]]]]].
      exists s0, x', t1. split; [|now repeat split].
      exact (extends_trans _ _ _ (Hb _ _ _ _ E1) A).
Qed.

Lemma table_value_nonempty (table : list (pystr * pystr)) (key value : pystr) :
  forallb (fun p => negb (str_eqb (snd p) [])) table = true ->
  table_get key table = Some value -> value <> [].
Proof.
  induction table as [|[k v] table IH]; cbn [forallb table_get snd]; intros F H;
    [discriminate H|].
  apply andb_true_iff in F. destruct F as [F1 F2].
  destruct (str_eqb key k).
  - injection H as <-. intros ->. discriminate F1.
  - exact (IH F2 H).
Qed.

(** No technique of the table is mapped to the empty text. *)
Lemma korean_mapping_nonempty :
  forallb (fun p => negb (str_eqb (snd p) [])) korean_mapping = true.
Proof. vm_compute. reflexivity. Qed.

(** A move whose technique the table names leaves the body with the
    romanisation of the table, whether it was overwritten or held it. *)
Lemma correct_korean_move_named (mapping : list (pystr * pystr)) (name : json)
    (d : dict) (english correct : pystr) (t0 : korean_state) (move' : json)
    (t1 : korean_state) :
  forallb (fun p => negb (str_eqb (snd p) [])) mapping = true ->
  py_get (JObj d) (str "technique") (JStr []) = Some (JStr english) ->
  table_get english mapping = Some correct ->
  correct_korean_move mapping name (JObj d) t0 = Some (move', t1) ->
  move' = JObj (dict_set (str "korean_technique") (JStr correct) d).
Proof.
  intros Hne Ht Hm H. unfold correct_korean_move in H. cbn [py_get bind] in H.
  cbn [py_get] in Ht. injection Ht as Ht. rewrite Ht in H.
  cbn [korean_for bind] in H. rewrite Hm in H.
  destruct (json_eqb _ (JStr correct)) eqn:Ee; cbn [negb py_setitem bind] in H.
  - injection H as <- _. apply json_eqb_eq in Ee.
    destruct (dict_get (str "korean_technique") d) as [cur|] eqn:Ek.
    + subst cur. now rewrite (set_unchanged _ _ _ Ek).
    + injection Ee as Ee. exfalso.
      apply (table_value_nonempty _ _ _ Hne Hm). now symmetry.
  - now injection H as <- _.
Qed.

(** A move whose technique the table does not name leaves the body as it
    came. *)
Lemma correct_korean_move_unnamed (mapping : list (pystr * pystr)) (name move : json)
    (t0 : korean_state) (move' : json) (t1 : korean_state) :
  (forall english,
      py_get move (str "technique") (JStr []) = Some (JStr english) ->
      table_get english mapping = None) ->
  correct_korean_move mapping name move t0 = Some (move', t1) -> move' = move.
Proof.
  intros Hn H.
  destruct (correct_korean_move_spec _ _ _ _ _ _ H)
    as [[-> _]|[d [e [c [cur [n [_ [Ht [Hm _]]]]]]]]]; [reflexivity|].
  rewrite (Hn e Ht) in Hm. discriminate Hm.
Qed.

Lemma correct_korean_pattern_at (mapping : list (pystr * pystr)) (pd : dict)
    (ms : list json) (s0 : korean_state) (pat' : json) (s1 : korean_state)
    (j : nat) (move : json) :
  correct_korean_pattern mapping (JObj pd) s0 = Some (pat', s1) ->
  dict_get (str "moves") pd = Some (JArr ms) ->
  nth_error ms j = Some move ->
  exists name t0 move' t1,
    extends s0 t0 /\
    correct_korean_move mapping name move t0 = Some (move', t1) /\
    extends t1 s1 /\
    at_path [Key (str "moves"); Idx j] pat' = Some move'.
Proof.
  intros H Em Hn. unfold correct_korean_pattern in H.
  cbn [py_get py_getitem bind] in H. rewrite Em in H. cbn [py_iter bind] in H.
  destruct (for_each _ ms s0) as [[ms' s1']|] eqn:Ef; [|discriminate].
  cbn [bind py_setitem put_items] in H. injection H as <- <-.
  destruct (for_each_nth _ (correct_korean_move_extends mapping _) _ _ _ _ _ _ Ef Hn)
    as [t0 [move' [t1 [A [B [C D]]]]]].
  eexists _, t0, move', t1. split; [exact A|]. split; [exact B|]. split; [exact C|].
  cbn [at_path]. rewrite get_set_same. now rewrite D.
Qed.

(** A pattern leaves the body with its fields other than [moves] as they
    were. *)
Lemma correct_korean_pattern_frame (mapping : list (pystr * pystr)) (pat : json)
    (s0 : korean_state) (pat' : json) (s1 : korean_state) (k : pystr) :
  correct_korean_pattern mapping pat s0 = Some (pat', s1) ->
  k <> str "moves" ->
  at_path [Key k] pat' = at_path [Key k] pat.
Proof.
  intros H N. unfold correct_korean_pattern in H.
  destruct pat as [| | | | |pd]; try discriminate H.
  cbn [py_get py_getitem bind] in H.
  destruct (py_iter _) as [items|]; [|discriminate]. cbn [bind] in H.
  destruct (for_each _ items s0) as [[items' s1']|]; [|discriminate].
  cbn [bind] in H.
  destruct (dict_get (str "moves") pd); cbn [py_setitem bind] in H;
    injection H as <- _; [|reflexivity].
  cbn [at_path]. now rewrite (get_set_other k (str "moves")) by exact N.
Qed.

(** The move at a place of the document: the body ran on it, and what it
    returned is at the same place of the document the run built. *)
Lemma romanized_document_at (mapping : list (pystr * pystr)) (data data' : json)
    (s : korean_state) (i j : nat) (move : json) :
  romanized_document mapping data = Some (data', s) ->
  at_path [Key (str "patterns"); Idx i; Key (str "moves"); Idx j] data = Some move ->
  exists name t0 move' t1,
    correct_korean_move mapping name move t0 = Some (move', t1) /\
    extends t1 s /\
    at_path [Key (str "patterns"); Idx i; Key (str "moves"); Idx j] data' = Some move'.
Proof.
  intros H Hp. cbn [at_path] in Hp.
  destruct data as [| | | | |d]; try discriminate Hp.
  destruct (dict_get (str "patterns") d) as [pv|] eqn:Ep; [|discriminate Hp].
  destruct pv as [| | | |ps|]; try discriminate Hp.
  destruct (nth_error ps i) as [pat|] eqn:En; [|discriminate Hp].
  destruct pat as [| | | | |pd]; try discriminate Hp.
  destruct (dict_get (str "moves") pd) as [mv|] eqn:Em; [|discriminate Hp].
  destruct mv as [| | | |ms|]; try discriminate Hp.
  destruct (nth_error ms j) as [m|] eqn:Ej; [|discriminate Hp].
  injection Hp as ->.
  unfold romanized_document in H. cbn [py_get py_getitem bind] in H.
  rewrite Ep in H. cbn [py_iter bind] in H.
  destruct (for_each (correct_korean_pattern mapping) ps (false, []))
    as [[ps' s']|] eqn:Ef; [|discriminate].
  cbn [bind py_setitem put_items] in H. injection H as <- <-.
  destruct (for_each_nth _ (correct_korean_pattern_extends mapping) _ _ _ _ _ _ Ef En)
    as [s0 [pat' [s1 [A [B [C D]]]]]].
  destruct (correct_korean_pattern_at _ _ _ _ _ _ _ _ B Em Ej)
    as [name [t0 [move' [t1 [A' [B' [C' D']]]]]]].
  exists name, t0, move', t1. split; [exact B'|].
  split; [exact (extends_trans _ _ _ C' C)|].
  cbn [at_path] in D' |- *. rewrite get_set_same, D. exact D'.
Qed.

(** Outside the moves the document the run builds is the document it
    read. *)
Lemma romanized_document_frame (mapping : list (pystr * pystr)) (data data' : json)
    (s : korean_state) :
  romanized_document mapping data = Some (data', s) ->
  (forall k, k <> str "patterns" -> at_path [Key k] data' = at_path [Key k] data) /\
  (forall i k, k <> str "moves" ->
     at_path [Key (str "patterns"); Idx i; Key k] data'
     = at_path [Key (str "patterns"); Idx i; Key k] data).
Proof.
  intro H. unfold romanized_document in H.
  destruct data as [| | | | |d]; try discriminate H.
  cbn [py_get py_getitem bind] in H.
  destruct (py_iter _) as [items|] eqn:Ei; [|discriminate]. cbn [bind] in H.
  destruct (for_each (correct_korean_pattern mapping) items (false, []))
    as [[items' s']|] eqn:Ef; [|discriminate].
  cbn [bind] in H.
  pose proof (for_each_related _
                (fun pat pat' => forall k, k <> str "moves" ->
                                 at_path [Key k] pat' = at_path [Key k] pat)
                (fun x s0 x' s1 E k N =>
                   correct_korean_pattern_frame mapping x s0 x' s1 k E N)
                _ _ _ _ Ef) as F.
  destruct (dict_get (str "patterns") d) as [pv|] eqn:Ep;
    cbn [py_setitem bind] in H; injection H as <- <-.
  - split.
    + intros k N. cbn [at_path].
      now rewrite (get_set_other k (str "patterns")) by exact N.
    + intros i k N. cbn [at_path]. rewrite get_set_same, Ep.
      destruct pv as [| | | |ps|]; try reflexivity.
      cbn [py_iter] in Ei. injection Ei as <-. cbn [put_items].
      destruct (nth_error ps i) as [pat|] eqn:E1.
      * destruct (Forall2_nth_left _ _ _ F i pat E1) as [pat' [E2 R]]. rewrite E2.
        specialize (R k N). cbn [at_path] in R. exact R.
      * destruct (nth_error items' i) as [pat'|] eqn:E2; [|reflexivity].
        destruct (Forall2_nth_right _ _ _ F i pat' E2) as [pat [E3 _]].
        rewrite E1 in E3. discriminate E3.
  - split; intros; reflexivity.
Qed.

(** What is in the store after a run that met no exception. *)
Lemma korean_stored (mapping : list (pystr * pystr)) (data data' : json)
    (s : korean_state) :
  romanized_document mapping data = Some (data', s) ->
  stored_after data (correct_korean_romanizations_with mapping data)
  = if fst s then data' else data.
Proof.
  intro H. unfold correct_korean_romanizations_with. rewrite H.
  destruct s as [[|] log]; reflexivity.
Qed.

(** The move at a place of the document: the body ran on it, and what it
    returned is at the same place of the stored document, whether the run
    wrote or not. *)
Lemma korean_stored_move (mapping : list (pystr * pystr)) (data : json)
    (r : json * korean_state) (i j : nat) (move : json) :
  romanized_document mapping data = Some r ->
  at_path [Key (str "patterns"); Idx i; Key (str "moves"); Idx j] data = Some move ->
  exists name t0 move' t1,
    correct_korean_move mapping name move t0 = Some (move', t1) /\
    at_path [Key (str "patterns"); Idx i; Key (str "moves"); Idx j]
      (stored_after data (correct_korean_romanizations_with mapping data))
    = Some move'.
Proof.
  intros H Hp. destruct r as [data' s]. rewrite (korean_stored _ _ _ _ H).
  destruct (romanized_document_at _ _ _ _ _ _ _ H Hp)
    as [name [t0 [move' [t1 [B [C D]]]]]].
  exists name, t0, move', t1. split; [exact B|].
  destruct (fst s) eqn:Fs; [exact D|].
  assert (F1 : fst t1 = false)
    by (rewrite <- (extends_flag_down _ _ C Fs); exact Fs).
  destruct (correct_korean_move_spec _ _ _ _ _ _ B)
    as [[-> _]|[d [e [c [cur [n [_ [_ [_ [_ [_ [_ [_ E]]]]]]]]]]]]].
  - exact Hp.
  - rewrite E in F1. discriminate F1.
Qed.

Lemma for_each_nth_none {S : Type} (body : json -> S -> option (json * S))
    (items : list json) (s : S) (items' : list json) (s' : S) (i : nat) :
  for_each body items s = Some (items', s') ->
  nth_error items i = None -> nth_error items' i = None.
Proof.
  intros H Hn. apply nth_error_None. rewrite (for_each_length body _ _ _ _ H).
  now apply nth_error_None.
Qed.

Lemma correct_korean_pattern_no_new_move (mapping : list (pystr * pystr)) (pat : json)
    (s0 : korean_state) (pat' : json) (s1 : korean_state) (j : nat) :
  correct_korean_pattern mapping pat s0 = Some (pat', s1) ->
  at_path [Key (str "moves"); Idx j] pat = None ->
  at_path [Key (str "moves"); Idx j] pat' = None.
Proof.
  intros H Hp. unfold correct_korean_pattern in H.
  destruct pat as [| | | | |pd]; try discriminate H.
  cbn [py_get py_getitem bind] in H. cbn [at_path] in Hp.
  destruct (dict_get (str "moves") pd) as [mv|] eqn:Em.
  - destruct (py_iter mv) as [items|] eqn:Ei; [|discriminate]. cbn [bind] in H.
    destruct (for_each _ items s0) as [[items' s1']|] eqn:Ef; [|discriminate].
    cbn [bind py_setitem] in H. injection H as <- _.
    cbn [at_path]. rewrite get_set_same.
    destruct mv as [| | | |ms|]; try reflexivity.
    cbn [py_iter] in Ei. injection Ei as <-. cbn [put_items].
    destruct (nth_error ms j) as [m|] eqn:Ej; [discriminate Hp|].
    now rewrite (for_each_nth_none _ _ _ _ _ _ Ef Ej).
  - cbn [py_iter bind for_each] in H. injection H as <- _.
    cbn [at_path]. now rewrite Em.
Qed.

(** The run adds no move. *)
Lemma romanized_document_no_new_move (mapping : list (pystr * pystr))
    (data data' : json) (s : korean_state) (i j : nat) :
  romanized_document mapping data = Some (data', s) ->
  at_path [Key (str "patterns"); Idx i; Key (str "moves"); Idx j] data = None ->
  at_path [Key (str "patterns"); Idx i; Key (str "moves"); Idx j] data' = None.
Proof.
  intros H Hp. unfold romanized_document in H.
  destruct data as [| | | | |d]; try discriminate H.
  cbn [py_get py_getitem bind] in H.
  change (match dict_get (str "patterns") d with
          | Some pv => match pv with
                       | JArr ps => match nth_error ps i with
                                    | Some pat => at_path [Key (str "moves"); Idx j] pat
                                    | None => None
                                    end
                       | _ => None
                       end
          | None => None
          end = None) in Hp.
  destruct (dict_get (str "patterns") d) as [pv|] eqn:Ep.
  - destruct (py_iter pv) as [items|] eqn:Ei; [|discriminate]. cbn [bind] in H.
    destruct (for_each (correct_korean_pattern mapping) items (false, []))
      as [[items' s']|] eqn:Ef; [|discriminate].
    cbn [bind py_setitem] in H. injection H as <- _.
    change (match dict_get (str "patterns")
                    (dict_set (str "patterns") (put_items pv items') d) with
            | Some pv => match pv with
                         | JArr ps => match nth_error ps i with
                                      | Some pat => at_path [Key (str "moves"); Idx j] pat
                                      | None => None
                                      end
                         | _ => None
                         end
            | None => None
            end = None).
    rewrite get_set_same.
    destruct pv as [| | | |ps|]; try reflexivity.
    cbn [py_iter] in Ei. injection Ei as <-. cbn [put_items].
    destruct (nth_error ps i) as [pat|] eqn:En.
    + destruct (for_each_nth _ (correct_korean_pattern_extends mapping)
                  _ _ _ _ _ _ Ef En) as [s0 [pat' [s1 [_ [B [_ D]]]]]].
      rewrite D. exact (correct_korean_pattern_no_new_move _ _ _ _ _ _ B Hp).
    + now rewrite (for_each_nth_none _ _ _ _ _ _ Ef En).
  - cbn [py_iter bind for_each] in H. injection H as <- _.
    cbn [at_path]. rewrite Ep. reflexivity.
Qed.

(** The Korean-romanisation corrector is idempotent and change-minimal.
    Whatever the document, a second run of [correct_korean_romanizations]
    over what the first run left in the store records no correction,
    returns [False], writes nothing and leaves the stored document as it
    is.  After a run that met no exception, every move of the document
    whose technique is a key of the table is in the store with its
    [korean_technique] set to the mapped value and its other fields as
    they were; every move whose technique is no key of the table is in the
    store as it was; the run adds no move; and the fields of the document
    other than [patterns] and the fields of a pattern other than [moves]
    are as they were.  In the loop body, a move is overwritten only when
    its technique is a key of the table and its [korean_technique] differs
    from the mapped value: one entry is then recorded; in every other case
    the move and the record are untouched.  And a move that meets the two
    conditions is overwritten. *)
Theorem korean_corrector_idempotent_minimal :
  (forall data : json,
     let first := correct_korean_romanizations data in
     let stored := stored_after data first in
     let second := correct_korean_romanizations stored in
     reported second = [] /\ returned second = false /\ written second = None /\
     stored_after stored second = stored) /\
  (forall (data : json) (r : json * korean_state),
     romanized_document korean_mapping data = Some r ->
     let stored := stored_after data (correct_korean_romanizations data) in
     (forall (i j : nat) (move : json) (english correct : pystr),
         at_path [Key (str "patterns"); Idx i; Key (str "moves"); Idx j] data
         = Some move ->
         py_get move (str "technique") (JStr []) = Some (JStr english) ->
         table_get english korean_mapping = Some correct ->
         exists d,
           move = JObj d /\
           at_path [Key (str "patterns"); Idx i; Key (str "moves"); Idx j] stored
           = Some (JObj (dict_set (str "korean_technique") (JStr correct) d))) /\
     (forall (i j : nat) (move : json),
         at_path [Key (str "patterns"); Idx i; Key (str "moves"); Idx j] data
         = Some move ->
         (forall english,
             py_get move (str "technique") (JStr []) = Some (JStr english) ->
             table_get english korean_mapping = None) ->
         at_path [Key (str "patterns"); Idx i; Key (str "moves"); Idx j] stored
         = Some move) /\
     (forall i j : nat,
         at_path [Key (str "patterns"); Idx i; Key (str "moves"); Idx j] data = None ->
         at_path [Key (str "patterns"); Idx i; Key (str "moves"); Idx j] stored
         = None) /\
     (forall k, k <> str "patterns" ->
                at_path [Key k] stored = at_path [Key k] data) /\
     (forall i k, k <> str "moves" ->
                  at_path [Key (str "patterns"); Idx i; Key k] stored
                  = at_path [Key (str "patterns"); Idx i; Key k] data)) /\
  (forall (pattern_name move move' : json) (s s' : korean_state),
     correct_korean_move korean_mapping pattern_name move s = Some (move', s') ->
     (move' = move /\ s' = s) \/
     (exists d english correct current number,
         move = JObj d /\
         py_get move (str "technique") (JStr []) = Some (JStr english) /\
         table_get english korean_mapping = Some correct /\
         py_get move (str "korean_technique") (JStr []) = Some current /\
         py_get move (str "move_number") (JNum 0) = Some number /\
         current <> JStr correct /\
         move' = JObj (dict_set (str "korean_technique") (JStr correct) d) /\
         s' = (true, snd s ++ [mk_korean_correction pattern_name number (JStr english)
                                                    current correct]))) /\
  (forall (pattern_name move current : json) (english correct : pystr)
          (s : korean_state),
     py_get move (str "technique") (JStr []) = Some (JStr english) ->
     table_get english korean_mapping = Some correct ->
     py_get move (str "korean_technique") (JStr []) = Some current ->
     current <> JStr correct ->
     exists d number,
       move = JObj d /\
       py_get move (str "move_number") (JNum 0) = Some number /\
       correct_korean_move korean_mapping pattern_name move s
       = Some (JObj (dict_set (str "korean_technique") (JStr correct) d),
               (true, snd s ++ [mk_korean_correction pattern_name number (JStr english)
                                                     current correct]))).
Proof.
  split; [|split; [|split]].
  - intro data. cbv zeta.
    unfold correct_korean_romanizations, correct_korean_romanizations_with.
    destruct (romanized_document korean_mapping data) as [[data' [flag log]]|] eqn:E.
    + destruct flag.
      * change (stored_after data (mk_outcome (Some data') true log)) with data'.
        rewrite (romanized_document_settles _ _ _ _ E). now repeat split.
      * apply romanized_document_flag in E as F. destruct F as [F _].
        rewrite (F eq_refl) in *.
        change (stored_after data (mk_outcome None false [])) with data.
        rewrite E. now repeat split.
    + change (stored_after data (mk_outcome None false [])) with data.
      rewrite E. now repeat split.
  - intros data r H. cbv zeta.
    change (correct_korean_romanizations data)
      with (correct_korean_romanizations_with korean_mapping data).
    split; [|split; [|split; [|split]]].
    + intros i j move english correct Hp Ht Hm.
      destruct (korean_stored_move _ _ _ _ _ _ H Hp)
        as [name [t0 [move' [t1 [B D]]]]].
      destruct move as [| | | | |d]; try discriminate Ht.
      exists d. split; [reflexivity|]. rewrite D. f_equal.
      exact (correct_korean_move_named _ _ _ _ _ _ _ _
               korean_mapping_nonempty Ht Hm B).
    + intros i j move Hp Hn.
      destruct (korean_stored_move _ _ _ _ _ _ H Hp)
        as [name [t0 [move' [t1 [B D]]]]].
      rewrite D. f_equal. exact (correct_korean_move_unnamed _ _ _ _ _ _ Hn B).
    + intros i j Hp. destruct r as [data' s]. rewrite (korean_stored _ _ _ _ H).
      destruct (fst s); [|exact Hp].
      exact (romanized_document_no_new_move _ _ _ _ _ _ H Hp).
    + intros k N. destruct r as [data' s]. rewrite (korean_stored _ _ _ _ H).
      destruct (fst s); [|reflexivity].
      exact (proj1 (romanized_document_frame _ _ _ _ H) k N).
    + intros i k N. destruct r as [data' s]. rewrite (korean_stored _ _ _ _ H).
      destruct (fst s); [|reflexivity].
      exact (proj2 (romanized_document_frame _ _ _ _ H) i k N).
  - intros pattern_name move move' s s'. apply correct_korean_move_spec.
  - intros pattern_name move current english correct s.
    apply correct_korean_move_writes.
Qed.

(** A document with one pattern of two moves: the romanisation of the
    first is misspelt, the technique of the second is not in the table.
    The run writes the document with the first move corrected and the
    second as it was. *)
Lemma korean_corrector_idempotent_minimal_witness :
  let kick := [(str "move_number", JNum 1);
               (str "technique", JStr (str "Front Kick"));
               (str "korean_technique", JStr (str "Ap Chaggi"))] in
  let bow := [(str "move_number", JNum 2);
              (str "technique", JStr (str "Bow"));
              (str "korean_technique", JStr (str "Kyong Ye"))] in
  let doc := fun first =>
    JObj [(str "patterns",
           JArr [JObj [(str "name", JStr (str "Chon-Ji"));
                       (str "moves", JArr [JObj first; JObj bow])]])] in
  let fixed := dict_set (str "korean_technique") (JStr (str "Ap Chagi")) kick in
  correct_korean_romanizations (doc kick)
  = mk_outcome (Some (doc fixed)) true
      [mk_korean_correction (JStr (str "Chon-Ji")) (JNum 1) (JStr (str "Front Kick"))
         (JStr (str "Ap Chaggi")) (str "Ap Chagi")] /\
  (exists d,
      JObj kick = JObj d /\
      at_path [Key (str "patterns"); Idx 0; Key (str "moves"); Idx 0]
        (stored_after (doc kick) (correct_korean_romanizations (doc kick)))
      = Some (JObj (dict_set (str "korean_technique") (JStr (str "Ap Chagi")) d))) /\
  at_path [Key (str "patterns"); Idx 0; Key (str "moves"); Idx 1]
    (stored_after (doc kick) (correct_korean_romanizations (doc kick)))
  = Some (JObj bow) /\
  at_path [Key (str "patterns"); Idx 0; Key (str "moves"); Idx 2]
    (stored_after (doc kick) (correct_korean_romanizations (doc kick)))
  = None.
Proof.
  intros kick bow doc fixed.
  destruct korean_corrector_idempotent_minimal as [_ [Run _]].
  assert (H : romanized_document korean_mapping (doc kick)
              = Some (doc fixed,
                      (true,
                       [mk_korean_correction (JStr (str "Chon-Ji")) (JNum 1)
                          (JStr (str "Front Kick")) (JStr (str "Ap Chaggi"))
                          (str "Ap Chagi")])))
    by (vm_compute; reflexivity).
  destruct (Run (doc kick) _ H) as [Named [Unnamed [NoNew _]]].
  split; [vm_compute; reflexivity|]. split; [|split].
  - apply (Named 0 0 (JObj kick) (str "Front Kick") (str "Ap Chagi")); reflexivity.
  - apply (Unnamed 0 1 (JObj bow)); [reflexivity|].
    intros english E. injection E as <-. reflexivity.
  - apply (NoNew 0 2). reflexivity.
Defined.

(* ================================================================== *)
(** * The changes a corrector records *)
(* ================================================================== *)

Lemma extends_by_extends {L : Type} (P : L -> Prop) (s s' : bool * list L) :
  extends_by P s s' -> extends s s'.
Proof. intros [ext [A [B _]]]. now exists ext. Qed.

Lemma extends_by_refl {L : Type} (P : L -> Prop) (s : bool * list L) : extends_by P s s.
Proof. exists []. now rewrite app_nil_r, orb_false_r. Qed.

Lemma extends_by_trans {L : Type} (P : L -> Prop) (s1 s2 s3 : bool * list L) :
  extends_by P s1 s2 -> extends_by P s2 s3 -> extends_by P s1 s3.
Proof.
  intros [e1 [A1 [B1 F1]]] [e2 [A2 [B2 F2]]]. exists (e1 ++ e2). split; [|split].
  - now rewrite A2, A1, app_assoc.
  - rewrite B2, B1. destruct e1, e2; simpl; now rewrite ?orb_false_r, ?orb_true_r.
  - apply Forall_app. now split.
Qed.

Lemma extends_by_push {L : Type} (P : L -> Prop) (s : bool * list L) (e : L) :
  P e -> extends_by P s (true, snd s ++ [e]).
Proof.
  intro H. exists [e]. simpl. rewrite orb_true_r. repeat split. now constructor.
Qed.

Lemma for_each_extends_by {L : Type} (P : L -> Prop)
    (body : json -> bool * list L -> option (json * (bool * list L))) :
  (forall x s x' s', body x s = Some (x', s') -> extends_by P s s') ->
  forall items s items' s',
    for_each body items s = Some (items', s') -> extends_by P s s'.
Proof.
  intros Hb items. induction items as [|x items IH]; intros s items' s' H; simpl in H.
  - injection H as <- <-. apply extends_by_refl.
  - destruct (body x s) as [[x1 s1]|] eqn:E1; [|discriminate]. simpl in H.
    destruct (for_each body items s1) as [[r1 s2]|] eqn:E2; [|discriminate].
    simpl in H. injection H as <- <-.
    apply (extends_by_trans P s s1 s2); eauto.
Qed.

(** From the empty list and the lowered flag. *)
Lemma extends_by_from_start {L : Type} (P : L -> Prop) (flag : bool) (log : list L) :
  extends_by P (false, []) (flag, log) -> (flag = false <-> log = []) /\ Forall P log.
Proof.
  intro H. split.
  - apply extends_from_start. now apply (extends_by_extends P).
  - destruct H as [ext [A [_ F]]]. simpl in A. now subst log.
Qed.

(** ** Removing a prefix shortens a text *)

Lemma startswith_app (p s : pystr) :
  startswith p s = true -> exists rest, s = p ++ rest.
Proof.
  revert s. induction p as [|x p IH]; intros s H.
  - now exists s.
  - destruct s as [|y s]; [discriminate|]. simpl in H.
    apply andb_true_iff in H as [H1 H2]. apply chr_eqb_eq in H1. subst y.
    destruct (IH _ H2) as [rest ->]. now exists rest.
Qed.

Lemma replace_nonempty (old new s : pystr) :
  old <> [] -> replace old new s = replace_from old new 0 s.
Proof. destruct old; [contradiction|reflexivity]. Qed.

Lemma replace_from_length (old : pystr) (s : pystr) :
  forall skip, List.length (replace_from old [] skip s) <= List.length s.
Proof.
  induction s as [|c s IH]; intro skip; simpl; [lia|].
  destruct skip as [|k].
  - destruct (startswith old (c :: s)); simpl.
    + specialize (IH (List.length old - 1)). lia.
    + specialize (IH 0). lia.
  - specialize (IH k). lia.
Qed.

Lemma replace_from_shorter (old s : pystr) :
  old <> [] -> startswith old s = true ->
  List.length (replace_from old [] 0 s) < List.length s.
Proof.
  intros Ho H. destruct s as [|c s].
  - destruct old; [contradiction|discriminate].
  - cbn [replace_from]. rewrite H. simpl.
    pose proof (replace_from_length old s (List.length old - 1)). lia.
Qed.

(** The stance that [stance.replace('Left ', '').replace('Right ', '')]
    leaves is shorter than a stance that starts with one of the two
    prefixes. *)
Lemma stance_shorter (st : pystr) :
  startswith (str "Left ") st || startswith (str "Right ") st = true ->
  List.length (replace (str "Right ") [] (replace (str "Left ") [] st)) < List.length st.
Proof.
  intro H.
  assert (NL : str "Left " <> []) by discriminate.
  assert (NR : str "Right " <> []) by discriminate.
  rewrite (replace_nonempty _ _ _ NR), (replace_nonempty _ _ _ NL).
  destruct (startswith (str "Left ") st) eqn:E.
  - pose proof (replace_from_shorter _ _ NL E).
    pose proof (replace_from_length (str "Right ") (replace_from (str "Left ") [] 0 st) 0).
    lia.
  - cbn [orb] in H. destruct (startswith_app _ _ H) as [rest ->].
    change (replace_from (str "Left ") [] 0 (str "Right " ++ rest))
      with (str "Right " ++ replace_from (str "Left ") [] 0 rest).
    assert (S : startswith (str "Right ")
                  (str "Right " ++ replace_from (str "Left ") [] 0 rest) = true)
      by reflexivity.
    pose proof (replace_from_shorter _ _ NR S) as L1.
    pose proof (replace_from_length (str "Left ") rest 0) as L2.
    rewrite !length_app in *. lia.
Qed.

(** ** The blocks of the Chon-Ji and Dan-Gun corrector *)

Lemma correct_stance_extends_by (move move_num : json) (s : corrector_state)
    (move' : json) (s' : corrector_state) :
  correct_stance move move_num s = Some (move', s') -> extends_by real_change s s'.
Proof.
  unfold correct_stance. intro H.
  destruct (py_get move (str "stance") _) as [stance|]; [|discriminate].
  cbn [bind] in H.
  destruct stance as [| | |st| |]; try discriminate H.
  destruct (startswith (str "Left ") st || startswith (str "Right ") st) eqn:E.
  - destruct (py_setitem move _ _) as [m1|]; [|discriminate]. cbn [bind] in H.
    injection H as _ <-. apply extends_by_push. unfold real_change. cbn [c_old c_new].
    intro Heq. injection Heq as Heq. apply stance_shorter in E.
    destruct (str_eqb _ (str "L Stance")) eqn:EL.
    + apply str_eqb_eq in EL. apply (f_equal (@List.length ascii)) in EL.
      change (List.length (replace (str "Right ") [] (replace (str "Left ") [] st)) = 8)
        in EL.
      rewrite EL, Heq in E. change (8 < 8) in E. lia.
    + change (st = replace (str "Right ") [] (replace (str "Left ") [] st)) in Heq.
      rewrite <- Heq in E. lia.
  - injection H as _ <-. apply extends_by_refl.
Qed.

Lemma fix_typo_extends_by (typo fixed : pystr) (move move_num technique : json)
    (s : corrector_state) (move' technique' : json) (s' : corrector_state) :
  typo <> fixed ->
  fix_typo typo fixed move move_num technique s = Some (move', technique', s') ->
  extends_by real_change s s'.
Proof.
  unfold fix_typo. intros Hd H.
  destruct (json_eqb technique (JStr typo)) eqn:E.
  - destruct (py_setitem move _ _) as [m1|]; [|discriminate]. simpl in H.
    injection H as _ _ <-. apply extends_by_push. unfold real_change. simpl.
    apply json_eqb_eq in E. subst technique. intro Heq. injection Heq as Heq.
    contradiction.
  - injection H as _ _ <-. apply extends_by_refl.
Qed.

Lemma correct_split_extends_by (move move_num technique target : json)
    (s : corrector_state) (move' : json) (s' : corrector_state) :
  correct_split move move_num technique target s = Some (move', s') ->
  extends_by real_change s s'.
Proof.
  unfold correct_split. intro H.
  destruct (_split_technique_target technique target) as [[new_technique new_target]|];
    [|discriminate].
  simpl in H.
  assert (exists m1 s1,
             (if negb (json_eqb new_technique technique)
              then move0 <- py_setitem move (str "technique") new_technique ;;
                   Some (move0, (true, snd s ++
                           [mk_correction move_num (str "technique") technique
                                          new_technique]))
              else Some (move, s)) = Some (m1, s1) /\
             extends_by real_change s s1 /\
             (if negb (json_eqb new_target target)
              then move0 <- py_setitem m1 (str "target") new_target ;;
                   Some (move0, (true, snd s1 ++
                           [mk_correction move_num (str "target") target new_target]))
              else Some (m1, s1)) = Some (move', s')) as [m1 [s1 [_ [X1 H2]]]].
  { destruct (json_eqb new_technique technique) eqn:E1; simpl in H |- *.
    - exists move, s. repeat split; [apply extends_by_refl | exact H].
    - destruct (py_setitem move (str "technique") new_technique) as [m1|];
        [|discriminate]. simpl in H |- *.
      eexists _, _. repeat split; [|exact H].
      apply extends_by_push. unfold real_change. simpl. intros ->.
      rewrite json_eqb_refl in E1. discriminate. }
  apply (extends_by_trans _ s s1 s'); [exact X1|].
  destruct (json_eqb new_target target) eqn:E2; simpl in H2.
  - injection H2 as _ <-. apply extends_by_refl.
  - destruct (py_setitem m1 _ _) as [m2|]; [|discriminate]. simpl in H2.
    injection H2 as _ <-. apply extends_by_push. unfold real_change. simpl. intros ->.
    rewrite json_eqb_refl in E2. discriminate.
Qed.

Lemma correct_chon_ji_move_extends_by (x : json) (s : corrector_state) (x' : json)
    (s' : corrector_state) :
  correct_chon_ji_move x s = Some (x', s') -> extends_by real_change s s'.
Proof.
  unfold correct_chon_ji_move. intro H.
  destruct (py_get x (str "move_number") _) as [n|]; [|discriminate]. simpl in H.
  destruct (correct_stance x n s) as [[m1 s1]|] eqn:E1; [|discriminate]. simpl in H.
  destruct (py_get m1 (str "technique") _) as [t|]; [|discriminate]. simpl in H.
  destruct (py_get m1 (str "target") _) as [g|]; [|discriminate]. simpl in H.
  apply (extends_by_trans _ s s1 s').
  - exact (correct_stance_extends_by _ _ _ _ _ E1).
  - exact (correct_split_extends_by _ _ _ _ _ _ _ H).
Qed.

Lemma correct_dan_gun_move_extends_by (x : json) (s : corrector_state) (x' : json)
    (s' : corrector_state) :
  correct_dan_gun_move x s = Some (x', s') -> extends_by real_change s s'.
Proof.
  unfold correct_dan_gun_move. intro H.
  destruct (py_get x (str "move_number") _) as [n|]; [|discriminate]. simpl in H.
  destruct (correct_stance x n s) as [[m1 s1]|] eqn:E1; [|discriminate]. simpl in H.
  destruct (py_get m1 (str "technique") _) as [t|]; [|discriminate]. simpl in H.
  destruct (fix_typo (str "High Observe Punch") _ m1 n t s1) as [[[m2 t2] s2]|] eqn:E2;
    [|discriminate].
  simpl in H.
  destruct (fix_typo (str "Twin Outer Forearm Bloack") _ m2 n t2 s2)
    as [[[m3 t3] s3]|] eqn:E3; [|discriminate].
  simpl in H.
  destruct (py_get m3 (str "target") _) as [g|]; [|discriminate]. simpl in H.
  apply (extends_by_trans _ s s1 s'); [exact (correct_stance_extends_by _ _ _ _ _ E1)|].
  apply (extends_by_trans _ s1 s2 s').
  { apply (fix_typo_extends_by _ _ _ _ _ _ _ _ _) with (2 := E2). discriminate. }
  apply (extends_by_trans _ s2 s3 s').
  { apply (fix_typo_extends_by _ _ _ _ _ _ _ _ _) with (2 := E3). discriminate. }
  exact (correct_split_extends_by _ _ _ _ _ _ _ H).
Qed.

Lemma correct_moves_extends_by
    (body : json -> corrector_state -> option (json * corrector_state))
    (pattern : json) (file_corrections : list correction) (pattern' : json)
    (s' : corrector_state) :
  (forall x s x' s', body x s = Some (x', s') -> extends_by real_change s s') ->
  correct_moves body pattern file_corrections = Some (pattern', s') ->
  extends_by real_change (false, file_corrections) s'.
Proof.
  intros Hb H. unfold correct_moves in H.
  destruct (py_get pattern (str "moves") _) as [moves|]; [|discriminate]. simpl in H.
  destruct (py_iter moves) as [items|]; [|discriminate]. simpl in H.
  destruct (for_each body items (false, file_corrections)) as [[items' s1]|] eqn:Ef;
    [|discriminate].
  simpl in H. apply (for_each_extends_by real_change body Hb) in Ef.
  destruct (py_getitem pattern _).
  - destruct (py_setitem pattern _ _); [|discriminate]. simpl in H. now injection H as _ <-.
  - now injection H as _ <-.
Qed.

Lemma correct_pattern_extends_by (x : json) (s : corrector_state) (x' : json)
    (s' : corrector_state) :
  correct_pattern x s = Some (x', s') -> extends_by real_change s s'.
Proof.
  assert (K : forall made fc, extends_by real_change (false, snd s) (made, fc) ->
                              extends_by real_change s (fst s || made, fc)).
  { intros made fc [ext [A [B F]]]. exists ext. simpl in *. subst made. now repeat split. }
  unfold correct_pattern. intro H.
  destruct (py_get x (str "name") _) as [pattern_name|]; [|discriminate]. simpl in H.
  destruct (json_eqb pattern_name (JStr (str "Chon-Ji"))).
  - destruct (_correct_chon_ji x (snd s)) as [[p1 [made fc]]|] eqn:E; [|discriminate].
    simpl in H. injection H as _ <-. apply K.
    apply (correct_moves_extends_by correct_chon_ji_move x (snd s) p1);
      [apply correct_chon_ji_move_extends_by | exact E].
  - destruct (json_eqb pattern_name (JStr (str "Dan-Gun"))).
    + destruct (_correct_dan_gun x (snd s)) as [[p1 [made fc]]|] eqn:E; [|discriminate].
      simpl in H. injection H as _ <-. apply K.
      apply (correct_moves_extends_by correct_dan_gun_move x (snd s) p1);
        [apply correct_dan_gun_move_extends_by | exact E].
    + injection H as _ <-. apply extends_by_refl.
Qed.

(** [corrections_made] is up exactly when [file_corrections] holds an
    entry, and the two values of every entry differ. *)
Lemma corrected_document_flag (data data' : json) (flag : bool) (log : list correction) :
  corrected_document data = Some (data', (flag, log)) ->
  (flag = false <-> log = []) /\ Forall real_change log.
Proof.
  intro H. apply extends_by_from_start. unfold corrected_document in H.
  destruct (py_get data _ _) as [patterns|]; [|discriminate]. simpl in H.
  destruct (py_iter patterns) as [items|]; [|discriminate]. simpl in H.
  destruct (for_each correct_pattern items (false, [])) as [[items' s1]|] eqn:Ef;
    [|discriminate].
  simpl in H.
  apply (for_each_extends_by real_change _ correct_pattern_extends_by) in Ef.
  destruct (py_getitem data _).
  - destruct (py_setitem data _ _); [|discriminate]. simpl in H. now injection H as _ <-.
  - now injection H as _ <-.
Qed.

(* ================================================================== *)
(** * When a document is written back *)
(* ================================================================== *)

Lemma fix_property_extends (key : pystr) (term : json) (s : bool * list casing_change)
    (term' : json) (s' : bool * list casing_change) :
  fix_property key term s = Some (term', s') -> extends s s'.
Proof.
  unfold fix_property. intro H.
  destruct (py_in key term) as [has|]; [|discriminate]. cbn [bind] in H.
  destruct has; [|injection H as _ <-; apply extends_refl].
  destruct (py_getitem term key) as [original|]; [|discriminate]. cbn [bind] in H.
  destruct (negb (json_eqb original (to_title_case_value original))).
  - destruct (py_setitem term key _) as [t1|]; [|discriminate]. cbn [bind] in H.
    injection H as _ <-. apply extends_push.
  - injection H as _ <-. apply extends_refl.
Qed.

Lemma fix_term_extends (term : json) (s : bool * list casing_change)
    (term' : json) (s' : bool * list casing_change) :
  fix_term term s = Some (term', s') -> extends s s'.
Proof.
  unfold fix_term. intro H.
  destruct (fix_property (str "english") term s) as [[t1 s1]|] eqn:E; [|discriminate].
  cbn [bind] in H.
  apply (extends_trans s s1 s'); eapply fix_property_extends; eassumption.
Qed.

(** [fix_terminology_file] writes exactly when it printed a change. *)
Lemma fix_terminology_file_flag (data : json) (o : outcome casing_change) :
  fix_terminology_file data = Some o ->
  (returned o = false <-> reported o = []) /\
  (returned o = false -> written o = None) /\
  (returned o = true -> exists d, written o = Some d).
Proof.
  unfold fix_terminology_file. intro H.
  destruct (py_in (str "terminology") data) as [has|]; [|discriminate]. cbn [bind] in H.
  assert (X : forall data' changed lines,
             (if has
              then terms <- py_getitem data (str "terminology") ;;
                   items <- py_iter terms ;;
                   ' (items', s) <- for_each fix_term items (false, []) ;;
                   data'0 <- py_setitem data (str "terminology") (put_items terms items') ;;
                   Some (data'0, s)
              else Some (data, (false, []))) = Some (data', (changed, lines)) ->
             extends (false, []) (changed, lines)).
  { intros data' changed lines E. destruct has.
    - destruct (py_getitem data _) as [terms|]; [|discriminate]. cbn [bind] in E.
      destruct (py_iter terms) as [items|]; [|discriminate]. cbn [bind] in E.
      destruct (for_each fix_term items (false, [])) as [[items' s1]|] eqn:Ef;
        [|discriminate].
      cbn [bind] in E.
      destruct (py_setitem data _ _); [|discriminate]. cbn [bind] in E.
      injection E as _ <-.
      apply (for_each_extends fix_term) in Ef; [exact Ef|]. apply fix_term_extends.
    - injection E as _ <- <-. apply extends_refl. }
  destruct (if has then _ else _) as [[data' [changed lines]]|]; [|discriminate].
  cbn [bind] in H. injection H as <-. cbn [returned reported written].
  split; [|split].
  - apply extends_from_start. now apply (X data').
  - now intros ->.
  - intros ->. now exists data'.
Qed.

(** The CSV applier writes whenever it returns. *)
Lemma update_pattern_file_writes (data : json) (pattern_name : pystr)
    (corrections : list (pystr * csv_correction)) (u : update_outcome) :
  update_pattern_file data pattern_name corrections = Some u ->
  exists d, u_written u = Some d.
Proof.
  unfold update_pattern_file. intro H.
  destruct (py_get data (str "patterns") _) as [patterns|]; [|discriminate].
  cbn [bind] in H.
  destruct (py_iter patterns) as [items|]; [|discriminate]. cbn [bind] in H.
  destruct (update_patterns _ _ _ items) as [[items' [n printed]]|]; [|discriminate].
  cbn [bind] in H.
  destruct (match py_getitem data (str "patterns") with
            | Some _ => _
            | None => _
            end) as [d|]; [|discriminate].
  cbn [bind] in H. injection H as <-. now exists d.
Qed.

(** The three functions that keep a flag beside the list of their changes
    write exactly when the list is not empty: the title-case normaliser,
    the Chon-Ji and Dan-Gun corrector and the romanisation corrector
    perform no write, and leave the stored document as it is, on every
    document for which they record no change.  The CSV applier
    [update_pattern_file] writes the document whenever it returns,
    whatever it printed. *)
Theorem written_only_when_changes_recorded :
  (forall (data : json) (o : outcome casing_change),
     fix_terminology_file data = Some o ->
     (written o = None <-> reported o = []) /\
     (reported o = [] -> stored_after data o = data)) /\
  (forall data : json,
     let o := apply_corrections data in
     (written o = None <-> reported o = []) /\
     (reported o = [] -> stored_after data o = data)) /\
  (forall data : json,
     let o := correct_korean_romanizations data in
     (written o = None <-> reported o = []) /\
     (reported o = [] -> stored_after data o = data)) /\
  (forall (data : json) (pattern_name : pystr)
          (corrections : list (pystr * csv_correction)) (u : update_outcome),
     update_pattern_file data pattern_name corrections = Some u ->
     exists d, u_written u = Some d).
Proof.
  assert (K : forall (L : Type) (data : json) (o : outcome L),
             (written o = None <-> reported o = []) ->
             (written o = None <-> reported o = []) /\
             (reported o = [] -> stored_after data o = data)).
  { intros L data o W. split; [exact W|]. intro R. apply W in R.
    unfold stored_after. now rewrite R. }
  split; [|split; [|split]].
  - intros data o H. apply K.
    destruct (fix_terminology_file_flag data o H) as [F [W S]].
    destruct (returned o) eqn:R.
    + destruct (S eq_refl) as [d Wd]. rewrite Wd. split; intro X; [discriminate|].
      apply F in X. discriminate.
    + rewrite (W eq_refl). split; intro X; [now apply F | reflexivity].
  - intro data. cbv zeta. apply K. unfold apply_corrections.
    destruct (corrected_document data) as [[data' [flag log]]|] eqn:E;
      cbn [written reported]; [|now split].
    destruct (corrected_document_flag _ _ _ _ E) as [F _].
    destruct flag; split; intro X; try discriminate; try reflexivity.
    + apply F in X. discriminate.
    + now apply F.
  - intro data. cbv zeta. apply K.
    unfold correct_korean_romanizations, correct_korean_romanizations_with.
    destruct (romanized_document korean_mapping data) as [[data' [flag log]]|] eqn:E;
      cbn [written reported]; [|now split].
    pose proof (romanized_document_flag _ _ _ _ _ E) as F.
    destruct flag; split; intro X; try discriminate; try reflexivity.
    + apply F in X. discriminate.
    + now apply F.
  - apply update_pattern_file_writes.
Qed.

(** The theorem at a terminology file with one entry to fix, and at a
    pattern file for which the CSV has no row. *)
Lemma written_only_when_changes_recorded_witness :
  let data := JObj [(str "terminology",
                     JArr [JObj [(str "english", JStr (str "front kick"))]])] in
  let o := mk_outcome
             (Some (JObj [(str "terminology",
                           JArr [JObj [(str "english", JStr (str "Front Kick"))]])]))
             true [(JStr (str "front kick"), JStr (str "Front Kick"))] in
  let doc := JObj [(str "patterns", JArr [])] in
  fix_terminology_file data = Some o /\
  ((written o = None <-> reported o = []) /\
   (reported o = [] -> stored_after data o = data)) /\
  update_pattern_file doc (str "Dan Gun") [] = Some (mk_update (Some doc) 0 []) /\
  (exists d, u_written (mk_update (Some doc) 0 []) = Some d).
Proof.
  intros data o doc.
  destruct written_only_when_changes_recorded as [Fix [_ [_ Csv]]].
  assert (H1 : fix_terminology_file data = Some o) by (vm_compute; reflexivity).
  assert (H2 : update_pattern_file doc (str "Dan Gun") [] = Some (mk_update (Some doc) 0 []))
    by (vm_compute; reflexivity).
  split; [exact H1|]. split; [exact (Fix data o H1)|]. split; [exact H2|].
  exact (Csv doc (str "Dan Gun") [] _ H2).
Defined.

(* ================================================================== *)
(** * The corrector: what it reports and what a second split does *)
(* ================================================================== *)

(** Every entry of [file_corrections] that [apply_corrections] leaves
    records a change: its old and its new value differ.  (When an
    exception ends the run nothing is reported.) *)
Theorem apply_corrections_reports_changes (data : json) :
  Forall (fun e => c_old e <> c_new e) (reported (apply_corrections data)).
Proof.
  unfold apply_corrections.
  destruct (corrected_document data) as [[data' [flag log]]|] eqn:E; cbn [reported].
  - exact (proj2 (corrected_document_flag _ _ _ _ E)).
  - constructor.
Qed.

Lemma standardize_target_idempotent (target new_target : json) :
  _standardize_target target = Some new_target ->
  _standardize_target new_target = Some new_target.
Proof.
  intro H. destruct target as [|b|n|s|l|d].
  5: destruct l. 7: destruct d. 2: destruct b.
  all: try (unfold _standardize_target in H; cbn [truthy negb orb json_eqb] in H;
            first [ discriminate H
                  | injection H as <-; reflexivity
                  | destruct (negb (negb (n =? 0)%Z)) eqn:E;
                    [ injection H as <-; unfold _standardize_target;
                      cbn [truthy json_eqb]; rewrite E; reflexivity
                    | discriminate H ] ]).
  rewrite standardize_target_str in H.
  destruct (str_mem (lower s) low_names) eqn:E1; [injection H as <-; reflexivity|].
  destruct (str_mem (lower s) middle_names) eqn:E2; [injection H as <-; reflexivity|].
  destruct (str_mem (lower s) high_names) eqn:E3; [injection H as <-; reflexivity|].
  injection H as <-. now rewrite standardize_target_str, E1, E2, E3.
Qed.

(** [_split_technique_target] applied to its own result returns it: the
    techniques it produces are none of the compound names, and the
    targets it produces are the standard ones. *)
Theorem split_technique_target_idempotent
    (technique target new_technique new_target : json) :
  _split_technique_target technique target = Some (new_technique, new_target) ->
  _split_technique_target new_technique new_target = Some (new_technique, new_target).
Proof.
  unfold _split_technique_target. intro H.
  destruct (json_eqb technique (JStr (str "Low Outer Forearm Block"))) eqn:E1;
    [injection H as <- <-; reflexivity|].
  destruct (json_eqb technique (JStr (str "Middle Obverse Punch"))) eqn:E2;
    [injection H as <- <-; reflexivity|].
  destruct (json_eqb technique (JStr (str "High Obverse Punch"))) eqn:E3;
    [injection H as <- <-; reflexivity|].
  destruct (json_eqb technique (JStr (str "Middle Inner Forearm Block"))) eqn:E4;
    [injection H as <- <-; reflexivity|].
  destruct (json_eqb technique (JStr (str "High Obverse Block"))) eqn:E5;
    [injection H as <- <-; reflexivity|].
  destruct (json_eqb technique (JStr (str "Rising Block"))) eqn:E6;
    [injection H as <- <-; reflexivity|].
  destruct (_standardize_target target) as [t|] eqn:Et; [|discriminate].
  cbn [bind] in H. injection H as <- <-.
  rewrite E1, E2, E3, E4, E5, E6, (standardize_target_idempotent _ _ Et). reflexivity.
Qed.

(** The splitter run twice on "High Obverse Punch" with the target
    "head level". *)
Lemma split_technique_target_idempotent_witness :
  _split_technique_target (JStr (str "High Obverse Punch")) (JStr (str "head level"))
  = Some (JStr (str "Obverse Punch"), JStr (str "High Section")) /\
  _split_technique_target (JStr (str "Obverse Punch")) (JStr (str "High Section"))
  = Some (JStr (str "Obverse Punch"), JStr (str "High Section")).
Proof.
  assert (H : _split_technique_target (JStr (str "High Obverse Punch"))
                (JStr (str "head level"))
              = Some (JStr (str "Obverse Punch"), JStr (str "High Section")))
    by reflexivity.
  split; [exact H|].
  exact (split_technique_target_idempotent _ _ _ _ H).
Defined.

(* ================================================================== *)
(** * The CSV applier: standard values and pattern names *)
(* ================================================================== *)

Lemma startswith_self_app (p s : pystr) : startswith p (p ++ s) = true.
Proof.
  induction p as [|x p IH]; [reflexivity|].
  simpl. now rewrite chr_eqb_refl, IH.
Qed.

Lemma endswith_app (p s : pystr) : endswith p (s ++ p) = true.
Proof. unfold endswith. rewrite rev_app_distr. apply startswith_self_app. Qed.

Lemma isdigit_app_degree (m : pystr) : isdigit (m ++ degree) = false.
Proof.
  destruct m as [|c m]; [reflexivity|].
  cbn [app isdigit forallb]. rewrite forallb_app.
  replace (forallb is_digit degree) with false by reflexivity.
  now rewrite !andb_false_r.
Qed.

Lemma movement_with_degree (r : pystr) :
  endswith degree r = true -> standardize_movement r = r.
Proof.
  intro H. unfold standardize_movement.
  destruct (str_eqb r (str "-")) eqn:E1; [apply str_eqb_eq in E1; now subst r|].
  destruct (isdigit r) eqn:E2.
  - apply isdigit_forallb, digits_not_endswith_degree in E2. congruence.
  - rewrite H. reflexivity.
Qed.

Lemma movement_cases (m : pystr) :
  standardize_movement m = m \/ endswith degree (standardize_movement m) = true.
Proof.
  unfold standardize_movement.
  destruct (str_eqb m (str "-")) eqn:E1; [apply str_eqb_eq in E1; now left|].
  destruct (isdigit m) eqn:E2.
  - destruct (str_eqb m (str "90")) eqn:E3.
    + right. rewrite app_assoc. apply endswith_app.
    + apply isdigit_forallb, digits_not_endswith_degree in E2. rewrite E2.
      right. apply endswith_app.
  - destruct (negb (endswith degree m) && _); [|now left].
    destruct (negb (contains degree m)); [|now left].
    right. apply endswith_app.
Qed.

Lemma standardize_movement_idempotent (m : pystr) :
  standardize_movement (standardize_movement m) = standardize_movement m.
Proof.
  destruct (movement_cases m) as [H|H].
  - now rewrite !H.
  - now apply movement_with_degree.
Qed.

Lemma has_chr_replace_from (c : ascii) (old new : pystr) (s : pystr) :
  old <> [] -> has_chr c new = true -> contains old s = true ->
  has_chr c (replace_from old new 0 s) = true.
Proof.
  intros Ho Hn. induction s as [|x s IH]; intro H.
  - destruct old; [contradiction | discriminate H].
  - cbn [replace_from]. cbn [contains] in H.
    destruct (startswith old (x :: s)) eqn:E.
    + rewrite has_chr_app, Hn. reflexivity.
    + cbn [orb] in H. rewrite has_chr_cons, (IH H). apply orb_true_r.
Qed.

Lemma stance_cases (s : pystr) :
  standardize_stance s = s \/ has_chr "-" (standardize_stance s) = true.
Proof.
  unfold standardize_stance.
  destruct (contains (str "L Stance") s) eqn:E1; cbn [andb].
  - destruct (has_chr "-" s) eqn:E2; cbn [negb].
    + left. now destruct (str_eqb s (str "Walking Stance")).
    + right. change (replace (str "L Stance") (str "L-stance") s)
        with (replace_from (str "L Stance") (str "L-stance") 0 s).
      apply has_chr_replace_from; [discriminate | reflexivity | exact E1].
  - left. now destruct (str_eqb s (str "Walking Stance")).
Qed.

Lemma standardize_stance_idempotent (s : pystr) :
  standardize_stance (standardize_stance s) = standardize_stance s.
Proof.
  destruct (stance_cases s) as [H|H].
  - now rewrite !H.
  - unfold standardize_stance at 1. rewrite H. cbn [negb]. rewrite andb_false_r.
    now destruct (str_eqb _ (str "Walking Stance")).
Qed.

Lemma lstrip_idempotent (s : pystr) : lstrip (lstrip s) = lstrip s.
Proof.
  induction s as [|c s IH]; [reflexivity|].
  simpl. destruct (is_space c) eqn:E; [exact IH|].
  simpl. now rewrite E.
Qed.

Lemma lstrip_app_last (a : pystr) (c : ascii) :
  is_space c = false -> lstrip (a ++ [c]) = lstrip a ++ [c].
Proof.
  intro H. induction a as [|x a IH]; simpl.
  - now rewrite H.
  - destruct (is_space x); [exact IH | reflexivity].
Qed.

Lemma strip_idempotent (s : pystr) : strip (strip s) = strip s.
Proof.
  unfold strip.
  assert (K : forall y, lstrip y = y ->
                        lstrip (rev (lstrip (rev y))) = rev (lstrip (rev y))).
  { intros y Hy. destruct y as [|c y]; [reflexivity|].
    simpl in Hy. destruct (is_space c) eqn:E.
    - exfalso. apply (f_equal (@List.length ascii)) in Hy. simpl in Hy.
      assert (L : forall z, List.length (lstrip z) <= List.length z).
      { induction z as [|x z IH]; simpl; [lia|]. destruct (is_space x); simpl; lia. }
      specialize (L y). lia.
    - cbn [rev]. rewrite (lstrip_app_last _ _ E), rev_app_distr. simpl. now rewrite E. }
  rewrite (K _ (lstrip_idempotent s)), rev_involutive, lstrip_idempotent.
  reflexivity.
Qed.

(** [standardize_values] applied to a standardised row changes nothing:
    a movement it produced ends in the degree sign or is kept, a stance
    it rewrote holds a hyphen, and a stripped technique has no outer
    white space. *)
Theorem standardize_values_idempotent (c : csv_correction) :
  standardize_values (standardize_values c) = standardize_values c.
Proof.
  destruct c as [d m s t g]. unfold standardize_values.
  cbn [direction movement stance technique target].
  now rewrite standardize_movement_idempotent, standardize_stance_idempotent,
    strip_idempotent.
Qed.

Lemma replace_char (a b : ascii) (s : pystr) :
  replace_from [a] [b] 0 s = map (fun c => if chr_eqb a c then b else c) s.
Proof.
  induction s as [|x s IH]; [reflexivity|].
  cbn [replace_from startswith map List.length Nat.sub app].
  rewrite andb_true_r. destruct (chr_eqb a x); now rewrite IH.
Qed.

(** [normalize_pattern_name] puts a hyphen for every space and changes
    nothing else: the name keeps its length, holds no space afterwards, is
    returned as it is exactly when it holds no space, and a second
    application changes nothing. *)
Theorem normalize_pattern_name_spec (name : pystr) :
  normalize_pattern_name name
  = map (fun c => if chr_eqb " " c then "-"%char else c) name /\
  List.length (normalize_pattern_name name) = List.length name /\
  has_chr " " (normalize_pattern_name name) = false /\
  (normalize_pattern_name name = name <-> has_chr " " name = false) /\
  normalize_pattern_name (normalize_pattern_name name) = normalize_pattern_name name.
Proof.
  assert (E : forall n, normalize_pattern_name n
                        = map (fun c => if chr_eqb " " c then "-"%char else c) n).
  { intro n. exact (replace_char " " "-" n). }
  assert (N : forall n, has_chr " " (normalize_pattern_name n) = false).
  { intro n. rewrite E. induction n as [|x n IH]; [reflexivity|].
    cbn [map]. rewrite has_chr_cons, IH, orb_false_r.
    destruct (chr_eqb " " x) eqn:Ex; [reflexivity | exact Ex]. }
  assert (I : forall n, has_chr " " n = false -> normalize_pattern_name n = n).
  { intros n. rewrite E. induction n as [|x n IH]; [reflexivity|].
    rewrite has_chr_cons. intro H. apply orb_false_iff in H. destruct H as [Hx Hn].
    cbn [map]. now rewrite Hx, (IH Hn). }
  split; [apply E|]. split; [rewrite E; apply length_map|]. split; [apply N|].
  split.
  - split; [|apply I]. intro H. rewrite <- H. apply N.
  - apply I, N.
Qed.

(* ================================================================== *)
(** * The CSV applier: one move, and the pattern that is updated *)
(* ================================================================== *)

(** A move for which the CSV has a row: after [update_move] each of the
    five fields holds the standardised value of the row, every other
    field of the move is as it was, the count goes up by one, and a line
    is printed for exactly those of the five fields whose old value (the
    empty string for a missing field) differs from the new one. *)
Theorem update_move_applies_correction
    (pattern_name : pystr) (corrections : list (pystr * csv_correction))
    (m : dict) (number : json) (number_text : pystr) (c : csv_correction)
    (s : nat * list field_change) :
  dict_get (str "move_number") m = Some number ->
  py_str number = Some number_text ->
  find_correction (pattern_name ++ str "_" ++ number_text) corrections = Some c ->
  exists m' printed,
    update_move pattern_name corrections (JObj m) s
    = Some (JObj m', (S (fst s), snd s ++ printed)) /\
    (forall field new, In (field, new) (correction_fields (standardize_values c)) ->
       dict_get field m' = Some (JStr new)) /\
    (forall k, ~ In k (map fst (correction_fields (standardize_values c))) ->
       dict_get k m' = dict_get k m) /\
    (forall e, In e printed <->
       exists field new,
         In (field, new) (correction_fields (standardize_values c)) /\
         old_values m field <> JStr new /\
         e = mk_field_change number field (old_values m field) new).
Proof.
  intros Hn Ht Hc. unfold update_move. cbn [py_getitem]. rewrite Hn. cbn [bind].
  rewrite Ht. cbn [bind]. rewrite Hc.
  eexists _, _. split; [reflexivity|]. split; [|split].
  - intros field new Hin. unfold assign_fields.
    cbn [correction_fields In fold_left fst snd] in *.
    destruct Hin as [E|[E|[E|[E|[E|[]]]]]]; injection E as <- <-;
      rewrite ?get_set_other by discriminate; apply get_set_same.
  - intros k Hk. unfold assign_fields.
    cbn [correction_fields map In fold_left fst snd] in *.
    rewrite !get_set_other; [reflexivity|..]; intros ->; apply Hk; tauto.
  - intro e. unfold changed_fields. rewrite in_flat_map. split.
    + intros [[field new] [Hin He]]. exists field, new. cbn [fst snd] in He.
      split; [exact Hin|].
      destruct (json_eqb (old_values m field) (JStr new)) eqn:E; cbn [negb] in He;
        [contradiction|].
      destruct He as [<-|[]]. split; [now apply json_eqb_neq | reflexivity].
    + intros [field [new [Hin [Hd ->]]]]. exists (field, new). split; [exact Hin|].
      cbn [fst snd]. apply json_eqb_neq in Hd. rewrite Hd. now left.
Qed.

(** Move 4 of Dan-Gun with the row ("", "90", "Walking Stance", " High
    Obverse Punch ", "High Section"). *)
Lemma update_move_applies_correction_witness :
  let m := [(str "move_number", JNum 4);
            (str "stance", JStr (str "Walking Stance"));
            (str "technique", JStr (str "High Observe Punch"))] in
  let c := mk_csv [] (str "90") (str "Walking Stance") (str " High Obverse Punch ")
                  (str "High Section") in
  exists m' printed,
    update_move (str "Dan Gun") [(str "Dan Gun_4", c)] (JObj m) (0, [])
    = Some (JObj m', (1, [] ++ printed)) /\
    (forall field new, In (field, new) (correction_fields (standardize_values c)) ->
       dict_get field m' = Some (JStr new)) /\
    (forall k, ~ In k (map fst (correction_fields (standardize_values c))) ->
       dict_get k m' = dict_get k m) /\
    (forall e, In e printed <->
       exists field new,
         In (field, new) (correction_fields (standardize_values c)) /\
         old_values m field <> JStr new /\
         e = mk_field_change (JNum 4) field (old_values m field) new).
Proof.
  intros m c.
  apply (update_move_applies_correction (str "Dan Gun") [(str "Dan Gun_4", c)] m
           (JNum 4) (str "4") c (0, [])); reflexivity.
Defined.

Lemma update_patterns_skips (jn pn : pystr) (cs : list (pystr * csv_correction))
    (q : json) (rest : list json) (name : json) :
  py_getitem q (str "name") = Some name -> name <> JStr jn ->
  update_patterns jn pn cs (q :: rest)
  = ('(rest', s) <- update_patterns jn pn cs rest ;; Some (q :: rest', s)).
Proof.
  intros Hq Hn. cbn [update_patterns]. rewrite Hq. cbn [bind].
  apply json_eqb_neq in Hn. now rewrite Hn.
Qed.

(** The loop over the patterns of a file.  When no pattern has the name,
    the patterns are returned as they are, with no update counted and no
    line printed, and [update_pattern_file] writes the document it read.
    Otherwise the first pattern with the name is the only one updated:
    the patterns before it and all the patterns after it (which the loop
    never looks at) are returned unchanged. *)
Theorem update_patterns_first_match
    (pn : pystr) (cs : list (pystr * csv_correction)) (before : list json) :
  Forall (fun q => exists name, py_getitem q (str "name") = Some name /\
                                name <> JStr (normalize_pattern_name pn)) before ->
  update_patterns (normalize_pattern_name pn) pn cs before = Some (before, (0, [])) /\
  (forall d, dict_get (str "patterns") d = Some (JArr before) ->
     update_pattern_file (JObj d) pn cs = Some (mk_update (Some (JObj d)) 0 [])) /\
  (forall p after,
     py_getitem p (str "name") = Some (JStr (normalize_pattern_name pn)) ->
     update_patterns (normalize_pattern_name pn) pn cs (before ++ p :: after)
     = match update_patterns (normalize_pattern_name pn) pn cs [p] with
       | Some (l, s) => Some (before ++ l ++ after, s)
       | None => None
       end).
Proof.
  intro H.
  assert (A : update_patterns (normalize_pattern_name pn) pn cs before
              = Some (before, (0, []))).
  { induction H as [|q rest [name [Hq Hn]] _ IH]; [reflexivity|].
    now rewrite (update_patterns_skips _ _ _ _ _ _ Hq Hn), IH. }
  split; [exact A|]. split.
  - intros d Hd. unfold update_pattern_file. cbn [py_get py_getitem]. rewrite Hd.
    cbn [bind py_iter]. rewrite A. cbn [bind py_setitem put_items].
    now rewrite (set_unchanged _ _ _ Hd).
  - intros p after Hp. clear A.
    induction H as [|q rest [name [Hq Hn]] _ IH].
    + cbn [app update_patterns]. rewrite Hp. cbn [bind]. rewrite json_eqb_refl.
      destruct (py_get p (str "moves") (JArr [])) as [moves|]; [|reflexivity].
      cbn [bind]. destruct (py_iter moves) as [items|]; [|reflexivity]. cbn [bind].
      destruct (for_each _ items (0, [])) as [[items' s]|]; [|reflexivity].
      cbn [bind]. destruct (py_getitem p (str "moves")); [|reflexivity].
      now destruct (py_setitem p (str "moves") _).
    + cbn [app]. rewrite (update_patterns_skips _ _ _ _ _ _ Hq Hn), IH.
      now destruct (update_patterns _ pn cs [p]) as [[l s]|].
Qed.

(** A file with Chon-Ji before Dan-Gun and a second Dan-Gun after it,
    which has no name at all: the correction goes to the first Dan-Gun. *)
Lemma update_patterns_first_match_witness :
  let chon_ji := JObj [(str "name", JStr (str "Chon-Ji"))] in
  let dan_gun := JObj [(str "name", JStr (str "Dan-Gun"));
                       (str "moves", JArr [JObj [(str "move_number", JNum 1)]])] in
  update_patterns (normalize_pattern_name (str "Dan Gun")) (str "Dan Gun") [] [chon_ji]
  = Some ([chon_ji], (0, [])) /\
  update_pattern_file (JObj [(str "patterns", JArr [chon_ji])]) (str "Dan Gun") []
  = Some (mk_update (Some (JObj [(str "patterns", JArr [chon_ji])])) 0 []) /\
  update_patterns (normalize_pattern_name (str "Dan Gun")) (str "Dan Gun") []
    ([chon_ji] ++ dan_gun :: [JNull])
  = match update_patterns (normalize_pattern_name (str "Dan Gun")) (str "Dan Gun") []
            [dan_gun] with
    | Some (l, s) => Some ([chon_ji] ++ l ++ [JNull], s)
    | None => None
    end.
Proof.
  intros chon_ji dan_gun.
  assert (F : Forall (fun q => exists name, py_getitem q (str "name") = Some name /\
                name <> JStr (normalize_pattern_name (str "Dan Gun"))) [chon_ji]).
  { constructor; [|constructor]. exists (JStr (str "Chon-Ji")).
    split; [reflexivity | discriminate]. }
  destruct (update_patterns_first_match (str "Dan Gun") [] [chon_ji] F) as [A [B C]].
  split; [exact A|]. split; [apply B; reflexivity|]. apply C. reflexivity.
Defined.

(* ================================================================== *)
(** * The text normaliser changes case and spacing only *)
(* ================================================================== *)

Lemma title_words_lower (words : list pystr) : forall i,
  forallb paren_ordered words = true ->
  map lower (title_words i words) = map lower words.
Proof.
  induction words as [|w rest IH]; intros i H; [reflexivity|].
  simpl in H. apply andb_true_iff in H. destruct H as [Hw Hr].
  simpl. now rewrite (title_word_lower i w Hw), (IH _ Hr).
Qed.

Lemma map_lower_hyphen_pass (words : list pystr) :
  map lower (map (hyphen_pass false) words) = map lower words.
Proof.
  induction words as [|w rest IH]; [reflexivity|].
  simpl. now rewrite hyphen_pass_lower, IH.
Qed.

Lemma paren_ordered_hyphen_pass (words : list pystr) :
  forallb paren_ordered (map (hyphen_pass false) words) = forallb paren_ordered words.
Proof.
  induction words as [|w rest IH]; [reflexivity|].
  simpl. now rewrite (paren_ordered_of_lower _ w (hyphen_pass_lower false w)), IH.
Qed.

Lemma no_word_no_hyphen (s : pystr) : split s = [] -> has_chr "-" s = false.
Proof.
  induction s as [x Hx | x c y Hx Hc IH] using space_ind.
  - rewrite (split_no_space x Hx). destruct x; [reflexivity | discriminate].
  - rewrite (split_cut x c y Hx Hc). destruct x as [|a x]; [|discriminate].
    cbn [cons_token app]. intro H. rewrite has_chr_cons, (IH H), orb_false_r.
    destruct (chr_eqb "-" c) eqn:E; [|reflexivity].
    apply chr_eqb_eq in E. subst c. discriminate Hc.
Qed.

(** On an ASCII text none of whose words has a closing parenthesis before
    its first opening one, [to_title_case] changes the case of letters and
    the spacing only: the words of the result are the words of the text up
    to case, in the same order; when the text has a word the result is its
    own words joined by single spaces; a text with no word is returned as
    it is. *)
Theorem to_title_case_changes_case_and_spacing_only (s : pystr) :
  isascii s = true ->
  parens_ordered s = true ->
  map lower (split (to_title_case s)) = map lower (split s) /\
  (split s <> [] -> to_title_case s = join (str " ") (split (to_title_case s))) /\
  (split s = [] -> to_title_case s = s).
Proof.
  intros _ Hp. unfold parens_ordered in Hp. rewrite (to_title_case_eq s).
  destruct s as [|c s]; [now repeat split|].
  remember (c :: s) as text eqn:Et. clear Et c s.
  pose proof (split_hyphen_pass text) as Hs.
  pose proof (split_tokens (hyphen_pass false text)) as Ht.
  assert (Hq : forallb paren_ordered (split (hyphen_pass false text)) = true)
    by now rewrite Hs, paren_ordered_hyphen_pass.
  destruct (split (hyphen_pass false text)) as [|w rest] eqn:Ew.
  - assert (E0 : split text = []) by (destruct (split text); [reflexivity | discriminate Hs]).
    rewrite (hyphen_pass_no_hyphen false text (no_word_no_hyphen text E0)).
    split; [reflexivity|]. split; [now intro N | reflexivity].
  - pose proof (title_words_tokens (w :: rest) 0 Ht Hq) as Tk.
    rewrite (split_join _ Tk), (title_words_lower _ 0 Hq), Hs, map_lower_hyphen_pass.
    split; [reflexivity|]. split; [reflexivity|].
    intro E0. rewrite E0 in Hs. discriminate Hs.
Qed.

(** The text "  low   OUTER of  x-ray " has four words. *)
Lemma to_title_case_changes_case_and_spacing_only_witness :
  to_title_case (str "  low   OUTER of  x-ray ") = str "Low OUTER of X-Ray" /\
  map lower (split (to_title_case (str "  low   OUTER of  x-ray ")))
  = map lower (split (str "  low   OUTER of  x-ray ")) /\
  to_title_case (str "   ") = str "   ".
Proof.
  destruct (to_title_case_changes_case_and_spacing_only (str "  low   OUTER of  x-ray ")
              eq_refl eq_refl) as [A _].
  destruct (to_title_case_changes_case_and_spacing_only (str "   ") eq_refl eq_refl)
    as [_ [_ C]].
  split; [reflexivity|]. split; [exact A|]. apply C. reflexivity.
Defined.

(* ================================================================== *)
(** * The corrector: a move is changed by what is recorded, and no more *)
(* ================================================================== *)

Lemma replay_app (ext1 ext2 : list correction) (d : dict) :
  replay (ext1 ++ ext2) d = replay ext2 (replay ext1 d).
Proof. apply fold_left_app. Qed.

Lemma replay_frame (fields : list pystr) (k : pystr) (ext : list correction) :
  Forall (fun e => In (c_field e) fields) ext -> ~ In k fields ->
  forall d, dict_get k (replay ext d) = dict_get k d.
Proof.
  intros F Hk. induction F as [|e ext He _ IH]; intro d; [reflexivity|].
  cbn [replay fold_left]. fold (replay ext (dict_set (c_field e) (c_new e) d)).
  rewrite IH. apply get_set_other. intros ->. now apply Hk.
Qed.

Lemma correct_stance_replay (d : dict) (n : json) (s : corrector_state)
    (move' : json) (s' : corrector_state) :
  correct_stance (JObj d) n s = Some (move', s') ->
  exists ext, snd s' = snd s ++ ext /\ move' = JObj (replay ext d) /\
              Forall (fun e => In (c_field e) corrected_fields /\ c_move e = n) ext.
Proof.
  unfold correct_stance. cbn [py_get bind]. intro H.
  destruct (match dict_get (str "stance") d with Some x => x | None => JStr [] end)
    as [| | |st| |]; try discriminate H.
  destruct (startswith (str "Left ") st || startswith (str "Right ") st).
  - cbn [py_setitem bind] in H. injection H as <- <-.
    eexists [_]. split; [reflexivity|]. split; [reflexivity|].
    constructor; [|constructor]. split; [now left | reflexivity].
  - injection H as <- <-. exists []. rewrite app_nil_r. repeat split. constructor.
Qed.

Lemma fix_typo_replay (typo fixed : pystr) (d : dict) (n technique : json)
    (s : corrector_state) (move' technique' : json) (s' : corrector_state) :
  fix_typo typo fixed (JObj d) n technique s = Some (move', technique', s') ->
  exists ext, snd s' = snd s ++ ext /\ move' = JObj (replay ext d) /\
              Forall (fun e => In (c_field e) corrected_fields /\ c_move e = n) ext.
Proof.
  unfold fix_typo. intro H. destruct (json_eqb technique (JStr typo)).
  - cbn [py_setitem bind] in H. injection H as <- _ <-.
    eexists [_]. split; [reflexivity|]. split; [reflexivity|].
    constructor; [|constructor]. split; [right; now left | reflexivity].
  - injection H as <- _ <-. exists []. rewrite app_nil_r. repeat split. constructor.
Qed.

Lemma correct_split_replay (d : dict) (n technique target : json)
    (s : corrector_state) (move' : json) (s' : corrector_state) :
  correct_split (JObj d) n technique target s = Some (move', s') ->
  exists ext, snd s' = snd s ++ ext /\ move' = JObj (replay ext d) /\
              Forall (fun e => In (c_field e) corrected_fields /\ c_move e = n) ext.
Proof.
  unfold correct_split. intro H.
  destruct (_split_technique_target technique target) as [[new_technique new_target]|];
    [|discriminate].
  cbn [bind] in H.
  destruct (negb (json_eqb new_technique technique));
    destruct (negb (json_eqb new_target target));
    cbn [py_setitem bind snd] in H; injection H as <- <-.
  - eexists [_; _]. rewrite <- app_assoc. split; [reflexivity|]. split; [reflexivity|].
    constructor; [|constructor; [|constructor]];
      (split; [cbn; tauto | reflexivity]).
  - eexists [_]. split; [reflexivity|]. split; [reflexivity|].
    constructor; [|constructor]. split; [cbn; tauto | reflexivity].
  - eexists [_]. split; [reflexivity|]. split; [reflexivity|].
    constructor; [|constructor]. split; [cbn; tauto | reflexivity].
  - exists []. rewrite app_nil_r. repeat split. constructor.
Qed.

Lemma replay_steps (n : json) (d : dict) (l0 ext1 ext2 : list correction)
    (l1 l2 : list correction) (x2 : json) :
  l1 = l0 ++ ext1 ->
  Forall (fun e => In (c_field e) corrected_fields /\ c_move e = n) ext1 ->
  l2 = l1 ++ ext2 -> x2 = JObj (replay ext2 (replay ext1 d)) ->
  Forall (fun e => In (c_field e) corrected_fields /\ c_move e = n) ext2 ->
  exists ext, l2 = l0 ++ ext /\ x2 = JObj (replay ext d) /\
              Forall (fun e => In (c_field e) corrected_fields /\ c_move e = n) ext.
Proof.
  intros -> F1 -> -> F2. exists (ext1 ++ ext2).
  rewrite app_assoc, replay_app. repeat split. apply Forall_app. now split.
Qed.

Lemma correct_chon_ji_move_replay (x : json) (s : corrector_state) (x' : json)
    (s' : corrector_state) :
  correct_chon_ji_move x s = Some (x', s') ->
  exists d n ext,
    x = JObj d /\ py_get x (str "move_number") (JNum 0) = Some n /\
    snd s' = snd s ++ ext /\ x' = JObj (replay ext d) /\
    Forall (fun e => In (c_field e) corrected_fields /\ c_move e = n) ext.
Proof.
  unfold correct_chon_ji_move. intro H.
  destruct x as [| | | | |d]; try discriminate H.
  destruct (py_get (JObj d) (str "move_number") (JNum 0)) as [n|] eqn:En;
    [|discriminate].
  cbn [bind] in H.
  destruct (correct_stance (JObj d) n s) as [[m1 s1]|] eqn:E1; [|discriminate].
  cbn [bind] in H.
  destruct (correct_stance_replay _ _ _ _ _ E1) as [ext1 [A1 [-> F1]]].
  destruct (py_get _ (str "technique") _) as [t|]; [|discriminate]. cbn [bind] in H.
  destruct (py_get _ (str "target") _) as [g|]; [|discriminate]. cbn [bind] in H.
  destruct (correct_split_replay _ _ _ _ _ _ _ H) as [ext2 [A2 [-> F2]]].
  exists d, n.
  destruct (replay_steps n d (snd s) ext1 ext2 _ _ _ A1 F1 A2 eq_refl F2)
    as [ext [B1 [B2 B3]]].
  exists ext. now repeat split.
Qed.

Lemma correct_dan_gun_move_replay (x : json) (s : corrector_state) (x' : json)
    (s' : corrector_state) :
  correct_dan_gun_move x s = Some (x', s') ->
  exists d n ext,
    x = JObj d /\ py_get x (str "move_number") (JNum 0) = Some n /\
    snd s' = snd s ++ ext /\ x' = JObj (replay ext d) /\
    Forall (fun e => In (c_field e) corrected_fields /\ c_move e = n) ext.
Proof.
  unfold correct_dan_gun_move. intro H.
  destruct x as [| | | | |d]; try discriminate H.
  destruct (py_get (JObj d) (str "move_number") (JNum 0)) as [n|] eqn:En;
    [|discriminate].
  cbn [bind] in H.
  destruct (correct_stance (JObj d) n s) as [[m1 s1]|] eqn:E1; [|discriminate].
  cbn [bind] in H.
  destruct (correct_stance_replay _ _ _ _ _ E1) as [ext1 [A1 [-> F1]]].
  destruct (py_get _ (str "technique") _) as [t|]; [|discriminate]. cbn [bind] in H.
  destruct (fix_typo (str "High Observe Punch") _ _ n t s1) as [[[m2 t2] s2]|] eqn:E2;
    [|discriminate].
  cbn [bind] in H.
  destruct (fix_typo_replay _ _ _ _ _ _ _ _ _ E2) as [ext2 [A2 [-> F2]]].
  destruct (replay_steps n d (snd s) ext1 ext2 _ _ _ A1 F1 A2 eq_refl F2)
    as [ext12 [B1 [B2 B3]]].
  rewrite B2 in H.
  destruct (fix_typo (str "Twin Outer Forearm Bloack") _ _ n t2 s2)
    as [[[m3 t3] s3]|] eqn:E3; [|discriminate].
  cbn [bind] in H.
  destruct (fix_typo_replay _ _ _ _ _ _ _ _ _ E3) as [ext3 [A3 [-> F3]]].
  destruct (replay_steps n d (snd s) ext12 ext3 _ _ _ B1 B3 A3 eq_refl F3)
    as [ext123 [C1 [C2 C3]]].
  rewrite C2 in H.
  destruct (py_get _ (str "target") _) as [g|]; [|discriminate]. cbn [bind] in H.
  destruct (correct_split_replay _ _ _ _ _ _ _ H) as [ext4 [A4 [-> F4]]].
  exists d, n.
  destruct (replay_steps n d (snd s) ext123 ext4 _ _ _ C1 C3 A4 eq_refl F4)
    as [ext [D1 [D2 D3]]].
  exists ext. now repeat split.
Qed.

(** The body of either corrector loop changes a move by what it appends
    to [file_corrections] and by nothing else: the move it leaves is the
    move it found with the new values of the appended entries assigned in
    order.  Every appended entry names the move's number, one of the
    fields stance, technique and target, and two different values; so
    every other field of the move is as it was. *)
Theorem corrector_move_is_replay (x x' : json) (s s' : corrector_state) :
  correct_chon_ji_move x s = Some (x', s') \/
  correct_dan_gun_move x s = Some (x', s') ->
  exists d ext,
    x = JObj d /\ snd s' = snd s ++ ext /\ x' = JObj (replay ext d) /\
    Forall (fun e => In (c_field e) corrected_fields /\
                     py_get x (str "move_number") (JNum 0) = Some (c_move e) /\
                     c_old e <> c_new e) ext /\
    (forall k, ~ In k corrected_fields -> dict_get k (replay ext d) = dict_get k d).
Proof.
  intro H.
  assert (K : (exists d n ext,
                  x = JObj d /\ py_get x (str "move_number") (JNum 0) = Some n /\
                  snd s' = snd s ++ ext /\ x' = JObj (replay ext d) /\
                  Forall (fun e => In (c_field e) corrected_fields /\ c_move e = n) ext)
              /\ extends_by real_change s s').
  { destruct H as [H|H]; split.
    - now apply correct_chon_ji_move_replay.
    - now apply (correct_chon_ji_move_extends_by x s x').
    - now apply correct_dan_gun_move_replay.
    - now apply (correct_dan_gun_move_extends_by x s x'). }
  destruct K as [[d [n [ext [-> [Hn [A [-> F]]]]]]] [ext' [A' [_ F']]]].
  rewrite A in A'. apply app_inv_head in A'. subst ext'.
  exists d, ext. split; [reflexivity|]. split; [exact A|]. split; [reflexivity|]. split.
  - rewrite Forall_forall in *. intros e He.
    destruct (F e He) as [F1 F2]. split; [exact F1|]. split; [now rewrite F2|].
    exact (F' e He).
  - intros k Hk. apply (replay_frame corrected_fields); [|exact Hk].
    rewrite Forall_forall in *. intros e He. now destruct (F e He).
Qed.

(** Move 4 of Dan-Gun with the typo: the typo fix and the split are
    recorded one after the other, and the technique left is "Obverse
    Punch". *)
Lemma corrector_move_is_replay_witness :
  let x := JObj [(str "move_number", JNum 4);
                 (str "stance", JStr (str "Walking Stance"));
                 (str "technique", JStr (str "High Observe Punch"));
                 (str "target", JStr (str "High Section"))] in
  let x' := JObj [(str "move_number", JNum 4);
                  (str "stance", JStr (str "Walking Stance"));
                  (str "technique", JStr (str "Obverse Punch"));
                  (str "target", JStr (str "High Section"))] in
  let log := [mk_correction (JNum 4) (str "technique")
                (JStr (str "High Observe Punch")) (JStr (str "High Obverse Punch"));
              mk_correction (JNum 4) (str "technique")
                (JStr (str "High Obverse Punch")) (JStr (str "Obverse Punch"))] in
  correct_dan_gun_move x (false, []) = Some (x', (true, log)) /\
  exists d ext,
    x = JObj d /\ snd (true, log) = snd (false, @nil correction) ++ ext /\
    x' = JObj (replay ext d) /\
    Forall (fun e => In (c_field e) corrected_fields /\
                     py_get x (str "move_number") (JNum 0) = Some (c_move e) /\
                     c_old e <> c_new e) ext /\
    (forall k, ~ In k corrected_fields -> dict_get k (replay ext d) = dict_get k d).
Proof.
  intros x x' log.
  assert (H : correct_dan_gun_move x (false, []) = Some (x', (true, log)))
    by reflexivity.
  split; [exact H|].
  exact (corrector_move_is_replay x x' (false, []) (true, log) (or_intror H)).
Defined.

(* ================================================================== *)
(** * The three file fixers of fix-title-case.py *)
(* ================================================================== *)

Lemma fix_terminology_file_eq (data : json) :
  fix_terminology_file data = fix_entries_file (str "terminology") fix_term data.
Proof. reflexivity. Qed.

Lemma to_title_case_value_changed (original : json) :
  json_eqb original (to_title_case_value original) = false ->
  casing_fixed (original, to_title_case_value original).
Proof. intro H. split; [reflexivity | exact H]. Qed.

Lemma fix_property_extends_by (key : pystr) (term : json) (s : bool * list casing_change)
    (term' : json) (s' : bool * list casing_change) :
  fix_property key term s = Some (term', s') -> extends_by casing_fixed s s'.
Proof.
  unfold fix_property. intro H.
  destruct (py_in key term) as [has|]; [|discriminate]. cbn [bind] in H.
  destruct has; [|injection H as _ <-; apply extends_by_refl].
  destruct (py_getitem term key) as [original|]; [|discriminate]. cbn [bind] in H.
  destruct (json_eqb original (to_title_case_value original)) eqn:E; cbn [negb] in H.
  - injection H as _ <-. apply extends_by_refl.
  - destruct (py_setitem term key _) as [t1|]; [|discriminate]. cbn [bind] in H.
    injection H as _ <-. apply extends_by_push. now apply to_title_case_value_changed.
Qed.

Lemma fix_term_extends_by (term : json) (s : bool * list casing_change)
    (term' : json) (s' : bool * list casing_change) :
  fix_term term s = Some (term', s') -> extends_by casing_fixed s s'.
Proof.
  unfold fix_term. intro H.
  destruct (fix_property (str "english") term s) as [[t1 s1]|] eqn:E; [|discriminate].
  cbn [bind] in H.
  apply (extends_by_trans _ s s1 s'); eapply fix_property_extends_by; eassumption.
Qed.

Lemma fix_technique_extends_by (technique : json) (s : bool * list casing_change)
    (technique' : json) (s' : bool * list casing_change) :
  fix_technique technique s = Some (technique', s') -> extends_by casing_fixed s s'.
Proof.
  unfold fix_technique. intro H.
  destruct (py_in (str "names") technique) as [has|]; [|discriminate]. cbn [bind] in H.
  destruct has; [|injection H as _ <-; apply extends_by_refl].
  destruct (py_getitem technique (str "names")) as [names|]; [|discriminate].
  cbn [bind] in H.
  destruct (fix_term names s) as [[n1 s1]|] eqn:E; [|discriminate]. cbn [bind] in H.
  destruct (py_setitem technique _ _); [|discriminate]. cbn [bind] in H.
  injection H as _ <-. now apply (fix_term_extends_by names s n1).
Qed.

Lemma fix_entries_file_report (key : pystr)
    (body : json -> bool * list casing_change ->
            option (json * (bool * list casing_change)))
    (data : json) (o : outcome casing_change) :
  (forall x s x' s', body x s = Some (x', s') -> extends_by casing_fixed s s') ->
  fix_entries_file key body data = Some o ->
  Forall casing_fixed (reported o) /\
  (returned o = false <-> reported o = []) /\
  (returned o = false -> written o = None) /\
  (returned o = true -> exists d, written o = Some d).
Proof.
  intros Hb H. unfold fix_entries_file in H.
  destruct (py_in key data) as [has|]; [|discriminate]. cbn [bind] in H.
  assert (X : forall data' changed lines,
             (if has
              then entries <- py_getitem data key ;;
                   items <- py_iter entries ;;
                   ' (items', s) <- for_each body items (false, []) ;;
                   data'0 <- py_setitem data key (put_items entries items') ;;
                   Some (data'0, s)
              else Some (data, (false, []))) = Some (data', (changed, lines)) ->
             extends_by casing_fixed (false, []) (changed, lines)).
  { intros data' changed lines E. destruct has.
    - destruct (py_getitem data key) as [entries|]; [|discriminate]. cbn [bind] in E.
      destruct (py_iter entries) as [items|]; [|discriminate]. cbn [bind] in E.
      destruct (for_each body items (false, [])) as [[items' s1]|] eqn:Ef;
        [|discriminate].
      cbn [bind] in E.
      destruct (py_setitem data key _); [|discriminate]. cbn [bind] in E.
      injection E as _ <-.
      now apply (for_each_extends_by casing_fixed body Hb) in Ef.
    - injection E as _ <- <-. apply extends_by_refl. }
  destruct (if has then _ else _) as [[data' [changed lines]]|]; [|discriminate].
  cbn [bind] in H. injection H as <-. cbn [returned reported written].
  destruct (extends_by_from_start _ _ _ (X data' changed lines eq_refl)) as [F G].
  split; [exact G|]. split; [exact F|]. split.
  - now intros ->.
  - intros ->. now exists data'.
Qed.

(** What the three file fixers report.  Every printed line shows a value
    and what [to_title_case] returns for it, and the two are unequal by
    Python's [!=], the test of the code; a fixer returns [True], and
    writes the document, exactly when it printed a line, and otherwise
    writes nothing. *)
Theorem title_case_fixers_report (data : json) (o : outcome casing_change) :
  fix_terminology_file data = Some o \/
  fix_techniques_file data = Some o \/
  fix_vocabulary_file data = Some o ->
  Forall (fun e => snd e = to_title_case_value (fst e) /\
                   json_eqb (fst e) (snd e) = false) (reported o) /\
  (returned o = false <-> reported o = []) /\
  (returned o = false -> written o = None) /\
  (returned o = true -> exists d, written o = Some d).
Proof.
  intro H.
  assert (R : Forall casing_fixed (reported o) /\
              (returned o = false <-> reported o = []) /\
              (returned o = false -> written o = None) /\
              (returned o = true -> exists d, written o = Some d)).
  { destruct H as [H|[H|H]].
    - rewrite fix_terminology_file_eq in H.
      exact (fix_entries_file_report _ _ _ _ fix_term_extends_by H).
    - exact (fix_entries_file_report _ _ _ _ fix_technique_extends_by H).
    - exact (fix_entries_file_report _ _ _ _ fix_term_extends_by H). }
  destruct R as [F R]. split; [|exact R].
  exact (Forall_impl _ (fun e (C : casing_fixed e) => C) F).
Qed.

(** A techniques file with one name to fix, one that is in title case
    and one that is a number. *)
Lemma title_case_fixers_report_witness :
  let doc := fun english =>
    JObj [(str "techniques",
           JArr [JObj [(str "id", JNum 1);
                       (str "names", JObj [(str "english", english);
                                           (str "romanised", JStr (str "Ap Chagi"));
                                           (str "hangul", JNum 7)])]])] in
  let o := mk_outcome (Some (doc (JStr (str "Front Snap Kick")))) true
             [(JStr (str "front snap kick"), JStr (str "Front Snap Kick"))] in
  fix_techniques_file (doc (JStr (str "front snap kick"))) = Some o /\
  Forall (fun e => snd e = to_title_case_value (fst e) /\
                   json_eqb (fst e) (snd e) = false) (reported o) /\
  (returned o = false <-> reported o = []) /\
  (returned o = false -> written o = None) /\
  (returned o = true -> exists d, written o = Some d).
Proof.
  intros doc o.
  assert (H : fix_techniques_file (doc (JStr (str "front snap kick"))) = Some o)
    by (vm_compute; reflexivity).
  split; [exact H|].
  exact (title_case_fixers_report _ o (or_intror (or_introl H))).
Defined.

(* ================================================================== *)
(** * The migration of the other file types, run twice *)
(* ================================================================== *)

Lemma for_each_fixed {S : Type} (body : json -> S -> option (json * S))
    (items : list json) :
  Forall (fixed_by body) items -> forall t, for_each body items t = Some (items, t).
Proof.
  intro F. induction F as [|x items Hx _ IH]; intro t; [reflexivity|].
  cbn [for_each]. rewrite (Hx t). cbn [bind]. now rewrite (IH t).
Qed.

Lemma for_each_outputs_fixed {S : Type} (body : json -> S -> option (json * S)) :
  settles body ->
  forall items s items' s',
    for_each body items s = Some (items', s') -> Forall (fixed_by body) items'.
Proof.
  intros Hb items. induction items as [|x items IH]; intros s items' s' H;
    cbn [for_each] in H.
  - injection H as <- _. constructor.
  - destruct (body x s) as [[x1 s1]|] eqn:E1; [|discriminate]. cbn [bind] in H.
    destruct (for_each body items s1) as [[r1 s2]|] eqn:E2; [|discriminate].
    cbn [bind] in H. injection H as <- _. constructor.
    + exact (Hb _ _ _ _ E1).
    + exact (IH _ _ _ E2).
Qed.

(** What a loop leaves in its container is quiet. *)
Lemma loop_quiet {S : Type} (body : json -> S -> option (json * S))
    (container : json) (items items' : list json) (s s' : S) :
  settles body -> keeps_strings body ->
  py_iter container = Some items ->
  for_each body items s = Some (items', s') ->
  quiet_value body (put_items container items').
Proof.
  intros Hs Hk Hi Hf.
  destruct (loop_settles body container items items' s s' Hs Hk Hi Hf) as [L1 [_ L3]].
  exists items'. split; [exact L1|]. split; [|exact L3].
  exact (for_each_outputs_fixed body Hs _ _ _ _ Hf).
Qed.

(** A loop over a quiet field of an object changes nothing. *)
Lemma over_list_quiet (key : pystr) (body : json -> stats -> option (json * stats))
    (fields : dict) :
  (forall v, dict_get key fields = Some v -> quiet_value body v) ->
  fixed_by (over_list key body) (JObj fields).
Proof.
  intros Q t. unfold over_list. cbn [py_in py_getitem bind]. unfold dict_has.
  destruct (dict_get key fields) as [v|] eqn:E; [|reflexivity].
  destruct (Q v eq_refl) as [items [Hi [Hf Hp]]]. cbn [bind].
  rewrite Hi. cbn [bind]. rewrite (for_each_fixed body items Hf t).
  cbn [bind py_setitem]. now rewrite Hp, (set_unchanged _ _ _ E).
Qed.

(** What [over_list] does to an object. *)
Lemma over_list_object (key : pystr) (body : json -> stats -> option (json * stats))
    (x : json) (s : stats) (fields' : dict) (s' : stats) :
  settles body -> keeps_strings body ->
  over_list key body x s = Some (JObj fields', s') ->
  exists fields,
    x = JObj fields /\
    (forall v, dict_get key fields' = Some v -> quiet_value body v) /\
    (forall k, k <> key -> dict_get k fields' = dict_get k fields).
Proof.
  intros Hs Hk H. unfold over_list in H.
  destruct (py_in key x) as [has|] eqn:E1; [|discriminate]. cbn [bind] in H.
  destruct has.
  - destruct (py_getitem x key) as [entries|] eqn:E2; [|discriminate]. cbn [bind] in H.
    destruct (py_iter entries) as [items|] eqn:E3; [|discriminate]. cbn [bind] in H.
    destruct (for_each body items s) as [[items' s2]|] eqn:E4; [|discriminate].
    cbn [bind] in H.
    destruct x as [| | | | |d]; try discriminate E2. cbn [py_setitem bind] in H.
    injection H as <- <-. exists d. split; [reflexivity|]. split.
    + intros v Hv. rewrite get_set_same in Hv. injection Hv as <-.
      exact (loop_quiet body entries items items' s s2 Hs Hk E3 E4).
    + intros k Hn. now apply get_set_other.
  - injection H as -> <-. exists fields'. split; [reflexivity|]. split; [|reflexivity].
    intros v Hv. cbn [py_in] in E1. unfold dict_has in E1. rewrite Hv in E1.
    discriminate E1.
Qed.

Lemma over_list_keeps_strings (key : pystr)
    (body : json -> stats -> option (json * stats)) :
  keeps_strings (over_list key body).
Proof.
  intros k s x' s' H. unfold over_list in H. cbn [py_in py_getitem bind] in H.
  destruct (contains key k); [discriminate|]. now injection H as <- _.
Qed.

Lemma over_list_settles (key : pystr) (body : json -> stats -> option (json * stats)) :
  settles body -> keeps_strings body -> settles (over_list key body).
Proof.
  intros Hs Hk x s x' s' H. destruct x' as [| | | | |fields'].
  6: { destruct (over_list_object key body x s fields' s' Hs Hk H) as [d [_ [Q _]]].
       now apply over_list_quiet. }
  all: intro t; unfold over_list in H;
    destruct (py_in key x) as [has|] eqn:E1; [|discriminate]; cbn [bind] in H;
    destruct has;
    [ destruct (py_getitem x key) as [entries|] eqn:E2; [|discriminate];
      destruct x; try discriminate E2; cbn [bind] in H;
      destruct (py_iter entries); [|discriminate]; cbn [bind] in H;
      destruct (for_each body _ s) as [[? ?]|]; [|discriminate];
      cbn [bind py_setitem] in H; discriminate H
    | injection H as <- <-; unfold over_list; rewrite E1; reflexivity ].
Qed.

Lemma in_field_keeps_strings (key : pystr)
    (body : json -> stats -> option (json * stats)) :
  keeps_strings (in_field key body).
Proof.
  intros k s x' s' H. unfold in_field in H. cbn [py_in py_getitem bind] in H.
  destruct (contains key k); [discriminate|]. now injection H as <- _.
Qed.

Lemma in_field_settles (key : pystr) (body : json -> stats -> option (json * stats)) :
  settles body -> settles (in_field key body).
Proof.
  intros Hs x s x' s' H t. unfold in_field in H.
  destruct (py_in key x) as [has|] eqn:E1; [|discriminate]. cbn [bind] in H.
  destruct has.
  - destruct (py_getitem x key) as [v|] eqn:E2; [|discriminate]. cbn [bind] in H.
    destruct (body v s) as [[v' s1]|] eqn:E3; [|discriminate]. cbn [bind] in H.
    destruct x as [| | | | |d]; try discriminate E2. cbn [py_setitem bind] in H.
    injection H as <- <-. unfold in_field. cbn [py_in py_getitem]. unfold dict_has.
    rewrite get_set_same. cbn [bind]. rewrite (Hs _ _ _ _ E3 t). cbn [bind py_setitem].
    now rewrite (set_unchanged _ _ _ (get_set_same _ _ _)).
  - injection H as <- <-. unfold in_field. rewrite E1. reflexivity.
Qed.

(** ** Step sparring: the three actions of a step *)

Lemma rename_action_quiet (a : pystr) (fields : dict) :
  settled_at (rename_node action_mapping) a fields ->
  fixed_by (rename_action a) (JObj fields).
Proof.
  intros Q t. unfold rename_action. cbn [py_in py_getitem bind]. unfold dict_has.
  destruct (dict_get a fields) as [v|] eqn:E; [|reflexivity]. cbn [bind].
  destruct (truthy v) eqn:Et; [|reflexivity].
  rewrite (Q v E Et t). cbn [bind py_setitem].
  now rewrite (set_unchanged _ _ _ E).
Qed.

Lemma settled_at_frame {S : Type} (body : json -> S -> option (json * S))
    (a : pystr) (fields fields' : dict) :
  dict_get a fields' = dict_get a fields ->
  settled_at body a fields -> settled_at body a fields'.
Proof. intros E Q v Hv. rewrite E in Hv. now apply Q. Qed.

(** A step that is no object is returned as it is, with the counters. *)
Lemma rename_action_other (a : pystr) (step : json) (st : stats) (step' : json)
    (st' : stats) :
  match step with JObj _ => False | _ => True end ->
  rename_action a step st = Some (step', st') ->
  step' = step /\ fixed_by (rename_action a) step.
Proof.
  intros N H. unfold rename_action in H.
  destruct (py_in a step) as [has|] eqn:E1; [|discriminate]. cbn [bind] in H.
  destruct has.
  - destruct step; try contradiction; discriminate H.
  - injection H as <- _. split; [reflexivity|]. intro t. unfold rename_action.
    now rewrite E1.
Qed.

(** In an object only the field of the action changes, and it is settled
    afterwards. *)
Lemma rename_action_object (a : pystr) (fields : dict) (st : stats) (step' : json)
    (st' : stats) :
  rename_action a (JObj fields) st = Some (step', st') ->
  exists fields',
    step' = JObj fields' /\
    settled_at (rename_node action_mapping) a fields' /\
    (forall b, b <> a -> dict_get b fields' = dict_get b fields).
Proof.
  unfold rename_action. cbn [py_in py_getitem bind]. unfold dict_has. intro H.
  destruct (dict_get a fields) as [v|] eqn:E2; cbn [bind] in H.
  - destruct (truthy v) eqn:Et.
    + destruct (rename_node action_mapping v st) as [[v' s1]|] eqn:E3; [|discriminate].
      cbn [bind py_setitem] in H. injection H as <- <-.
      exists (dict_set a v' fields). split; [reflexivity|]. split.
      * intros w Hw _. rewrite get_set_same in Hw. injection Hw as <-.
        exact (rename_node_settles action_mapping eq_refl _ _ _ _ E3).
      * intros b Hb. now apply get_set_other.
    + injection H as <- _. exists fields. split; [reflexivity|]. split; [|reflexivity].
      intros w Hw Tw. rewrite E2 in Hw. injection Hw as <-. congruence.
  - injection H as <- _. exists fields. split; [reflexivity|]. split; [|reflexivity].
    intros w Hw. rewrite E2 in Hw. discriminate Hw.
Qed.

Lemma standardize_step_keeps_strings : keeps_strings standardize_step.
Proof.
  intros k s x' s' H. unfold standardize_step in H.
  destruct (rename_action (str "attack") (JStr k) s) as [[x1 s1]|] eqn:E1;
    [|discriminate].
  cbn [bind] in H. destruct (rename_action_other _ (JStr k) _ _ _ I E1) as [-> _].
  destruct (rename_action (str "defense") (JStr k) s1) as [[x2 s2]|] eqn:E2;
    [|discriminate].
  cbn [bind] in H. destruct (rename_action_other _ (JStr k) _ _ _ I E2) as [-> _].
  now destruct (rename_action_other _ (JStr k) _ _ _ I H) as [-> _].
Qed.

Lemma standardize_step_settles : settles standardize_step.
Proof.
  intros x s x' s' H t. unfold standardize_step in H.
  destruct (rename_action (str "attack") x s) as [[x1 s1]|] eqn:E1; [|discriminate].
  cbn [bind] in H.
  destruct (rename_action (str "defense") x1 s1) as [[x2 s2]|] eqn:E2; [|discriminate].
  cbn [bind] in H.
  assert (O : forall y, match y with JObj _ => False | _ => True end ->
                        x = y -> standardize_step x' t = Some (x', t)).
  { intros y N ->.
    destruct (rename_action_other _ _ _ _ _ N E1) as [-> A1].
    destruct (rename_action_other _ _ _ _ _ N E2) as [-> A2].
    destruct (rename_action_other _ _ _ _ _ N H) as [-> A3].
    unfold standardize_step. rewrite (A1 t). cbn [bind]. rewrite (A2 t). cbn [bind].
    exact (A3 t). }
  destruct x as [|b|n|k|l|d];
    [exact (O JNull I eq_refl) | exact (O (JBool b) I eq_refl)
    | exact (O (JNum n) I eq_refl) | exact (O (JStr k) I eq_refl)
    | exact (O (JArr l) I eq_refl) |].
  clear O.
  destruct (rename_action_object _ _ _ _ _ E1) as [d1 [-> [S1 F1]]].
  destruct (rename_action_object _ _ _ _ _ E2) as [d2 [-> [S2 F2]]].
  destruct (rename_action_object _ _ _ _ _ H) as [d3 [-> [S3 F3]]].
  assert (SA : settled_at (rename_node action_mapping) (str "attack") d3).
  { apply (settled_at_frame _ _ d1); [|exact S1].
    rewrite F3 by discriminate. now rewrite F2 by discriminate. }
  assert (SD : settled_at (rename_node action_mapping) (str "defense") d3).
  { apply (settled_at_frame _ _ d2); [|exact S2]. now rewrite F3 by discriminate. }
  unfold standardize_step.
  rewrite (rename_action_quiet _ _ SA t). cbn [bind].
  rewrite (rename_action_quiet _ _ SD t). cbn [bind].
  exact (rename_action_quiet _ _ S3 t).
Qed.

Lemma standardize_stepsparring_settles : settles standardize_stepsparring.
Proof.
  apply over_list_settles; [|apply over_list_keeps_strings].
  apply over_list_settles;
    [apply standardize_step_settles | apply standardize_step_keeps_strings].
Qed.

(** ** Terminology, techniques, vocabulary, line work *)

Lemma standardize_terminology_settles : settles standardize_terminology.
Proof.
  apply over_list_settles;
    [now apply rename_node_settles | apply rename_node_keeps_strings].
Qed.

Lemma standardize_vocabulary_settles : settles standardize_vocabulary.
Proof.
  apply over_list_settles;
    [now apply rename_node_settles | apply rename_node_keeps_strings].
Qed.

Lemma standardize_techniques_settles : settles standardize_techniques.
Proof.
  apply over_list_settles; [|apply in_field_keeps_strings].
  apply in_field_settles. now apply rename_node_settles.
Qed.

Lemma standardize_linework_settles : settles standardize_linework.
Proof. intros x s x' s' H t. unfold standardize_linework in *. now injection H as <- _. Qed.

Lemma standardize_patterns_settles : settles standardize_patterns.
Proof. intros x s x' s' H. exact (standardize_patterns_idempotent x x' s s' H). Qed.

(** ** Theory: the content of a section *)

Lemma for_values_settles (body : json -> stats -> option (json * stats)) :
  settles body ->
  forall d st d' st',
    for_values body d st = Some (d', st') ->
    forall t, for_values body d' t = Some (d', t).
Proof.
  intros Hb d. induction d as [|[k v] d IH]; intros st d' st' H t;
    cbn [for_values] in H.
  - injection H as <- _. reflexivity.
  - destruct (body v st) as [[v1 s1]|] eqn:E1; [|discriminate]. cbn [bind] in H.
    destruct (for_values body d s1) as [[d1 s2]|] eqn:E2; [|discriminate].
    cbn [bind] in H. injection H as <- _. cbn [for_values].
    rewrite (Hb _ _ _ _ E1 t). cbn [bind]. now rewrite (IH _ _ _ E2 t).
Qed.

(** The value of a key after the loop over the values is what the body
    made of the value of the key. *)
Lemma for_values_get (body : json -> stats -> option (json * stats)) (k : pystr) :
  forall d st d' st',
    for_values body d st = Some (d', st') ->
    match dict_get k d with
    | None => dict_get k d' = None
    | Some v => exists s1 v' s2, body v s1 = Some (v', s2) /\ dict_get k d' = Some v'
    end.
Proof.
  induction d as [|[k0 v0] d IH]; intros st d' st' H; cbn [for_values] in H.
  - injection H as <- _. reflexivity.
  - destruct (body v0 st) as [[v1 s1]|] eqn:E1; [|discriminate]. cbn [bind] in H.
    destruct (for_values body d s1) as [[d1 s2]|] eqn:E2; [|discriminate].
    cbn [bind] in H. injection H as <- _. cbn [dict_get].
    destruct (str_eqb k k0).
    + now exists st, v1, s1.
    + exact (IH _ _ _ E2).
Qed.

Lemma rename_if_dict_settles : settles rename_if_dict.
Proof.
  intros x s x' s' H t. destruct x as [| | | | |d];
    try (cbn [rename_if_dict] in H; injection H as <- _; reflexivity).
  cbn [rename_if_dict] in H.
  pose proof (rename_node_settles theory_mapping eq_refl _ _ _ _ H t) as R.
  destruct x' as [| | | | |d']; try exact R.
  all: cbn [rename_node] in H;
    destruct (_rename_keys d theory_mapping s) as [[? ?]|]; discriminate H.
Qed.

Lemma rename_in_list_settles : settles rename_in_list.
Proof.
  intros x s x' s' H t. destruct x as [| | | |items|];
    try (cbn [rename_in_list] in H; injection H as <- _; reflexivity).
  cbn [rename_in_list] in H.
  destruct (for_each rename_if_dict items s) as [[items' s1]|] eqn:E; [|discriminate].
  cbn [bind] in H. injection H as <- _. cbn [rename_in_list].
  now rewrite (for_each_settles rename_if_dict rename_if_dict_settles _ _ _ _ E t).
Qed.

Lemma quiet_in_list (v : json) :
  quiet_value (rename_node theory_mapping) v -> fixed_by rename_in_list v.
Proof.
  intros [items [Hi [Hf _]]] t. destruct v as [| | | |l|]; try reflexivity.
  cbn [py_iter] in Hi. injection Hi as <-. cbn [rename_in_list].
  rewrite (for_each_fixed rename_if_dict l); [reflexivity|].
  rewrite Forall_forall in *. intros x Hx u. specialize (Hf x Hx u).
  now destruct x.
Qed.

Lemma standardize_content_keeps_strings : keeps_strings standardize_content.
Proof.
  intros k s x' s' H. unfold standardize_content in H.
  destruct (over_list (str "tenets") _ (JStr k) s) as [[c1 s1]|] eqn:E1; [|discriminate].
  apply over_list_keeps_strings in E1. subst c1. cbn [bind] in H.
  destruct (over_list (str "greeting_terms") _ (JStr k) s1) as [[c2 s2]|] eqn:E2;
    [|discriminate].
  apply over_list_keeps_strings in E2. subst c2. discriminate H.
Qed.

Lemma standardize_content_settles : settles standardize_content.
Proof.
  intros x s x' s' H t. unfold standardize_content in H.
  pose proof (rename_node_settles theory_mapping eq_refl) as Hs.
  pose proof (rename_node_keeps_strings theory_mapping) as Hk.
  destruct (over_list (str "tenets") _ x s) as [[c1 s1]|] eqn:E1; [|discriminate].
  cbn [bind] in H.
  destruct (over_list (str "greeting_terms") _ c1 s1) as [[c2 s2]|] eqn:E2;
    [|discriminate].
  cbn [bind] in H.
  destruct c2 as [| | | | |d2]; try discriminate H.
  destruct (for_values rename_in_list d2 s2) as [[d3 s3]|] eqn:E3; [|discriminate].
  cbn [bind] in H. injection H as <- _.
  destruct (over_list_object _ _ _ _ _ _ Hs Hk E2) as [d1 [-> [Q2 F2]]].
  destruct (over_list_object _ _ _ _ _ _ Hs Hk E1) as [d [-> [Q1 _]]].
  assert (QT : forall v, dict_get (str "tenets") d2 = Some v ->
                         quiet_value (rename_node theory_mapping) v).
  { intros v Hv. rewrite F2 in Hv by discriminate. now apply Q1. }
  assert (K : forall k,
             (forall v, dict_get k d2 = Some v ->
                        quiet_value (rename_node theory_mapping) v) ->
             forall v, dict_get k d3 = Some v ->
                       quiet_value (rename_node theory_mapping) v).
  { intros k Q v Hv. pose proof (for_values_get rename_in_list k _ _ _ _ E3) as G.
    destruct (dict_get k d2) as [v2|] eqn:Ek.
    - destruct G as [u1 [v' [u2 [B G]]]]. rewrite G in Hv. injection Hv as <-.
      rewrite (quiet_in_list v2 (Q v2 eq_refl) u1) in B. injection B as <- _.
      now apply Q.
    - rewrite G in Hv. discriminate Hv. }
  unfold standardize_content.
  rewrite (over_list_quiet (str "tenets") _ d3 (K _ QT) t). cbn [bind].
  rewrite (over_list_quiet (str "greeting_terms") _ d3 (K _ Q2) t). cbn [bind].
  now rewrite (for_values_settles _ rename_in_list_settles _ _ _ _ E3 t).
Qed.

Lemma standardize_theory_settles : settles standardize_theory.
Proof.
  apply over_list_settles; [|apply in_field_keeps_strings].
  apply in_field_settles, standardize_content_settles.
Qed.

(** ** Every file type *)

Lemma standardize_as_settles (file_type : pystr)
    (standardize : json -> stats -> option (json * stats)) :
  standardize_as file_type = Some standardize -> settles standardize.
Proof.
  unfold standardize_as. intro H.
  repeat match type of H with
  | (if ?c then _ else _) = _ => destruct c; [injection H as <-|]
  end;
  [ apply standardize_terminology_settles | apply standardize_techniques_settles
  | apply standardize_linework_settles | apply standardize_patterns_settles
  | apply standardize_stepsparring_settles | apply standardize_theory_settles
  | apply standardize_vocabulary_settles | discriminate H ].
Qed.

(** The migration is idempotent for every file type.  When a live run of
    [process_file] has written a document, a further run over that
    document, live or dry, succeeds, renames no property and removes no
    field (the counters of [_rename_keys] stay as they are and the message
    names the file type only), and a live one writes the same document
    again. *)
Theorem process_file_second_run
    (path_str : pystr) (data data' : json) (rs : run_stats) (r : file_result) :
  process_file path_str data false rs = Some r ->
  fr_written r = Some data' ->
  forall (dry_run : bool) (rs2 : run_stats),
    process_file path_str data' dry_run rs2
    = Some (mk_file_result
              (if dry_run then None else Some data') true
              (str "✓ " ++ upper (detect_file_type path_str))
              (mk_run_stats (counters rs2)
                 (if dry_run then files_written rs2 else S (files_written rs2))
                 (if dry_run then S (files_analyzed rs2) else files_analyzed rs2))).
Proof.
  unfold process_file. intros H W dry_run rs2.
  destruct (standardize_as (detect_file_type path_str)) as [standardize|] eqn:Ef.
  - destruct (standardize data (counters rs)) as [[d1 s1]|] eqn:E; [|discriminate].
    cbn [bind] in H. injection H as <-. cbn [fr_written] in W. injection W as ->.
    rewrite (standardize_as_settles _ _ Ef _ _ _ _ E (counters rs2)). cbn [bind].
    rewrite Nat.sub_diag. cbn [Nat.ltb Nat.leb]. rewrite app_nil_r.
    now destruct dry_run.
  - injection H as <-. discriminate W.
Qed.

(** A theory file with a tenet, a greeting term with an empty name, and
    a list of other entries. *)
Lemma process_file_second_run_witness :
  let path := str "Content/Theory/10th_keup_theory.json" in
  let doc := fun tenet greeting other =>
    JObj [(str "theory_sections",
           JArr [JObj [(str "content",
                        JObj [(str "tenets", JArr [JObj tenet]);
                              (str "greeting_terms", JArr [JObj greeting]);
                              (str "belts", JArr [JObj other; JStr (str "name")])])]])] in
  let before := doc [(str "name", JStr (str "Courtesy")); (str "korean", JStr (str "Ye Ui"))]
                    [(str "name", JStr []); (str "korean", JStr (str "Charyot"))]
                    [(str "name", JStr (str "White"))] in
  let after := doc [(str "english", JStr (str "Courtesy"));
                    (str "romanised", JStr (str "Ye Ui"))]
                   [(str "romanised", JStr (str "Charyot"))]
                   [(str "english", JStr (str "White"))] in
  process_file path before false (mk_run_stats (mk_stats 0 0) 0 0)
  = Some (mk_file_result (Some after) true (str "✓ THEORY (4 properties renamed)")
            (mk_run_stats (mk_stats 4 1) 1 0)) /\
  process_file path after false (mk_run_stats (mk_stats 4 1) 1 0)
  = Some (mk_file_result (Some after) true (str "✓ " ++ upper (detect_file_type path))
            (mk_run_stats (mk_stats 4 1) 2 0)).
Proof.
  intros path doc before after.
  assert (H : process_file path before false (mk_run_stats (mk_stats 0 0) 0 0)
              = Some (mk_file_result (Some after) true
                        (str "✓ THEORY (4 properties renamed)")
                        (mk_run_stats (mk_stats 4 1) 1 0)))
    by (vm_compute; reflexivity).
  split; [exact H|].
  exact (process_file_second_run path before after _ _ H eq_refl false
           (mk_run_stats (mk_stats 4 1) 1 0)).
Defined.

(* ================================================================== *)
(** * The counter of renamed properties *)
(* ================================================================== *)

Lemma collect_renames_list (m : mapping_table) : forall obj st l obj1 st1,
  NoDup (map fst m) ->
  collect_renames m obj st = (l, obj1, st1) ->
  map fst l = filter (fun e => has_value obj (fst e)) m.
Proof.
  induction m as [|[old new] m IH]; intros obj st l obj1 st1 N H; cbn [collect_renames] in H.
  - now injection H as <- _ _.
  - inversion N as [|? ? N1 N2]; subst. cbn [filter fst]. unfold has_value at 1.
    destruct (dict_get old obj) as [value|] eqn:Eo.
    + destruct (non_empty value) eqn:En.
      * destruct (collect_renames m obj st) as [[l' o'] s'] eqn:E.
        injection H as <- _ _. cbn [map fst]. now rewrite (IH _ _ _ _ _ N2 E).
      * rewrite (IH _ _ _ _ _ N2 H). apply filter_ext_in. intros [s t] Hin.
        cbn [fst]. unfold has_value. rewrite get_remove_other; [reflexivity|].
        intro Es. apply N1. rewrite <- Es. exact (in_map fst _ _ Hin).
    + exact (IH _ _ _ _ _ N2 H).
Qed.

Lemma apply_renames_count (l : list (pystr * pystr * json)) : forall d st d' st',
  apply_renames l d st = Some (d', st') ->
  properties_renamed st'
  = properties_renamed st
    + List.length (filter (fun e => negb (str_eqb (fst e) (snd e))) (map fst l)).
Proof.
  induction l as [|[[s t] v] l IH]; intros d st d' st' H; cbn [apply_renames] in H.
  - injection H as _ <-. cbn. lia.
  - cbn [map filter fst snd]. destruct (str_eqb s t); cbn [negb] in *.
    + exact (IH _ _ _ _ H).
    + destruct (dict_del s (dict_set t v d)) as [d1|]; [|discriminate].
      cbn [bind] in H. rewrite (IH _ _ _ _ H). cbn. lia.
Qed.

Lemma filter_filter_and {A : Type} (f g : A -> bool) (l : list A) :
  filter f (filter g l) = filter (fun x => g x && f x) l.
Proof.
  induction l as [|x l IH]; [reflexivity|].
  cbn [filter]. destruct (g x); cbn [filter andb]; [destruct (f x)|]; now rewrite IH.
Qed.

(** The two counters after [_rename_keys], with a table whose source keys
    are distinct (as the keys of a Python dict are): the call returns,
    [properties_renamed] has grown by the number of entries that name two
    different keys and whose source key the object had with a non-empty
    value, and [empty_fields_removed] by the number of entries whose
    source key it had with an empty value. *)
Theorem rename_keys_counters (obj : dict) (m : mapping_table) (st : stats) :
  distinct (map fst m) = true ->
  exists obj' st',
    _rename_keys obj m st = Some (obj', st') /\
    properties_renamed st'
    = properties_renamed st + List.length (filter (renamed_source obj) m) /\
    empty_fields_removed st'
    = empty_fields_removed st + List.length (filter (empty_source obj) m).
Proof.
  intro D. pose proof (distinct_NoDup _ D) as N.
  destruct (rename_keys_total obj m st N) as [obj' [st' H]].
  exists obj', st'. split; [exact H|]. unfold _rename_keys in H.
  destruct (collect_renames m obj st) as [[l o] s1] eqn:E.
  destruct (collect_counts _ _ _ _ _ _ E N) as [C1 C2]. split.
  - rewrite (apply_renames_count _ _ _ _ _ H), C2, (collect_renames_list _ _ _ _ _ _ N E).
    now rewrite filter_filter_and.
  - now rewrite (apply_counts _ _ _ _ _ H).
Qed.

(** A technique's names with a romanisation to rename, two spellings of
    the Korean script and an empty field. *)
Lemma rename_keys_counters_witness :
  exists obj' st',
    _rename_keys [(str "korean_romanized", JStr (str "Ap Chagi"));
                  (str "korean", JStr []);
                  (str "korean_hangul", JStr (str "x"));
                  (str "english", JStr (str "Front Kick"))]
                 techniques_mapping (mk_stats 10 20) = Some (obj', st') /\
    properties_renamed st' = 10 + 2 /\
    empty_fields_removed st' = 20 + 1.
Proof.
  exact (rename_keys_counters
           [(str "korean_romanized", JStr (str "Ap Chagi"));
            (str "korean", JStr []);
            (str "korean_hangul", JStr (str "x"));
            (str "english", JStr (str "Front Kick"))]
           techniques_mapping (mk_stats 10 20) eq_refl).
Defined.

(* ================================================================== *)
(** * Every file type keeps the shape of its documents *)
(* ================================================================== *)

Lemma related_at_same (T : mapping_table) (k : pystr) (d d' : dict) :
  dict_get k d' = dict_get k d -> related_at T k d d'.
Proof.
  intro E. unfold related_at. rewrite E.
  destruct (dict_get k d) as [v|]; [|reflexivity].
  exists v. split; [reflexivity | apply migrated_same].
Qed.

Lemma related_at_after (T : mapping_table) (k : pystr) (d d1 d2 : dict) :
  related_at T k d d1 -> dict_get k d2 = dict_get k d1 -> related_at T k d d2.
Proof. unfold related_at. intros R E. now rewrite E. Qed.

Lemma related_at_before (T : mapping_table) (k : pystr) (d d1 d2 : dict) :
  dict_get k d1 = dict_get k d -> related_at T k d1 d2 -> related_at T k d d2.
Proof. unfold related_at. intros E R. now rewrite <- E. Qed.

Lemma related_at_set (T : mapping_table) (key : pystr) (v v' : json) (d : dict) :
  dict_get key d = Some v -> migrated T v v' ->
  related_at T key d (dict_set key v' d).
Proof.
  intros E M. unfold related_at. rewrite E, get_set_same. now exists v'.
Qed.

Lemma fieldwise_migrated (T : mapping_table) (d d' : dict) :
  fieldwise T d d' -> migrated T (JObj d) (JObj d').
Proof.
  intro F. apply migrated_object.
  - intros k v' Hk. specialize (F k). unfold related_at in F.
    destruct (dict_get k d) as [v|] eqn:E.
    + destruct F as [v2 [G M]]. rewrite G in Hk. injection Hk as <-.
      exists k, v. split; [exact E|]. split; [now left | exact M].
    + rewrite F in Hk. discriminate Hk.
  - intros k v _ Hk. specialize (F k). unfold related_at in F. now rewrite Hk in F.
Qed.

Lemma fieldwise_set (T : mapping_table) (key : pystr) (v v' : json) (d : dict) :
  dict_get key d = Some v -> migrated T v v' -> fieldwise T d (dict_set key v' d).
Proof.
  intros E M k. destruct (str_eqb k key) eqn:Ek.
  - apply str_eqb_eq in Ek. subst k. now apply (related_at_set T key v).
  - apply related_at_same. apply get_set_other. now apply str_eqb_neq.
Qed.

Lemma over_list_migrated (T : mapping_table) (key : pystr)
    (body : json -> stats -> option (json * stats)) :
  (forall x s x' s', body x s = Some (x', s') -> migrated T x x') ->
  forall x s x' s', over_list key body x s = Some (x', s') -> migrated T x x'.
Proof.
  intros Hb x s x' s' H. unfold over_list in H.
  destruct (py_in key x) as [has|]; [|discriminate]. cbn [bind] in H.
  destruct has; [|injection H as <- _; apply migrated_same].
  destruct (py_getitem x key) as [entries|] eqn:E2; [|discriminate]. cbn [bind] in H.
  destruct (py_iter entries) as [items|] eqn:E3; [|discriminate]. cbn [bind] in H.
  destruct (for_each body items s) as [[items' s2]|] eqn:E4; [|discriminate].
  cbn [bind] in H.
  destruct x as [| | | | |d]; try discriminate E2. cbn [py_setitem bind] in H.
  injection H as <- _. apply fieldwise_migrated, (fieldwise_set T key entries);
    [exact E2|].
  apply (put_items_migrated T entries items); [exact E3|].
  exact (for_each_related body (migrated T) Hb _ _ _ _ E4).
Qed.

Lemma in_field_migrated (T : mapping_table) (key : pystr)
    (body : json -> stats -> option (json * stats)) :
  (forall x s x' s', body x s = Some (x', s') -> migrated T x x') ->
  forall x s x' s', in_field key body x s = Some (x', s') -> migrated T x x'.
Proof.
  intros Hb x s x' s' H. unfold in_field in H.
  destruct (py_in key x) as [has|]; [|discriminate]. cbn [bind] in H.
  destruct has; [|injection H as <- _; apply migrated_same].
  destruct (py_getitem x key) as [v|] eqn:E2; [|discriminate]. cbn [bind] in H.
  destruct (body v s) as [[v' s1]|] eqn:E3; [|discriminate]. cbn [bind] in H.
  destruct x as [| | | | |d]; try discriminate E2. cbn [py_setitem bind] in H.
  injection H as <- _. apply fieldwise_migrated, (fieldwise_set T key v); [exact E2|].
  exact (Hb _ _ _ _ E3).
Qed.

(** ** Step sparring *)

Lemma rename_action_related (a : pystr) (fields : dict) (st : stats) (step' : json)
    (st' : stats) :
  rename_action a (JObj fields) st = Some (step', st') ->
  exists fields',
    step' = JObj fields' /\
    related_at action_mapping a fields fields' /\
    (forall b, b <> a -> dict_get b fields' = dict_get b fields).
Proof.
  unfold rename_action. cbn [py_in py_getitem bind]. unfold dict_has. intro H.
  destruct (dict_get a fields) as [v|] eqn:E2; cbn [bind] in H.
  - destruct (truthy v).
    + destruct (rename_node action_mapping v st) as [[v' s1]|] eqn:E3; [|discriminate].
      cbn [bind py_setitem] in H. injection H as <- _.
      exists (dict_set a v' fields). split; [reflexivity|]. split.
      * apply (related_at_set _ a v); [exact E2|].
        exact (rename_node_migrated action_mapping _ _ _ _ _ (incl_refl _) E3).
      * intros b Hb. now apply get_set_other.
    + injection H as <- _. exists fields. split; [reflexivity|].
      split; [now apply related_at_same | reflexivity].
  - injection H as <- _. exists fields. split; [reflexivity|].
    split; [now apply related_at_same | reflexivity].
Qed.

Lemma standardize_step_migrated (x : json) (s : stats) (x' : json) (s' : stats) :
  standardize_step x s = Some (x', s') -> migrated action_mapping x x'.
Proof.
  intro H. unfold standardize_step in H.
  destruct (rename_action (str "attack") x s) as [[x1 s1]|] eqn:E1; [|discriminate].
  cbn [bind] in H.
  destruct (rename_action (str "defense") x1 s1) as [[x2 s2]|] eqn:E2; [|discriminate].
  cbn [bind] in H.
  assert (O : forall y, match y with JObj _ => False | _ => True end ->
                        x = y -> migrated action_mapping x x').
  { intros y N ->.
    destruct (rename_action_other _ _ _ _ _ N E1) as [-> _].
    destruct (rename_action_other _ _ _ _ _ N E2) as [-> _].
    destruct (rename_action_other _ _ _ _ _ N H) as [-> _]. apply migrated_same. }
  destruct x as [|b|n|k|l|d];
    [exact (O JNull I eq_refl) | exact (O (JBool b) I eq_refl)
    | exact (O (JNum n) I eq_refl) | exact (O (JStr k) I eq_refl)
    | exact (O (JArr l) I eq_refl) |].
  clear O.
  destruct (rename_action_related _ _ _ _ _ E1) as [d1 [-> [R1 F1]]].
  destruct (rename_action_related _ _ _ _ _ E2) as [d2 [-> [R2 F2]]].
  destruct (rename_action_related _ _ _ _ _ H) as [d3 [-> [R3 F3]]].
  apply fieldwise_migrated. intro k.
  destruct (str_eqb k (str "attack")) eqn:Ka.
  { apply str_eqb_eq in Ka. subst k. apply (related_at_after _ _ d d1); [exact R1|].
    rewrite F3 by discriminate. now rewrite F2 by discriminate. }
  apply str_eqb_neq in Ka.
  destruct (str_eqb k (str "defense")) eqn:Kd.
  { apply str_eqb_eq in Kd. subst k. apply (related_at_before _ _ d d1);
      [now apply F1|].
    apply (related_at_after _ _ d1 d2); [exact R2|]. now rewrite F3 by discriminate. }
  apply str_eqb_neq in Kd.
  destruct (str_eqb k (str "counter")) eqn:Kc.
  { apply str_eqb_eq in Kc. subst k. apply (related_at_before _ _ d d2); [|exact R3].
    rewrite F2 by discriminate. now apply F1. }
  apply str_eqb_neq in Kc. apply related_at_same.
  now rewrite (F3 k Kc), (F2 k Kd), (F1 k Ka).
Qed.

(** ** Theory *)

Lemma rename_if_dict_migrated (x : json) (s : stats) (x' : json) (s' : stats) :
  rename_if_dict x s = Some (x', s') -> migrated theory_mapping x x'.
Proof.
  intro H. destruct x as [| | | | |d];
    try (cbn [rename_if_dict] in H; injection H as <- _; apply migrated_same).
  exact (rename_node_migrated theory_mapping _ _ _ _ _ (incl_refl _) H).
Qed.

Lemma rename_in_list_migrated (v : json) (s : stats) (v' : json) (s' : stats) :
  rename_in_list v s = Some (v', s') -> migrated theory_mapping v v'.
Proof.
  intro H. destruct v as [| | | |items|];
    try (cbn [rename_in_list] in H; injection H as <- _; apply migrated_same).
  cbn [rename_in_list] in H.
  destruct (for_each rename_if_dict items s) as [[items' s1]|] eqn:E; [|discriminate].
  cbn [bind] in H. injection H as <- _. apply migrated_list.
  exact (for_each_related rename_if_dict _ rename_if_dict_migrated _ _ _ _ E).
Qed.

(** What [over_list] does to an object, key by key. *)
Lemma over_list_related (T : mapping_table) (key : pystr)
    (body : json -> stats -> option (json * stats)) (fields : dict) (s : stats)
    (x' : json) (s' : stats) :
  settles body -> keeps_strings body ->
  (forall x s x' s', body x s = Some (x', s') -> migrated T x x') ->
  over_list key body (JObj fields) s = Some (x', s') ->
  exists fields',
    x' = JObj fields' /\
    related_at T key fields fields' /\
    (forall k, k <> key -> dict_get k fields' = dict_get k fields) /\
    (forall v, dict_get key fields' = Some v -> quiet_value body v).
Proof.
  intros Hs Hk Hb H. unfold over_list in H. cbn [py_in py_getitem bind] in H.
  unfold dict_has in H.
  destruct (dict_get key fields) as [entries|] eqn:E2; cbn [bind] in H.
  - destruct (py_iter entries) as [items|] eqn:E3; [|discriminate]. cbn [bind] in H.
    destruct (for_each body items s) as [[items' s2]|] eqn:E4; [|discriminate].
    cbn [bind py_setitem] in H. injection H as <- _.
    exists (dict_set key (put_items entries items') fields).
    split; [reflexivity|]. split; [|split].
    + apply (related_at_set T key entries); [exact E2|].
      apply (put_items_migrated T entries items); [exact E3|].
      exact (for_each_related body (migrated T) Hb _ _ _ _ E4).
    + intros k Hn. now apply get_set_other.
    + intros v Hv. rewrite get_set_same in Hv. injection Hv as <-.
      exact (loop_quiet body entries items items' s s2 Hs Hk E3 E4).
  - injection H as <- _. exists fields. split; [reflexivity|].
    split; [now apply related_at_same|]. split; [reflexivity|].
    intros v Hv. rewrite E2 in Hv. discriminate Hv.
Qed.

(** A key whose value is quiet keeps it in the loop over the values. *)
Lemma for_values_quiet_key (k : pystr) (d2 : dict) (s2 : stats) (d3 : dict)
    (s3 : stats) :
  for_values rename_in_list d2 s2 = Some (d3, s3) ->
  (forall v, dict_get k d2 = Some v -> quiet_value (rename_node theory_mapping) v) ->
  dict_get k d3 = dict_get k d2.
Proof.
  intros E Q. pose proof (for_values_get rename_in_list k _ _ _ _ E) as G.
  destruct (dict_get k d2) as [v2|] eqn:Ek; [|exact G].
  destruct G as [u1 [v' [u2 [B G]]]].
  rewrite (quiet_in_list v2 (Q v2 eq_refl) u1) in B. injection B as <- _. exact G.
Qed.

Lemma for_values_related (k : pystr) (d2 : dict) (s2 : stats) (d3 : dict) (s3 : stats) :
  for_values rename_in_list d2 s2 = Some (d3, s3) ->
  related_at theory_mapping k d2 d3.
Proof.
  intro E. pose proof (for_values_get rename_in_list k _ _ _ _ E) as G.
  unfold related_at. destruct (dict_get k d2) as [v2|]; [|exact G].
  destruct G as [u1 [v' [u2 [B G]]]]. exists v'. split; [exact G|].
  exact (rename_in_list_migrated _ _ _ _ B).
Qed.

Lemma standardize_content_migrated (x : json) (s : stats) (x' : json) (s' : stats) :
  standardize_content x s = Some (x', s') -> migrated theory_mapping x x'.
Proof.
  intro H. unfold standardize_content in H.
  pose proof (rename_node_settles theory_mapping eq_refl) as Hs.
  pose proof (rename_node_keeps_strings theory_mapping) as Hk.
  assert (Hb : forall x s x' s', rename_node theory_mapping x s = Some (x', s') ->
                                 migrated theory_mapping x x').
  { intros y t y' t'. apply rename_node_migrated, incl_refl. }
  destruct (over_list (str "tenets") _ x s) as [[c1 s1]|] eqn:E1; [|discriminate].
  cbn [bind] in H.
  destruct (over_list (str "greeting_terms") _ c1 s1) as [[c2 s2]|] eqn:E2;
    [|discriminate].
  cbn [bind] in H.
  destruct c2 as [| | | | |d2]; try discriminate H.
  destruct (for_values rename_in_list d2 s2) as [[d3 s3]|] eqn:E3; [|discriminate].
  cbn [bind] in H. injection H as <- _.
  destruct (over_list_object _ _ _ _ _ _ Hs Hk E2) as [d1 [-> _]].
  destruct (over_list_object _ _ _ _ _ _ Hs Hk E1) as [d [-> _]].
  destruct (over_list_related theory_mapping _ _ _ _ _ _ Hs Hk Hb E1)
    as [d1' [Ed1 [R1 [F1 Q1]]]].
  injection Ed1 as <-.
  destruct (over_list_related theory_mapping _ _ _ _ _ _ Hs Hk Hb E2)
    as [d2' [Ed2 [R2 [F2 Q2]]]].
  injection Ed2 as <-.
  apply fieldwise_migrated. intro k.
  destruct (str_eqb k (str "tenets")) eqn:Kt.
  { apply str_eqb_eq in Kt. subst k. apply (related_at_after _ _ d d1); [exact R1|].
    rewrite (for_values_quiet_key _ _ _ _ _ E3).
    - now apply F2.
    - intros v Hv. rewrite F2 in Hv by discriminate. now apply Q1. }
  apply str_eqb_neq in Kt.
  destruct (str_eqb k (str "greeting_terms")) eqn:Kg.
  { apply str_eqb_eq in Kg. subst k.
    apply (related_at_before _ _ d d1); [now apply F1|].
    apply (related_at_after _ _ d1 d2); [exact R2|].
    exact (for_values_quiet_key _ _ _ _ _ E3 Q2). }
  apply str_eqb_neq in Kg.
  apply (related_at_before _ _ d d2); [now rewrite (F2 k Kg), (F1 k Kt)|].
  exact (for_values_related k _ _ _ _ E3).
Qed.

(** ** Every file type *)

Lemma standardize_as_migrated (file_type : pystr)
    (standardize : json -> stats -> option (json * stats)) :
  standardize_as file_type = Some standardize ->
  forall x s x' s',
    standardize x s = Some (x', s') -> migrated (file_type_table file_type) x x'.
Proof.
  unfold standardize_as, file_type_table. intros H x s x' s' E.
  destruct (str_eqb file_type (str "terminology")).
  { injection H as <-. revert E. apply over_list_migrated.
    intros y t y' t'. apply rename_node_migrated, incl_refl. }
  destruct (str_eqb file_type (str "techniques")).
  { injection H as <-. revert E. apply over_list_migrated, in_field_migrated.
    intros y t y' t'. apply rename_node_migrated, incl_refl. }
  destruct (str_eqb file_type (str "linework")).
  { injection H as <-. unfold standardize_linework in E. injection E as <- _.
    apply migrated_same. }
  destruct (str_eqb file_type (str "patterns")).
  { injection H as <-. exact (standardize_patterns_migrated _ _ _ _ E). }
  destruct (str_eqb file_type (str "stepsparring")).
  { injection H as <-. revert E. apply over_list_migrated, over_list_migrated.
    exact standardize_step_migrated. }
  destruct (str_eqb file_type (str "theory")).
  { injection H as <-. revert E. apply over_list_migrated, in_field_migrated.
    exact standardize_content_migrated. }
  destruct (str_eqb file_type (str "vocabulary")); [|discriminate H].
  injection H as <-. revert E. apply over_list_migrated.
  intros y t y' t'. apply rename_node_migrated, incl_refl.
Qed.

(** [process_file] keeps the shape of the document it writes, for every
    file type.  A value of the written document that is no list and no
    object is a value of the document read, at a path of the same length
    with the same list indices, whose keys differ only by renamings of the
    tables of the file type; and such a value of the document read, at a
    path that names no key of these tables, is at the same path in the
    document written. *)
Theorem process_file_preserves_structure
    (path_str : pystr) (data data' : json) (dry_run : bool) (rs : run_stats)
    (r : file_result) :
  process_file path_str data dry_run rs = Some r ->
  fr_written r = Some data' ->
  (forall path v,
      at_path path data' = Some v -> scalar v = true ->
      exists path0,
        Forall2 (step_renamed (file_type_table (detect_file_type path_str))) path0 path /\
        at_path path0 data = Some v) /\
  (forall path v,
      at_path path data = Some v -> scalar v = true ->
      avoids (file_type_table (detect_file_type path_str)) path ->
      at_path path data' = Some v).
Proof.
  unfold process_file. intros H W.
  destruct (standardize_as (detect_file_type path_str)) as [standardize|] eqn:Ef.
  - destruct (standardize data (counters rs)) as [[d1 s1]|] eqn:E; [|discriminate].
    cbn [bind] in H. injection H as <-.
    destruct dry_run; cbn [fr_written] in W; [discriminate W|]. injection W as ->.
    pose proof (standardize_as_migrated _ _ Ef _ _ _ _ E) as M. split.
    + intros path v. now apply migrated_scalar_origin.
    + intros path v. now apply migrated_scalar_kept.
  - injection H as <-. discriminate W.
Qed.

(** A step-sparring file: the technique of the attack is found under
    its new key, and the description of the step stays where it is. *)
Lemma process_file_preserves_structure_witness :
  let path := str "Content/StepSparring/three_step.json" in
  let before :=
    JObj [(str "sequences",
           JArr [JObj [(str "steps",
                        JArr [JObj [(str "description", JStr (str "Step back"));
                                    (str "attack",
                                     JObj [(str "technique",
                                            JStr (str "Obverse Punch"))])]])]])] in
  let after :=
    JObj [(str "sequences",
           JArr [JObj [(str "steps",
                        JArr [JObj [(str "description", JStr (str "Step back"));
                                    (str "attack",
                                     JObj [(str "english",
                                            JStr (str "Obverse Punch"))])]])]])] in
  process_file path before false (mk_run_stats (mk_stats 0 0) 0 0)
  = Some (mk_file_result (Some after) true (str "✓ STEPSPARRING (1 properties renamed)")
            (mk_run_stats (mk_stats 1 0) 1 0)) /\
  (exists path0,
      Forall2 (step_renamed (file_type_table (detect_file_type path))) path0
        [Key (str "sequences"); Idx 0; Key (str "steps"); Idx 0; Key (str "attack");
         Key (str "english")] /\
      at_path path0 before = Some (JStr (str "Obverse Punch"))) /\
  at_path [Key (str "sequences"); Idx 0; Key (str "steps"); Idx 0;
           Key (str "description")] after
  = Some (JStr (str "Step back")).
Proof.
  intros path before after.
  assert (H : process_file path before false (mk_run_stats (mk_stats 0 0) 0 0)
              = Some (mk_file_result (Some after) true
                        (str "✓ STEPSPARRING (1 properties renamed)")
                        (mk_run_stats (mk_stats 1 0) 1 0)))
    by (vm_compute; reflexivity).
  destruct (process_file_preserves_structure path before after false _ _ H eq_refl)
    as [Back Forth].
  split; [exact H|]. split.
  - apply Back; reflexivity.
  - apply Forth; [reflexivity | reflexivity |].
    intros k Hk. cbn [In] in Hk.
    destruct Hk as [E|[E|[E|[E|[E|[]]]]]]; try discriminate E;
      injection E as <-; vm_compute; intros F;
      repeat (destruct F as [F|F]; [discriminate F|]); exact F.
Defined.

(* ================================================================== *)
(** * The CSV applier, run twice *)
(* ================================================================== *)

Lemma assign_fields_get (m : dict) (c : csv_correction) (field new : pystr) :
  In (field, new) (correction_fields c) ->
  dict_get field (assign_fields m c) = Some (JStr new).
Proof.
  intro Hin. unfold assign_fields. cbn [correction_fields In fold_left fst snd] in *.
  destruct Hin as [E|[E|[E|[E|[E|[]]]]]]; injection E as <- <-;
    rewrite ?get_set_other by discriminate; apply get_set_same.
Qed.

Lemma assign_fields_frame (m : dict) (c : csv_correction) (k : pystr) :
  ~ In k (map fst (correction_fields c)) ->
  dict_get k (assign_fields m c) = dict_get k m.
Proof.
  intro Hk. unfold assign_fields. cbn [correction_fields map In fold_left fst snd] in *.
  rewrite !get_set_other; [reflexivity|..]; intros ->; apply Hk; tauto.
Qed.

(** A move that holds the values of a row is left as it is by the row,
    and no line is printed for it. *)
Lemma assign_fields_fixed (m : dict) (c : csv_correction) :
  (forall field new, In (field, new) (correction_fields c) ->
                     dict_get field m = Some (JStr new)) ->
  assign_fields m c = m.
Proof.
  intro H. unfold assign_fields. cbn [correction_fields fold_left fst snd] in *.
  rewrite (set_unchanged (str "direction") _ m) by (apply H; cbn; tauto).
  rewrite (set_unchanged (str "movement") _ m) by (apply H; cbn; tauto).
  rewrite (set_unchanged (str "stance") _ m) by (apply H; cbn; tauto).
  rewrite (set_unchanged (str "technique") _ m) by (apply H; cbn; tauto).
  apply set_unchanged. apply H. cbn. tauto.
Qed.

Lemma changed_fields_fixed (n : json) (m : dict) (c : csv_correction) :
  (forall field new, In (field, new) (correction_fields c) ->
                     dict_get field m = Some (JStr new)) ->
  changed_fields n m c = [].
Proof.
  intro H. unfold changed_fields, old_values.
  cbn [correction_fields flat_map fst snd] in *.
  rewrite (H (str "direction") (direction c)) by (cbn; tauto).
  rewrite (H (str "movement") (movement c)) by (cbn; tauto).
  rewrite (H (str "stance") (stance c)) by (cbn; tauto).
  rewrite (H (str "technique") (technique c)) by (cbn; tauto).
  rewrite (H (str "target") (target c)) by (cbn; tauto).
  now rewrite !json_eqb_refl.
Qed.

Lemma update_move_again (pn : pystr) (cs : list (pystr * csv_correction))
    (x : json) (s : nat * list field_change) (x' : json) (s' : nat * list field_change) :
  update_move pn cs x s = Some (x', s') ->
  exists count, fst s' = count + fst s /\
    forall t, update_move pn cs x' t = Some (x', (count + fst t, snd t)).
Proof.
  unfold update_move. intro H.
  destruct (py_getitem x (str "move_number")) as [n|] eqn:E1; [|discriminate].
  cbn [bind] in H.
  destruct (py_str n) as [text|] eqn:E2; [|discriminate]. cbn [bind] in H.
  destruct x as [| | | | |m]; try discriminate E1. cbn [py_getitem] in E1.
  destruct (find_correction (pn ++ str "_" ++ text) cs) as [c|] eqn:E3.
  - injection H as <- <-. exists 1. split; [reflexivity|]. intro t.
    cbn [py_getitem]. rewrite assign_fields_frame.
    2: { cbn. intros [F|[F|[F|[F|[F|[]]]]]]; discriminate F. }
    rewrite E1. cbn [bind]. rewrite E2. cbn [bind]. rewrite E3.
    rewrite (assign_fields_fixed _ _ (assign_fields_get m (standardize_values c))).
    rewrite (changed_fields_fixed n _ _ (assign_fields_get m (standardize_values c))).
    now rewrite app_nil_r.
  - injection H as <- <-. exists 0. split; [reflexivity|]. intro t.
    cbn [py_getitem]. rewrite E1. cbn [bind]. rewrite E2. cbn [bind]. rewrite E3.
    now destruct t.
Qed.

Lemma for_each_update_again (pn : pystr) (cs : list (pystr * csv_correction)) :
  forall items s items' s',
    for_each (update_move pn cs) items s = Some (items', s') ->
    exists count, fst s' = count + fst s /\
      forall t, for_each (update_move pn cs) items' t
                = Some (items', (count + fst t, snd t)).
Proof.
  induction items as [|x items IH]; intros s items' s' H; cbn [for_each] in H.
  - injection H as <- <-. exists 0. split; [reflexivity|]. intro t. now destruct t.
  - destruct (update_move pn cs x s) as [[x1 s1]|] eqn:E1; [|discriminate].
    cbn [bind] in H.
    destruct (for_each (update_move pn cs) items s1) as [[r1 s2]|] eqn:E2;
      [|discriminate].
    cbn [bind] in H. injection H as <- <-.
    destruct (update_move_again _ _ _ _ _ _ E1) as [c1 [A1 B1]].
    destruct (IH _ _ _ E2) as [c2 [A2 B2]].
    exists (c2 + c1). split; [lia|]. intro t. cbn [for_each].
    rewrite (B1 t). cbn [bind]. rewrite (B2 (c1 + fst t, snd t)). cbn [bind fst snd].
    now rewrite Nat.add_assoc.
Qed.

(** A loop that reads a field of every element runs over a list, or over
    nothing. *)
Lemma loop_over_objects {S : Type} (body : json -> S -> option (json * S))
    (container : json) (items items' : list json) (s s' : S) :
  (forall k t, body (JStr k) t = None) ->
  py_iter container = Some items ->
  for_each body items s = Some (items', s') ->
  py_iter (put_items container items') = Some items' /\
  put_items (put_items container items') items' = put_items container items'.
Proof.
  intros Hb Hi Hf. destruct (py_iter_strings _ _ Hi) as [[l ->]|F];
    [now split|].
  assert (E : items = []).
  { destruct items as [|x items]; [reflexivity|]. exfalso.
    inversion F as [|? ? [k ->] _]; subst. cbn [for_each] in Hf.
    rewrite Hb in Hf. discriminate Hf. }
  subst items. cbn [for_each] in Hf. injection Hf as <- _.
  destruct container; try discriminate Hi; now split.
Qed.

Lemma update_patterns_again (jn pn : pystr) (cs : list (pystr * csv_correction)) :
  forall ps ps' n printed,
    update_patterns jn pn cs ps = Some (ps', (n, printed)) ->
    update_patterns jn pn cs ps' = Some (ps', (n, [])).
Proof.
  induction ps as [|p rest IH]; intros ps' n printed H; cbn [update_patterns] in H.
  - injection H as <- <- _. reflexivity.
  - destruct (py_getitem p (str "name")) as [name|] eqn:E1; [|discriminate].
    cbn [bind] in H.
    destruct p as [| | | | |d]; try discriminate E1. cbn [py_getitem] in E1.
    destruct (json_eqb name (JStr jn)) eqn:En.
    + cbn [py_get py_getitem bind] in H.
      destruct (py_iter _) as [items|] eqn:E3; [|discriminate]. cbn [bind] in H.
      destruct (for_each (update_move pn cs) items (0, [])) as [[items' s]|] eqn:E4;
        [|discriminate].
      cbn [bind] in H.
      destruct (for_each_update_again _ _ _ _ _ _ E4) as [c [A B]].
      destruct (loop_over_objects (update_move pn cs) _ items items' _ _
                  (fun k t => eq_refl) E3 E4) as [L1 L3].
      destruct s as [n0 p0]. cbn [fst] in A.
      destruct (dict_get (str "moves") d) as [moves|] eqn:Em;
        cbn [py_setitem bind] in H; injection H as <- <- _.
      * cbn [update_patterns py_getitem].
        rewrite (get_set_other (str "name") (str "moves")) by discriminate.
        rewrite E1. cbn [bind]. rewrite En. cbn [py_get py_getitem].
        rewrite get_set_same. cbn [bind]. rewrite L1. cbn [bind].
        rewrite (B (0, [])). cbn [bind py_setitem fst snd].
        rewrite L3, (set_unchanged _ _ _ (get_set_same _ _ _)). now rewrite A.
      * cbn [update_patterns py_getitem]. rewrite E1. cbn [bind]. rewrite En.
        cbn [py_get py_getitem]. rewrite Em. cbn [bind].
        cbn [py_iter] in E3. injection E3 as <-. cbn [for_each] in E4.
        injection E4 as <- <- _. reflexivity.
    + destruct (update_patterns jn pn cs rest) as [[rest' [n0 p0]]|] eqn:E2;
        [|discriminate].
      cbn [bind] in H. injection H as <- <- _.
      cbn [update_patterns py_getitem]. rewrite E1. cbn [bind]. rewrite En.
      now rewrite (IH _ _ _ eq_refl).
Qed.

Lemma update_patterns_over_objects (jn pn : pystr) (cs : list (pystr * csv_correction))
    (container : json) (items items' : list json) (s : nat * list field_change) :
  py_iter container = Some items ->
  update_patterns jn pn cs items = Some (items', s) ->
  py_iter (put_items container items') = Some items' /\
  put_items (put_items container items') items' = put_items container items'.
Proof.
  intros Hi Hf. destruct (py_iter_strings _ _ Hi) as [[l ->]|F]; [now split|].
  assert (E : items = []).
  { destruct items as [|x items]; [reflexivity|]. exfalso.
    inversion F as [|? ? [k ->] _]; subst. discriminate Hf. }
  subst items. cbn [update_patterns] in Hf. injection Hf as <- _.
  destruct container; try discriminate Hi; now split.
Qed.

(** The CSV applier is idempotent on documents.  When [update_pattern_file]
    has written a document, running it again over that document with the
    same corrections counts the same updates, prints no line (every field
    already holds the value of its row) and writes the same document. *)
Theorem update_pattern_file_second_run
    (data data' : json) (pn : pystr) (cs : list (pystr * csv_correction))
    (u : update_outcome) :
  update_pattern_file data pn cs = Some u ->
  u_written u = Some data' ->
  update_pattern_file data' pn cs = Some (mk_update (Some data') (u_count u) []).
Proof.
  unfold update_pattern_file. intros H W.
  destruct data as [| | | | |d]; try discriminate H. cbn [py_get py_getitem bind] in H.
  destruct (py_iter _) as [items|] eqn:E3; [|discriminate]. cbn [bind] in H.
  destruct (update_patterns _ pn cs items) as [[items' [n printed]]|] eqn:E4;
    [|discriminate].
  cbn [bind] in H.
  destruct (update_patterns_over_objects _ _ _ _ _ _ _ E3 E4) as [L1 L3].
  pose proof (update_patterns_again _ _ _ _ _ _ _ E4) as A.
  destruct (dict_get (str "patterns") d) as [patterns|] eqn:Ep;
    cbn [py_setitem bind] in H; injection H as <-; cbn [u_written u_count] in *;
    injection W as <-.
  - cbn [py_get py_getitem]. rewrite get_set_same. cbn [bind]. rewrite L1. cbn [bind].
    rewrite A. cbn [bind py_setitem].
    now rewrite L3, (set_unchanged _ _ _ (get_set_same _ _ _)).
  - cbn [py_get py_getitem]. rewrite Ep. cbn [bind].
    cbn [py_iter] in E3. injection E3 as <-. cbn [update_patterns] in E4.
    injection E4 as <- <- _. reflexivity.
Qed.

(** Move 4 of Dan-Gun and a row that fixes its technique and gives it a
    movement: two lines are printed the first time, none the second. *)
Lemma update_pattern_file_second_run_witness :
  let doc := fun move =>
    JObj [(str "patterns",
           JArr [JObj [(str "name", JStr (str "Dan-Gun"));
                       (str "moves", JArr [JObj move])]])] in
  let before := [(str "move_number", JNum 4);
                 (str "direction", JStr (str "North"));
                 (str "movement", JStr []);
                 (str "stance", JStr (str "Walking Stance"));
                 (str "technique", JStr (str "High Observe Punch"));
                 (str "target", JStr (str "High Section"))] in
  let after := [(str "move_number", JNum 4);
                (str "direction", JStr (str "North"));
                (str "movement", JStr (str "Left 90°"));
                (str "stance", JStr (str "Walking Stance"));
                (str "technique", JStr (str "High Obverse Punch"));
                (str "target", JStr (str "High Section"))] in
  let cs := [(str "Dan Gun_4",
              mk_csv (str "North") (str "90") (str "Walking Stance")
                     (str "High Obverse Punch") (str "High Section"))] in
  update_pattern_file (doc before) (str "Dan Gun") cs
  = Some (mk_update (Some (doc after)) 1
            [mk_field_change (JNum 4) (str "movement") (JStr []) (str "Left 90°");
             mk_field_change (JNum 4) (str "technique")
               (JStr (str "High Observe Punch")) (str "High Obverse Punch")]) /\
  update_pattern_file (doc after) (str "Dan Gun") cs
  = Some (mk_update (Some (doc after)) 1 []).
Proof.
  intros doc before after cs.
  assert (H : update_pattern_file (doc before) (str "Dan Gun") cs
              = Some (mk_update (Some (doc after)) 1
                        [mk_field_change (JNum 4) (str "movement") (JStr [])
                           (str "Left 90°");
                         mk_field_change (JNum 4) (str "technique")
                           (JStr (str "High Observe Punch"))
                           (str "High Obverse Punch")]))
    by (vm_compute; reflexivity).
  split; [exact H|].
  exact (update_pattern_file_second_run (doc before) (doc after) _ cs _ H eq_refl).
Defined.

(* ================================================================== *)
(** * The grouping of the corrections by pattern *)
(* ================================================================== *)

Lemma find_corr_set (key k : pystr) (c : csv_correction)
    (g : list (pystr * csv_correction)) :
  find_correction key (corr_set k c g)
  = if str_eqb key k then Some c else find_correction key g.
Proof.
  induction g as [|[k0 c0] g IH]; cbn [corr_set find_correction].
  - now destruct (str_eqb key k).
  - destruct (str_eqb k k0) eqn:E1; cbn [find_correction].
    + apply str_eqb_eq in E1. subst k0. now destruct (str_eqb key k).
    + destruct (str_eqb key k0) eqn:E2; [|exact IH].
      destruct (str_eqb key k) eqn:E3; [|reflexivity].
      apply str_eqb_eq in E2. apply str_eqb_eq in E3. subst.
      rewrite str_eqb_refl in E1. discriminate E1.
Qed.

Lemma group_get_add (p q key : pystr) (c : csv_correction)
    (groups : list (pystr * list (pystr * csv_correction))) :
  group_get p (group_add q key c groups)
  = if str_eqb p q
    then Some (corr_set key c (match group_get q groups with Some g => g | None => [] end))
    else group_get p groups.
Proof.
  induction groups as [|[q0 g0] groups IH]; cbn [group_add group_get].
  - now destruct (str_eqb p q).
  - destruct (str_eqb q q0) eqn:E1; cbn [group_get].
    + apply str_eqb_eq in E1. subst q0. now destruct (str_eqb p q).
    + destruct (str_eqb p q0) eqn:E2.
      * destruct (str_eqb p q) eqn:E3; [|reflexivity].
        apply str_eqb_eq in E2. apply str_eqb_eq in E3. subst.
        rewrite str_eqb_refl in E1. discriminate E1.
      * exact IH.
Qed.

Lemma grouped_find_add (key k : pystr) (c : csv_correction)
    (groups : list (pystr * list (pystr * csv_correction))) :
  grouped_find key (group_add (key_pattern k) k c groups)
  = if str_eqb key k then Some c else grouped_find key groups.
Proof.
  unfold grouped_find. rewrite group_get_add.
  destruct (str_eqb key k) eqn:E.
  - apply str_eqb_eq in E. subst k. now rewrite str_eqb_refl, find_corr_set, str_eqb_refl.
  - destruct (str_eqb (key_pattern key) (key_pattern k)) eqn:Ep; [|reflexivity].
    apply str_eqb_eq in Ep. rewrite Ep, find_corr_set, E.
    now destruct (group_get (key_pattern k) groups).
Qed.

Lemma find_correction_app (key : pystr) (a b : list (pystr * csv_correction)) :
  find_correction key (a ++ b)
  = match find_correction key a with
    | Some c => Some c
    | None => find_correction key b
    end.
Proof.
  induction a as [|[k c] a IH]; [reflexivity|].
  cbn [app find_correction]. now destruct (str_eqb key k).
Qed.

Lemma find_correction_absent (key : pystr) (a : list (pystr * csv_correction)) :
  ~ In key (map fst a) -> find_correction key a = None.
Proof.
  induction a as [|[k c] a IH]; intro H; [reflexivity|].
  cbn [find_correction]. destruct (str_eqb key k) eqn:E.
  - apply str_eqb_eq in E. subst k. exfalso. apply H. now left.
  - apply IH. intro F. apply H. now right.
Qed.

(** A key finds through the groups what it finds in the corrections. *)
Lemma grouped_find_spec (corrections : list (pystr * csv_correction)) :
  NoDup (map fst corrections) ->
  forall key,
    grouped_find key (patterns_to_correct corrections) = find_correction key corrections.
Proof.
  unfold patterns_to_correct.
  assert (G : forall rest seen groups,
             NoDup (map fst (seen ++ rest)) ->
             (forall key, grouped_find key groups = find_correction key seen) ->
             forall key,
               grouped_find key
                 (fold_left (fun groups kc =>
                               group_add (key_pattern (fst kc)) (fst kc) (snd kc) groups)
                            rest groups)
               = find_correction key (seen ++ rest)).
  { induction rest as [|[k c] rest IH]; intros seen groups N I key.
    - cbn [fold_left]. now rewrite app_nil_r.
    - cbn [fold_left fst snd].
      replace (seen ++ (k, c) :: rest) with ((seen ++ [(k, c)]) ++ rest)
        by now rewrite <- app_assoc.
      apply IH; [now rewrite <- app_assoc|].
      intro key0. rewrite grouped_find_add, find_correction_app, I.
      cbn [find_correction].
      destruct (str_eqb key0 k) eqn:E; [|now destruct (find_correction key0 seen)].
      apply str_eqb_eq in E. subst key0.
      rewrite find_correction_absent; [reflexivity|].
      rewrite map_app in N. cbn [map fst] in N. apply NoDup_remove_2 in N.
      intro F. apply N. apply in_app_iff. now left. }
  intros N key. exact (G corrections [] [] N (fun _ => eq_refl) key).
Qed.

Lemma split_on_head (c : ascii) (a b : pystr) :
  has_chr c a = false -> split_on c (a ++ c :: b) = a :: split_on c b.
Proof.
  intro Ha. induction a as [|x a IH]; cbn [app split_on].
  - now rewrite chr_eqb_refl.
  - rewrite has_chr_cons in Ha. apply orb_false_iff in Ha. destruct Ha as [Hx Ha].
    rewrite (chr_eqb_sym x c), Hx. now rewrite (IH Ha).
Qed.

Lemma key_pattern_of (pn text : pystr) :
  has_chr "_" pn = false -> key_pattern (pn ++ str "_" ++ text) = pn.
Proof.
  intro H. unfold key_pattern.
  change (pn ++ str "_" ++ text) with (pn ++ "_"%char :: text).
  now rewrite (split_on_head "_" pn text H).
Qed.

Lemma for_each_ext {S : Type} (body1 body2 : json -> S -> option (json * S)) :
  (forall x s, body1 x s = body2 x s) ->
  forall items s, for_each body1 items s = for_each body2 items s.
Proof.
  intros E items. induction items as [|x items IH]; intro s; [reflexivity|].
  cbn [for_each]. rewrite E. destruct (body2 x s) as [[x1 s1]|]; [|reflexivity].
  cbn [bind]. now rewrite IH.
Qed.

Lemma update_pattern_file_ext (pn : pystr) (cs1 cs2 : list (pystr * csv_correction)) :
  (forall text, find_correction (pn ++ str "_" ++ text) cs1
                = find_correction (pn ++ str "_" ++ text) cs2) ->
  forall data, update_pattern_file data pn cs1 = update_pattern_file data pn cs2.
Proof.
  intro E.
  assert (M : forall x s, update_move pn cs1 x s = update_move pn cs2 x s).
  { intros x s. unfold update_move.
    destruct (py_getitem x (str "move_number")) as [n|]; [|reflexivity]. cbn [bind].
    destruct (py_str n) as [text|]; [|reflexivity]. cbn [bind]. now rewrite E. }
  assert (P : forall jn ps, update_patterns jn pn cs1 ps = update_patterns jn pn cs2 ps).
  { intros jn ps. induction ps as [|p rest IH]; [reflexivity|].
    cbn [update_patterns]. destruct (py_getitem p (str "name")) as [name|]; [|reflexivity].
    cbn [bind]. destruct (json_eqb name (JStr jn)).
    - destruct (py_get p (str "moves") (JArr [])) as [moves|]; [|reflexivity].
      cbn [bind]. destruct (py_iter moves) as [items|]; [|reflexivity]. cbn [bind].
      now rewrite (for_each_ext _ _ M).
    - now rewrite IH. }
  intro data. unfold update_pattern_file.
  destruct (py_get data (str "patterns") (JArr [])) as [patterns|]; [|reflexivity].
  cbn [bind]. destruct (py_iter patterns) as [items|]; [|reflexivity]. cbn [bind].
  now rewrite P.
Qed.

(** The grouping of [apply_corrections] loses no correction.  With the
    keys of the corrections distinct (as the keys of a Python dict are)
    and a pattern name that holds no underscore: when the pattern has a
    group, [update_pattern_file] does with the group what it would do
    with all the corrections; and when it has none, so that its file is
    never opened, no move of the pattern has a correction. *)
Theorem grouping_loses_no_correction
    (corrections : list (pystr * csv_correction)) (pn : pystr) :
  distinct (map fst corrections) = true ->
  has_chr "_" pn = false ->
  match group_get pn (patterns_to_correct corrections) with
  | Some group =>
      forall data,
        update_pattern_file data pn group = update_pattern_file data pn corrections
  | None =>
      forall text, find_correction (pn ++ str "_" ++ text) corrections = None
  end.
Proof.
  intros D U. pose proof (grouped_find_spec corrections (distinct_NoDup _ D)) as G.
  assert (K : forall text,
             match group_get pn (patterns_to_correct corrections) with
             | Some g => find_correction (pn ++ str "_" ++ text) g
             | None => None
             end = find_correction (pn ++ str "_" ++ text) corrections).
  { intro text. rewrite <- (G (pn ++ str "_" ++ text)). unfold grouped_find.
    now rewrite (key_pattern_of pn text U). }
  destruct (group_get pn (patterns_to_correct corrections)) as [group|].
  - apply update_pattern_file_ext. exact K.
  - intro text. now rewrite <- K.
Qed.

(** Three corrections of two patterns: the group of "Do San" holds its
    two rows, and "Won Hyo" has no group. *)
Lemma grouping_loses_no_correction_witness :
  let a := mk_csv (str "N") (str "90") (str "L Stance") (str "Knife Hand Block") [] in
  let b := mk_csv (str "S") (str "-") (str "Walking Stance") (str "Front Kick") [] in
  let cs := [(str "Do San_1", a); (str "Dan Gun_4", b); (str "Do San_2", b)] in
  group_get (str "Do San") (patterns_to_correct cs)
  = Some [(str "Do San_1", a); (str "Do San_2", b)] /\
  (forall data,
      update_pattern_file data (str "Do San") [(str "Do San_1", a); (str "Do San_2", b)]
      = update_pattern_file data (str "Do San") cs) /\
  (forall text, find_correction (str "Won Hyo" ++ str "_" ++ text) cs = None).
Proof.
  intros a b cs.
  pose proof (grouping_loses_no_correction cs (str "Do San") eq_refl eq_refl) as A.
  pose proof (grouping_loses_no_correction cs (str "Won Hyo") eq_refl eq_refl) as B.
  split; [reflexivity|]. split; [exact A | exact B].
Defined.

(* ================================================================== *)
(** * The file fixers, run twice *)
(* ================================================================== *)

Lemma for_each_settles_when {L : Type} (P : L -> Prop)
    (body : json -> bool * list L -> option (json * (bool * list L))) :
  settles_when P body ->
  forall items s items' s',
    for_each body items s = Some (items', s') ->
    exists ext, snd s' = snd s ++ ext /\ (Forall P ext -> Forall (fixed_by body) items').
Proof.
  intros Hb items. induction items as [|x items IH]; intros s items' s' H;
    cbn [for_each] in H.
  - injection H as <- <-. exists []. split; [now rewrite app_nil_r | constructor].
  - destruct (body x s) as [[x1 s1]|] eqn:E1; [|discriminate]. cbn [bind] in H.
    destruct (for_each body items s1) as [[r1 s2]|] eqn:E2; [|discriminate].
    cbn [bind] in H. injection H as <- <-.
    destruct (Hb _ _ _ _ E1) as [e1 [A1 B1]]. destruct (IH _ _ _ E2) as [e2 [A2 B2]].
    exists (e1 ++ e2). split; [now rewrite A2, A1, app_assoc|].
    intro F. apply Forall_app in F. destruct F as [F1 F2].
    constructor; [exact (B1 F1) | exact (B2 F2)].
Qed.

(** What a loop over a container puts back is what a second loop runs
    over. *)
Lemma put_items_iter {S : Type} (body : json -> S -> option (json * S))
    (container : json) (items items' : list json) (s s' : S) :
  keeps_strings body ->
  py_iter container = Some items ->
  for_each body items s = Some (items', s') ->
  py_iter (put_items container items') = Some items' /\
  put_items (put_items container items') items' = put_items container items'.
Proof.
  intros Hk Hi Hf. split; [|now destruct container].
  destruct (py_iter_strings _ _ Hi) as [[l ->]|F]; [reflexivity|].
  rewrite (for_each_strings body Hk _ _ _ _ F Hf).
  destruct container; try discriminate Hi; try exact Hi.
  cbn [py_iter] in Hi. now injection Hi as <-.
Qed.

(** A property of an object is left alone exactly when its value is its
    own title-cased form. *)
Lemma fix_property_fixed (key : pystr) (d : dict) :
  (forall v, dict_get key d = Some v -> json_eqb v (to_title_case_value v) = true) ->
  fixed_by (fix_property key) (JObj d).
Proof.
  intros H t. unfold fix_property. cbn [py_in py_getitem bind]. unfold dict_has.
  destruct (dict_get key d) as [v|] eqn:E; [|reflexivity].
  cbn [bind]. now rewrite (H v eq_refl).
Qed.

Lemma fix_property_fixed_inv (key : pystr) (d : dict) (v : json) :
  fixed_by (fix_property key) (JObj d) ->
  dict_get key d = Some v -> json_eqb v (to_title_case_value v) = true.
Proof.
  intros H E. specialize (H (false, [])). unfold fix_property in H.
  cbn [py_in py_getitem bind] in H. unfold dict_has in H. rewrite E in H.
  cbn [bind] in H.
  destruct (json_eqb v (to_title_case_value v)); [reflexivity|].
  cbn [negb py_setitem bind] in H. discriminate H.
Qed.

(** The title-cased form of a text with its parentheses in order is its
    own title-cased form. *)
Lemma to_title_case_value_again (s : pystr) :
  parens_ordered s = true ->
  json_eqb (JStr (to_title_case s)) (to_title_case_value (JStr (to_title_case s)))
  = true.
Proof.
  intro H. cbn [to_title_case_value]. rewrite (to_title_case_idempotent s H).
  cbn [json_eqb]. apply str_eqb_refl.
Qed.

Lemma fix_property_settles_when (key : pystr) :
  settles_when ordered_change (fix_property key).
Proof.
  intros term s term' s' H. unfold fix_property in H.
  destruct (py_in key term) as [has|] eqn:Ein; [|discriminate]. cbn [bind] in H.
  destruct has.
  - destruct (py_getitem term key) as [original|] eqn:Eg; [|discriminate].
    cbn [bind] in H. destruct term as [| | | | |d]; try discriminate Eg.
    cbn [py_getitem] in Eg.
    destruct (json_eqb original (to_title_case_value original)) eqn:E;
      cbn [negb py_setitem bind] in H; injection H as <- <-.
    + exists []. split; [now rewrite app_nil_r|]. intros _.
      apply fix_property_fixed. intros v Ev. rewrite Eg in Ev. now injection Ev as <-.
    + exists [(original, to_title_case_value original)]. split; [reflexivity|].
      intro F. apply fix_property_fixed. intros v Ev. rewrite get_set_same in Ev.
      injection Ev as <-.
      inversion F as [|? ? O _]; subst. destruct O as [s0 [E0 [_ P0]]].
      cbn [fst] in E0. subst original. exact (to_title_case_value_again s0 P0).
  - injection H as <- <-. exists []. split; [now rewrite app_nil_r|]. intros _ t.
    unfold fix_property. now rewrite Ein.
Qed.

(** Fixing one property leaves the other as it is. *)
Lemma fix_property_frame (k1 k2 : pystr) (term : json) (s : bool * list casing_change)
    (term' : json) (s' : bool * list casing_change) :
  k1 <> k2 ->
  fixed_by (fix_property k1) term ->
  fix_property k2 term s = Some (term', s') ->
  fixed_by (fix_property k1) term'.
Proof.
  intros N F H. unfold fix_property in H.
  destruct (py_in k2 term) as [has|]; [|discriminate]. cbn [bind] in H.
  destruct has; [|now injection H as <- _].
  destruct (py_getitem term k2) as [original|] eqn:Eg; [|discriminate].
  cbn [bind] in H. destruct term as [| | | | |d]; try discriminate Eg.
  destruct (negb (json_eqb original (to_title_case_value original)));
    cbn [py_setitem bind] in H; injection H as <- _; [|exact F].
  apply fix_property_fixed. intros v Ev. rewrite (get_set_other k1 k2) in Ev by exact N.
  exact (fix_property_fixed_inv k1 d v F Ev).
Qed.

Lemma fix_term_settles_when : settles_when ordered_change fix_term.
Proof.
  intros term s term' s' H. unfold fix_term in H.
  destruct (fix_property (str "english") term s) as [[t1 s1]|] eqn:E1; [|discriminate].
  cbn [bind] in H.
  destruct (fix_property_settles_when _ _ _ _ _ E1) as [e1 [A1 B1]].
  destruct (fix_property_settles_when _ _ _ _ _ H) as [e2 [A2 B2]].
  exists (e1 ++ e2). split; [now rewrite A2, A1, app_assoc|].
  intro F. apply Forall_app in F. destruct F as [F1 F2]. intro t. unfold fix_term.
  assert (N : str "english" <> str "romanised") by discriminate.
  rewrite (fix_property_frame _ _ _ _ _ _ N (B1 F1) H t). cbn [bind].
  exact (B2 F2 t).
Qed.

Lemma fix_property_keeps_strings (key : pystr) : keeps_strings (fix_property key).
Proof.
  intros k s x' s' H. unfold fix_property in H. cbn [py_in bind] in H.
  destruct (contains key k); [discriminate H | now injection H as <- _].
Qed.

Lemma fix_term_keeps_strings : keeps_strings fix_term.
Proof.
  intros k s x' s' H. unfold fix_term in H.
  destruct (fix_property (str "english") (JStr k) s) as [[t1 s1]|] eqn:E1;
    [|discriminate].
  cbn [bind] in H. apply fix_property_keeps_strings in E1. subst t1.
  now apply fix_property_keeps_strings in H.
Qed.

Lemma fix_technique_keeps_strings : keeps_strings fix_technique.
Proof.
  intros k s x' s' H. unfold fix_technique in H. cbn [py_in bind] in H.
  destruct (contains (str "names") k); [discriminate H | now injection H as <- _].
Qed.

Lemma fix_technique_settles_when : settles_when ordered_change fix_technique.
Proof.
  intros x s x' s' H. unfold fix_technique in H.
  destruct (py_in (str "names") x) as [has|] eqn:Ein; [|discriminate]. cbn [bind] in H.
  destruct has.
  - destruct (py_getitem x (str "names")) as [names|] eqn:Eg; [|discriminate].
    cbn [bind] in H. destruct x as [| | | | |d]; try discriminate Eg.
    destruct (fix_term names s) as [[n1 s1]|] eqn:E; [|discriminate].
    cbn [py_setitem bind] in H. injection H as <- <-.
    destruct (fix_term_settles_when _ _ _ _ E) as [ext [A B]].
    exists ext. split; [exact A|]. intros F t. unfold fix_technique.
    cbn [py_in py_getitem bind]. unfold dict_has. rewrite get_set_same. cbn [bind].
    rewrite (B F t). cbn [bind py_setitem].
    now rewrite (set_unchanged _ _ _ (get_set_same _ _ _)).
  - injection H as <- <-. exists []. split; [now rewrite app_nil_r|]. intros _ t.
    unfold fix_technique. now rewrite Ein.
Qed.

Lemma fix_entries_file_again (key : pystr)
    (body : json -> bool * list casing_change ->
            option (json * (bool * list casing_change)))
    (data data' : json) (o : outcome casing_change) :
  settles_when ordered_change body -> keeps_strings body ->
  fix_entries_file key body data = Some o ->
  written o = Some data' ->
  Forall ordered_change (reported o) ->
  fix_entries_file key body data' = Some (mk_outcome None false []).
Proof.
  intros Hs Hk H W F. unfold fix_entries_file in H.
  destruct (py_in key data) as [has|]; [|discriminate]. cbn [bind] in H.
  destruct has.
  - destruct (py_getitem data key) as [entries|] eqn:Eg; [|discriminate].
    cbn [bind] in H. destruct data as [| | | | |d]; try discriminate Eg.
    destruct (py_iter entries) as [items|] eqn:Ei; [|discriminate]. cbn [bind] in H.
    destruct (for_each body items (false, [])) as [[items' [changed lines]]|] eqn:Ef;
      [|discriminate].
    cbn [py_setitem bind] in H. injection H as <-. cbn [written reported] in W, F.
    destruct changed; [|discriminate W]. injection W as <-.
    destruct (for_each_settles_when _ body Hs _ _ _ _ Ef) as [ext [A B]].
    cbn [snd app] in A. subst ext.
    destruct (put_items_iter body _ _ _ _ _ Hk Ei Ef) as [L1 L2].
    unfold fix_entries_file. cbn [py_in py_getitem bind]. unfold dict_has.
    rewrite get_set_same. cbn [bind]. rewrite L1. cbn [bind].
    rewrite (for_each_fixed body items' (B F) (false, [])). cbn [bind py_setitem].
    reflexivity.
  - cbn [bind] in H. injection H as <-. discriminate W.
Qed.

(** The file fixers are idempotent on the files they write, when every
    line the first run printed shows an ASCII text with its parentheses in
    order: run again over the document it wrote, a fixer prints no line,
    returns [False] and writes nothing. *)
Theorem title_case_fixers_second_run
    (fixer : json -> option (outcome casing_change)) (data data' : json)
    (o : outcome casing_change) :
  In fixer [fix_terminology_file; fix_techniques_file; fix_vocabulary_file] ->
  fixer data = Some o ->
  written o = Some data' ->
  Forall ordered_change (reported o) ->
  fixer data' = Some (mk_outcome None false []).
Proof.
  intros [<-|[<-|[<-|[]]]] H W F.
  - rewrite fix_terminology_file_eq in *.
    exact (fix_entries_file_again _ _ _ _ _ fix_term_settles_when
             fix_term_keeps_strings H W F).
  - exact (fix_entries_file_again _ _ _ _ _ fix_technique_settles_when
             fix_technique_keeps_strings H W F).
  - exact (fix_entries_file_again _ _ _ _ _ fix_term_settles_when
             fix_term_keeps_strings H W F).
Qed.

(** A techniques file with one name to fix: the first run prints one
    line and writes the file, the second does nothing. *)
Lemma title_case_fixers_second_run_witness :
  let doc := fun english =>
    JObj [(str "techniques",
           JArr [JObj [(str "id", JStr (str "low_block"));
                       (str "names", JObj [(str "english", JStr english);
                                           (str "romanised", JStr (str "Najunde Makgi"))])]])] in
  fix_techniques_file (doc (str "low block (outer forearm)"))
  = Some (mk_outcome (Some (doc (str "Low Block (outer Forearm)"))) true
            [(JStr (str "low block (outer forearm)"),
              JStr (str "Low Block (outer Forearm)"))]) /\
  fix_techniques_file (doc (str "Low Block (outer Forearm)"))
  = Some (mk_outcome None false []).
Proof.
  intro doc.
  assert (H : fix_techniques_file (doc (str "low block (outer forearm)"))
              = Some (mk_outcome (Some (doc (str "Low Block (outer Forearm)"))) true
                        [(JStr (str "low block (outer forearm)"),
                          JStr (str "Low Block (outer Forearm)"))]))
    by (vm_compute; reflexivity).
  split; [exact H|].
  refine (title_case_fixers_second_run fix_techniques_file _ _ _ _ H eq_refl _).
  - right. now left.
  - constructor; [|constructor].
    exists (str "low block (outer forearm)"). now repeat split.
Defined.
